(* ===== verification/_CoqProject ===== *)
-Q . S2P
Prelude.v
Core.v
TestKit.v
Codec.v
Transport.v
CoreTests.v
Secp.v
SmallGroup.v
LinearSystem.v
Packages.v
SignerPolicy.v
Birkhoff.v
HtssKeygen.v
Certificates.v
Secrecy.v
HtssDkg.v
HtssSigning.v
FrostSession.v
Sdk.v
Ceremony.v
FrostTests.v
FrostRunTests.v
FrostSessionTests.v
Nostr.v
LiveNostr.v
LiveNostrTests.v
RelayThread.v
DkgCli.v
TransportService.v
LiveDkg.v
LiveRounds.v
LiveCeremony.v
RelayTests.v
Bitcoin.v
NostrTests.v
Keyspend.v
BitcoinTests.v
MessageSigning.v
SdkTests.v
VaultService.v
VaultSecrecy.v
