(* ===== verification/Prelude.v ===== *)
(** * dkgkit: distributed key generation and threshold signing for Bitcoin

    A verification development of the Rust workspace: the libraries under
    [crates/] and the programs under [examples/].

    ** The program

    [dkgkit-core] defines identifiers, threshold policies (plain, hierarchical by
    rank, grouped by quota), session manifests and the [ProtocolMessage] envelope.
    [dkgkit-transport] defines the [Transport] trait (publish a message, drain the
    messages of a session that satisfy a predicate) and an in-memory transport.
    [dkgkit-frost] holds the cryptographic protocols: the protocol packages and
    their conversion to messages, signer-set validation, hierarchical threshold
    secret sharing (HTSS) by Birkhoff interpolation with dealing, distributed key
    generation, resharing and threshold Schnorr signing, and FROST sessions around
    the engine of [schnorr_fun].  [dkgkit-sdk] composes them: a coordinator that
    exchanges packages over any transport and complete local ceremonies.
    [dkgkit-nostr] carries messages in Nostr events, in process ([lib.rs]) or over
    a relay ([live.rs]).  [dkgkit-bitcoin] derives addresses and Taproot key tweaks
    from a group key and prepares and completes key-path spends.  Four programs
    under [examples/] use these: a vault service that generates a key and signs
    authorizations, a key generation over the in-process event transport, a
    message-signing demo, and a key generation over a live relay.

    ** Which file models which part

    - [Prelude]: outcomes, state monad, checked indexing, machine integers, decimal
      text, byte strings, and the shared list and option lemmas and tactics.
    - [Core]: [crates/dkgkit-core/src/lib.rs].
    - [Codec]: [encode_json], [decode_json], [encode_payload], [decode_payload],
      [encode_binary], [decode_binary] over the classes [SerdeJson] and [Bincode].
    - [Transport]: [crates/dkgkit-transport/src/lib.rs]; the class [Transport] is
      the trait, [QueueTransport] the contract clients rely on.
    - [Secp], [SmallGroup]: the interface to [secp256kfun] and [schnorr_fun] with
      the scalar helpers of [crates/dkgkit-frost/src/lib.rs], and an instance.
    - [LinearSystem], [Birkhoff]: [solve_scalar_system], derivative evaluation and
      the interpolation coefficients.
    - [Packages]: the records and message conversions of [dkgkit-frost].
    - [SignerPolicy]: [validate_signer_set] and its variants, signing requests.
    - [HtssKeygen]: [run_local_htss_keygen], [reconstruct_htss_secret_scalar],
      [reshare_htss].
    - [Secrecy], [VaultSecrecy]: no further code; what the dealt shares of
      [HtssKeygen], and those stored by [VaultService], tell about the secret.
    - [HtssDkg]: [htss_dkg_round1], [htss_dkg_round2], [finalize_htss_dkg],
      [run_distributed_htss_keygen].
    - [HtssSigning]: [htss_sign_share], [aggregate_htss_signature_shares], their
      Taproot-output variants and the local drivers.
    - [FrostSession]: [FrostDkgSession] and [FrostSigningSession].
    - [Sdk], [Ceremony]: [crates/dkgkit-sdk/src/lib.rs].
    - [Nostr], [LiveNostr]: [crates/dkgkit-nostr/src/lib.rs] and [live.rs], the
      operations of the live transport as atomic functions of what the background
      thread answers.
    - [RelayThread]: the background thread of [live.rs] with its channels and
      timeouts, as a step relation in which any number of threads and the caller
      interleave.
    - [Bitcoin], [Keyspend]: [crates/dkgkit-bitcoin/src/lib.rs].
    - [VaultService], [DkgCli], [MessageSigning], [TransportService]: the [main.rs]
      of [examples/vault-service], [nostr-dkg-cli], [bitcoin-message-signing] and
      [nostr-transport-service] (devices and polling loop).
    - [LiveDkg], [LiveRounds], [LiveCeremony]: the [main] of
      [nostr-transport-service], a key generation of three live transports over a
      relay; the invariant of its rounds; and the proof that it runs to its end.
    - [Certificates]: no further code; integer certificates that a signer set
      reconstructs over every lawful group.
    - [TestKit] and [CoreTests], [FrostTests], [FrostRunTests], [FrostSessionTests],
      [NostrTests], [LiveNostrTests], [BitcoinTests], [SdkTests]: the [#[test]]
      functions of the seven library files, each as a definition under its own name,
      and the proofs that they pass.
    - [RelayTests]: [crates/dkgkit-nostr/tests/live_relay.rs], over the devices and
      the relay of [LiveDkg].

    ** How code becomes definitions

    A struct is a record whose fields carry a prefix, an enum an inductive type,
    and a method [Type::name] the definition [Type_name].  A fallible function
    returns an [Outcome]: [Ok], [Err] with the source's error value, or [Panic]
    for a failing [expect], for an index out of range in the linear algebra, and
    for arithmetic overflow as in a build with overflow checks.  A method with [&mut self], and a function that draws from
    [thread_rng], is a state transformer [ST]; the state after an error is the
    state the code leaves behind.  The body of a loop is a step function of its
    own, run by [foldlM] or [mapM].  Integers are [N] with the width written out
    at every conversion and addition that can exceed it.  Text is a byte string;
    errors that embed the text of a third-party error take it from the interface.

    Third-party crates are classes: [SerdeJson], [Bincode], [Secp], [FrostLib],
    [NostrSdk], [Outside], [BitcoinLib], [TransactionLib].  The matching [...Laws] classes
    state the documented behaviour the theorems use (round trips of encodings,
    the field and group laws, the BIP340 equation, correctness of honest engine
    runs).  Each has a concrete instance, so that the laws are satisfiable and
    every definition runs; the witnesses evaluate them there.  No law is about
    computational hardness: the theorems are about correctness and agreement, and
    about secrecy only where it holds without assumptions (the dealt shares of
    [Secrecy]); unforgeability and the secrecy of the distributed key generation,
    whose commitments are public, are not expressed.

    Recursion is structural throughout.  The only fuel is in decimal printing
    ([dec], one more step than the binary logarithm, enough because every step
    divides by ten), in the white-space test (the length of the string) and in the
    polling loop of [TransportService], where [timeout / 100 + 1] iterations are
    proved to be enough because each of them sleeps for 100 milliseconds.
    Theorems about point sets assume at most 65535 points, which is the range of
    the [u16] in which every policy counts its participants.

    ** What the theorems show

    - Sharing and interpolation ([LinearSystem], [Birkhoff], [HtssKeygen]):
      elimination solves exactly the regular systems and indexes nothing out of
      range; coefficients recover [f(0)] from derivative values; the rank rule is
      necessary; every reconstructing signer set recovers the dealt secret;
      resharing keeps the group key.
    - Secrecy of dealing ([Secrecy]): over all polynomials with [threshold]
      coefficients the shares of a set of participants determine the constant
      term or are compatible with every value of it.  The dealer draws non-zero
      coefficients: whatever it drew, the shares of too few participants of rank
      zero leave all secrets open but at most [threshold], which such a polynomial
      cannot have.
    - Key generation ([HtssDkg]): Feldman verification accepts exactly the
      committed derivative; all who finalize against the same round-one packages,
      honest or not, hold shares of one polynomial; the ceremony completes.
    - Signing ([HtssSigning], [Bitcoin]): the aggregate verifies under the group
      key, or under the output key of the child address of a path or of a silent
      payment, in every order of arrival; what the aggregators return, the Bitcoin
      verifier accepts.
    - Policies ([Core], [SignerPolicy]): the constructors and signer-set checks
      accept exactly what the policies mean.
    - Sessions and ceremonies ([FrostSession], [Ceremony]): order of calls,
      round-one packages of every participant exactly once, single use of nonces,
      completion of local key generation and signing.
    - Messages ([Packages], [Transport], [Sdk], [Nostr], [LiveNostr]): round trips
      and authentication of envelopes, refinement of per-session queues, delivery
      of every package to the drain of its kind, which passes over all others,
      encryption of round-two packages.
    - The live transport ([RelayThread]): every interleaving of caller and relay
      threads is a run of the atomic operations, the relay client sees only what a
      call prepared and at most once, [disconnect] returns, and an invariant of
      buffer, flag, sender and join handle holds in every reachable state.
    - Programs ([VaultService], [DkgCli], [MessageSigning], [TransportService]): the
      vault's key generation and signing complete, the shares that one call stores
      lie on one polynomial for the stored key in every reachable state, and it
      signs only for a quorum; a FROST key generation followed by signing gives
      signatures the Bitcoin verifier accepts; the programs run to their reports;
      the polling loop ends.
    - The live service ([LiveRounds], [LiveCeremony]): with events delivered in any
      order and repeatedly, and events of strangers among them as long as these do
      not speak in the session, the three devices of the live key generation end
      with one group key, or with one of the named errors, which a prompt relay
      excludes.  One message of a stranger in the session is enough to end it with
      an error ([session_stranger_stops_service]).
    - Spends ([Keyspend]): a prepared spend can be completed and completing it
      changes only the witnesses.
    - Limits of the policies ([Secrecy], [VaultSecrecy], [LiveNostr]): two shares
      can determine a secret of threshold three, six shares that miss a quota
      determine the key of the vault, and the live transport takes an event of any
      key as a message of the sender it names.
    - Tests ([CoreTests] and the other test files): the unit tests of the libraries
      pass; those of policies, packages, envelopes, interpolation, dealing and
      resharing over every lawful serializer and group and for every state of the
      generator, the others on the instances.  One test depends on its draw
      ([parity_test_depends_on_generator]).  The integration tests pass over every
      relay that delivers within 9.9 seconds ([RelayTests]).
    - Behaviour worth knowing: signer sets larger than the threshold may not
      interpolate, one malformed message can cost a batch or a queue, a zero
      identifier underflows, and line breaks make authorization texts ambiguous.

    ** What is not modelled, and what comes next

    The inside of third-party crates and the relay: the answers of the [tokio]
    runtime and the [nostr_sdk] client are chosen by the steps of [RelayThread];
    the clock and the deliveries of the relay are the class [Outside] of [LiveDkg].
    [Debug] output, the [Display] of errors other than [DkgKitError], and what the
    programs print besides the values in their reports.  Candidates for
    extension: the interleaving of several participants' sessions over one
    transport, and devices of [LiveDkg] on the thread-level transport of
    [RelayThread]. *)

From Stdlib Require Import Ascii String Strings.Byte.
From stdpp Require Import base numbers countable gmap strings list.

(** ** Outcomes: [Result<T, E>] with panics made visible

    A Rust function of type [Result<T, E>] either returns [Ok], returns [Err]
    or panics ([expect], [unwrap], an index out of range, an arithmetic
    overflow in a build with overflow checks).  The three ways to finish are
    the three constructors. *)

Inductive Outcome (E A : Type) : Type :=
  | Ok (a : A)
  | Err (e : E)
  | Panic.
Arguments Ok {E A} a.
Arguments Err {E A} e.
Arguments Panic {E A}.

#[export] Instance outcome_ret {E} : MRet (Outcome E) := fun _ a => Ok a.

#[export] Instance outcome_bind {E} : MBind (Outcome E) :=
  fun _ _ f o => match o with Ok a => f a | Err e => Err e | Panic => Panic end.

#[export] Instance outcome_fmap {E} : FMap (Outcome E) :=
  fun _ _ f o => match o with Ok a => Ok (f a) | Err e => Err e | Panic => Panic end.

#[export] Instance outcome_eq_dec {E A} `{EqDecision E, EqDecision A} :
  EqDecision (Outcome E A).
Proof. solve_decision. Defined.

(** [opt.ok_or(e)] *)
Definition ok_or {E A} (o : option A) (e : E) : Outcome E A :=
  match o with Some a => Ok a | None => Err e end.

(** [if c { return Err(e); }] *)
Definition reject_if {E} (c : bool) (e : E) : Outcome E unit :=
  if c then Err e else Ok tt.

(** [opt.expect(..)] and [opt.unwrap()] *)
Definition expect {E A} (o : option A) : Outcome E A :=
  match o with Some a => Ok a | None => Panic end.

(** [r.map_err(f)] *)
Definition map_err {E E' A} (f : E -> E') (o : Outcome E A) : Outcome E' A :=
  match o with Ok a => Ok a | Err e => Err (f e) | Panic => Panic end.

Definition is_ok {E A} (o : Outcome E A) : bool :=
  match o with Ok _ => true | _ => false end.

Definition is_err {E A} (o : Outcome E A) : bool :=
  match o with Err _ => true | _ => false end.

(** The outcome is a value or an error, never a panic. *)
Definition returns {E A} (o : Outcome E A) : Prop := o <> Panic.

(** A [for] loop that threads a local variable and may leave with [?]. *)
Fixpoint foldlM {E A St} (step : St -> A -> Outcome E St) (s : St) (l : list A) :
  Outcome E St :=
  match l with
  | [] => Ok s
  | x :: l => s' ← step s x; foldlM step s' l
  end.

(** ** Indexing

    [v[i]], [v[i] = x] and [v.swap(i, j)] on a vector or slice: an index out of
    range is a panic. *)

Definition vec_get {E A} (l : list A) (i : nat) : Outcome E A := expect (l !! i).

Definition vec_set {E A} (l : list A) (i : nat) (x : A) : Outcome E (list A) :=
  if i <? length l then Ok (<[i := x]> l) else Panic.

Definition vec_swap {E A} (l : list A) (i j : nat) : Outcome E (list A) :=
  x ← vec_get l i;
  y ← vec_get l j;
  l ← vec_set l i y;
  vec_set l j x.

(** ** Operations on a borrowed state

    A method that takes [&mut self] (or draws from a generator) and returns a
    [Result] leaves a new state behind on every path, errors included. *)

Definition ST (St E A : Type) : Type := St -> St * Outcome E A.

#[export] Instance st_ret {St E} : MRet (ST St E) := fun _ a s => (s, Ok a).

#[export] Instance st_bind {St E} : MBind (ST St E) :=
  fun _ _ f m s =>
    match m s with
    | (s', Ok a) => f a s'
    | (s', Err e) => (s', Err e)
    | (s', Panic) => (s', Panic)
    end.

(** A pure fallible computation inside a method: the state is untouched. *)
Definition st_lift {St E A} (o : Outcome E A) : ST St E A := fun s => (s, o).

(** Reading a component of the state, assigning to one, and [map_err]. *)
Definition st_gets {St E A} (f : St -> A) : ST St E A := fun s => (s, Ok (f s)).

Definition st_modify {St E} (f : St -> St) : ST St E unit := fun s => (f s, Ok tt).

Definition st_map_err {St E E' A} (f : E -> E') (m : ST St E A) : ST St E' A :=
  fun s => let '(s', o) := m s in (s', map_err f o).

(** A method call on a component of the state, given by its getter and setter. *)
Definition st_zoom {St St' E A} (get : St -> St') (set : St' -> St -> St) (m : ST St' E A) :
  ST St E A :=
  fun s => let '(s', o) := m (get s) in (set s' s, o).

(** ** Machine integers

    [u16], [u32] and [u64] values are [N] with their range stated where it
    matters; [usize] values that are lengths are [nat]. *)

Definition u16_max : N := 65535.
Definition u32_max : N := 4294967295.

Definition is_u16 (n : N) : Prop := (n <= u16_max)%N.

(** [n as u16]: keeps the low sixteen bits. *)
Definition as_u16 (n : N) : N := (n mod 65536)%N.

(** [a + b] on [u16] and [a - b] on an unsigned type, overflow checked. *)
Definition u16_add {E} (a b : N) : Outcome E N :=
  if (a + b <=? u16_max)%N then Ok (a + b)%N else Panic.

Definition unsigned_sub {E} (a b : N) : Outcome E N :=
  if (b <=? a)%N then Ok (a - b)%N else Panic.

(** [u16::try_from(n)] *)
Definition u16_try_from (n : N) : option N :=
  if (n <=? u16_max)%N then Some n else None.

(** ** Text *)

Definition digit_char (d : N) : ascii := ascii_of_N (48 + d).

Fixpoint dec_go (fuel : nat) (n : N) (acc : string) : string :=
  match fuel with
  | O => acc
  | S fuel =>
      let acc := String (digit_char (n mod 10)) acc in
      if (n <? 10)%N then acc else dec_go fuel (n / 10) acc
  end.

(** [n.to_string()] for an unsigned integer.  A number below [2 ^ k] has at
    most [k] decimal digits, so the bit length is enough fuel. *)
Definition dec (n : N) : string := dec_go (S (N.to_nat (N.log2 n))) n "".

Definition dec_nat (n : nat) : string := dec (N.of_nat n).

Definition digit_value (c : ascii) : option N :=
  let v := N_of_ascii c in
  if ((48 <=? v) && (v <=? 57))%N then Some (v - 48)%N else None.

Fixpoint parse_digits (s : string) (acc : N) : option N :=
  match s with
  | EmptyString => Some acc
  | String c s => d ← digit_value c; parse_digits s (acc * 10 + d)%N
  end.

(** [s.parse::<u16>().ok()]: an optional [+], then at least one digit, and a
    value that fits. *)
Definition parse_u16 (s : string) : option N :=
  let body := match s with
              | String c rest => if (N_of_ascii c =? 43)%N then rest else s
              | EmptyString => EmptyString
              end in
  match body with
  | EmptyString => None
  | _ => v ← parse_digits body 0; u16_try_from v
  end.

(** The UTF-8 encodings of the characters with the Unicode property
    [White_Space]: [strip_white_space s] is the rest of [s] after one of them. *)
Definition strip_white_space (s : string) : option string :=
  match s with
  | EmptyString => None
  | String c rest =>
      let v := N_of_ascii c in
      if ((9 <=? v) && (v <=? 13) || (v =? 32))%N then Some rest
      else match rest with
           | EmptyString => None
           | String c2 rest2 =>
               let v2 := N_of_ascii c2 in
               if ((v =? 194) && ((v2 =? 133) || (v2 =? 160)))%N then Some rest2
               else match rest2 with
                    | EmptyString => None
                    | String c3 rest3 =>
                        let v3 := N_of_ascii c3 in
                        if ((v =? 225) && (v2 =? 154) && (v3 =? 128)
                            || (v =? 226) && (v2 =? 128)
                               && ((128 <=? v3) && (v3 <=? 138) || (v3 =? 168)
                                   || (v3 =? 169) || (v3 =? 175))
                            || (v =? 226) && (v2 =? 129) && (v3 =? 159)
                            || (v =? 227) && (v2 =? 128) && (v3 =? 128))%N
                        then Some rest3 else None
                    end
           end
  end.

Fixpoint all_white_space (fuel : nat) (s : string) : bool :=
  match s, fuel with
  | EmptyString, _ => true
  | _, O => false
  | _, S fuel => match strip_white_space s with
                 | Some rest => all_white_space fuel rest
                 | None => false
                 end
  end.

(** [s.trim().is_empty()]: every character of [s] is white space.  Each step
    consumes at least one byte, so the length is enough fuel. *)
Definition blank (s : string) : bool := all_white_space (String.length s) s.

(** ** Decidable equality and countability of bytes *)

#[export] Instance byte_eq_dec : EqDecision byte := byte_eq_dec.

#[export] Program Instance byte_countable : Countable byte :=
  inj_countable Byte.to_N Byte.of_N _.
Next Obligation. intros b. apply Byte.of_to_N. Qed.

Definition bytes : Type := list byte.

(** Big-endian integers: [u32::from_be_bytes] and its inverse. *)
Definition byte_of_N (n : N) : byte := default x00 (Byte.of_N n).

Fixpoint be_value_go (bs : bytes) (acc : N) : N :=
  match bs with
  | [] => acc
  | b :: bs => be_value_go bs (acc * 256 + Byte.to_N b)%N
  end.

Definition be_value (bs : bytes) : N := be_value_go bs 0.

Fixpoint be_bytes (k : nat) (n : N) : bytes :=
  match k with
  | O => []
  | S k => be_bytes k (n / 256) ++ [byte_of_N (n mod 256)]
  end.

(** ** Outcome lemmas and automation *)

Section outcome_lemmas.
Context {E : Type}.

Lemma ok_bind {A B} (a : A) (f : A -> Outcome E B) : (Ok a ≫= f) = f a.
Proof. done. Qed.

Lemma bind_Ok {A B} (o : Outcome E A) (f : A -> Outcome E B) b :
  (o ≫= f) = Ok b <-> exists a, o = Ok a /\ f a = Ok b.
Proof. destruct o; simpl; naive_solver. Qed.

Lemma vec_get_nth {A} (l : list A) i d :
  i < length l -> vec_get l i = (Ok (nth i l d) : Outcome E A).
Proof.
  intros Hi. unfold vec_get. rewrite nth_lookup.
  by destruct (lookup_lt_is_Some_2 l i Hi) as [x ->].
Qed.

Lemma vec_set_insert {A} (l : list A) i x :
  i < length l -> vec_set l i x = (Ok (<[i := x]> l) : Outcome E (list A)).
Proof. intros Hi. unfold vec_set. by rewrite (proj2 (Nat.ltb_lt _ _) Hi). Qed.

Lemma fmap_Ok {A B} (o : Outcome E A) (f : A -> B) b :
  (f <$> o) = Ok b <-> exists a, o = Ok a /\ b = f a.
Proof. destruct o; simpl; naive_solver. Qed.

Lemma ok_or_Ok {A} (o : option A) (e : E) a : ok_or o e = Ok a <-> o = Some a.
Proof. destruct o; simpl; naive_solver. Qed.

Lemma reject_if_Ok c (e : E) u : reject_if c e = Ok u <-> c = false.
Proof. destruct c, u; simpl; naive_solver. Qed.

Lemma mret_Ok {A} (a b : A) : (mret a : Outcome E A) = Ok b <-> a = b.
Proof. cbv. naive_solver. Qed.

Lemma u16_add_Ok a b c :
  (u16_add a b : Outcome E N) = Ok c <-> (a + b <= u16_max /\ c = a + b)%N.
Proof. unfold u16_add. destruct (N.leb_spec (a + b) u16_max); naive_solver lia. Qed.

Lemma mapM_Ok {A B} (f : A -> Outcome E B) l k :
  mapM f l = Ok k <-> Forall2 (fun x y => f x = Ok y) l k.
Proof.
  revert k; induction l as [|x l IH]; intros k.
  - cbn. split; [intros [= <-]; constructor | by inversion 1].
  - change (mapM f (x :: l)) with (y ← f x; k ← mapM f l; mret (y :: k)).
    rewrite bind_Ok. setoid_rewrite bind_Ok. setoid_rewrite IH.
    split.
    + intros (y & Hy & k' & Hk & [= <-]). by constructor.
    + inversion 1; subst. eauto 6.
Qed.

Lemma mapM_pure {A B} (f : A -> Outcome E B) (g : A -> B) l :
  (forall x, x ∈ l -> f x = Ok (g x)) -> mapM f l = Ok (g <$> l).
Proof.
  intros H. apply mapM_Ok, Forall2_fmap_r, Forall_Forall2_diag, Forall_forall.
  exact H.
Qed.

Lemma foldlM_app {A St} (step : St -> A -> Outcome E St) l1 l2 s :
  foldlM step s (l1 ++ l2) = (s' ← foldlM step s l1; foldlM step s' l2).
Proof.
  revert s; induction l1 as [|x l1 IH]; intros s; [done|].
  simpl. destruct (step s x); simpl; [apply IH|done|done].
Qed.

(** A loop that keeps the set of keys seen so far and rejects a repeated key
    succeeds exactly when every element passes and the keys are distinct. *)
Lemma seen_loop_Ok {A K} `{Countable K} (key : A -> K) (Q : A -> Prop)
    (step : gset K -> A -> Outcome E (gset K)) :
  (forall seen x s', step seen x = Ok s' <->
     Q x /\ (key x ∉ seen) /\ s' = ({[key x]} ∪ seen)) ->
  forall l seen s', foldlM step seen l = Ok s' <->
    Forall Q l /\ NoDup (key <$> l) /\ (forall x, x ∈ l -> key x ∉ seen) /\
    s' = (list_to_set (key <$> l) ∪ seen).
Proof.
  intros Hstep l; induction l as [|x l IH]; intros seen s'; simpl.
  - split; [intros [= ->]|intros (_&_&_&->)].
    + split_and!; [constructor|constructor|set_solver|set_solver].
    + f_equal. set_solver.
  - rewrite bind_Ok. setoid_rewrite Hstep. setoid_rewrite IH.
    rewrite Forall_cons, NoDup_cons, list_elem_of_fmap. split.
    + intros (s1 & (HQ & Hx & ->) & HF & HN & Hd & ->). split_and!; try done.
      * intros (y & Hy & Hyl). specialize (Hd y Hyl). set_solver.
      * intros y [->|Hy]%elem_of_cons; [done|]. specialize (Hd y Hy). set_solver.
      * set_solver.
    + intros ([HQ HF] & [Hx HN] & Hd & ->).
      eexists; split; [split_and!; [done|apply Hd; left|reflexivity]|].
      split_and!; try done; [|set_solver].
      intros y Hy. assert (key y ≠ key x) by naive_solver.
      assert (key y ∉ seen) by (apply Hd; by right). set_solver.
Qed.

Lemma seen_size {A K} `{Countable K} (key : A -> K) (l : list A) :
  NoDup (key <$> l) -> size (list_to_set (key <$> l) ∪ ∅ : gset K) = length l.
Proof.
  intros HN. rewrite union_empty_r_L, size_list_to_set by done.
  apply length_fmap.
Qed.
End outcome_lemmas.

(** ** Absence of panics *)

Lemma foldlM_returns {E A St} (step : St -> A -> Outcome E St) (P : St -> Prop) l s :
  (forall s x, x ∈ l -> P s -> match step s x with Ok s' => P s' | Err _ => True | Panic => False end) ->
  P s -> returns (foldlM step s l).
Proof.
  revert s; induction l as [|x l IH]; intros s Hstep HP; simpl; [done|].
  specialize (Hstep s x) as Hx. destruct (step s x); simpl; [|done|exfalso; apply Hx; [left|done]].
  apply IH; [|apply Hx; [left|done]]. intros s' y Hy. apply Hstep. by right.
Qed.

Lemma bind_returns {E A B} (o : Outcome E A) (f : A -> Outcome E B) :
  returns o -> (forall a, o = Ok a -> returns (f a)) -> returns (o ≫= f).
Proof. destruct o; simpl; intros Ho Hf; [by apply Hf|done|done]. Qed.

Lemma mapM_returns {E A B} (f : A -> Outcome E B) l :
  (forall x, x ∈ l -> returns (f x)) -> returns (mapM f l).
Proof.
  induction l as [|x l IH]; intros Hf; [done|].
  change (mapM f (x :: l)) with (y ← f x; k ← mapM f l; mret (y :: k)).
  apply bind_returns; [apply Hf; left|]. intros y _. apply bind_returns; [|done].
  apply IH. intros z Hz. apply Hf. by right.
Qed.

(** One failing element makes the whole collection fail. *)
Lemma mapM_Err {E A B} (f : A -> Outcome E B) l x e :
  (forall x, x ∈ l -> returns (f x)) -> x ∈ l -> f x = Err e -> exists e', mapM f l = Err e'.
Proof.
  intros Hf Hx He. destruct (mapM f l) as [k|e'|] eqn:Hk; [|by exists e'|].
  - apply mapM_Ok in Hk. apply list_elem_of_lookup in Hx as [i Hi].
    destruct (Forall2_lookup_l _ _ _ _ _ Hk Hi) as (y & _ & Hy). congruence.
  - by destruct (mapM_returns f l Hf).
Qed.

(** A collection of calls that each return a good value or an expected error. *)
Lemma mapM_Ok_or_Err {E A B} (f : A -> Outcome E B) (Q : A -> B -> Prop) (R : E -> Prop) l :
  (forall x, x ∈ l -> (exists y, f x = Ok y /\ Q x y) \/ (exists e, f x = Err e /\ R e)) ->
  (exists k, mapM f l = Ok k /\ Forall2 Q l k) \/ (exists e, mapM f l = Err e /\ R e).
Proof.
  induction l as [|x l IH]; intros Hf; [left; by exists []|].
  change (mapM f (x :: l)) with (y ← f x; k ← mapM f l; mret (y :: k)).
  destruct (Hf x) as [(y & -> & Hy)|(e & -> & He)]; [left| |right; by exists e].
  destruct IH as [(k & -> & Hk)|(e & -> & He)].
  - intros z Hz. apply Hf. by right.
  - left. exists (y :: k). split; [done|by constructor].
  - right. by exists e.
Qed.

Lemma reject_if_returns {E} c (e : E) : returns (reject_if c e).
Proof. by destruct c. Qed.

Section st_lemmas.
Context {St E : Type}.

Lemma st_bind_Ok {A B} (m : ST St E A) (f : A -> ST St E B) s s' a :
  m s = (s', Ok a) -> (m ≫= f) s = f a s'.
Proof. unfold mbind, st_bind. by intros ->. Qed.

Lemma st_bind_Err {A B} (m : ST St E A) (f : A -> ST St E B) s s' e :
  m s = (s', Err e) -> (m ≫= f) s = (s', Err e).
Proof. unfold mbind, st_bind. by intros ->. Qed.

Lemma st_bind_Panic {A B} (m : ST St E A) (f : A -> ST St E B) s s' :
  m s = (s', Panic) -> (m ≫= f) s = (s', Panic).
Proof. unfold mbind, st_bind. by intros ->. Qed.

Lemma st_bind_assoc {A B C} (m : ST St E A) (f : A -> ST St E B) (h : B -> ST St E C) s :
  ((m ≫= f) ≫= h) s = (m ≫= (fun a => f a ≫= h)) s.
Proof. unfold mbind, st_bind. by destruct (m s) as [s1 []]. Qed.

Lemma st_mapM_cons {A B} (f : A -> ST St E B) x l :
  mapM f (x :: l) = (y ← f x; k ← mapM f l; mret (y :: k)).
Proof. done. Qed.

Lemma st_lift_bind {A B} (o : Outcome E A) (f : A -> ST St E B) s :
  (st_lift o ≫= f) s =
  match o with Ok a => f a s | Err e => (s, Err e) | Panic => (s, Panic) end.
Proof. by destruct o. Qed.

(** A successful run of a sequence is a successful run of each step. *)
Lemma st_bind_inv_Ok {A B} (m : ST St E A) (f : A -> ST St E B) s s' b :
  (m ≫= f) s = (s', Ok b) -> exists s1 a, m s = (s1, Ok a) /\ f a s1 = (s', Ok b).
Proof. unfold mbind, st_bind. destruct (m s) as [s1 []]; naive_solver. Qed.
End st_lemmas.

(** ** What a method does to the state

    [evolves R m]: every call of [m], on every path, relates the state before to
    the state after by [R]. *)

Definition evolves {St E A} (R : St -> St -> Prop) (m : ST St E A) : Prop :=
  forall s, R s (m s).1.

Create HintDb evolves.

Section evolves.
Context {St E : Type} (R : St -> St -> Prop) `{!PreOrder R}.

Lemma evolves_lift {A} (o : Outcome E A) : evolves R (st_lift o).
Proof. intros s. cbn. reflexivity. Qed.

Lemma evolves_gets {A} (f : St -> A) : evolves R (st_gets f : ST St E A).
Proof. intros s. cbn. reflexivity. Qed.

Lemma evolves_ret {A} (a : A) : evolves R (mret a : ST St E A).
Proof. intros s. cbn. reflexivity. Qed.

Lemma evolves_bind {A B} (m : ST St E A) (f : A -> ST St E B) :
  evolves R m -> (forall a, evolves R (f a)) -> evolves R (m ≫= f).
Proof.
  intros Hm Hf s. specialize (Hm s). unfold mbind, st_bind.
  destruct (m s) as [s1 [a|e|]]; [|done..]. etransitivity; [exact Hm|]. apply Hf.
Qed.

Lemma evolves_mapM {A B} (f : A -> ST St E B) (l : list A) :
  (forall x, evolves R (f x)) -> evolves R (mapM f l).
Proof.
  intros Hf. induction l as [|x l IH]; [apply evolves_ret|].
  apply evolves_bind; [apply Hf|]. intros y. apply evolves_bind; [exact IH|].
  intros k. apply evolves_ret.
Qed.

Lemma evolves_map_err {E' A} (f : E -> E') (m : ST St E A) :
  evolves R m -> evolves R (st_map_err f m).
Proof. intros Hm s. specialize (Hm s). unfold st_map_err. by destruct (m s). Qed.
End evolves.

#[export] Hint Resolve evolves_lift evolves_gets evolves_ret evolves_bind evolves_mapM
  evolves_map_err : evolves.

(** ** How a method ends

    [ends m s Q F]: started in [s], the method [m] does not panic; when it succeeds
    the final state and the result satisfy [Q], when it fails the error satisfies
    [F]. *)

Definition ends {St E A} (m : ST St E A) (s : St) (Q : St -> A -> Prop) (F : E -> Prop) : Prop :=
  exists s' r, m s = (s', r) /\ match r with Ok a => Q s' a | Err e => F e | Panic => False end.

Section ends.
Context {St E : Type}.

Lemma ends_Ok {A} (m : ST St E A) s s' a (Q : St -> A -> Prop) F :
  m s = (s', Ok a) -> Q s' a -> ends m s Q F.
Proof. intros Hm HQ. by exists s', (Ok a). Qed.

Lemma ends_Err {A} (m : ST St E A) s s' e (Q : St -> A -> Prop) (F : E -> Prop) :
  m s = (s', Err e) -> F e -> ends m s Q F.
Proof. intros Hm HF. by exists s', (Err e). Qed.

Lemma ends_bind {A B} (m : ST St E A) (f : A -> ST St E B) s Q F :
  ends m s (fun s' a => ends (f a) s' Q F) F -> ends (m ≫= f) s Q F.
Proof.
  intros (s1 & r & Hm & Hr). destruct r as [a|e|]; [| |done].
  - destruct Hr as (s2 & r & Hf & Hr). exists s2, r. by rewrite (st_bind_Ok _ _ _ _ _ Hm).
  - exists s1, (Err e). by rewrite (st_bind_Err _ _ _ _ _ Hm).
Qed.

Lemma ends_mono {A} (m : ST St E A) s (Q Q' : St -> A -> Prop) (F F' : E -> Prop) :
  ends m s Q F -> (forall s' a, Q s' a -> Q' s' a) -> (forall e, F e -> F' e) -> ends m s Q' F'.
Proof. intros (s' & r & Hm & Hr) HQ HF. exists s', r. split; [done|]. destruct r; naive_solver. Qed.

Lemma ends_lift_Ok {A} (o : Outcome E A) s a (Q : St -> A -> Prop) F :
  o = Ok a -> Q s a -> ends (st_lift o) s Q F.
Proof. intros -> HQ. by exists s, (Ok a). Qed.

(** A loop over a list: [I] relates the part of the list already done, its
    results and the state. *)
Lemma ends_mapM {A B} (f : A -> ST St E B) (l : list A) (I : list A -> list B -> St -> Prop) F :
  (forall before x after bs s, l = before ++ x :: after -> I before bs s ->
     ends (f x) s (fun s' b => I (before ++ [x]) (bs ++ [b]) s') F) ->
  forall s, I [] [] s -> ends (mapM f l) s (fun s' bs => I l bs s') F.
Proof.
  intros Hf. assert (Hgen : forall after before bs s, l = before ++ after -> I before bs s ->
    ends (mapM f after) s (fun s' cs => I l (bs ++ cs) s') F).
  { induction after as [|x after IH]; intros before bs s Hl HI.
    - rewrite app_nil_r in Hl. subst. apply (ends_Ok _ _ s []); [done|]. by rewrite app_nil_r.
    - rewrite st_mapM_cons. apply ends_bind. eapply ends_mono; [by eapply Hf| |done].
      intros s1 b HI1. apply ends_bind.
      eapply ends_mono; [apply (IH (before ++ [x])); [by rewrite <- app_assoc|exact HI1]| |done].
      intros s2 cs HI2. apply (ends_Ok _ _ s2 (b :: cs)); [done|].
      by rewrite cons_middle, app_assoc. }
  intros s HI. exact (Hgen l [] [] s eq_refl HI).
Qed.

Lemma ends_map_err {E' A} (f : E -> E') (m : ST St E A) s (Q : St -> A -> Prop) (F : E' -> Prop) :
  ends m s Q (fun e => F (f e)) -> ends (st_map_err f m) s Q F.
Proof.
  intros (s' & r & Hm & Hr). exists s', (map_err f r). unfold st_map_err. rewrite Hm.
  split; [done|]. by destruct r.
Qed.
End ends.

Create Rewrite HintDb outcome.
#[export] Hint Rewrite @bind_Ok @fmap_Ok @ok_or_Ok @reject_if_Ok @mret_Ok : outcome.

(** [inv_ok H] takes a successful run [H : m = Ok v] apart into the values of
    its steps and the facts its guards established. *)
Ltac inv_ok H :=
  repeat first
    [ rewrite bind_Ok in H; let a := fresh "r" in let Ha := fresh "H" in
        destruct H as (a & Ha & H); try inv_ok Ha
    | rewrite ok_or_Ok in H
    | rewrite reject_if_Ok in H
    | rewrite mret_Ok in H
    | progress simplify_eq ].

(** ** Sums and counting *)

Fixpoint sumN {A} (f : A -> N) (l : list A) : N :=
  match l with
  | [] => 0
  | x :: l => f x + sumN f l
  end%N.

Lemma sumN_le {A} (f g : A -> N) (l : list A) :
  (forall x, x ∈ l -> f x <= g x)%N -> (sumN f l <= sumN g l)%N.
Proof.
  intros H. induction l as [|x l IH]; simpl; [lia|].
  assert (f x <= g x)%N by (apply H; left).
  assert (sumN f l <= sumN g l)%N by (apply IH; intros y Hy; apply H; by right).
  lia.
Qed.

Lemma sumN_ext {A} (f g : A -> N) (l : list A) :
  (forall x, x ∈ l -> f x = g x) -> sumN f l = sumN g l.
Proof.
  intros H. apply N.le_antisymm; apply sumN_le; intros x Hx; rewrite H by done; lia.
Qed.

Lemma sumN_fmap {A B} (f : B -> N) (g : A -> B) (l : list A) :
  sumN f (g <$> l) = sumN (f ∘ g) l.
Proof. induction l as [|x l IH]; [done|]. rewrite fmap_cons. simpl. by rewrite IH. Qed.

(** [iter().map(f).sum()] on [u16] returns the sum when it fits and panics
    otherwise. *)
Lemma u16_sum_spec {E A} (f : A -> N) (l : list A) (acc : N) :
  (acc <= u16_max)%N ->
  foldlM (fun acc x => u16_add acc (f x)) acc l =
  (if (acc + sumN f l <=? u16_max)%N then Ok (acc + sumN f l)%N else Panic : Outcome E N).
Proof.
  revert acc; induction l as [|x l IH]; intros acc Hacc; simpl.
  - rewrite N.add_0_r. by destruct (N.leb_spec acc u16_max); [|lia].
  - replace (u16_add acc (f x)) with
      (if (acc + f x <=? u16_max)%N then Ok (acc + f x)%N else Panic : Outcome E N) by done.
    destruct (N.leb_spec (acc + f x) u16_max); simpl.
    + rewrite IH by lia. by rewrite N.add_assoc.
    + destruct (N.leb_spec (acc + (f x + sumN f l)) u16_max); [lia|done].
Qed.

Lemma length_filter_or {A} (P Q : A -> Prop) `{!forall x, Decision (P x), !forall x, Decision (Q x)}
    (l : list A) :
  (forall x, P x -> Q x -> False) ->
  length (filter (fun x => P x \/ Q x) l) = length (filter P l) + length (filter Q l).
Proof.
  intros Hdisj. induction l as [|x l IH]; [done|].
  rewrite !filter_cons. repeat case_decide; simpl; rewrite ?IH; try naive_solver lia.
Qed.

Lemma length_filter_all {A} (P : A -> Prop) `{!forall x, Decision (P x)} (l : list A) :
  (forall x, x ∈ l -> P x) -> length (filter P l) = length l.
Proof.
  intros Hall. induction l as [|x l IH]; [done|].
  rewrite filter_cons_True by (apply Hall; left).
  simpl. rewrite IH; [done|]. intros y Hy. apply Hall. by right.
Qed.

Lemma filter_iff_in {A} (P Q : A -> Prop) `{!forall x, Decision (P x)} `{!forall x, Decision (Q x)}
    (l : list A) :
  (forall x, x ∈ l -> P x <-> Q x) -> filter P l = filter Q l.
Proof.
  induction l as [|x l IH]; intros HPQ; [done|]. rewrite !filter_cons.
  rewrite IH by (intros y Hy; apply HPQ; by right). pose proof (HPQ x ltac:(left)).
  repeat case_decide; tauto.
Qed.

Lemma filter_none {A} (P : A -> Prop) `{!forall x, Decision (P x)} (l : list A) :
  (forall x, x ∈ l -> ~ P x) -> filter P l = [].
Proof.
  intros Hn. induction l as [|x l IH]; [done|].
  rewrite filter_cons_False by (apply Hn; left). apply IH. intros y Hy. apply Hn. by right.
Qed.

Lemma filter_all {A} (P : A -> Prop) `{!forall x, Decision (P x)} (l : list A) :
  (forall x, x ∈ l -> P x) -> filter P l = l.
Proof.
  intros Hn. induction l as [|x l IH]; [done|].
  rewrite filter_cons_True by (apply Hn; left). f_equal. apply IH. intros y Hy. apply Hn. by right.
Qed.

(** Counting by class: summing the sizes of distinct classes counts the
    elements of their union. *)
Lemma sumN_count_classes {A K} `{EqDecision K} (cls : A -> K) (l : list A) (ks : list K) :
  NoDup ks ->
  sumN (fun k => N.of_nat (length (filter (fun x => cls x = k) l))) ks =
  N.of_nat (length (filter (fun x => cls x ∈ ks) l)).
Proof.
  induction 1 as [|k ks Hk HN IH]; simpl.
  - induction l as [|x l IHl]; [done|]. by rewrite filter_cons_False by set_solver.
  - rewrite IH, <- Nat2N.inj_add, <- length_filter_or by naive_solver. do 2 f_equal.
    apply list_filter_iff. intros x. rewrite elem_of_cons. naive_solver.
Qed.

(** Distinct numbers of an interval are at most as many as the interval. *)
Lemma NoDup_interval_length (lo : N) (k : nat) (l : list N) :
  NoDup l -> (forall x, x ∈ l -> lo <= x < lo + N.of_nat k)%N -> length l <= k.
Proof.
  intros HN Hin. rewrite <- (length_seq k (N.to_nat lo)), <- (length_fmap N.to_nat).
  apply submseteq_length, NoDup_submseteq.
  - by apply NoDup_fmap_2; [apply _|].
  - intros y (x & -> & Hx)%list_elem_of_fmap. apply elem_of_seq. specialize (Hin x Hx). lia.
Qed.

(** ** Maps collected from lists *)

(** [iter().map(|v| (key(v), v)).collect::<BTreeMap<_, _>>()]: a later entry
    replaces an earlier one with the same key. *)
Definition collect_map {K V} `{Countable K} (key : V -> K) (l : list V) : gmap K V :=
  foldl (fun m v => <[key v := v]> m) ∅ l.

Lemma collect_map_snoc {K V} `{Countable K} (key : V -> K) (l : list V) v :
  collect_map key (l ++ [v]) = <[key v := v]> (collect_map key l).
Proof. unfold collect_map. by rewrite foldl_app. Qed.

Lemma collect_map_Some {K V} `{Countable K} (key : V -> K) (l : list V) k v :
  collect_map key l !! k = Some v -> v ∈ l /\ key v = k.
Proof.
  induction l as [|w l IH] using rev_ind; [done|]. rewrite collect_map_snoc.
  rewrite lookup_insert_Some, elem_of_app, list_elem_of_singleton. naive_solver.
Qed.

Lemma collect_map_elem {K V} `{Countable K} (key : V -> K) (l : list V) v :
  NoDup (key <$> l) -> v ∈ l -> collect_map key l !! key v = Some v.
Proof.
  induction l as [|w l IH] using rev_ind; intros HN Hv; [by apply not_elem_of_nil in Hv|].
  rewrite collect_map_snoc. rewrite fmap_app in HN. apply NoDup_app in HN as (HN & Hd & _).
  apply elem_of_app in Hv as [Hv|Hv%list_elem_of_singleton]; [|subst; by apply lookup_insert_eq].
  rewrite lookup_insert_ne; [by apply IH|]. intros E.
  apply (Hd (key v)); [by apply list_elem_of_fmap_2|]. rewrite <- E. left.
Qed.

Lemma filter_fmap {A B} (f : A -> B) (P : B -> Prop) `{!forall y, Decision (P y)} (l : list A) :
  filter P (f <$> l) = f <$> filter (fun x => P (f x)) l.
Proof.
  induction l as [|x l IH]; [done|]. rewrite fmap_cons, !filter_cons.
  case_decide; [rewrite fmap_cons|]; by rewrite IH.
Qed.

Lemma mapM_fmap `{MBind M, MRet M} {A B C} (f : B -> M C) (g : A -> B) l :
  mapM f (g <$> l) = mapM (fun x => f (g x)) l.
Proof. induction l as [|x l IH]; [done|]. rewrite fmap_cons. cbn [mapM]. by rewrite IH. Qed.

(** Replacing one element of a list, seen through the concatenation and the sum
    of what the elements hold. *)
Lemma concat_insert {A B} (f : A -> list B) l i x y :
  l !! i = Some x ->
  exists rest, concat (f <$> l) ≡ₚ f x ++ rest /\ concat (f <$> <[i := y]> l) ≡ₚ f y ++ rest.
Proof.
  intros Hi. exists (concat (f <$> take i l) ++ concat (f <$> drop (S i) l)).
  rewrite insert_take_drop by (by eapply lookup_lt_Some).
  split; [rewrite <- (take_drop_middle l i x Hi) at 1|]; rewrite fmap_app, fmap_cons, concat_app; cbn;
    by rewrite !app_assoc, (Permutation_app_comm (concat _) (f _)).
Qed.

Lemma sum_insert {A} (f : A -> nat) l i x y :
  l !! i = Some x -> sum_list_with f (<[i := y]> l) + f x = sum_list_with f l + f y.
Proof.
  intros Hi. rewrite insert_take_drop by (by eapply lookup_lt_Some).
  rewrite <- (take_drop_middle l i x Hi) at 3. rewrite !sum_list_with_app. cbn. lia.
Qed.

Lemma Forall2_filter {A B} (R : A -> B -> Prop) (P : A -> Prop) (Q : B -> Prop)
    `{!forall x, Decision (P x), !forall y, Decision (Q y)} l k :
  Forall2 R l k -> (forall x y, R x y -> P x <-> Q y) -> Forall2 R (filter P l) (filter Q k).
Proof.
  intros HF HPQ. induction HF as [|x y l k Hxy HF IH]; [constructor|].
  rewrite !filter_cons. specialize (HPQ x y Hxy).
  repeat case_decide; try (exfalso; tauto); [by constructor|done].
Qed.

(** Reordering one side of a pointwise relation reorders the other. *)
Lemma Forall2_reorder {A B} (R : A -> B -> Prop) l k k' :
  Forall2 R l k -> k' ≡ₚ k -> exists l', l' ≡ₚ l /\ Forall2 R l' k'.
Proof.
  intros HF Hk. symmetry in Hk. revert l HF.
  induction Hk as [|y k k' Hk IH|y z k|k k1 k2 Hk1 IH1 Hk2 IH2]; intros l HF.
  - exists l. split; [done|]. exact HF.
  - apply Forall2_cons_inv_r in HF as (x & l1 & Hx & HF & ->).
    destruct (IH l1 HF) as (l' & Hl & HF'). exists (x :: l'). split; [by rewrite Hl|by constructor].
  - apply Forall2_cons_inv_r in HF as (x & l1 & Hx & HF & ->).
    apply Forall2_cons_inv_r in HF as (w & l2 & Hw & HF & ->).
    exists (w :: x :: l2). split; [by apply Permutation_swap|by repeat constructor].
  - destruct (IH1 l HF) as (l1 & Hl1 & HF1). destruct (IH2 l1 HF1) as (l2 & Hl2 & HF2).
    exists l2. split; [by rewrite Hl2|done].
Qed.

Lemma collect_map_to_list {K V} `{Countable K} (key : V -> K) (l : list V) :
  NoDup (key <$> l) -> map_to_list (collect_map key l) ≡ₚ (fun v => (key v, v)) <$> l.
Proof.
  intros HN. assert (Hfst : ((fun v => (key v, v)) <$> l).*1 = key <$> l).
  { rewrite <- list_fmap_compose. by apply list_fmap_ext. }
  rewrite <- (map_to_list_to_map ((fun v => (key v, v)) <$> l)) by (by rewrite Hfst).
  f_equiv. apply map_eq. intros k. apply option_eq. intros v.
  rewrite <- elem_of_list_to_map by (by rewrite Hfst). rewrite list_elem_of_fmap. split.
  - intros [Hv Hk]%collect_map_Some. exists v. by subst.
  - intros (w & [= -> ->] & Hw). by apply collect_map_elem.
Qed.

Lemma collect_map_Permutation {K V} `{Countable K} (key : V -> K) (l k : list V) :
  NoDup (key <$> k) -> l ≡ₚ k -> collect_map key l = collect_map key k.
Proof.
  intros HN Hlk. apply map_eq. intros i. apply option_eq. intros v.
  assert (HN' : NoDup (key <$> l)) by (by rewrite Hlk).
  split; intros [Hv <-]%collect_map_Some; apply collect_map_elem; try done; [by rewrite <- Hlk|by rewrite Hlk].
Qed.

(** ** Big-endian integers *)

Lemma byte_to_of_N n : (n < 256)%N -> Byte.to_N (byte_of_N n) = n.
Proof.
  intros Hn. unfold byte_of_N. destruct (Byte.of_N n) as [b|] eqn:E; simpl.
  - by apply Byte.to_of_N.
  - apply Byte.of_N_None_iff in E. lia.
Qed.

Lemma be_value_go_app bs1 bs2 acc :
  be_value_go (bs1 ++ bs2) acc = be_value_go bs2 (be_value_go bs1 acc).
Proof. revert acc; induction bs1; simpl; auto. Qed.

Lemma length_be_bytes k n : length (be_bytes k n) = k.
Proof. revert n; induction k as [|k IH]; intros n; simpl; [done|]. rewrite length_app, IH. simpl. lia. Qed.

Lemma be_value_bytes k n : (n < 256 ^ N.of_nat k)%N -> be_value (be_bytes k n) = n.
Proof.
  unfold be_value. revert n; induction k as [|k IH]; intros n Hn.
  - simpl in *. lia.
  - rewrite Nat2N.inj_succ, N.pow_succ_r' in Hn. cbn [be_bytes].
    rewrite be_value_go_app, IH by (apply N.Div0.div_lt_upper_bound; lia).
    cbn [be_value_go]. rewrite byte_to_of_N by (by apply N.mod_lt).
    rewrite (N.div_mod n 256) at 3 by done. lia.
Qed.

Lemma be_bytes_inj k a b :
  (a < 256 ^ N.of_nat k)%N -> (b < 256 ^ N.of_nat k)%N ->
  be_bytes k a = be_bytes k b -> a = b.
Proof.
  intros Ha Hb E. by rewrite <- (be_value_bytes k a), <- (be_value_bytes k b), E.
Qed.

Lemma be_value_go_bound bs acc :
  (be_value_go bs acc < (acc + 1) * 256 ^ N.of_nat (length bs))%N.
Proof.
  revert acc; induction bs as [|b bs IH]; intros acc; cbn [be_value_go length].
  - rewrite N.pow_0_r. lia.
  - eapply N.lt_le_trans; [apply IH|]. rewrite Nat2N.inj_succ, N.pow_succ_r', N.mul_assoc.
    apply N.mul_le_mono_r. pose proof (Byte.to_N_bounded b). lia.
Qed.

Lemma be_value_bound bs : (be_value bs < 256 ^ N.of_nat (length bs))%N.
Proof. pose proof (be_value_go_bound bs 0). unfold be_value. lia. Qed.

(** A byte string is the encoding of its value. *)
Lemma be_bytes_value bs : be_bytes (length bs) (be_value bs) = bs.
Proof.
  induction bs as [|b bs IH] using rev_ind; [done|].
  unfold be_value in *. rewrite length_app, be_value_go_app. cbn [length be_value_go].
  rewrite Nat.add_1_r. cbn [be_bytes]. pose proof (Byte.to_N_bounded b).
  rewrite N.div_add_l, N.div_small, N.add_0_r by lia. rewrite IH. f_equal.
  rewrite N.add_comm, N.Div0.mod_add, N.mod_small by lia.
  unfold byte_of_N. by rewrite Byte.of_to_N.
Qed.

Arguments be_bytes : simpl never.
Arguments be_value : simpl never.

(** ** Decimal numbers read back *)

Lemma digit_value_char d : (d < 10)%N -> digit_value (digit_char d) = Some d.
Proof.
  intros Hd. assert (Hc : d = 0%N \/ d = 1%N \/ d = 2%N \/ d = 3%N \/ d = 4%N \/ d = 5%N \/
                          d = 6%N \/ d = 7%N \/ d = 8%N \/ d = 9%N) by lia.
  by repeat destruct Hc as [->|Hc]; subst.
Qed.

Lemma log2_div_10 n : (10 <= n)%N -> (N.log2 (n / 10) < N.log2 n)%N.
Proof.
  intros Hn. apply N.log2_lt_pow2; [apply N.div_str_pos; lia|].
  apply N.Div0.div_lt_upper_bound. pose proof (N.log2_spec n ltac:(lia)) as [_ Hs].
  rewrite N.pow_succ_r' in Hs. lia.
Qed.

Lemma parse_dec_go fuel : forall n acc,
  (N.to_nat (N.log2 n) < fuel)%nat -> parse_digits (dec_go fuel n acc) 0 = parse_digits acc n.
Proof.
  induction fuel as [|fuel IH]; intros n acc Hf; [lia|]. cbn [dec_go].
  assert (Hm : (n mod 10 < 10)%N) by (apply N.mod_lt; lia).
  assert (Hstep : forall a, parse_digits (String (digit_char (n mod 10)) acc) a =
                            parse_digits acc (a * 10 + n mod 10)).
  { intros a. cbn [parse_digits]. by rewrite digit_value_char. }
  destruct (N.ltb_spec n 10) as [Hn|Hn].
  - rewrite Hstep, N.mod_small by done. done.
  - pose proof (log2_div_10 n Hn). rewrite IH by lia. rewrite Hstep. f_equal.
    rewrite (N.div_mod' n 10) at 3. lia.
Qed.

Lemma dec_go_head fuel : forall n acc,
  (exists d rest, (d < 10)%N /\ acc = String (digit_char d) rest) \/ (0 < fuel)%nat ->
  exists d rest, (d < 10)%N /\ dec_go fuel n acc = String (digit_char d) rest.
Proof.
  induction fuel as [|fuel IH]; intros n acc Hacc; cbn [dec_go]; [destruct Hacc; [done|lia]|].
  assert (Hm : (n mod 10 < 10)%N) by (apply N.mod_lt; lia).
  destruct (n <? 10)%N; [by eexists _, _|]. apply IH. left. by eexists _, _.
Qed.

(** Parsing what [to_string] prints returns the number. *)
Lemma parse_u16_dec n : (n <= u16_max)%N -> parse_u16 (dec n) = Some n.
Proof.
  intros Hn. destruct (dec_go_head (S (N.to_nat (N.log2 n))) n "") as (d & rest & Hd & E);
    [right; lia|]. pose proof (parse_dec_go (S (N.to_nat (N.log2 n))) n "" ltac:(lia)) as Hp.
  unfold parse_u16, dec. rewrite E in *.
  assert (Hplus : (N_of_ascii (digit_char d) =? 43)%N = false).
  { apply N.eqb_neq. unfold digit_char. rewrite N_ascii_embedding by lia. lia. }
  rewrite Hplus, Hp. cbn. unfold u16_try_from. by rewrite (proj2 (N.leb_le _ _) Hn).
Qed.

Lemma parse_dec n : parse_digits (dec n) 0 = Some n.
Proof. unfold dec. rewrite parse_dec_go by lia. done. Qed.

#[export] Instance dec_inj : Inj (=) (=) dec.
Proof. intros a b E. pose proof (parse_dec a) as Ha. rewrite E, parse_dec in Ha. congruence. Qed.

Lemma dec_nonempty n : dec n <> EmptyString.
Proof.
  unfold dec. destruct (dec_go_head (S (N.to_nat (N.log2 n))) n "") as (d & rest & _ & ->);
    [right; lia|done].
Qed.

(** ** Lines of text *)

(** The character [\n]. *)
Definition newline : string := String (ascii_of_nat 10) EmptyString.

Fixpoint one_line (s : string) : bool :=
  match s with
  | EmptyString => true
  | String c s => negb (N_of_ascii c =? 10)%N && one_line s
  end.

Lemma parse_digits_one_line s : forall acc v, parse_digits s acc = Some v -> one_line s = true.
Proof.
  induction s as [|c s IH]; intros acc v Hp; [done|]. cbn in Hp |- *.
  unfold digit_value in Hp. destruct (N.eqb_spec (N_of_ascii c) 10) as [E|E].
  - by rewrite E in Hp.
  - destruct ((48 <=? N_of_ascii c) && (N_of_ascii c <=? 57))%N; [|done].
    exact (IH _ _ Hp).
Qed.

Lemma dec_one_line n : one_line (dec n) = true.
Proof. exact (parse_digits_one_line _ _ _ (parse_dec n)). Qed.

(** A line ends at its first newline. *)
Lemma line_inj s1 s2 r1 r2 :
  one_line s1 = true -> one_line s2 = true ->
  s1 +:+ newline +:+ r1 = s2 +:+ newline +:+ r2 -> s1 = s2 /\ r1 = r2.
Proof.
  revert s2. induction s1 as [|c s1 IH]; intros [|c2 s2] H1 H2 E; cbn in *.
  - by injection E.
  - injection E as <- _. discriminate H2.
  - injection E as -> _. discriminate H1.
  - apply andb_true_iff in H1 as [_ H1]. apply andb_true_iff in H2 as [_ H2].
    injection E as -> E. destruct (IH s2 H1 H2 E) as [-> ->]. done.
Qed.
