(* ===== verification/Core.v ===== *)
(** The protocol types of [crates/dkgkit-core/src/lib.rs]: errors, session and
    participant identifiers, the three signing policies with their validating
    constructors, the session manifest, and the protocol message envelope. *)

From Stdlib Require Import Ascii String.
From stdpp Require Import base numbers countable gmap strings list sorting.
From S2P Require Import Prelude.

Definition DKGKIT_PROTOCOL_VERSION : string := "dkgkit/0.1".

(** ** Errors *)

Inductive DkgKitError : Type :=
  | InvalidThreshold (threshold participants : N)
  | InvalidParticipantId (id : N)
  | ParticipantCountMismatch (expected : N) (actual : nat)
  | DuplicateParticipantId (id : N)
  | ParticipantOutOfRange (participant_id participants : N)
  | MissingRankedParticipant (id : N)
  | EmptySessionId
  | EmptyMessageKind
  | Serialization (what : string)
  | Protocol (what : string)
  | Transport_ (what : string)
  | NotImplemented (what : string).

#[export] Instance dkgkit_error_eq_dec : EqDecision DkgKitError.
Proof. solve_decision. Defined.

Abbreviation Result := (Outcome DkgKitError).

(** ** The error type of the programs

    An [anyhow] error is a library error converted by [?] or a text. *)
Inductive AnyhowError : Type :=
  | AnyhowDkgKit (e : DkgKitError)
  | AnyhowText (text : string).

(** [?] on a library result. *)
Definition dkgkit {St A} (m : ST St DkgKitError A) : ST St AnyhowError A :=
  st_map_err AnyhowDkgKit m.

Section anyhow.
Context {St A B : Type} (m : ST St DkgKitError A) (k : A -> ST St AnyhowError B).

Lemma dkgkit_bind_Ok st st' a : m st = (st', Ok a) -> (dkgkit m ≫= k) st = k a st'.
Proof. intros Hm. unfold dkgkit, st_map_err, mbind, st_bind. by rewrite Hm. Qed.

Lemma dkgkit_bind_Err st st' e :
  m st = (st', Err e) -> (dkgkit m ≫= k) st = (st', Err (AnyhowDkgKit e)).
Proof. intros Hm. unfold dkgkit, st_map_err, mbind, st_bind. by rewrite Hm. Qed.

Lemma dkgkit_bind_inv st st' b :
  (dkgkit m ≫= k) st = (st', Ok b) -> exists st1 a, m st = (st1, Ok a) /\ k a st1 = (st', Ok b).
Proof.
  unfold dkgkit, st_map_err, mbind, st_bind. destruct (m st) as [st1 []]; naive_solver.
Qed.
End anyhow.

(** ** Identifiers *)

Record SessionId := mkSessionId { sid_0 : string }.

#[export] Instance session_id_eq_dec : EqDecision SessionId.
Proof. solve_decision. Defined.

#[export] Program Instance session_id_countable : Countable SessionId :=
  inj_countable' sid_0 mkSessionId _.
Next Obligation. by intros []. Qed.

Definition SessionId_new (value : string) : Result SessionId :=
  reject_if (blank value) EmptySessionId;;
  Ok (mkSessionId value).

Record ParticipantId := mkParticipantId { pid_0 : N }.

#[export] Instance participant_id_eq_dec : EqDecision ParticipantId.
Proof. solve_decision. Defined.

#[export] Program Instance participant_id_countable : Countable ParticipantId :=
  inj_countable' pid_0 mkParticipantId _.
Next Obligation. by intros []. Qed.

#[export] Instance pid_0_inj : Inj (=) (=) pid_0.
Proof. by intros [] [] [= ->]. Qed.

(** [BTreeMap<ParticipantId, V>::values()]: ascending key order. *)
Definition key_le {V} (x y : ParticipantId * V) : Prop := (pid_0 x.1 <= pid_0 y.1)%N.

#[export] Instance key_le_dec {V} (x y : ParticipantId * V) : Decision (key_le x y) :=
  decide_rel N.le (pid_0 x.1) (pid_0 y.1).

Definition btree_values {V} (m : gmap ParticipantId V) : list V :=
  snd <$> merge_sort key_le (map_to_list m).

Lemma btree_values_collect {V} (key : V -> ParticipantId) l :
  NoDup (key <$> l) -> btree_values (collect_map key l) ≡ₚ l.
Proof.
  intros HN. unfold btree_values. rewrite merge_sort_Permutation, collect_map_to_list by done.
  rewrite <- list_fmap_compose. by rewrite list_fmap_id.
Qed.

Definition ParticipantId_new (value : N) : Result ParticipantId :=
  reject_if (value =? 0)%N (InvalidParticipantId value);;
  Ok (mkParticipantId value).

Record Rank := mkRank { rank_0 : N }.

#[export] Instance rank_eq_dec : EqDecision Rank.
Proof. solve_decision. Defined.

Definition Rank_new (value : N) : Rank := mkRank value.

(** ** Threshold configuration *)

Record ThresholdConfig := mkThresholdConfig {
  tc_threshold : N;
  tc_participants : N;
}.

#[export] Instance threshold_config_eq_dec : EqDecision ThresholdConfig.
Proof. solve_decision. Defined.

Definition ThresholdConfig_new (threshold participants : N) : Result ThresholdConfig :=
  reject_if ((threshold =? 0) || (participants =? 0) || (participants <? threshold))%N
    (InvalidThreshold threshold participants);;
  Ok (mkThresholdConfig threshold participants).

Record Participant := mkParticipant {
  p_id : ParticipantId;
  p_label : option string;
}.

#[export] Instance participant_eq_dec : EqDecision Participant.
Proof. solve_decision. Defined.

Definition Participant_new (id : N) (label : option string) : Result Participant :=
  id ← ParticipantId_new id;
  Ok (mkParticipant id label).

(** ** Ranked participants: the hierarchical policy *)

Record RankedParticipant := mkRankedParticipant {
  rp_id : ParticipantId;
  rp_rank : Rank;
  rp_label : option string;
}.

#[export] Instance ranked_participant_eq_dec : EqDecision RankedParticipant.
Proof. solve_decision. Defined.

Definition RankedParticipant_new (id rank : N) (label : option string) :
  Result RankedParticipant :=
  id ← ParticipantId_new id;
  Ok (mkRankedParticipant id (Rank_new rank) label).

Record HierarchicalThresholdConfig := mkHierarchicalThresholdConfig {
  htc_threshold : N;
  htc_participants : list RankedParticipant;
}.

#[export] Instance hierarchical_threshold_config_eq_dec :
  EqDecision HierarchicalThresholdConfig.
Proof. solve_decision. Defined.

(** [self.participants.iter().find(|p| p.id == id).map(|p| p.rank)] *)
Definition find_rank (ps : list RankedParticipant) (id : ParticipantId) : option Rank :=
  rp_rank <$> List.find (fun p => bool_decide (rp_id p = id)) ps.

(** The loop over the participants that both ranked policies run: a repeated
    identifier ends it. *)
Definition distinct_id_step (seen : gset N) (p : RankedParticipant) : Result (gset N) :=
  if decide (pid_0 (rp_id p) ∈ seen)
  then Err (DuplicateParticipantId (pid_0 (rp_id p)))
  else Ok ({[pid_0 (rp_id p)]} ∪ seen).

Definition HierarchicalThresholdConfig_new
    (threshold : N) (participants : list RankedParticipant) :
  Result HierarchicalThresholdConfig :=
  participant_count ← ok_or (u16_try_from (N.of_nat (length participants)))
                            (InvalidThreshold threshold u16_max);
  ThresholdConfig_new threshold participant_count;;
  foldlM distinct_id_step ∅ participants;;
  Ok (mkHierarchicalThresholdConfig threshold participants).

Definition HierarchicalThresholdConfig_participant_count
    (self : HierarchicalThresholdConfig) : N :=
  as_u16 (N.of_nat (length (htc_participants self))).

Definition HierarchicalThresholdConfig_threshold_config
    (self : HierarchicalThresholdConfig) : Result ThresholdConfig :=
  ThresholdConfig_new (htc_threshold self)
    (HierarchicalThresholdConfig_participant_count self).

Definition HierarchicalThresholdConfig_rank_of
    (self : HierarchicalThresholdConfig) (id : ParticipantId) : option Rank :=
  find_rank (htc_participants self) id.

(** ** Grouped policy: a quorum for every rank *)

Record GroupThresholdRequirement := mkGroupThresholdRequirement {
  gtr_rank : Rank;
  gtr_required : N;
  gtr_total : N;
}.

#[export] Instance group_threshold_requirement_eq_dec :
  EqDecision GroupThresholdRequirement.
Proof. solve_decision. Defined.

Definition GroupThresholdRequirement_new (rank required total : N) :
  Result GroupThresholdRequirement :=
  reject_if ((required =? 0) || (total =? 0) || (total <? required))%N
    (InvalidThreshold required total);;
  Ok (mkGroupThresholdRequirement (Rank_new rank) required total).

Record GroupedThresholdConfig := mkGroupedThresholdConfig {
  gtc_participants : list RankedParticipant;
  gtc_requirements : list GroupThresholdRequirement;
}.

#[export] Instance grouped_threshold_config_eq_dec : EqDecision GroupedThresholdConfig.
Proof. solve_decision. Defined.

(** [participants.iter().filter(|p| p.rank == rank).count()] *)
Definition count_rank (ps : list RankedParticipant) (rank : Rank) : nat :=
  length (filter (fun p => rp_rank p = rank) ps).

Definition requirement_step (participants : list RankedParticipant)
    (seen_ranks : gset N) (requirement : GroupThresholdRequirement) : Result (gset N) :=
  let rank := rank_0 (gtr_rank requirement) in
  if decide (rank ∈ seen_ranks)
  then Err (Protocol ("duplicate grouped threshold rank: " +:+ dec rank))
  else
    let actual_total := count_rank participants (gtr_rank requirement) in
    reject_if (negb (N.of_nat actual_total =? gtr_total requirement))%N
      (Protocol ("grouped threshold rank " +:+ dec rank +:+ " total mismatch: declared "
                 +:+ dec (gtr_total requirement) +:+ ", found " +:+ dec_nat actual_total));;
    Ok ({[rank]} ∪ seen_ranks).

Definition rank_covered_step (seen_ranks : gset N) (_ : unit) (p : RankedParticipant) :
  Result unit :=
  if decide (rank_0 (rp_rank p) ∈ seen_ranks) then Ok tt
  else Err (Protocol ("missing grouped threshold requirement for rank "
                      +:+ dec (rank_0 (rp_rank p)))).

Definition GroupedThresholdConfig_new
    (participants : list RankedParticipant)
    (requirements : list GroupThresholdRequirement) : Result GroupedThresholdConfig :=
  reject_if (bool_decide (participants = []) || bool_decide (requirements = []))
    (InvalidThreshold 0 (as_u16 (N.of_nat (length participants))));;
  foldlM distinct_id_step ∅ participants;;
  seen_ranks ← foldlM (requirement_step participants) ∅ requirements;
  foldlM (rank_covered_step seen_ranks) tt participants;;
  Ok (mkGroupedThresholdConfig participants requirements).

Definition GroupedThresholdConfig_participant_count (self : GroupedThresholdConfig) : N :=
  as_u16 (N.of_nat (length (gtc_participants self))).

(** [requirements.iter().map(|r| r.required).sum()] on [u16]. *)
Definition GroupedThresholdConfig_required_signer_count
    (self : GroupedThresholdConfig) : Result N :=
  foldlM (fun acc requirement => u16_add acc (gtr_required requirement)) 0%N
    (gtc_requirements self).

Definition GroupedThresholdConfig_threshold_config (self : GroupedThresholdConfig) :
  Result ThresholdConfig :=
  required ← GroupedThresholdConfig_required_signer_count self;
  ThresholdConfig_new required (GroupedThresholdConfig_participant_count self).

Definition GroupedThresholdConfig_rank_of
    (self : GroupedThresholdConfig) (id : ParticipantId) : option Rank :=
  find_rank (gtc_participants self) id.

Inductive SigningPolicy : Type :=
  | Threshold (config : ThresholdConfig)
  | Hierarchical (config : HierarchicalThresholdConfig)
  | Grouped (config : GroupedThresholdConfig).

#[export] Instance signing_policy_eq_dec : EqDecision SigningPolicy.
Proof. solve_decision. Defined.

(** ** Sessions *)

Record SessionConfig := mkSessionConfig {
  sc_session_id : SessionId;
  sc_threshold : ThresholdConfig;
  sc_participants : list Participant;
}.

#[export] Instance session_config_eq_dec : EqDecision SessionConfig.
Proof. solve_decision. Defined.

Definition session_participant_step (participant_count : N)
    (seen : gset N) (p : Participant) : Result (gset N) :=
  reject_if (participant_count <? pid_0 (p_id p))%N
    (ParticipantOutOfRange (pid_0 (p_id p)) participant_count);;
  if decide (pid_0 (p_id p) ∈ seen)
  then Err (DuplicateParticipantId (pid_0 (p_id p)))
  else Ok ({[pid_0 (p_id p)]} ∪ seen).

Definition SessionConfig_new (session_id : string) (threshold participant_count : N)
    (participants : list Participant) : Result SessionConfig :=
  threshold ← ThresholdConfig_new threshold participant_count;
  reject_if (negb (N.of_nat (length participants) =? participant_count))%N
    (ParticipantCountMismatch participant_count (length participants));;
  foldlM (session_participant_step participant_count) ∅ participants;;
  session_id ← SessionId_new session_id;
  Ok (mkSessionConfig session_id threshold participants).

Definition SessionConfig_participant (self : SessionConfig) (id : ParticipantId) :
  option Participant :=
  List.find (fun p => bool_decide (p_id p = id)) (sc_participants self).

Inductive SessionPhase : Type :=
  | Created | Round1 | Round2 | Finalized | Signing | Complete | Failed.

#[export] Instance session_phase_eq_dec : EqDecision SessionPhase.
Proof. solve_decision. Defined.

Record SessionManifest := mkSessionManifest {
  sm_config : SessionConfig;
  sm_protocol : string;
  sm_protocol_version : string;
  sm_phase : SessionPhase;
}.

Definition SessionManifest_frost_v1 (config : SessionConfig) : SessionManifest :=
  {| sm_config := config;
     sm_protocol := "frost";
     sm_protocol_version := "0.1";
     sm_phase := Created |}.

(** ** Protocol messages *)

Inductive ProtocolMessageKind : Type :=
  | KSessionManifest
  | FrostDkgRound1
  | FrostDkgRound2
  | HtssDkgRound1
  | HtssDkgRound2
  | FrostSigningNonce
  | FrostSignatureShare
  | HtssSigningNonce
  | HtssSignatureShare
  | Custom (value : string).

#[export] Instance protocol_message_kind_eq_dec : EqDecision ProtocolMessageKind.
Proof. solve_decision. Defined.

Definition ProtocolMessageKind_custom (value : string) : Result ProtocolMessageKind :=
  reject_if (blank value) EmptyMessageKind;;
  Ok (Custom value).

Definition ProtocolMessageKind_as_str (self : ProtocolMessageKind) : string :=
  match self with
  | KSessionManifest => "session_manifest"
  | FrostDkgRound1 => "frost_dkg_round1"
  | FrostDkgRound2 => "frost_dkg_round2"
  | HtssDkgRound1 => "htss_dkg_round1"
  | HtssDkgRound2 => "htss_dkg_round2"
  | FrostSigningNonce => "frost_signing_nonce"
  | FrostSignatureShare => "frost_signature_share"
  | HtssSigningNonce => "htss_signing_nonce"
  | HtssSignatureShare => "htss_signature_share"
  | Custom value => value
  end.

Definition ProtocolMessageKind_from (value : string) : ProtocolMessageKind :=
  if decide (value = "session_manifest") then KSessionManifest
  else if decide (value = "frost_dkg_round1" \/ value = "round1") then FrostDkgRound1
  else if decide (value = "frost_dkg_round2" \/ value = "round2") then FrostDkgRound2
  else if decide (value = "htss_dkg_round1") then HtssDkgRound1
  else if decide (value = "htss_dkg_round2") then HtssDkgRound2
  else if decide (value = "frost_signing_nonce" \/ value = "nonce") then FrostSigningNonce
  else if decide (value = "frost_signature_share" \/ value = "signature_share")
       then FrostSignatureShare
  else if decide (value = "htss_signing_nonce") then HtssSigningNonce
  else if decide (value = "htss_signature_share") then HtssSignatureShare
  else Custom value.

Record ProtocolMessage := mkProtocolMessage {
  pm_protocol_version : string;
  pm_session_id : SessionId;
  pm_sender : ParticipantId;
  pm_recipient : option ParticipantId;
  pm_kind : ProtocolMessageKind;
  pm_payload : bytes;
}.

#[export] Instance protocol_message_eq_dec : EqDecision ProtocolMessage.
Proof. solve_decision. Defined.

Definition ProtocolMessage_broadcast (session_id : SessionId) (sender : ParticipantId)
    (kind : ProtocolMessageKind) (payload : bytes) : ProtocolMessage :=
  {| pm_protocol_version := DKGKIT_PROTOCOL_VERSION;
     pm_session_id := session_id;
     pm_sender := sender;
     pm_recipient := None;
     pm_kind := kind;
     pm_payload := payload |}.

Definition ProtocolMessage_new := ProtocolMessage_broadcast.

Definition ProtocolMessage_direct (session_id : SessionId)
    (sender recipient : ParticipantId)
    (kind : ProtocolMessageKind) (payload : bytes) : ProtocolMessage :=
  {| pm_protocol_version := DKGKIT_PROTOCOL_VERSION;
     pm_session_id := session_id;
     pm_sender := sender;
     pm_recipient := Some recipient;
     pm_kind := kind;
     pm_payload := payload |}.

Definition ProtocolMessage_is_for (self : ProtocolMessage) (id : ParticipantId) : bool :=
  match pm_recipient self with
  | Some recipient => bool_decide (recipient = id)
  | None => true
  end.

(** ** Lemmas on the constructors *)

Lemma ThresholdConfig_new_Ok t n c :
  ThresholdConfig_new t n = Ok c <->
  (1 <= t <= n)%N /\ c = mkThresholdConfig t n.
Proof.
  unfold ThresholdConfig_new, reject_if.
  destruct (N.eqb_spec t 0), (N.eqb_spec n 0), (N.ltb_spec n t); simpl; naive_solver lia.
Qed.

Lemma ThresholdConfig_new_returns t n : returns (ThresholdConfig_new t n).
Proof. unfold ThresholdConfig_new, reject_if. by case_match. Qed.

Lemma distinct_id_step_Ok seen p s' :
  distinct_id_step seen p = Ok s' <->
  True /\ (pid_0 (rp_id p) ∉ seen) /\ s' = ({[pid_0 (rp_id p)]} ∪ seen).
Proof. unfold distinct_id_step. case_decide; naive_solver. Qed.

(** The identifiers of a list of ranked participants are pairwise distinct. *)
Definition distinct_ids (ps : list RankedParticipant) : Prop :=
  NoDup (pid_0 ∘ rp_id <$> ps).

Lemma distinct_id_loop_Ok ps s' :
  foldlM distinct_id_step ∅ ps = Ok s' <->
  distinct_ids ps /\ s' = (list_to_set (pid_0 ∘ rp_id <$> ps) ∪ ∅).
Proof.
  rewrite (seen_loop_Ok (pid_0 ∘ rp_id) (fun _ => True) _ distinct_id_step_Ok).
  unfold distinct_ids. split; [naive_solver|]. intros [HN ->].
  split_and!; [by apply Forall_true|done|set_solver|done].
Qed.

Lemma find_rank_Some ps id r :
  find_rank ps id = Some r -> exists p, p ∈ ps /\ rp_id p = id /\ rp_rank p = r.
Proof.
  unfold find_rank. intros (p & Hf & ->)%fmap_Some.
  apply List.find_some in Hf as [Hin Hb]. apply bool_decide_eq_true in Hb.
  exists p. by rewrite list_elem_of_In.
Qed.

(** With distinct identifiers [rank_of] finds the one participant that has the
    identifier. *)
Lemma find_rank_elem ps p :
  distinct_ids ps -> p ∈ ps -> find_rank ps (rp_id p) = Some (rp_rank p).
Proof.
  unfold distinct_ids, find_rank. intros HN Hin.
  induction ps as [|q ps IH]; [by apply not_elem_of_nil in Hin|].
  apply NoDup_cons in HN as [Hq HN]. simpl. case_bool_decide as Hid.
  - apply elem_of_cons in Hin as [->|Hin]; [done|].
    destruct Hq. apply list_elem_of_fmap. exists p. by simpl; rewrite Hid.
  - apply elem_of_cons in Hin as [->|Hin]; [done|]. by apply IH.
Qed.

Lemma find_rank_None ps id :
  find_rank ps id = None <-> forall p, p ∈ ps -> rp_id p <> id.
Proof.
  unfold find_rank. rewrite fmap_None. split.
  - intros Hf p Hp <-. apply list_elem_of_In in Hp.
    apply (List.find_none _ _ Hf p) in Hp. by rewrite bool_decide_eq_false in Hp.
  - intros Hne. destruct (List.find _ ps) as [p|] eqn:Hf; [|done].
    apply List.find_some in Hf as [Hin Hb]. apply bool_decide_eq_true in Hb.
    by destruct (Hne p); [rewrite list_elem_of_In|].
Qed.

(** ** Properties of the policies *)

(** What a hierarchical policy promises once it is constructed. *)
Definition wf_hierarchical (c : HierarchicalThresholdConfig) : Prop :=
  (1 <= htc_threshold c <= N.of_nat (length (htc_participants c)))%N /\
  (N.of_nat (length (htc_participants c)) <= u16_max)%N /\
  distinct_ids (htc_participants c).

Lemma HierarchicalThresholdConfig_new_Ok t ps c :
  HierarchicalThresholdConfig_new t ps = Ok c <->
  c = mkHierarchicalThresholdConfig t ps /\ wf_hierarchical c.
Proof.
  unfold HierarchicalThresholdConfig_new, u16_try_from, wf_hierarchical.
  destruct (N.leb_spec (N.of_nat (length ps)) u16_max); simpl; [|naive_solver lia].
  autorewrite with outcome. setoid_rewrite ThresholdConfig_new_Ok.
  setoid_rewrite bind_Ok. setoid_rewrite distinct_id_loop_Ok. split.
  - intros (tc & [Ht ->] & s & [HN ->] & [= <-]). done.
  - intros (-> & Ht & _ & HN). simpl in *. eauto 8.
Qed.

(** [HierarchicalThresholdConfig::new] accepts a threshold and a list of
    ranked participants exactly when the list fits [u16], the threshold lies
    between one and its length and no identifier repeats; the value it returns
    is then the pair it was given. *)
Theorem hierarchical_new_iff t ps c :
  HierarchicalThresholdConfig_new t ps = Ok c <->
  c = mkHierarchicalThresholdConfig t ps /\ wf_hierarchical c.
Proof. apply HierarchicalThresholdConfig_new_Ok. Qed.

Lemma hierarchical_new_wf t ps c :
  HierarchicalThresholdConfig_new t ps = Ok c -> wf_hierarchical c.
Proof. by intros [_ ?]%HierarchicalThresholdConfig_new_Ok. Qed.

Lemma wf_hierarchical_count c :
  wf_hierarchical c ->
  HierarchicalThresholdConfig_participant_count c =
  N.of_nat (length (htc_participants c)).
Proof.
  intros (_ & Hlen & _). unfold HierarchicalThresholdConfig_participant_count, as_u16.
  apply N.mod_small. unfold u16_max in Hlen. lia.
Qed.

Lemma wf_hierarchical_threshold_config c :
  wf_hierarchical c ->
  HierarchicalThresholdConfig_threshold_config c =
  Ok (mkThresholdConfig (htc_threshold c) (N.of_nat (length (htc_participants c)))).
Proof.
  intros Hwf. unfold HierarchicalThresholdConfig_threshold_config.
  rewrite wf_hierarchical_count by done. apply ThresholdConfig_new_Ok.
  by destruct Hwf.
Qed.

(** Every participant carries an identifier that [ParticipantId::new] accepts. *)
Definition valid_ids (ps : list RankedParticipant) : Prop :=
  forall p, p ∈ ps -> (1 <= pid_0 (rp_id p) <= u16_max)%N.

(** A requirement as [GroupThresholdRequirement::new] leaves it. *)
Definition valid_requirement (r : GroupThresholdRequirement) : Prop :=
  (1 <= gtr_required r <= gtr_total r)%N.

Lemma GroupThresholdRequirement_new_valid rank required total r :
  GroupThresholdRequirement_new rank required total = Ok r -> valid_requirement r.
Proof.
  unfold GroupThresholdRequirement_new, valid_requirement, reject_if.
  destruct (N.eqb_spec required 0), (N.eqb_spec total 0), (N.ltb_spec total required);
    simpl; naive_solver lia.
Qed.

Lemma requirement_step_Ok ps seen r s' :
  requirement_step ps seen r = Ok s' <->
  N.of_nat (count_rank ps (gtr_rank r)) = gtr_total r /\
  (rank_0 (gtr_rank r) ∉ seen) /\ s' = ({[rank_0 (gtr_rank r)]} ∪ seen).
Proof.
  unfold requirement_step, reject_if. cbv zeta. case_decide; [naive_solver|].
  destruct (N.eqb_spec (N.of_nat (count_rank ps (gtr_rank r))) (gtr_total r));
    simpl; naive_solver.
Qed.

Lemma rank_covered_step_Ok seen u p u' :
  rank_covered_step seen u p = Ok u' <-> rank_0 (rp_rank p) ∈ seen.
Proof. unfold rank_covered_step. destruct u'. case_decide; naive_solver. Qed.

Lemma rank_covered_loop_Ok seen ps u :
  foldlM (rank_covered_step seen) tt ps = Ok u <->
  forall p, p ∈ ps -> rank_0 (rp_rank p) ∈ seen.
Proof.
  destruct u. induction ps as [|p ps IH]; simpl.
  - split; [intros _ p Hp; by apply not_elem_of_nil in Hp|done].
  - rewrite bind_Ok. setoid_rewrite rank_covered_step_Ok. setoid_rewrite elem_of_cons.
    split; [intros ([] & Hp & Hl)|intros Hall; exists tt]; rewrite ?IH in *; naive_solver.
Qed.

Lemma requirement_loop_Ok ps rs s' :
  foldlM (requirement_step ps) ∅ rs = Ok s' <->
  (forall r, r ∈ rs -> N.of_nat (count_rank ps (gtr_rank r)) = gtr_total r) /\
  NoDup (rank_0 ∘ gtr_rank <$> rs) /\
  s' = (list_to_set (rank_0 ∘ gtr_rank <$> rs) ∪ ∅).
Proof.
  rewrite (seen_loop_Ok (rank_0 ∘ gtr_rank) _ _ (requirement_step_Ok ps)), Forall_forall.
  split; [naive_solver|]. intros (? & ? & ->). split_and!; [done|done|set_solver|done].
Qed.

Lemma rank_seen (rs : list GroupThresholdRequirement) rank :
  rank_0 rank ∈ (list_to_set (rank_0 ∘ gtr_rank <$> rs) ∪ ∅ : gset N) <->
  exists r, r ∈ rs /\ gtr_rank r = rank.
Proof.
  rewrite union_empty_r_L, elem_of_list_to_set, list_elem_of_fmap. split.
  - intros (r & Heq & Hr). exists r; split; [done|]. simpl in Heq.
    destruct rank, (gtr_rank r); simpl in *; congruence.
  - intros (r & Hr & <-). eauto.
Qed.

(** What a grouped policy promises once it is constructed: participants and
    requirements exist, identifiers are distinct, every rank has exactly one
    requirement and the declared totals are the sizes of the ranks. *)
Definition wf_grouped (c : GroupedThresholdConfig) : Prop :=
  gtc_participants c <> [] /\ gtc_requirements c <> [] /\
  distinct_ids (gtc_participants c) /\
  NoDup (rank_0 ∘ gtr_rank <$> gtc_requirements c) /\
  (forall r, r ∈ gtc_requirements c ->
     N.of_nat (count_rank (gtc_participants c) (gtr_rank r)) = gtr_total r) /\
  (forall p, p ∈ gtc_participants c ->
     exists r, r ∈ gtc_requirements c /\ gtr_rank r = rp_rank p).

Lemma GroupedThresholdConfig_new_Ok ps rs c :
  GroupedThresholdConfig_new ps rs = Ok c <->
  c = mkGroupedThresholdConfig ps rs /\ wf_grouped c.
Proof.
  unfold GroupedThresholdConfig_new. split.
  - intros H. inv_ok H. rename select (_ || _ = false) into Hne.
    apply orb_false_iff in Hne as [Hps Hrs]. rewrite !bool_decide_eq_false in Hps, Hrs.
    rename select (foldlM distinct_id_step _ _ = _) into Hd.
    apply distinct_id_loop_Ok in Hd as [Hd _].
    rename select (foldlM (requirement_step _) _ _ = _) into Hr.
    apply requirement_loop_Ok in Hr as (Htot & HN & ->).
    rename select (foldlM (rank_covered_step _) _ _ = _) into Hc.
    rewrite rank_covered_loop_Ok in Hc.
    split; [done|]. unfold wf_grouped; simpl. split_and!; try done.
    intros p Hp. by apply rank_seen, Hc.
  - intros (-> & Hps & Hrs & HN & HNr & Htot & Hcov). simpl in *.
    rewrite !bool_decide_eq_false_2 by done. simpl.
    rewrite (proj2 (distinct_id_loop_Ok ps _) (conj HN eq_refl)). simpl.
    rewrite (proj2 (requirement_loop_Ok ps rs _) (conj Htot (conj HNr eq_refl))). simpl.
    by rewrite (proj2 (rank_covered_loop_Ok _ ps tt)) by (intros p Hp; by apply rank_seen, Hcov).
Qed.

(** [GroupedThresholdConfig::new] accepts participants and requirements
    exactly when both are non-empty, identifiers are distinct, each rank has
    one requirement whose declared total is the number of participants of that
    rank, and every participant's rank has a requirement. *)
Theorem grouped_new_iff ps rs c :
  GroupedThresholdConfig_new ps rs = Ok c <->
  c = mkGroupedThresholdConfig ps rs /\ wf_grouped c.
Proof. apply GroupedThresholdConfig_new_Ok. Qed.

Lemma valid_ids_length ps :
  distinct_ids ps -> valid_ids ps -> (N.of_nat (length ps) <= u16_max)%N.
Proof.
  intros HN Hv. rewrite <- (length_fmap (pid_0 ∘ rp_id)).
  enough (length (pid_0 ∘ rp_id <$> ps) <= N.to_nat u16_max) by lia.
  apply (NoDup_interval_length 1); [done|].
  intros x (p & -> & Hp)%list_elem_of_fmap. specialize (Hv p Hp). simpl. lia.
Qed.

(** The requirements' totals add up to the number of participants. *)
Lemma wf_grouped_totals c :
  wf_grouped c ->
  sumN gtr_total (gtc_requirements c) = N.of_nat (length (gtc_participants c)).
Proof.
  intros (_ & _ & _ & HN & Htot & Hcov).
  rewrite (sumN_ext gtr_total
    (fun r => N.of_nat (count_rank (gtc_participants c) (gtr_rank r)))).
  2: { intros r Hr. symmetry. by apply Htot. }
  transitivity (sumN (fun k => N.of_nat (length (filter
      (fun p => rp_rank p = k) (gtc_participants c)))) (gtr_rank <$> gtc_requirements c)).
  { by rewrite sumN_fmap. }
  rewrite sumN_count_classes.
  - f_equal. apply length_filter_all. intros p Hp.
    destruct (Hcov p Hp) as (r & Hr & <-). apply list_elem_of_fmap. eauto.
  - apply (NoDup_fmap_1 rank_0). by rewrite <- list_fmap_compose.
Qed.

Lemma wf_grouped_threshold_config c :
  wf_grouped c -> valid_ids (gtc_participants c) ->
  (forall r, r ∈ gtc_requirements c -> valid_requirement r) ->
  GroupedThresholdConfig_required_signer_count c =
    Ok (sumN gtr_required (gtc_requirements c)) /\
  GroupedThresholdConfig_participant_count c = N.of_nat (length (gtc_participants c)) /\
  GroupedThresholdConfig_threshold_config c =
    Ok (mkThresholdConfig (sumN gtr_required (gtc_requirements c))
                          (N.of_nat (length (gtc_participants c)))).
Proof.
  intros Hwf Hids Hreq.
  assert (Hlen : (N.of_nat (length (gtc_participants c)) <= u16_max)%N).
  { apply valid_ids_length; [apply Hwf|done]. }
  assert (Hsum : (sumN gtr_required (gtc_requirements c)
                  <= N.of_nat (length (gtc_participants c)))%N).
  { rewrite <- wf_grouped_totals by done. apply sumN_le. intros r Hr.
    specialize (Hreq r Hr). unfold valid_requirement in Hreq. lia. }
  assert (Hpos : (1 <= sumN gtr_required (gtc_requirements c))%N).
  { destruct Hwf as (_ & Hne & _).
    destruct (gtc_requirements c) as [|r rs] eqn:E; [done|]. simpl.
    assert (valid_requirement r) as Hv by (apply Hreq; rewrite ?E; left).
    unfold valid_requirement in Hv. lia. }
  assert (Hr : GroupedThresholdConfig_required_signer_count c =
               Ok (sumN gtr_required (gtc_requirements c))).
  { unfold GroupedThresholdConfig_required_signer_count.
    rewrite u16_sum_spec by (unfold u16_max; lia).
    rewrite N.add_0_l. by destruct (N.leb_spec (sumN gtr_required (gtc_requirements c)) u16_max);
      [|lia]. }
  assert (Hc : GroupedThresholdConfig_participant_count c =
               N.of_nat (length (gtc_participants c))).
  { apply N.mod_small. unfold u16_max in Hlen. lia. }
  split_and!; [done|done|]. unfold GroupedThresholdConfig_threshold_config.
  rewrite Hr, Hc. simpl. apply ThresholdConfig_new_Ok. by split; [lia|].
Qed.

(** C38: for a grouped policy built from valid identifiers and valid
    requirements, the [u16] sum in [required_signer_count] cannot overflow,
    [participant_count] is not truncated, and [threshold_config] succeeds with
    the sum of the group quorums over the number of participants. *)
Theorem grouped_threshold_config_total c :
  wf_grouped c -> valid_ids (gtc_participants c) ->
  (forall r, r ∈ gtc_requirements c -> valid_requirement r) ->
  GroupedThresholdConfig_required_signer_count c =
    Ok (sumN gtr_required (gtc_requirements c)) /\
  GroupedThresholdConfig_participant_count c = N.of_nat (length (gtc_participants c)) /\
  GroupedThresholdConfig_threshold_config c =
    Ok (mkThresholdConfig (sumN gtr_required (gtc_requirements c))
                          (N.of_nat (length (gtc_participants c)))).
Proof. exact (wf_grouped_threshold_config c). Qed.

Lemma grouped_threshold_config_total_witness :
  let ps := [mkRankedParticipant (mkParticipantId 1) (mkRank 0) None;
             mkRankedParticipant (mkParticipantId 2) (mkRank 1) None;
             mkRankedParticipant (mkParticipantId 3) (mkRank 1) None] in
  let rs := [mkGroupThresholdRequirement (mkRank 0) 1 1;
             mkGroupThresholdRequirement (mkRank 1) 1 2] in
  let c := mkGroupedThresholdConfig ps rs in
  GroupedThresholdConfig_threshold_config c = Ok (mkThresholdConfig 2 3).
Proof.
  intros ps rs c. apply (grouped_threshold_config_total c).
  - apply (GroupedThresholdConfig_new_Ok ps rs c). vm_compute. reflexivity.
  - intros p Hp. unfold c, ps in Hp. simpl in Hp. rewrite !elem_of_cons in Hp.
    destruct Hp as [->|[->|[->|Hp]]]; [vm_compute; split; discriminate..|].
    by apply not_elem_of_nil in Hp.
  - intros r Hr. unfold c, rs in Hr. simpl in Hr. rewrite !elem_of_cons in Hr.
    destruct Hr as [->|[->|Hr]]; [vm_compute; split; discriminate..|].
    by apply not_elem_of_nil in Hr.
Defined.

(** ** Properties of sessions and message kinds *)

Lemma session_participant_step_Ok n seen p s' :
  session_participant_step n seen p = Ok s' <->
  (pid_0 (p_id p) <= n)%N /\ (pid_0 (p_id p) ∉ seen) /\
  s' = ({[pid_0 (p_id p)]} ∪ seen).
Proof.
  unfold session_participant_step, reject_if.
  destruct (N.ltb_spec n (pid_0 (p_id p))); simpl; [naive_solver lia|].
  case_decide; naive_solver.
Qed.

Lemma SessionConfig_new_Ok sid t n ps c :
  SessionConfig_new sid t n ps = Ok c ->
  c = mkSessionConfig (mkSessionId sid) (mkThresholdConfig t n) ps /\
  (1 <= t <= n)%N /\ N.of_nat (length ps) = n /\ blank sid = false /\
  (forall p, p ∈ ps -> pid_0 (p_id p) <= n)%N /\ NoDup (pid_0 ∘ p_id <$> ps).
Proof.
  unfold SessionConfig_new, SessionId_new. intros H. inv_ok H.
  rename select (ThresholdConfig_new _ _ = _) into Ht.
  apply ThresholdConfig_new_Ok in Ht as [Ht ->].
  rename select (negb _ = false) into Hlen.
  apply negb_false_iff, N.eqb_eq in Hlen.
  rename select (foldlM _ _ _ = _) into Hl.
  apply (seen_loop_Ok (pid_0 ∘ p_id) _ _ (session_participant_step_Ok n)) in Hl
    as (HF & HN & _). rewrite Forall_forall in HF. split_and!; first [done|lia].
Qed.

(** The conditions are also sufficient. *)
Lemma SessionConfig_new_complete sid t n ps :
  (1 <= t <= n)%N -> N.of_nat (length ps) = n -> blank sid = false ->
  (forall p, p ∈ ps -> pid_0 (p_id p) <= n)%N -> NoDup (pid_0 ∘ p_id <$> ps) ->
  SessionConfig_new sid t n ps =
  Ok (mkSessionConfig (mkSessionId sid) (mkThresholdConfig t n) ps).
Proof.
  intros Ht Hlen Hs Hle HN. unfold SessionConfig_new, SessionId_new.
  rewrite (proj2 (ThresholdConfig_new_Ok t n _)) by done. rewrite ok_bind.
  rewrite (proj2 (N.eqb_eq _ _) Hlen). cbn [negb reject_if]. rewrite ok_bind.
  assert (Hf : foldlM (session_participant_step n) ∅ ps =
               Ok (list_to_set (pid_0 ∘ p_id <$> ps) ∪ ∅)).
  { apply (seen_loop_Ok (pid_0 ∘ p_id) _ _ (session_participant_step_Ok n)).
    split_and!; [by apply Forall_forall|done|set_solver|done]. }
  rewrite Hf, ok_bind, Hs. done.
Qed.

Lemma find_by_id (ps : list Participant) id :
  id ∈ (p_id <$> ps) ->
  exists p, List.find (fun p => bool_decide (p_id p = id)) ps = Some p /\ p_id p = id.
Proof.
  intros (q & -> & Hq)%list_elem_of_fmap.
  destruct (List.find _ ps) as [p|] eqn:Hf.
  - exists p; split; [done|]. apply List.find_some in Hf as [_ Hb].
    by apply bool_decide_eq_true in Hb.
  - apply list_elem_of_In in Hq. apply (List.find_none _ _ Hf) in Hq.
    by rewrite bool_decide_eq_false in Hq.
Qed.

(** A session accepted by [SessionConfig::new] whose participants carry
    non-zero identifiers numbers them [1..=n] in some order, and
    [SessionConfig::participant] finds each of those identifiers. *)
Theorem session_participants_numbered sid t n ps c :
  SessionConfig_new sid t n ps = Ok c ->
  (forall p, p ∈ ps -> 1 <= pid_0 (p_id p))%N ->
  (pid_0 ∘ p_id <$> sc_participants c) ≡ₚ (N.of_nat <$> seq 1 (N.to_nat n)) /\
  (forall k, 1 <= k <= n -> exists p,
     SessionConfig_participant c (mkParticipantId k) = Some p /\ pid_0 (p_id p) = k)%N.
Proof.
  intros (-> & _ & Hlen & _ & Hle & HN)%SessionConfig_new_Ok Hpos; simpl.
  assert (Hperm : (pid_0 ∘ p_id <$> ps) ≡ₚ (N.of_nat <$> seq 1 (N.to_nat n))).
  { apply submseteq_length_Permutation.
    - apply NoDup_submseteq; [done|].
      intros x (p & -> & Hp)%list_elem_of_fmap. apply list_elem_of_fmap.
      exists (N.to_nat (pid_0 (p_id p))). specialize (Hle p Hp). specialize (Hpos p Hp).
      rewrite elem_of_seq. simpl. lia.
    - rewrite !length_fmap, length_seq. lia. }
  split; [done|]. intros k Hk. unfold SessionConfig_participant; simpl.
  destruct (find_by_id ps (mkParticipantId k)) as (p & Hf & Hid).
  { assert (Hin : k ∈ (pid_0 ∘ p_id <$> ps)).
    { rewrite Hperm, list_elem_of_fmap. exists (N.to_nat k). rewrite elem_of_seq. lia. }
    apply list_elem_of_fmap in Hin as (p & -> & Hp). apply list_elem_of_fmap.
    exists p; split; [by simpl; destruct (p_id p)|done]. }
  exists p; split; [done|]. by rewrite Hid.
Qed.

Lemma session_participants_numbered_witness :
  let ps := [mkParticipant (mkParticipantId 2) None; mkParticipant (mkParticipantId 1) None] in
  exists p, SessionConfig_participant
              (mkSessionConfig (mkSessionId "s") (mkThresholdConfig 2 2) ps)
              (mkParticipantId 2) = Some p /\ pid_0 (p_id p) = 2%N.
Proof.
  intros ps. apply (session_participants_numbered "s" 2 2 ps); [reflexivity| |lia].
  intros p Hp. unfold ps in Hp. rewrite !elem_of_cons in Hp.
  destruct Hp as [->|[->|Hp]]; [vm_compute; discriminate..|]. by apply not_elem_of_nil in Hp.
Defined.

(** The strings [From<&str>] reads as one of the built-in kinds. *)
Definition reserved_kind_names : list string :=
  ["session_manifest"; "frost_dkg_round1"; "round1"; "frost_dkg_round2"; "round2";
   "htss_dkg_round1"; "htss_dkg_round2"; "frost_signing_nonce"; "nonce";
   "frost_signature_share"; "signature_share"; "htss_signing_nonce";
   "htss_signature_share"].

(** Reading back the wire name of a message kind gives the kind, for every
    built-in kind and for exactly the custom kinds whose name is not one of the
    thirteen reserved strings. *)
Theorem kind_wire_name_roundtrip k :
  ProtocolMessageKind_from (ProtocolMessageKind_as_str k) = k <->
  (forall v, k = Custom v -> v ∉ reserved_kind_names).
Proof.
  split.
  - intros H v -> Hin. unfold reserved_kind_names in Hin.
    repeat (apply elem_of_cons in Hin as [->|Hin]; [vm_compute in H; discriminate|]).
    by apply not_elem_of_nil in Hin.
  - destruct k; try (intros _; reflexivity). intros Hv. specialize (Hv _ eq_refl).
    unfold reserved_kind_names in Hv.
    repeat (apply not_elem_of_cons in Hv as [? Hv]). unfold ProtocolMessageKind_from; simpl.
    by repeat (rewrite decide_False by naive_solver).
Qed.
