(* ===== verification/TestKit.v ===== *)
(** What the unit tests of the crates are written with: [unwrap], [unwrap_err],
    [assert!] and its variants, the [Display] text of errors, and the tests on
    texts.

    A test of the repository is a definition that computes an [Outcome]: a
    failing assertion or [unwrap] is [Panic], and the test passes when it ends
    with [Ok tt].  The files [CoreTests], [FrostTests], [FrostRunTests],
    [FrostSessionTests], [NostrTests], [LiveNostrTests], [SdkTests], [BitcoinTests]
    and [RelayTests] hold the tests and prove that they pass. *)

From Stdlib Require Import Ascii String.
From stdpp Require Import base numbers countable gmap strings list.
From S2P Require Import Prelude Core.

(** ** Assertions *)

Definition unwrap {E E' A} (o : Outcome E A) : Outcome E' A :=
  match o with Ok a => Ok a | _ => Panic end.

Definition unwrap_err {E E' A} (o : Outcome E A) : Outcome E' E :=
  match o with Err e => Ok e | _ => Panic end.

Definition assert {E} (b : bool) : Outcome E unit := if b then Ok tt else Panic.

Definition assert_eq {E A} `{EqDecision A} (x y : A) : Outcome E unit :=
  assert (bool_decide (x = y)).

Definition assert_ne {E A} `{EqDecision A} (x y : A) : Outcome E unit :=
  assert (bool_decide (x <> y)).

(** [l[i]] *)
Definition index {E A} (l : list A) (i : nat) : Outcome E A := expect (l !! i).

(** The same for methods on a state. *)
Definition st_unwrap {St E E' A} (m : ST St E A) : ST St E' A :=
  fun s => let '(s', o) := m s in (s', unwrap o).

Definition st_unwrap_err {St E E' A} (m : ST St E A) : ST St E' E :=
  fun s => let '(s', o) := m s in (s', unwrap_err o).

(** A [for] loop in a scenario with a state. *)
Fixpoint st_foldlM {St E A B} (step : B -> A -> ST St E B) (b : B) (l : list A) : ST St E B :=
  match l with
  | [] => mret b
  | x :: l => b ← step b x; st_foldlM step b l
  end.

(** ** Texts *)

(** [s.contains(needle)] and [s.starts_with(prefix)] *)
Definition text_contains (needle s : string) : bool :=
  match String.index 0 needle s with Some _ => true | None => false end.

Definition text_starts_with (prefix s : string) : bool := String.prefix prefix s.

(** [s.repeat(n)] *)
Fixpoint text_repeat (s : string) (n : nat) : string :=
  match n with O => "" | S n => s +:+ text_repeat s n end.

(** The [#[error(..)]] attributes of [DkgKitError]. *)
Definition DkgKitError_to_string (e : DkgKitError) : string :=
  match e with
  | InvalidThreshold threshold participants =>
      "invalid threshold config: threshold=" +:+ dec threshold +:+ ", participants="
      +:+ dec participants
  | InvalidParticipantId id => "invalid participant id: " +:+ dec id
  | ParticipantCountMismatch expected actual =>
      "participant count mismatch: expected " +:+ dec expected +:+ ", got " +:+ dec_nat actual
  | DuplicateParticipantId id => "duplicate participant id: " +:+ dec id
  | ParticipantOutOfRange participant_id participants =>
      "participant id " +:+ dec participant_id +:+ " exceeds configured participant count "
      +:+ dec participants
  | MissingRankedParticipant id => "missing ranked participant id: " +:+ dec id
  | EmptySessionId => "session id cannot be empty"
  | EmptyMessageKind => "protocol message kind cannot be empty"
  | Serialization what => "serialization error: " +:+ what
  | Protocol what => "protocol error: " +:+ what
  | Transport_ what => "transport error: " +:+ what
  | NotImplemented what => "feature not implemented yet: " +:+ what
  end.

(** ** Passing *)

Definition passes {E A} (test : Outcome E A) : Prop := exists a, test = Ok a.

Definition st_passes {St E A} (test : ST St E A) (s : St) : Prop := passes (test s).2.

(** Boolean forms, for evaluation. *)
Lemma passes_assert {E} (b : bool) : b = true -> passes (assert b : Outcome E unit).
Proof. intros ->. by eexists. Qed.

Lemma assert_eq_same {E A} `{EqDecision A} (x : A) : assert_eq x x = (Ok tt : Outcome E unit).
Proof. unfold assert_eq. by rewrite bool_decide_eq_true_2. Qed.

Lemma passes_assert_eq {E A} `{EqDecision A} (x y : A) :
  x = y -> passes (assert_eq x y : Outcome E unit).
Proof. intros ->. rewrite assert_eq_same. by eexists. Qed.

Lemma passes_is_ok {E A} (test : Outcome E A) : is_ok test = true -> passes test.
Proof. destruct test; [by eexists|done..]. Qed.

Section passing.
Context {St E E' A B : Type}.

Lemma st_unwrap_Ok (m : ST St E A) s s' a :
  m s = (s', Ok a) -> (st_unwrap m : ST St E' A) s = (s', Ok a).
Proof. unfold st_unwrap. by intros ->. Qed.

Lemma st_unwrap_err_Err (m : ST St E A) s s' e :
  m s = (s', Err e) -> (st_unwrap_err m : ST St E' E) s = (s', Ok e).
Proof. unfold st_unwrap_err. by intros ->. Qed.

Lemma st_unwrap_bind (m : ST St E A) (k : A -> ST St E' B) s s' a :
  m s = (s', Ok a) -> (st_unwrap m ≫= k) s = k a s'.
Proof. intros Hm. by rewrite (st_bind_Ok _ _ _ _ _ (st_unwrap_Ok m s s' a Hm)). Qed.

(** Stepping through a scenario. *)
Lemma st_passes_bind (m : ST St E A) (k : A -> ST St E B) s s' a :
  m s = (s', Ok a) -> st_passes (k a) s' -> st_passes (m ≫= k) s.
Proof. intros Hm Hk. unfold st_passes. by rewrite (st_bind_Ok _ _ _ _ _ Hm). Qed.

Lemma st_passes_lift (o : Outcome E A) (k : A -> ST St E B) s a :
  o = Ok a -> st_passes (k a) s -> st_passes (st_lift o ≫= k) s.
Proof. intros ->. done. Qed.

Lemma st_passes_last (o : Outcome E A) (s : St) : passes o -> st_passes (st_lift o) s.
Proof. done. Qed.
End passing.
