(* ===== verification/Codec.v ===== *)
(** Wire encodings.  [serde_json] and [bincode] are third-party crates: the
    classes [SerdeJson] and [Bincode] hold what the sources call of them, and
    [SerdeJsonLaws] and [BincodeLaws] what the sources rely on.  The payload
    helpers of [crates/dkgkit-frost/src/lib.rs] and the envelope helpers of
    [crates/dkgkit-core/src/lib.rs] are defined over the classes.

    The last section instantiates the classes with a concrete codec (the
    digits of an injective encoding), which shows that the laws can hold and
    makes every definition that uses the classes executable. *)

From Stdlib Require Import Ascii String Strings.Byte.
From stdpp Require Import base numbers countable gmap strings list.
From S2P Require Import Prelude Core.

(** ** Text as bytes *)

Definition byte_in (lo hi : N) (b : byte) : bool :=
  ((lo <=? Byte.to_N b) && (Byte.to_N b <=? hi))%N.

(** The well-formed UTF-8 byte sequences. *)
Fixpoint utf8_valid (bs : bytes) : bool :=
  match bs with
  | [] => true
  | b1 :: r1 =>
      if byte_in 0 127 b1 then utf8_valid r1
      else match r1 with
      | [] => false
      | b2 :: r2 =>
          if byte_in 194 223 b1 && byte_in 128 191 b2 then utf8_valid r2
          else match r2 with
          | [] => false
          | b3 :: r3 =>
              if (byte_in 224 224 b1 && byte_in 160 191 b2
                  || byte_in 225 236 b1 && byte_in 128 191 b2
                  || byte_in 237 237 b1 && byte_in 128 159 b2
                  || byte_in 238 239 b1 && byte_in 128 191 b2)
                 && byte_in 128 191 b3
              then utf8_valid r3
              else match r3 with
              | [] => false
              | b4 :: r4 =>
                  (byte_in 240 240 b1 && byte_in 144 191 b2
                   || byte_in 241 243 b1 && byte_in 128 191 b2
                   || byte_in 244 244 b1 && byte_in 128 143 b2)
                  && byte_in 128 191 b3 && byte_in 128 191 b4 && utf8_valid r4
              end
          end
      end
  end.

(** [String::from_utf8(bytes).ok()] and [text.as_bytes()] *)
Definition from_utf8 (bs : bytes) : option string :=
  if utf8_valid bs then Some (String.string_of_list_byte bs) else None.

Definition as_bytes (s : string) : bytes := String.list_byte_of_string s.

Lemma as_bytes_from_utf8 bs s : from_utf8 bs = Some s -> as_bytes s = bs.
Proof.
  unfold from_utf8, as_bytes. case_match; [|done]. intros [= <-].
  apply String.list_byte_of_string_of_list_byte.
Qed.

(** ** The codecs *)

Class SerdeJson (T : Type) := {
  json_to_vec : T -> string + bytes;
  json_from_slice : bytes -> string + T;
}.

(** Serializing plain data succeeds, produces UTF-8 text and is undone by
    deserializing. *)
Class SerdeJsonLaws (T : Type) `{SerdeJson T} : Prop := {
  json_total (x : T) : exists bs, json_to_vec x = inr bs;
  json_utf8 (x : T) bs : json_to_vec x = inr bs -> utf8_valid bs = true;
  json_round_trip (x : T) bs : json_to_vec x = inr bs -> json_from_slice bs = inr x;
}.

Class Bincode (T : Type) := {
  bincode_serialize : T -> string + bytes;
  bincode_deserialize : bytes -> string + T;
}.

Class BincodeLaws (T : Type) `{Bincode T} : Prop := {
  bincode_total (x : T) : exists bs, bincode_serialize x = inr bs;
  bincode_round_trip (x : T) bs :
    bincode_serialize x = inr bs -> bincode_deserialize bs = inr x;
}.

(** [r.map_err(|err| DkgKitError::Serialization(err.to_string()))] *)
Definition serialization {A} (r : string + A) : Result A :=
  match r with inl err => Err (Serialization err) | inr a => Ok a end.

Definition ProtocolMessage_encode_json `{SerdeJson ProtocolMessage}
    (self : ProtocolMessage) : Result bytes := serialization (json_to_vec self).

Definition ProtocolMessage_decode_json `{SerdeJson ProtocolMessage}
    (bs : bytes) : Result ProtocolMessage := serialization (json_from_slice bs).

Definition encode_payload `{SerdeJson T} (payload : T) : Result bytes :=
  serialization (json_to_vec payload).

Definition decode_payload `{SerdeJson T} (bs : bytes) : Result T :=
  serialization (json_from_slice bs).

Definition encode_binary `{Bincode T} (payload : T) : Result bytes :=
  serialization (bincode_serialize payload).

Definition decode_binary `{Bincode T} (bs : bytes) : Result T :=
  serialization (bincode_deserialize bs).

Lemma serialization_Ok {A} (r : string + A) a : serialization r = Ok a <-> r = inr a.
Proof. destruct r; simpl; naive_solver. Qed.

Lemma encode_payload_total `{SerdeJsonLaws T} (x : T) :
  exists bs, encode_payload x = Ok bs /\ decode_payload bs = Ok x /\ utf8_valid bs = true.
Proof.
  destruct (json_total x) as [bs Hbs]. exists bs.
  unfold encode_payload, decode_payload. rewrite !serialization_Ok.
  eauto using json_round_trip, json_utf8.
Qed.

Lemma decode_encode_payload `{SerdeJsonLaws T} (x : T) bs :
  encode_payload x = Ok bs -> decode_payload bs = Ok x.
Proof.
  unfold encode_payload, decode_payload. rewrite !serialization_Ok.
  apply json_round_trip.
Qed.

Lemma decode_encode_binary `{BincodeLaws T} (x : T) bs :
  encode_binary x = Ok bs -> decode_binary bs = Ok x.
Proof.
  unfold encode_binary, decode_binary. rewrite !serialization_Ok.
  apply bincode_round_trip.
Qed.

Lemma encode_binary_total `{BincodeLaws T} (x : T) : exists bs, encode_binary x = Ok bs.
Proof.
  destruct (bincode_total x) as [bs Hbs]. exists bs. by apply serialization_Ok.
Qed.

(** ** A concrete codec *)

(** The bits below the leading one, six to a character; the last five at most
    are characters of their own. *)
Fixpoint bits_of_pos (p : positive) : list bool :=
  match p with
  | xH => []
  | xO p => false :: bits_of_pos p
  | xI p => true :: bits_of_pos p
  end.

Fixpoint pos_of_bits (l : list bool) : positive :=
  match l with
  | [] => xH
  | false :: l => xO (pos_of_bits l)
  | true :: l => xI (pos_of_bits l)
  end.

Definition bit_digit (b : bool) : byte := if b then x31 else x30.

Definition bits_digit (b0 b1 b2 b3 b4 b5 : bool) : byte :=
  Byte.of_bits (b0, (b1, (b2, (b3, (b4, (b5, (true, false))))))).

Fixpoint pack (l : list bool) : bytes :=
  match l with
  | b0 :: b1 :: b2 :: b3 :: b4 :: b5 :: l => bits_digit b0 b1 b2 b3 b4 b5 :: pack l
  | l => bit_digit <$> l
  end.

Definition digit_bits (c : byte) : option (list bool) :=
  match c with
  | x30 => Some [false]
  | x31 => Some [true]
  | _ => match Byte.to_bits c with
         | (b0, (b1, (b2, (b3, (b4, (b5, (true, false))))))) => Some [b0; b1; b2; b3; b4; b5]
         | _ => None
         end
  end.

Fixpoint unpack (bs : bytes) : option (list bool) :=
  match bs with
  | [] => Some []
  | c :: bs =>
      match digit_bits c, unpack bs with
      | Some bits, Some l => Some (bits ++ l)
      | _, _ => None
      end
  end.

Definition digits_of_pos (p : positive) : bytes := pack (bits_of_pos p).

Definition pos_of_digits (bs : bytes) : option positive := pos_of_bits <$> unpack bs.

(** Induction along [pack]. *)
Lemma pack_ind (P : list bool -> bytes -> Prop) :
  P [] [] ->
  (forall b l bs, P l bs -> P (b :: l) (bit_digit b :: bs)) ->
  (forall b0 b1 b2 b3 b4 b5 l bs, P l bs ->
     P (b0 :: b1 :: b2 :: b3 :: b4 :: b5 :: l) (bits_digit b0 b1 b2 b3 b4 b5 :: bs)) ->
  forall l, P l (pack l).
Proof.
  intros Hnil Hone Hsix. fix go 1.
  intros [|b0 [|b1 [|b2 [|b3 [|b4 [|b5 l]]]]]]; cbn [pack fmap list_fmap]; first [apply Hsix; apply go|repeat first [apply Hone|apply Hnil]].
Qed.

Lemma unpack_pack l : unpack (pack l) = Some l.
Proof.
  apply (pack_ind (fun l bs => unpack bs = Some l)); [done|..]; intros; cbn [unpack].
  - by destruct b; cbn [bit_digit digit_bits]; rewrite H.
  - rewrite H. by destruct b0, b1, b2, b3, b4, b5.
Qed.

Lemma pos_of_digits_of_pos p : pos_of_digits (digits_of_pos p) = Some p.
Proof.
  unfold pos_of_digits, digits_of_pos. rewrite unpack_pack. cbn. f_equal.
  induction p as [p IH|p IH|]; cbn; by rewrite ?IH.
Qed.

Lemma digits_of_pos_utf8 p : utf8_valid (digits_of_pos p) = true.
Proof.
  unfold digits_of_pos. apply (pack_ind (fun _ bs => utf8_valid bs = true)); [done|..];
    intros; cbn [utf8_valid].
  - by destruct b.
  - by destruct b0, b1, b2, b3, b4, b5.
Qed.

Definition digits_decode `{Countable T} (bs : bytes) : string + T :=
  match pos_of_digits bs ≫= decode with
  | Some x => inr x
  | None => inl "invalid encoding"
  end.

Lemma digits_decode_encode `{Countable T} (x : T) :
  digits_decode (digits_of_pos (encode x)) = inr x.
Proof. unfold digits_decode. rewrite pos_of_digits_of_pos. simpl. by rewrite decode_encode. Qed.

Definition digits_json {T : Type} `{Countable T} : SerdeJson T := {|
  json_to_vec x := inr (digits_of_pos (encode x));
  json_from_slice := digits_decode;
|}.

Lemma digits_json_laws {T : Type} `{Countable T} : @SerdeJsonLaws T digits_json.
Proof.
  split; simpl; [by eauto| |].
  - intros x bs [= <-]. apply digits_of_pos_utf8.
  - intros x bs [= <-]. apply digits_decode_encode.
Qed.

Definition digits_bincode {T : Type} `{Countable T} : Bincode T := {|
  bincode_serialize x := inr (digits_of_pos (encode x));
  bincode_deserialize := digits_decode;
|}.

Lemma digits_bincode_laws {T : Type} `{Countable T} : @BincodeLaws T digits_bincode.
Proof.
  split; simpl; [by eauto|]. intros x bs [= <-]. apply digits_decode_encode.
Qed.

Definition kind_to_sum (k : ProtocolMessageKind) : N + string :=
  match k with
  | KSessionManifest => inl 0 | FrostDkgRound1 => inl 1 | FrostDkgRound2 => inl 2
  | HtssDkgRound1 => inl 3 | HtssDkgRound2 => inl 4 | FrostSigningNonce => inl 5
  | FrostSignatureShare => inl 6 | HtssSigningNonce => inl 7 | HtssSignatureShare => inl 8
  | Custom v => inr v
  end%N.

Definition kind_of_sum (s : N + string) : option ProtocolMessageKind :=
  match s with
  | inl 0 => Some KSessionManifest | inl 1 => Some FrostDkgRound1
  | inl 2 => Some FrostDkgRound2 | inl 3 => Some HtssDkgRound1
  | inl 4 => Some HtssDkgRound2 | inl 5 => Some FrostSigningNonce
  | inl 6 => Some FrostSignatureShare | inl 7 => Some HtssSigningNonce
  | inl 8 => Some HtssSignatureShare | inl _ => None
  | inr v => Some (Custom v)
  end%N.

#[export] Program Instance kind_countable : Countable ProtocolMessageKind :=
  inj_countable kind_to_sum kind_of_sum _.
Next Obligation. by intros []. Qed.

#[export] Program Instance protocol_message_countable : Countable ProtocolMessage :=
  inj_countable'
    (fun m => (pm_protocol_version m, pm_session_id m, pm_sender m, pm_recipient m,
               pm_kind m, pm_payload m))
    (fun '(v, s, f, r, k, p) => mkProtocolMessage v s f r k p) _.
Next Obligation. by intros []. Qed.
