(* ===== verification/Transport.v ===== *)
(** [crates/dkgkit-transport/src/lib.rs]: the [Transport] trait, the in-memory
    queue that implements it, and the contract [QueueTransport] that clients
    such as the coordinator of the SDK are proved against. *)

From Stdlib Require Import Ascii String.
From stdpp Require Import base numbers countable gmap strings list.
From S2P Require Import Prelude Core.

(** ** The trait

    The predicate of [drain_matching] is a [&mut dyn FnMut]: it has a state of
    some type [P] of its own, which every call may change. *)

Class Transport (T : Type) := {
  connect : ST T DkgKitError unit;
  disconnect : ST T DkgKitError unit;
  publish : ProtocolMessage -> ST T DkgKitError unit;
  drain_matching {P : Type} :
    SessionId -> (P -> ProtocolMessage -> bool * P) ->
    ST (T * P) DkgKitError (list ProtocolMessage);
}.

(** A predicate without state of its own, as every caller in the workspace
    passes. *)
Definition pure_predicate (f : ProtocolMessage -> bool) :
  unit -> ProtocolMessage -> bool * unit := fun u m => (f m, u).

Definition drain_pure `{Transport T} (session_id : SessionId)
    (f : ProtocolMessage -> bool) : ST T DkgKitError (list ProtocolMessage) :=
  fun t => let '((t', _), r) := drain_matching session_id (pure_predicate f) (t, tt) in
           (t', r).

(** The default method [drain_session]. *)
Definition drain_session `{Transport T} (session_id : SessionId) :
  ST T DkgKitError (list ProtocolMessage) :=
  drain_pure session_id (fun _ => true).

(** ** The in-memory transport *)

Record MemoryTransport := mkMemoryTransport {
  mt_connected : bool;
  mt_messages : list ProtocolMessage;
}.

Definition MemoryTransport_default : MemoryTransport := mkMemoryTransport false [].

Definition MemoryTransport_is_connected (self : MemoryTransport) : bool :=
  mt_connected self.

Definition MemoryTransport_pending_len (self : MemoryTransport) : nat :=
  length (mt_messages self).

Definition MemoryTransport_peek_session (self : MemoryTransport) (session_id : SessionId) :
  list ProtocolMessage :=
  filter (fun m => pm_session_id m = session_id) (mt_messages self).

Definition MemoryTransport_connect : ST MemoryTransport DkgKitError unit :=
  fun self => (mkMemoryTransport true (mt_messages self), Ok tt).

Definition MemoryTransport_disconnect : ST MemoryTransport DkgKitError unit :=
  fun self => (mkMemoryTransport false (mt_messages self), Ok tt).

Definition MemoryTransport_publish (message : ProtocolMessage) :
  ST MemoryTransport DkgKitError unit :=
  fun self => (mkMemoryTransport (mt_connected self) (mt_messages self ++ [message]), Ok tt).

(** The loop of [retain]: the messages that stay, the ones moved out, and the
    predicate's final state.  [&&] calls the predicate only on messages of the
    session. *)
Fixpoint drain_loop {P} (session_id : SessionId)
    (predicate : P -> ProtocolMessage -> bool * P) (p : P) (l : list ProtocolMessage) :
  P * list ProtocolMessage * list ProtocolMessage :=
  match l with
  | [] => (p, [], [])
  | m :: l =>
      let '(take, p) :=
        if decide (pm_session_id m = session_id) then predicate p m else (false, p) in
      let '(p, kept, matched) := drain_loop session_id predicate p l in
      if take then (p, kept, m :: matched) else (p, m :: kept, matched)
  end.

Definition MemoryTransport_drain_matching {P} (session_id : SessionId)
    (predicate : P -> ProtocolMessage -> bool * P) :
  ST (MemoryTransport * P) DkgKitError (list ProtocolMessage) :=
  fun '(self, p) =>
    let '(p, kept, matched) := drain_loop session_id predicate p (mt_messages self) in
    ((mkMemoryTransport (mt_connected self) kept, p), Ok matched).

#[export] Instance memory_transport : Transport MemoryTransport := {|
  connect := MemoryTransport_connect;
  disconnect := MemoryTransport_disconnect;
  publish := MemoryTransport_publish;
  drain_matching P := MemoryTransport_drain_matching (P := P);
|}.

(** ** The contract of a queueing transport

    [accepts] says which messages the transport can carry, [transport_ok]
    which states it can be in. *)

Class QueueTransport (T : Type) `{Transport T} := {
  pending : T -> list ProtocolMessage;
  transport_ok : T -> Prop;
  accepts : ProtocolMessage -> Prop;
  connect_keeps t :
    transport_ok t -> exists t', connect t = (t', Ok tt) /\ transport_ok t' /\
                                 pending t' = pending t;
  disconnect_keeps t :
    transport_ok t -> exists t', disconnect t = (t', Ok tt) /\ transport_ok t' /\
                                 pending t' = pending t;
  publish_appends t m :
    transport_ok t -> accepts m ->
    exists t', publish m t = (t', Ok tt) /\ transport_ok t' /\
               pending t' = pending t ++ [m];
  drain_splits {P} t session_id (predicate : P -> ProtocolMessage -> bool * P) p :
    transport_ok t ->
    exists t', let '(p', kept, matched) := drain_loop session_id predicate p (pending t) in
               drain_matching session_id predicate (t, p) = ((t', p'), Ok matched) /\
               transport_ok t' /\ pending t' = kept;
}.

#[export, refine] Instance memory_queue : QueueTransport MemoryTransport := {|
  pending := mt_messages;
  transport_ok _ := True;
  accepts _ := True;
|}.
Proof.
  - intros t _. by eexists.
  - intros t _. by eexists.
  - intros t m _ _. by eexists.
  - intros P t sid pred p _. simpl.
    destruct (drain_loop sid pred p (mt_messages t)) as [[p' kept] matched]. by eexists.
Defined.

(** ** The drain loop *)

(** Whether a message belongs to the session and passes a stateless test. *)
Definition selected (session_id : SessionId) (f : ProtocolMessage -> bool)
    (m : ProtocolMessage) : Prop := pm_session_id m = session_id /\ f m = true.

#[export] Instance selected_dec sid f m : Decision (selected sid f m).
Proof. apply and_dec; apply _. Defined.

Lemma drain_loop_pure sid f l u :
  drain_loop sid (pure_predicate f) u l =
  (u, filter (fun m => ~ selected sid f m) l, filter (selected sid f) l).
Proof.
  induction l as [|m l IH]; [done|]. simpl. rewrite !filter_cons.
  change (pure_predicate f u m) with (f m, u).
  destruct (decide (pm_session_id m = sid)) as [Hs|Hs]; [destruct (f m) eqn:Hf|];
    rewrite IH.
  - rewrite decide_False, decide_True by (unfold selected; tauto). done.
  - rewrite decide_True, decide_False by (unfold selected; rewrite Hf; naive_solver). done.
  - rewrite decide_True, decide_False by (unfold selected; tauto). done.
Qed.

Lemma drain_loop_predicate {P} sid (pred : P -> ProtocolMessage -> bool * P) p l :
  (drain_loop sid pred p l).1.1 =
  foldl (fun p m => (pred p m).2) p (filter (fun m => pm_session_id m = sid) l).
Proof.
  revert p; induction l as [|m l IH]; intros p; [done|]. simpl. rewrite filter_cons.
  case_decide; simpl.
  - destruct (pred p m) as [b p'] eqn:E. simpl.
    specialize (IH p'). destruct (drain_loop sid pred p' l) as [[? ?] ?]. by destruct b.
  - specialize (IH p). by destruct (drain_loop sid pred p l) as [[? ?] ?].
Qed.

Lemma drain_loop_Permutation {P} sid (pred : P -> ProtocolMessage -> bool * P) p l :
  let '(_, kept, matched) := drain_loop sid pred p l in matched ++ kept ≡ₚ l.
Proof.
  revert p; induction l as [|m l IH]; intros p; simpl; [done|].
  destruct (if decide _ then _ else _) as [b p'].
  specialize (IH p'). destruct (drain_loop sid pred p' l) as [[p'' kept] matched].
  destruct b; simpl; [by rewrite IH|]. by rewrite <- Permutation_middle, IH.
Qed.

(** Against the contract: a drain with a stateless test removes the selected
    messages, in order, and keeps the others, in order. *)
Lemma drain_pure_spec `{QueueTransport T} t sid f :
  transport_ok t ->
  exists t', drain_pure sid f t = (t', Ok (filter (selected sid f) (pending t))) /\
             transport_ok t' /\
             pending t' = filter (fun m => ~ selected sid f m) (pending t).
Proof.
  intros Hok. destruct (drain_splits t sid (pure_predicate f) tt Hok) as [t' Ht].
  rewrite drain_loop_pure in Ht. destruct Ht as (Hd & Hok' & Hp).
  exists t'. unfold drain_pure. by rewrite Hd.
Qed.

Lemma publish_all_spec `{QueueTransport T} t ms :
  transport_ok t -> Forall accepts ms ->
  exists t', mapM publish ms t = (t', Ok (replicate (length ms) tt)) /\
             transport_ok t' /\ pending t' = pending t ++ ms.
Proof.
  intros Hok HF. revert t Hok. induction HF as [|m ms Hm HF IH]; intros t Hok.
  - exists t. by rewrite app_nil_r.
  - destruct (publish_appends t m Hok Hm) as (t1 & Ht1 & Hok1 & Hp1).
    destruct (IH t1 Hok1) as (t2 & Ht2 & Hok2 & Hp2). exists t2. split_and!; [|done|].
    + rewrite st_mapM_cons, (st_bind_Ok _ _ _ _ _ Ht1). by rewrite (st_bind_Ok _ _ _ _ _ Ht2).
    + by rewrite Hp2, Hp1, <- app_assoc.
Qed.

(** ** Properties of the in-memory transport *)

(** Draining with an arbitrary, stateful predicate loses and invents no
    message (the drained and the remaining messages together are a
    permutation of the queue), and the predicate is called exactly once per
    message of the session, in queue order. *)
Theorem memory_drain_conserves {P} t sid (pred : P -> ProtocolMessage -> bool * P) p :
  exists t' matched,
    drain_matching sid pred (t, p) =
      ((t', foldl (fun p m => (pred p m).2) p (MemoryTransport_peek_session t sid)),
       Ok matched) /\
    matched ++ mt_messages t' ≡ₚ mt_messages t /\
    mt_connected t' = mt_connected t.
Proof.
  simpl. unfold MemoryTransport_drain_matching, MemoryTransport_peek_session.
  rewrite <- drain_loop_predicate.
  pose proof (drain_loop_Permutation sid pred p (mt_messages t)) as Hperm.
  destruct (drain_loop sid pred p (mt_messages t)) as [[p' kept] matched]. simpl.
  by eexists _, matched.
Qed.

(** *** Refinement: one FIFO queue per session *)

(** An operation a client performs on a transport, with a stateless test for
    the drains. *)
Inductive transport_op : Type :=
  | OpConnect
  | OpDisconnect
  | OpPublish (m : ProtocolMessage)
  | OpDrain (session_id : SessionId) (f : ProtocolMessage -> bool).

Definition transport_step `{Transport T} (t : T) (op : transport_op) :
  T * Result (list ProtocolMessage) :=
  match op with
  | OpConnect => let '(t, r) := connect t in (t, (fun _ => []) <$> r)
  | OpDisconnect => let '(t, r) := disconnect t in (t, (fun _ => []) <$> r)
  | OpPublish m => let '(t, r) := publish m t in (t, (fun _ => []) <$> r)
  | OpDrain sid f => drain_pure sid f t
  end.

Fixpoint transport_run `{Transport T} (t : T) (ops : list transport_op) :
  T * list (Result (list ProtocolMessage)) :=
  match ops with
  | [] => (t, [])
  | op :: ops =>
      let '(t, out) := transport_step t op in
      let '(t, outs) := transport_run t ops in (t, out :: outs)
  end.

(** The specification: every session has a queue of its own; the other
    sessions' queues are not involved in a publish or a drain. *)
Definition queues : Type := SessionId -> list ProtocolMessage.

Definition queues_step (q : queues) (op : transport_op) :
  queues * Result (list ProtocolMessage) :=
  match op with
  | OpConnect | OpDisconnect => (q, Ok [])
  | OpPublish m =>
      (fun s => if decide (s = pm_session_id m) then q s ++ [m] else q s, Ok [])
  | OpDrain sid f =>
      (fun s => if decide (s = sid) then filter (fun m => f m = false) (q s) else q s,
       Ok (filter (fun m => f m = true) (q sid)))
  end.

Fixpoint queues_run (q : queues) (ops : list transport_op) :
  queues * list (Result (list ProtocolMessage)) :=
  match ops with
  | [] => (q, [])
  | op :: ops =>
      let '(q, out) := queues_step q op in
      let '(q, outs) := queues_run q ops in (q, out :: outs)
  end.

(** The simulation relation: what is pending for a session is its queue. *)
Definition session_view (l : list ProtocolMessage) (s : SessionId) : list ProtocolMessage :=
  filter (fun m => pm_session_id m = s) l.

Definition implements `{QueueTransport T} (t : T) (q : queues) : Prop :=
  transport_ok t /\ forall s, session_view (pending t) s = q s.

(** The messages of an operation are such that the transport carries them. *)
Definition op_accepted `{QueueTransport T} (op : transport_op) : Prop :=
  match op with OpPublish m => accepts m | _ => True end.

Section refinement.
Context `{QueueTransport T}.

Lemma transport_step_simulates t q op :
  implements t q -> op_accepted op ->
  implements (transport_step t op).1 (queues_step q op).1 /\
  (transport_step t op).2 = (queues_step q op).2.
Proof.
  unfold implements, session_view. intros [Hok Hq] Hop. destruct op as [| |m|sid f].
  - destruct (connect_keeps t Hok) as (t' & Ht & Hok' & Hp). cbn. rewrite Ht. cbn. by rewrite Hp.
  - destruct (disconnect_keeps t Hok) as (t' & Ht & Hok' & Hp). cbn. rewrite Ht. cbn. by rewrite Hp.
  - destruct (publish_appends t m Hok Hop) as (t' & Ht & Hok' & Hp). cbn. rewrite Ht. cbn.
    split; [|done]. split; [done|]. intros s. rewrite Hp, filter_app, Hq.
    rewrite filter_cons, filter_nil. repeat case_decide; subst; rewrite ?app_nil_r; naive_solver.
  - destruct (drain_pure_spec t sid f Hok) as (t' & Ht & Hok' & Hp). cbn. rewrite Ht. cbn. split.
    + split; [done|]. intros s. rewrite Hp, list_filter_filter. case_decide; subst.
      * rewrite <- Hq, list_filter_filter. apply list_filter_iff. intros m.
        unfold selected. destruct (f m); naive_solver.
      * rewrite <- Hq. apply list_filter_iff. intros m. unfold selected. naive_solver.
    + f_equal. rewrite <- Hq, list_filter_filter. apply list_filter_iff. intros m.
      unfold selected. naive_solver.
Qed.

Lemma transport_run_simulates ops : forall t q,
  implements t q -> Forall op_accepted ops ->
  implements (transport_run t ops).1 (queues_run q ops).1 /\
  (transport_run t ops).2 = (queues_run q ops).2.
Proof.
  induction ops as [|op ops IH]; intros t q Hq HF; [done|].
  apply Forall_cons in HF as [Hop HF].
  destruct (transport_step_simulates t q op Hq Hop) as [Hs Hout].
  cbn [transport_run queues_run].
  destruct (transport_step t op) as [t1 o1], (queues_step q op) as [q1 o1']. cbn [fst snd] in *.
  destruct (IH t1 q1 Hs HF) as [Hs2 Houts].
  destruct (transport_run t1 ops), (queues_run q1 ops). cbn [fst snd] in *. by subst.
Qed.
End refinement.

(** C28: the in-memory transport refines one first-in first-out queue per
    session: for every interleaving of connects, disconnects, publishes and
    drains over any number of sessions, the single shared vector returns the
    results that independent per-session queues return, and at every point
    [peek_session] shows the session's queue. *)
Theorem memory_refines_session_queues ops t q :
  (forall s, MemoryTransport_peek_session t s = q s) ->
  (forall s, MemoryTransport_peek_session (transport_run t ops).1 s = (queues_run q ops).1 s) /\
  (transport_run t ops).2 = (queues_run q ops).2.
Proof.
  intros Hq. destruct (transport_run_simulates ops t q) as [[_ Hr] Hout]; [done| |done].
  apply Forall_forall. by intros [] _.
Qed.

Lemma memory_refines_session_queues_witness :
  let m := ProtocolMessage_broadcast (mkSessionId "a") (mkParticipantId 1) FrostDkgRound1 [] in
  let ops := [OpConnect; OpPublish m; OpPublish m; OpDrain (mkSessionId "a") (fun _ => true)] in
  (transport_run MemoryTransport_default ops).2 = (queues_run (fun _ => []) ops).2.
Proof.
  intros m ops.
  apply (memory_refines_session_queues ops MemoryTransport_default (fun _ => [])).
  intros sid. reflexivity.
Defined.
