(* ===== verification/CoreTests.v ===== *)
(** The unit tests of [crates/dkgkit-core/src/lib.rs] and
    [crates/dkgkit-transport/src/lib.rs], as scenarios over [Core] and
    [Transport], and the proof that they pass. *)

From Stdlib Require Import Ascii String Strings.Byte.
From stdpp Require Import base numbers countable gmap strings list.
From S2P Require Import Prelude Core TestKit Codec Transport.

(** ** [dkgkit-core] *)

Section core.

Definition participant (id : N) : Result Participant :=
  unwrap (Participant_new id (Some ("party-" +:+ dec id))).

(** [ranked(id, rank)] *)
Definition ranked_participant (id rank : N) : Result RankedParticipant :=
  unwrap (RankedParticipant_new id rank (Some ("party-" +:+ dec id))).

(** The vectors of participants that the tests write out. *)
Definition ranked_vec (l : list (N * N)) : Result (list RankedParticipant) :=
  mapM (fun '(id, rank) => ranked_participant id rank) l.

Definition requirement_vec (l : list (N * N * N)) : Result (list GroupThresholdRequirement) :=
  mapM (fun '(rank, required, total) => unwrap (GroupThresholdRequirement_new rank required total)) l.

Definition threshold_config_rejects_impossible_shapes : Result unit :=
  assert (is_err (ThresholdConfig_new 0 3));;
  assert (is_err (ThresholdConfig_new 4 3));;
  assert (is_ok (ThresholdConfig_new 2 3)).

Definition hierarchical_threshold_config_allows_shared_ranks : Result unit :=
  participants ← ranked_vec [(1, 0); (2, 1); (3, 1); (4, 2)]%N;
  config ← unwrap (HierarchicalThresholdConfig_new 3 participants);
  assert_eq (HierarchicalThresholdConfig_participant_count config) 4%N;;
  three ← unwrap (ParticipantId_new 3);
  assert_eq (HierarchicalThresholdConfig_rank_of config three) (Some (mkRank 1));;
  threshold ← unwrap (HierarchicalThresholdConfig_threshold_config config);
  assert_eq (tc_threshold threshold) 3%N.

Definition hierarchical_threshold_config_rejects_duplicate_participants : Result unit :=
  participants ← ranked_vec [(1, 0); (1, 1)]%N;
  err ← unwrap_err (HierarchicalThresholdConfig_new 2 participants);
  assert_eq err (DuplicateParticipantId 1).

Definition grouped_threshold_config_supports_per_rank_quorums : Result unit :=
  participants ← ranked_vec [(1, 0); (2, 0); (3, 1); (4, 1); (5, 1)]%N;
  requirements ← requirement_vec [(1, 2, 3); (0, 1, 2)]%N;
  config ← unwrap (GroupedThresholdConfig_new participants requirements);
  assert_eq (GroupedThresholdConfig_participant_count config) 5%N;;
  required ← GroupedThresholdConfig_required_signer_count config;
  assert_eq required 3%N;;
  threshold ← unwrap (GroupedThresholdConfig_threshold_config config);
  assert_eq (tc_threshold threshold) 3%N;;
  four ← unwrap (ParticipantId_new 4);
  assert_eq (GroupedThresholdConfig_rank_of config four) (Some (mkRank 1)).

Definition grouped_threshold_config_rejects_declared_total_mismatch : Result unit :=
  participants ← ranked_vec [(1, 0); (2, 0)]%N;
  requirements ← requirement_vec [(1, 2, 3)]%N;
  err ← unwrap_err (GroupedThresholdConfig_new participants requirements);
  assert (text_contains "total mismatch" (DkgKitError_to_string err)).

Definition session_config_rejects_duplicate_participants : Result unit :=
  participants ← mapM participant [1; 1; 3]%N;
  err ← unwrap_err (SessionConfig_new "demo" 2 3 participants);
  assert_eq err (DuplicateParticipantId 1).

Definition session_manifest_defaults_to_frost_created : Result unit :=
  participants ← mapM participant [1; 2; 3]%N;
  config ← unwrap (SessionConfig_new "demo" 2 3 participants);
  let manifest := SessionManifest_frost_v1 config in
  assert_eq (sm_protocol manifest) "frost";;
  assert_eq (sm_phase manifest) Created.

Definition protocol_message_defaults_to_broadcast_current_version : Result unit :=
  session_id ← unwrap (SessionId_new "demo");
  sender ← unwrap (ParticipantId_new 1);
  let message := ProtocolMessage_new session_id sender FrostDkgRound1 [x01; x02; x03] in
  assert_eq (pm_protocol_version message) DKGKIT_PROTOCOL_VERSION;;
  assert_eq (ProtocolMessageKind_as_str (pm_kind message)) "frost_dkg_round1";;
  assert (bool_decide (pm_recipient message = None));;
  two ← unwrap (ParticipantId_new 2);
  assert (ProtocolMessage_is_for message two).

Definition direct_protocol_message_targets_one_participant : Result unit :=
  session_id ← unwrap (SessionId_new "demo");
  one ← unwrap (ParticipantId_new 1);
  two ← unwrap (ParticipantId_new 2);
  three ← unwrap (ParticipantId_new 3);
  let message := ProtocolMessage_direct session_id one two FrostDkgRound2 [x09] in
  assert (ProtocolMessage_is_for message two);;
  assert (negb (ProtocolMessage_is_for message three)).

Definition protocol_message_json_round_trips `{SerdeJson ProtocolMessage} : Result unit :=
  session_id ← unwrap (SessionId_new "demo");
  one ← unwrap (ParticipantId_new 1);
  two ← unwrap (ParticipantId_new 2);
  let message := ProtocolMessage_direct session_id one two FrostSignatureShare [x01; x02; x03; x04] in
  encoded ← unwrap (ProtocolMessage_encode_json message);
  decoded ← unwrap (ProtocolMessage_decode_json encoded);
  assert_eq decoded message.
End core.

(** ** [dkgkit-transport]

    [let mut transport] is the state. *)

Section transport.

Definition message_of (session : SessionId) (sender : N) (kind : ProtocolMessageKind)
    (payload : bytes) : Result ProtocolMessage :=
  sender ← unwrap (ParticipantId_new sender);
  Ok (ProtocolMessage_new session sender kind payload).

Definition publish_test {T} `{Transport T} (session : SessionId) (sender : N)
    (kind : ProtocolMessageKind) (payload : bytes) : ST T DkgKitError unit :=
  message ← st_lift (message_of session sender kind payload);
  st_unwrap (publish message).

Definition memory_transport_drains_only_target_session : ST MemoryTransport DkgKitError unit :=
  session_a ← st_lift (unwrap (SessionId_new "a"));
  session_b ← st_lift (unwrap (SessionId_new "b"));
  st_unwrap (E := DkgKitError) connect;;
  publish_test session_a 1 FrostDkgRound1 [x01];;
  publish_test session_b 2 FrostDkgRound1 [x02];;
  drained ← st_unwrap (E := DkgKitError) (drain_session session_a);
  st_lift (assert_eq (length drained) 1);;
  transport ← st_gets id;
  st_lift (assert_eq (MemoryTransport_pending_len transport) 1);;
  st_lift (assert_eq (length (MemoryTransport_peek_session transport session_b)) 1).

Definition memory_transport_selectively_drains_matching_messages :
  ST MemoryTransport DkgKitError unit :=
  session ← st_lift (unwrap (SessionId_new "signing"));
  publish_test session 1 FrostSigningNonce [x01];;
  publish_test session 2 FrostSignatureShare [x02];;
  let only_nonces := fun message => bool_decide (pm_kind message = FrostSigningNonce) in
  drained ← st_unwrap (E := DkgKitError) (drain_pure session only_nonces);
  st_lift (assert_eq (length drained) 1);;
  transport ← st_gets id;
  st_lift (assert_eq (MemoryTransport_pending_len transport) 1);;
  first ← st_lift (index (MemoryTransport_peek_session transport session) 0);
  st_lift (assert_eq (pm_kind first) FrostSignatureShare).
End transport.

(** ** They pass *)

Section passing.
Context `{SerdeJson ProtocolMessage} `{!SerdeJsonLaws ProtocolMessage}.

Definition core_tests : list (Result unit) :=
  [threshold_config_rejects_impossible_shapes;
   hierarchical_threshold_config_allows_shared_ranks;
   hierarchical_threshold_config_rejects_duplicate_participants;
   grouped_threshold_config_supports_per_rank_quorums;
   grouped_threshold_config_rejects_declared_total_mismatch;
   session_config_rejects_duplicate_participants;
   session_manifest_defaults_to_frost_created;
   protocol_message_defaults_to_broadcast_current_version;
   direct_protocol_message_targets_one_participant;
   protocol_message_json_round_trips].

Definition transport_tests : list (ST MemoryTransport DkgKitError unit) :=
  [memory_transport_drains_only_target_session;
   memory_transport_selectively_drains_matching_messages].

Lemma json_round_trip_passes : passes protocol_message_json_round_trips.
Proof.
  set (message := ProtocolMessage_direct (mkSessionId "demo") (mkParticipantId 1)
                    (mkParticipantId 2) FrostSignatureShare [x01; x02; x03; x04]).
  change (passes (encoded ← unwrap (ProtocolMessage_encode_json message);
                  decoded ← unwrap (ProtocolMessage_decode_json encoded);
                  assert_eq decoded message : Result unit)).
  unfold ProtocolMessage_encode_json, ProtocolMessage_decode_json.
  destruct (json_total message) as [bs Hbs]. rewrite Hbs. cbn [serialization unwrap].
  rewrite ok_bind, (json_round_trip message bs Hbs). cbn [serialization unwrap].
  rewrite ok_bind. unfold assert_eq. rewrite bool_decide_eq_true_2 by done. by eexists.
Qed.

(** The unit tests of the two crates pass: on every lawful JSON codec, and with
    a transport as [MemoryTransport::default()] makes it. *)
Theorem core_tests_pass :
  Forall passes core_tests /\
  Forall (fun test => st_passes test MemoryTransport_default) transport_tests.
Proof.
  split; repeat constructor; try apply json_round_trip_passes;
    apply passes_is_ok; vm_compute; reflexivity.
Qed.
End passing.
