(* ===== verification/Secp.v ===== *)
(** The interface to [secp256kfun] and [schnorr_fun], and the scalar helpers of
    [crates/dkgkit-frost/src/lib.rs] on top of it.

    Both crates are third-party code.  [Secp] lists the types and functions the
    sources call; [SecpLaws] lists what their documentation promises: scalars
    are the field of integers modulo the group order, points are a group of
    that prime order generated by [G], encodings are injective, [EvenY] points
    are determined by their x-coordinate, and Schnorr verification is the
    BIP340 equation.  [SmallGroup] gives a concrete instance.

    The typestate of a [Scalar] or [Point] (secret or public, zero allowed or
    not, normalized or not) is a compile-time marker: the conversions
    [public], [mark_zero] and [normalize] leave the value as it is and have no
    counterpart here. *)

From Stdlib Require Import Ascii String Field.
From stdpp Require Import base numbers countable gmap strings list.
From S2P Require Import Prelude Core.

(** ** The interface *)

Class Secp := {
  scalar : Type;
  (** [Scalar::default()] and [Scalar::from(u32)] *)
  scalar_default : scalar;
  scalar_from : N -> scalar;
  (** [op::scalar_add], [op::scalar_sub], [op::scalar_mul] *)
  op_scalar_add : scalar -> scalar -> scalar;
  op_scalar_sub : scalar -> scalar -> scalar;
  op_scalar_mul : scalar -> scalar -> scalar;
  scalar_is_zero : scalar -> bool;
  (** [invert], defined on non-zero scalars *)
  scalar_invert : scalar -> scalar;
  (** [s.conditional_negate(b)] *)
  scalar_conditional_negate : bool -> scalar -> scalar;
  scalar_to_bytes : scalar -> bytes;
  scalar_from_bytes : bytes -> option scalar;

  point : Type;
  (** [Point::zero()], [G], [+=] and [g!(s * P)] *)
  point_zero : point;
  point_G : point;
  point_add : point -> point -> point;
  point_scale : scalar -> point -> point;
  point_is_zero : point -> bool;
  (** [into_point_with_even_y] *)
  point_into_even_y : point -> point * bool;
  (** compressed encoding, 33 bytes; [from_bytes] yields non-zero points *)
  point_to_bytes : point -> bytes;
  point_from_bytes : bytes -> option point;
  point_to_xonly_bytes : point -> bytes;
  point_from_xonly_bytes : bytes -> option point;

  (** [Scalar::<Secret, NonZero>::random] over a generator state *)
  rng : Type;
  scalar_random : rng -> scalar * rng;

  (** [Schnorr]: a key pair is a secret scalar and its public point, a
      signature is the pair of its fields [R] and [s] *)
  schnorr_new_keypair : scalar -> scalar * point;
  schnorr_challenge : point -> point -> bytes -> scalar;
  schnorr_sign : scalar * point -> bytes -> point * scalar;
  schnorr_verify : point -> bytes -> point * scalar -> bool;
  signature_to_bytes : point * scalar -> bytes;
}.

(** [P] is a normalized point with an even y-coordinate. *)
Definition even_y `{Secp} (P : point) : Prop := point_into_even_y P = (P, false).

Class SecpLaws `{Secp} : Prop := {
  scalar_field_theory :
    field_theory scalar_default (scalar_from 1) op_scalar_add op_scalar_mul op_scalar_sub
      (fun x => op_scalar_sub scalar_default x)
      (fun x y => op_scalar_mul x (scalar_invert y)) scalar_invert (@eq scalar);
  scalar_from_0 : scalar_from 0 = scalar_default;
  scalar_from_succ n :
    (n < u32_max)%N -> scalar_from (n + 1) = op_scalar_add (scalar_from n) (scalar_from 1);
  scalar_from_inj a b :
    (a <= u32_max)%N -> (b <= u32_max)%N -> scalar_from a = scalar_from b -> a = b;
  scalar_is_zero_iff s : scalar_is_zero s = true <-> s = scalar_default;
  scalar_conditional_negate_eq b s :
    scalar_conditional_negate b s = if b then op_scalar_sub scalar_default s else s;
  scalar_from_to_bytes s : scalar_from_bytes (scalar_to_bytes s) = Some s;
  scalar_to_bytes_length s : length (scalar_to_bytes s) = 32;
  scalar_from_to_bytes_small n :
    (n <= u32_max)%N -> scalar_to_bytes (scalar_from n) = replicate 28 Byte.x00 ++ be_bytes 4 n;

  point_add_comm P Q : point_add P Q = point_add Q P;
  point_add_assoc P Q R : point_add P (point_add Q R) = point_add (point_add P Q) R;
  point_add_0_l P : point_add point_zero P = P;
  point_scale_add_l a b P :
    point_scale (op_scalar_add a b) P = point_add (point_scale a P) (point_scale b P);
  point_scale_add_r a P Q :
    point_scale a (point_add P Q) = point_add (point_scale a P) (point_scale a Q);
  point_scale_mul a b P : point_scale (op_scalar_mul a b) P = point_scale a (point_scale b P);
  point_scale_1 P : point_scale (scalar_from 1) P = P;
  point_scale_0 P : point_scale scalar_default P = point_zero;
  (** [G] generates the group, and only the zero scalar maps it to zero *)
  point_generated P : exists a, P = point_scale a point_G;
  point_G_order a : point_scale a point_G = point_zero -> a = scalar_default;
  point_is_zero_iff P : point_is_zero P = true <-> P = point_zero;

  point_to_bytes_inj P Q : point_to_bytes P = point_to_bytes Q -> P = Q;
  point_to_bytes_length P : length (point_to_bytes P) = 33;
  point_from_to_bytes P :
    P <> point_zero -> point_from_bytes (point_to_bytes P) = Some P;
  point_from_bytes_Some bs P :
    point_from_bytes bs = Some P -> P <> point_zero /\ point_to_bytes P = bs;

  point_into_even_y_eq P Q b :
    P <> point_zero -> point_into_even_y P = (Q, b) ->
    even_y Q /\
    Q = if b then point_scale (op_scalar_sub scalar_default (scalar_from 1)) P else P;
  point_xonly_even P :
    P <> point_zero -> even_y P -> point_from_xonly_bytes (point_to_xonly_bytes P) = Some P;
  point_from_xonly_Some bs P :
    point_from_xonly_bytes bs = Some P ->
    P <> point_zero /\ even_y P /\ point_to_xonly_bytes P = bs;
  point_to_xonly_length P : length (point_to_xonly_bytes P) = 32;

  scalar_random_nonzero g : (scalar_random g).1 <> scalar_default;

  schnorr_new_keypair_eq s :
    s <> scalar_default ->
    schnorr_new_keypair s =
    let '(P, b) := point_into_even_y (point_scale s point_G) in
    (scalar_conditional_negate b s, P);
  schnorr_sign_verifies s m :
    s <> scalar_default ->
    schnorr_verify (schnorr_new_keypair s).2 m (schnorr_sign (schnorr_new_keypair s) m) = true;
  (** BIP340: [s * G = R + H(R, P, m) * P] *)
  schnorr_verify_iff P m R s :
    schnorr_verify P m (R, s) = true <->
    point_scale s point_G = point_add R (point_scale (schnorr_challenge R P m) P);
  signature_to_bytes_length R s : length (signature_to_bytes (R, s)) = 64;
}.

(** ** Scalar helpers of [dkgkit-frost] *)

Section helpers.
Context `{Secp}.

Definition scalar_zero : scalar := scalar_default.
Definition scalar_from_u32 (value : N) : scalar := scalar_from value.
Definition scalar_one : scalar := scalar_from_u32 1.
Definition scalar_mul (left right : scalar) : scalar := op_scalar_mul left right.
Definition scalar_sub (left right : scalar) : scalar := op_scalar_sub left right.
Definition scalar_add (left right : scalar) : scalar := op_scalar_add left right.

Definition scalar_pow (base : scalar) (exponent : N) : scalar :=
  Nat.iter (N.to_nat exponent) (fun value => scalar_mul value base) scalar_one.

(** [s.non_zero()] *)
Definition scalar_non_zero (s : scalar) : option scalar :=
  if scalar_is_zero s then None else Some s.

Definition point_non_zero (P : point) : option point :=
  if point_is_zero P then None else Some P.

(** [Message::raw(digest)]: the digest itself is what is hashed. *)
Definition frost_message (message_digest : bytes) : bytes := message_digest.

(** Auxiliary: negation and division, which the sources express with
    [scalar_sub] and [invert]. *)
Definition scalar_opp (x : scalar) : scalar := scalar_sub scalar_zero x.
Definition scalar_div (x y : scalar) : scalar := scalar_mul x (scalar_invert y).
End helpers.

Declare Scope secp_scope.
Delimit Scope secp_scope with secp.
Infix "+" := scalar_add : secp_scope.
Infix "*" := scalar_mul : secp_scope.
Infix "-" := scalar_sub : secp_scope.
Notation "- x" := (scalar_opp x) : secp_scope.
Infix "⊕" := point_add (at level 50, left associativity) : secp_scope.
Infix "·" := point_scale (at level 40, no associativity) : secp_scope.

(** ** Consequences of the laws *)

Section laws.
Context `{SecpLaws}.
Local Open Scope secp_scope.

Lemma scalar_ft :
  field_theory scalar_zero scalar_one scalar_add scalar_mul scalar_sub scalar_opp
    scalar_div scalar_invert (@eq scalar).
Proof. exact scalar_field_theory. Qed.

Add Field scalar_field : scalar_ft.

Lemma scalar_one_neq_zero : scalar_one <> scalar_zero.
Proof. exact (F_1_neq_0 scalar_ft). Qed.

Lemma scalar_is_zero_true s : scalar_is_zero s = true <-> s = scalar_zero.
Proof. apply scalar_is_zero_iff. Qed.

Lemma scalar_is_zero_false s : scalar_is_zero s = false <-> s <> scalar_zero.
Proof. rewrite <- scalar_is_zero_true. by destruct (scalar_is_zero s). Qed.

Lemma scalar_zero_dec (s : scalar) : {s = scalar_zero} + {s <> scalar_zero}.
Proof.
  destruct (scalar_is_zero s) eqn:E; [left|right].
  - by apply scalar_is_zero_true.
  - by apply scalar_is_zero_false.
Qed.

Lemma scalar_integral a b :
  a * b = scalar_zero -> a = scalar_zero \/ b = scalar_zero.
Proof.
  intros Hab. destruct (scalar_zero_dec a) as [|Ha]; [by left|right].
  transitivity (scalar_invert a * (a * b)); [field; done|]. rewrite Hab. ring.
Qed.

Lemma scalar_invert_nonzero a : a <> scalar_zero -> scalar_invert a <> scalar_zero.
Proof.
  intros Ha Hi. apply scalar_one_neq_zero.
  transitivity (scalar_invert a * a); [field; done|]. rewrite Hi. ring.
Qed.

Lemma scalar_sub_zero_iff a b : a - b = scalar_zero <-> a = b.
Proof.
  split; [|intros ->; ring]. intros E.
  transitivity (b + (a - b)); [ring|]. rewrite E. ring.
Qed.

Lemma scalar_cond_negate b s :
  scalar_conditional_negate b s = if b then - s else s.
Proof. apply scalar_conditional_negate_eq. Qed.

Lemma scalar_pow_0 x : scalar_pow x 0 = scalar_one.
Proof. done. Qed.

Lemma scalar_pow_succ x n : scalar_pow x (N.succ n) = scalar_pow x n * x.
Proof. unfold scalar_pow. by rewrite N2Nat.inj_succ. Qed.

(** The group written additively: [P] has the inverse [-1 · P]. *)
Lemma scale_zero_l P : scalar_zero · P = point_zero.
Proof. apply point_scale_0. Qed.

Lemma scale_one_l P : scalar_one · P = P.
Proof. apply point_scale_1. Qed.

Lemma scale_add_l a b P : (a + b) · P = a · P ⊕ b · P.
Proof. apply point_scale_add_l. Qed.

Lemma scale_mul_l a b P : (a * b) · P = a · (b · P).
Proof. apply point_scale_mul. Qed.

Lemma point_add_0_r P : P ⊕ point_zero = P.
Proof. by rewrite point_add_comm, point_add_0_l. Qed.

(** Equality of multiples of [G] is equality of the scalars. *)
Lemma scale_G_inj a b : a · point_G = b · point_G <-> a = b.
Proof.
  split; [|by intros ->]. intros E.
  apply scalar_sub_zero_iff, point_G_order. change (a - b) with (a - b).
  replace (a - b) with (a + (- scalar_one) * b) by ring.
  rewrite scale_add_l, E, scale_mul_l, <- (scale_one_l (b · point_G)) at 1.
  rewrite <- scale_add_l. replace (scalar_one + - scalar_one) with scalar_zero by ring.
  apply scale_zero_l.
Qed.

Lemma scale_G_nonzero a : a · point_G <> point_zero <-> a <> scalar_zero.
Proof.
  split.
  - intros HP ->. by rewrite scale_zero_l in HP.
  - intros Ha E. by apply Ha, point_G_order.
Qed.

Lemma point_is_zero_false P : point_is_zero P = false <-> P <> point_zero.
Proof. rewrite <- point_is_zero_iff. by destruct (point_is_zero P). Qed.

(** The even-y representative of [a · G] is [± a · G], with the sign that
    [into_point_with_even_y] reports. *)
Lemma even_y_of_scale a Q b :
  a <> scalar_zero -> point_into_even_y (a · point_G) = (Q, b) ->
  Q = scalar_conditional_negate b a · point_G /\ even_y Q /\ Q <> point_zero.
Proof.
  intros Ha E. apply scale_G_nonzero in Ha as HP.
  destruct (point_into_even_y_eq _ _ _ HP E) as [He HQ].
  assert (HQ' : Q = scalar_conditional_negate b a · point_G).
  { rewrite HQ, scalar_cond_negate. destruct b; [|done].
    change (op_scalar_sub scalar_default (scalar_from 1)) with (- scalar_one).
    rewrite <- scale_mul_l. f_equal. ring. }
  split_and!; [done|done|]. rewrite HQ'. apply scale_G_nonzero.
  rewrite scalar_cond_negate. destruct b; [|done]. intros E'. apply Ha.
  transitivity (- (- a)); [ring|]. rewrite E'. ring.
Qed.

(** Integers in the [u16] and [u32] ranges embed as a semiring. *)
Lemma scalar_from_u32_zero : scalar_from_u32 0 = scalar_zero.
Proof. apply scalar_from_0. Qed.

Lemma scalar_from_u32_nonzero n :
  (1 <= n <= u32_max)%N -> scalar_from_u32 n <> scalar_zero.
Proof.
  intros Hn E. rewrite <- scalar_from_u32_zero in E.
  apply scalar_from_inj in E; lia.
Qed.
End laws.

Create HintDb secp discriminated.
#[export] Hint Resolve scalar_one_neq_zero scalar_invert_nonzero : secp.
