(* ===== verification/SmallGroup.v ===== *)
(** A concrete instance of the interface of [Secp]: the integers modulo the
    prime [2 ^ 32 + 15], as scalars and, written additively, as the points of a
    cyclic group with generator one.  It shows that the laws can hold together
    and lets the definitions of the development run.  The discrete logarithm is
    trivial in it; nothing here is about the hardness of secp256k1. *)

From Stdlib Require Import Ascii String ZArith Zmod Field Strings.Byte.
From stdpp Require Import base numbers countable gmap strings list.
From S2P Require Import Prelude Core Secp.

Definition order : Z := 4294967311.

(** ** Primality by trial division *)

Fixpoint no_divisor_from (fuel : nat) (d n : Z) : bool :=
  match fuel with
  | O => true
  | S fuel => negb (n mod d =? 0)%Z && no_divisor_from fuel (d + 1) n
  end.

Lemma no_divisor_from_spec fuel d n k :
  no_divisor_from fuel d n = true -> (d <= k < d + Z.of_nat fuel)%Z -> (0 < d)%Z ->
  ~ (k | n)%Z.
Proof.
  revert d; induction fuel as [|fuel IH]; intros d Hd Hk Hpos Hdiv; [lia|].
  cbn [no_divisor_from] in Hd. apply andb_true_iff in Hd as [H1 H2].
  destruct (decide (k = d)) as [->|Hne].
  - apply negb_true_iff, Z.eqb_neq in H1. apply H1. by apply Z.mod_divide; [lia|].
  - by apply (IH (d + 1)%Z); [|lia|lia|].
Qed.

Lemma prime_by_trial n (fuel : nat) :
  (1 < n)%Z -> (n < (Z.of_nat fuel + 2) * (Z.of_nat fuel + 2))%Z ->
  no_divisor_from fuel 2 n = true -> Z.prime n.
Proof.
  intros Hn Hsq Hd. split; [done|]. intros k Hk [q Hq].
  assert (0 < q)%Z by nia.
  destruct (decide (k < Z.of_nat fuel + 2)%Z).
  - apply (no_divisor_from_spec fuel 2 n k Hd); [lia|lia|]. by exists q.
  - apply (no_divisor_from_spec fuel 2 n q Hd); [|lia|exists k; lia].
    split; nia.
Qed.

Lemma order_prime : Z.prime order.
Proof.
  apply (prime_by_trial order (Z.to_nat 65536)); [done|vm_compute; reflexivity|].
  vm_compute. reflexivity.
Qed.

(** ** Scalars and points *)

Abbreviation F := (Zmod order).

Definition f_of (z : Z) : F := Zmod.of_Z order z.
Definition f_val (x : F) : N := Z.to_N (Zmod.unsigned x).

(** The representative below one half plays the part of the even y. *)
Definition f_half : N := 2147483655.
Definition f_even (x : F) : bool := (f_val x <=? f_half)%N.
Definition f_abs (x : F) : F := if f_even x then x else Zmod.opp x.

Definition f_to_bytes (x : F) : bytes := be_bytes 32 (f_val x).
Definition f_from_bytes (bs : bytes) : option F :=
  if decide (length bs = 32 /\ (be_value bs < Z.to_N order)%N)
  then Some (f_of (Z.of_N (be_value bs))) else None.

Definition f_is_zero (x : F) : bool := (f_val x =? 0)%N.

Definition p_to_bytes (x : F) : bytes :=
  if f_is_zero x then replicate 33 x00
  else (if f_even x then x02 else x03) :: be_bytes 32 (f_val (f_abs x)).

Definition p_from_xonly (bs : bytes) : option F :=
  if decide (length bs = 32 /\ (1 <= be_value bs <= f_half)%N)
  then Some (f_of (Z.of_N (be_value bs))) else None.

Definition p_from_bytes (bs : bytes) : option F :=
  match bs with
  | x02 :: rest => p_from_xonly rest
  | x03 :: rest => Zmod.opp <$> p_from_xonly rest
  | _ => None
  end.

Definition p_into_even (x : F) : F * bool := (f_abs x, negb (f_even x)).

Definition f_random (g : Z) : F * Z := (f_of (1 + g mod (order - 1)), (g * 48271 + 11)%Z).

(** Any function of its arguments will do as a challenge hash. *)
Definition f_challenge (R P : F) (m : bytes) : F :=
  Zmod.add (Zmod.add (Zmod.mul R R) (Zmod.mul (f_of 3) P))
           (f_of (Z.of_N (be_value m) + 7)).

Definition f_keypair (s : F) : F * F :=
  let '(P, b) := p_into_even s in (if b then Zmod.opp s else s, P).

(** Signing with the nonce one. *)
Definition f_sign (kp : F * F) (m : bytes) : F * F :=
  (Zmod.one, Zmod.add Zmod.one (Zmod.mul (f_challenge Zmod.one kp.2 m) kp.1)).

Definition f_verify (P : F) (m : bytes) (sig : F * F) : bool :=
  Zmod.eqb sig.2 (Zmod.add sig.1 (Zmod.mul (f_challenge sig.1 P m) P)).

Definition small_group : Secp := {|
  scalar := F;
  scalar_default := f_of 0;
  scalar_from n := f_of (Z.of_N n);
  op_scalar_add := Zmod.add;
  op_scalar_sub := Zmod.sub;
  op_scalar_mul := Zmod.mul;
  scalar_is_zero := f_is_zero;
  scalar_invert := Zmod.inv;
  scalar_conditional_negate b s := if b then Zmod.sub (f_of 0) s else s;
  scalar_to_bytes := f_to_bytes;
  scalar_from_bytes := f_from_bytes;
  point := F;
  point_zero := f_of 0;
  point_G := f_of 1;
  point_add := Zmod.add;
  point_scale := Zmod.mul;
  point_is_zero := f_is_zero;
  point_into_even_y := p_into_even;
  point_to_bytes := p_to_bytes;
  point_from_bytes := p_from_bytes;
  point_to_xonly_bytes x := be_bytes 32 (f_val (f_abs x));
  point_from_xonly_bytes := p_from_xonly;
  rng := Z;
  scalar_random := f_random;
  schnorr_new_keypair := f_keypair;
  schnorr_challenge := f_challenge;
  schnorr_sign := f_sign;
  schnorr_verify := f_verify;
  signature_to_bytes sig := be_bytes 32 (f_val (f_abs sig.1)) ++ f_to_bytes sig.2;
|}.

(** ** The laws *)

Add Field small_field : (Zmod.field_theory order order_prime).

Lemma f_val_bound x : (f_val x < Z.to_N order)%N.
Proof.
  unfold f_val. pose proof (Zmod.unsigned_pos_bound x). unfold order in *. lia.
Qed.

Lemma f_of_val x : f_of (Z.of_N (f_val x)) = x.
Proof.
  unfold f_of, f_val. rewrite Z2N.id; [apply Zmod.of_Z_unsigned|].
  pose proof (Zmod.unsigned_pos_bound x). unfold order in *. lia.
Qed.

Lemma f_val_of n : (n < Z.to_N order)%N -> f_val (f_of (Z.of_N n)) = n.
Proof.
  intros Hn. unfold f_val, f_of. rewrite Zmod.unsigned_of_Z_small; [lia|].
  unfold order in *. lia.
Qed.

Lemma f_val_inj x y : f_val x = f_val y -> x = y.
Proof. intros E. by rewrite <- (f_of_val x), <- (f_of_val y), E. Qed.

Lemma f_of_0 : f_of 0 = Zmod.zero.
Proof. done. Qed.

Lemma f_val_0 : f_val (f_of 0) = 0%N.
Proof. done. Qed.

Lemma f_is_zero_spec x : f_is_zero x = true <-> x = f_of 0.
Proof.
  unfold f_is_zero. rewrite N.eqb_eq. split; [|by intros ->].
  intros E. by apply f_val_inj.
Qed.

Lemma f_is_zero_neq x : x <> f_of 0 -> f_is_zero x = false /\ (1 <= f_val x)%N.
Proof.
  intros Hx. assert (f_val x <> 0%N) by (intros E; by apply Hx, f_val_inj).
  split; [|lia]. unfold f_is_zero. by apply N.eqb_neq.
Qed.

Lemma f_val_opp x : x <> f_of 0 -> f_val (Zmod.opp x) = (Z.to_N order - f_val x)%N.
Proof.
  intros [_ Hx]%f_is_zero_neq. unfold f_val in *. rewrite Zmod.unsigned_opp.
  pose proof (Zmod.unsigned_pos_bound x ltac:(done)).
  rewrite <- (Z_mod_plus_full _ 1), Z.mod_small by (unfold order in *; lia).
  unfold order in *. lia.
Qed.

Lemma f_opp_nonzero x : x <> f_of 0 -> Zmod.opp x <> f_of 0.
Proof.
  intros Hx E. apply Hx. transitivity (Zmod.opp (Zmod.opp x)); [ring|].
  rewrite E. done.
Qed.

Lemma f_even_opp x : x <> f_of 0 -> f_even (Zmod.opp x) = negb (f_even x).
Proof.
  intros Hx. pose proof (f_val_bound x). unfold f_even. rewrite f_val_opp by done.
  apply f_is_zero_neq in Hx as [_ Hx]. unfold f_half, order in *.
  destruct (N.leb_spec (f_val x) 2147483655),
    (N.leb_spec (Z.to_N 4294967311 - f_val x) 2147483655); simpl; lia.
Qed.

Lemma f_abs_spec x :
  x <> f_of 0 ->
  f_even (f_abs x) = true /\ (1 <= f_val (f_abs x) <= f_half)%N /\ f_abs x <> f_of 0.
Proof.
  intros Hx. assert (He : f_even (f_abs x) = true /\ f_abs x <> f_of 0).
  { unfold f_abs. destruct (f_even x) eqn:E; [done|].
    rewrite f_even_opp, E by done. split; [done|]. by apply f_opp_nonzero. }
  destruct He as [He Hne]. split_and!; [done| | |done].
  - by apply f_is_zero_neq in Hne as [_ ?].
  - unfold f_even in He. by apply N.leb_le.
Qed.

Lemma f_abs_even x : f_even x = true -> f_abs x = x.
Proof. unfold f_abs. by intros ->. Qed.

Lemma p_from_xonly_abs x :
  x <> f_of 0 -> p_from_xonly (be_bytes 32 (f_val (f_abs x))) = Some (f_abs x).
Proof.
  intros Hx. apply f_abs_spec in Hx as (_ & Hb & _). unfold p_from_xonly.
  assert (Hlt : (f_val (f_abs x) < 256 ^ N.of_nat 32)%N).
  { unfold f_half in Hb. eapply N.le_lt_trans; [apply Hb|done]. }
  rewrite length_be_bytes, be_value_bytes by done. rewrite decide_True by done.
  by rewrite f_of_val.
Qed.

Lemma p_from_xonly_Some bs x :
  p_from_xonly bs = Some x ->
  x <> f_of 0 /\ f_even x = true /\ be_bytes 32 (f_val x) = bs.
Proof.
  unfold p_from_xonly. case_decide as Hd; [|done]. destruct Hd as [Hl Hb].
  intros [= <-]. assert (Hlt : (be_value bs < Z.to_N order)%N).
  { unfold f_half, order in *. lia. }
  split_and!.
  - intros E. apply (f_equal f_val) in E. rewrite f_val_of, f_val_0 in E by done. lia.
  - unfold f_even. rewrite f_val_of by done. apply N.leb_le. lia.
  - rewrite f_val_of by done. rewrite <- Hl. apply be_bytes_value.
Qed.

Lemma p_to_bytes_inj x y : p_to_bytes x = p_to_bytes y -> x = y.
Proof.
  unfold p_to_bytes. destruct (f_is_zero x) eqn:Ex, (f_is_zero y) eqn:Ey.
  - apply f_is_zero_spec in Ex, Ey. congruence.
  - by destruct (f_even y).
  - by destruct (f_even x).
  - intros E. assert (Hx : x <> f_of 0) by (intros H%f_is_zero_spec; congruence).
    assert (Hy : y <> f_of 0) by (intros H%f_is_zero_spec; congruence).
    apply (f_equal (fun l => (head l, tail l))), pair_eq in E as [Ht Hb].
    cbn [tail] in Hb. cbn [head] in Ht.
    assert (He : f_even x = f_even y)
      by (by destruct (f_even x), (f_even y)).
    assert (Ha : f_abs x = f_abs y).
    { apply (f_equal p_from_xonly) in Hb.
      rewrite !p_from_xonly_abs in Hb by done. congruence. }
    unfold f_abs in Ha. rewrite He in Ha. destruct (f_even y); [done|].
    transitivity (Zmod.opp (Zmod.opp x)); [ring|]. rewrite Ha. ring.
Qed.

Lemma p_from_to_bytes x : x <> f_of 0 -> p_from_bytes (p_to_bytes x) = Some x.
Proof.
  intros Hx. unfold p_to_bytes. destruct (f_is_zero_neq x Hx) as [-> _].
  destruct (f_even x) eqn:E; cbn [p_from_bytes]; rewrite p_from_xonly_abs by done.
  - by rewrite f_abs_even.
  - simpl. f_equal. unfold f_abs. rewrite E. ring.
Qed.

Lemma p_from_bytes_Some bs x :
  p_from_bytes bs = Some x -> x <> f_of 0 /\ p_to_bytes x = bs.
Proof.
  destruct bs as [|b rest]; [done|]. destruct b; try done; cbn [p_from_bytes]; intros E.
  - apply p_from_xonly_Some in E as (Hx & He & Hb). split; [done|].
    unfold p_to_bytes. destruct (f_is_zero_neq x Hx) as [-> _].
    by rewrite f_abs_even, He, Hb.
  - apply fmap_Some in E as (y & Hy & ->).
    apply p_from_xonly_Some in Hy as (Hy & He & Hb).
    split; [by apply f_opp_nonzero|]. unfold p_to_bytes.
    destruct (f_is_zero_neq _ (f_opp_nonzero y Hy)) as [-> _].
    rewrite f_even_opp, He by done. unfold f_abs. rewrite f_even_opp, He by done.
    cbn [negb]. replace (Zmod.opp (Zmod.opp y)) with y by ring. by rewrite Hb.
Qed.

Lemma p_into_even_spec x y b :
  x <> f_of 0 -> p_into_even x = (y, b) ->
  p_into_even y = (y, false) /\ y = if b then Zmod.mul (Zmod.sub (f_of 0) (f_of 1)) x else x.
Proof.
  unfold p_into_even. intros Hx [= <- <-]. destruct (f_abs_spec x Hx) as (He & _ & _).
  split; [by rewrite f_abs_even, He|]. unfold f_abs. destruct (f_even x); [done|].
  change (f_of 0) with (@Zmod.zero order). change (f_of 1) with (@Zmod.one order). simpl. ring.
Qed.

Lemma small_from_bytes_small n :
  (n <= u32_max)%N ->
  f_to_bytes (f_of (Z.of_N n)) = replicate 28 x00 ++ be_bytes 4 n.
Proof.
  intros Hn. unfold f_to_bytes. rewrite f_val_of by (unfold u32_max, order in *; lia).
  rewrite <- (be_bytes_value (replicate 28 x00 ++ be_bytes 4 n)).
  rewrite length_app, length_replicate, length_be_bytes. f_equal.
  unfold be_value. rewrite be_value_go_app.
  change (be_value_go (replicate 28 x00) 0) with 0%N.
  symmetry. apply (be_value_bytes 4). unfold u32_max in Hn. simpl. lia.
Qed.

Lemma f_from_bytes_to_bytes x : f_from_bytes (f_to_bytes x) = Some x.
Proof.
  unfold f_from_bytes, f_to_bytes. pose proof (f_val_bound x) as Hb.
  assert (Hlt : (f_val x < 256 ^ N.of_nat 32)%N).
  { eapply N.lt_trans; [apply Hb|done]. }
  rewrite length_be_bytes, be_value_bytes by done. rewrite decide_True by done.
  by rewrite f_of_val.
Qed.

Lemma f_random_nonzero g : (f_random g).1 <> f_of 0.
Proof.
  simpl. intros E. apply (f_equal Zmod.unsigned) in E. unfold f_of in E.
  pose proof (Z.mod_pos_bound g (order - 1) ltac:(done)).
  rewrite !Zmod.unsigned_of_Z_small in E by (unfold order in *; lia). lia.
Qed.

Lemma f_sign_verifies s m : f_verify (f_keypair s).2 m (f_sign (f_keypair s) m) = true.
Proof.
  unfold f_verify, f_keypair, f_sign, p_into_even, f_abs.
  destruct (f_even s); cbn [negb fst snd]; apply Zmod.eqb_eq; reflexivity.
Qed.

Lemma small_group_laws : @SecpLaws small_group.
Proof.
  split; cbn -[f_of Zmod.add Zmod.mul Zmod.sub Zmod.opp Zmod.inv f_random u32_max N.add].
  - pose proof (Zmod.field_theory order order_prime) as [HR H10 Hd Hi].
    split; [|done|done|done]. destruct HR; split; auto.
  - done.
  - intros n _. rewrite N2Z.inj_add. apply Zmod.of_Z_add.
  - intros a b Ha Hb E. unfold u32_max in *.
    rewrite <- (f_val_of a), <- (f_val_of b), E by (unfold order; lia). done.
  - apply f_is_zero_spec.
  - done.
  - apply f_from_bytes_to_bytes.
  - intros s. apply length_be_bytes.
  - apply small_from_bytes_small.
  - intros. ring.
  - intros. ring.
  - intros P. change (f_of 0) with (@Zmod.zero order). ring.
  - intros. ring.
  - intros. ring.
  - intros. ring.
  - intros P. change (f_of 1) with (@Zmod.one order). ring.
  - intros P. change (f_of 0) with (@Zmod.zero order). ring.
  - intros P. exists P. change (f_of 1) with (@Zmod.one order). ring.
  - intros a E. rewrite <- E. change (f_of 1) with (@Zmod.one order). ring.
  - apply f_is_zero_spec.
  - apply p_to_bytes_inj.
  - intros P. unfold p_to_bytes. destruct (f_is_zero P); [done|].
    cbn [length]. by rewrite length_be_bytes.
  - apply p_from_to_bytes.
  - apply p_from_bytes_Some.
  - apply p_into_even_spec.
  - intros P HP He. unfold even_y in He. cbn in He. unfold p_into_even in He.
    injection He as He _. rewrite p_from_xonly_abs by done. by rewrite He.
  - intros bs P (HP & He & Hb)%p_from_xonly_Some. unfold even_y, p_into_even; cbn.
    unfold p_into_even. by rewrite f_abs_even, He.
  - intros P. apply length_be_bytes.
  - apply f_random_nonzero.
  - intros s _. unfold f_keypair, p_into_even.
    assert (E : Zmod.mul s (f_of 1) = s).
    { change (f_of 1) with (@Zmod.one order). ring. }
    rewrite E. destruct (f_even s); [done|]. f_equal.
  - intros s m _. apply f_sign_verifies.
  - intros P m R s. unfold f_verify; cbn. rewrite Zmod.eqb_eq.
    assert (E : Zmod.mul s (f_of 1) = s).
    { change (f_of 1) with (@Zmod.one order). ring. }
    by rewrite E.
  - intros R s. unfold f_to_bytes. by rewrite length_app, !length_be_bytes.
Qed.
