(* ===== verification/LinearSystem.v ===== *)
(** Gaussian elimination over the scalar field: [solve_scalar_system] of
    [crates/dkgkit-frost/src/lib.rs], loop by loop, and its correctness: the
    result is the unique solution of the system, and the function fails exactly
    when the matrix is singular.

    A matrix is a list of rows.  Every index of the sources is checked: a read,
    an assignment or a swap out of range is a [Panic] ([vec_get], [vec_set],
    [vec_swap]), and that the loops never leave the range of a square system is
    part of what is proved. *)

From Stdlib Require Import Ascii String Field.
From stdpp Require Import base numbers countable gmap strings list.
From S2P Require Import Prelude Core Secp SmallGroup.

Section solver.
Context `{Secp}.

(** [matrix[i][j]] read and assigned. *)
Definition matrix_get (matrix : list (list scalar)) (i j : nat) : Result scalar :=
  row ← vec_get matrix i;
  vec_get row j.

Definition matrix_set (matrix : list (list scalar)) (i j : nat) (x : scalar) :
  Result (list (list scalar)) :=
  row ← vec_get matrix i;
  row ← vec_set row j x;
  vec_set matrix i row.

(** [(col..n).find(|row| !matrix[*row][col].is_zero())] over the remaining rows:
    the search reads no row after the one it returns. *)
Fixpoint find_pivot (matrix : list (list scalar)) (col : nat) (rows : list nat) :
  Result (option nat) :=
  match rows with
  | [] => Ok None
  | row :: rows =>
      x ← matrix_get matrix row col;
      if scalar_is_zero x then find_pivot matrix col rows else Ok (Some row)
  end.

(** [for entry in row.iter_mut().skip(col) { *entry = entry * c; }] *)
Definition scale_row_from (col : nat) (c : scalar) (row : list scalar) : list scalar :=
  imap (fun k e => if k <? col then e else scalar_mul e c) row.

(** The body of the loop over [inner_col]. *)
Definition subtract_entry (col row : nat) (factor : scalar)
    (matrix : list (list scalar)) (inner_col : nat) : Result (list (list scalar)) :=
  x ← matrix_get matrix row inner_col;
  y ← matrix_get matrix col inner_col;
  matrix_set matrix row inner_col (scalar_sub x (scalar_mul factor y)).

Definition subtract_row_from (n col row : nat) (factor : scalar)
    (matrix : list (list scalar)) : Result (list (list scalar)) :=
  foldlM (subtract_entry col row factor) matrix (seq col (n - col)).

(** One iteration of the elimination loop over the other rows. *)
Definition eliminate_row (n col : nat)
    (state : list (list scalar) * list scalar) (row : nat) :
  Result (list (list scalar) * list scalar) :=
  let '(matrix, target) := state in
  if row =? col then Ok (matrix, target)
  else
    factor ← matrix_get matrix row col;
    if scalar_is_zero factor then Ok (matrix, target)
    else
      matrix ← subtract_row_from n col row factor matrix;
      x ← vec_get target row;
      y ← vec_get target col;
      target ← vec_set target row (scalar_sub x (scalar_mul factor y));
      Ok (matrix, target).

(** One iteration of the outer loop. *)
Definition solve_column (n : nat) (state : list (list scalar) * list scalar) (col : nat) :
  Result (list (list scalar) * list scalar) :=
  let '(matrix, target) := state in
  found ← find_pivot matrix col (seq col (n - col));
  pivot ← ok_or found (Protocol "singular Birkhoff interpolation system");
  '(matrix, target) ←
    (if pivot =? col then Ok (matrix, target)
     else
       matrix ← vec_swap matrix pivot col;
       target ← vec_swap target pivot col;
       Ok (matrix, target));
  pivot_value ← matrix_get matrix col col;
  pivot_value ← ok_or (scalar_non_zero pivot_value)
                      (Protocol "singular Birkhoff interpolation pivot");
  let pivot_inverse := scalar_invert pivot_value in
  row ← vec_get matrix col;
  matrix ← vec_set matrix col (scale_row_from col pivot_inverse row);
  x ← vec_get target col;
  target ← vec_set target col (scalar_mul x pivot_inverse);
  foldlM (eliminate_row n col) (matrix, target) (seq 0 n).

Definition solve_scalar_system (matrix : list (list scalar)) (target : list scalar) :
  Result (list scalar) :=
  let n := length matrix in
  reject_if (negb (length target =? n)
             || existsb (fun row => negb (length row =? n)) matrix)
    (Protocol "Birkhoff linear system must be square");;
  '(_, target) ← foldlM (solve_column n) (matrix, target) (seq 0 n);
  Ok target.
End solver.

(** ** Finite sums of scalars *)

Section sums.
Context `{SecpLaws}.
Local Open Scope secp_scope.
Add Field scalar_field_sums : scalar_ft.

Fixpoint ssum (n : nat) (f : nat -> scalar) : scalar :=
  match n with
  | O => scalar_zero
  | S n => ssum n f + f n
  end.

Lemma ssum_ext n f g : (forall j, (j < n)%nat -> f j = g j) -> ssum n f = ssum n g.
Proof.
  induction n as [|n IH]; intros Hfg; simpl; [done|].
  rewrite IH, Hfg by (try intros; try apply Hfg; lia). done.
Qed.

Lemma ssum_zero n : ssum n (fun _ => scalar_zero) = scalar_zero.
Proof. induction n as [|n IH]; simpl; [done|]. rewrite IH. ring. Qed.

Lemma ssum_scale n c f : ssum n (fun j => c * f j) = c * ssum n f.
Proof. induction n as [|n IH]; simpl; [|rewrite IH]; ring. Qed.

Lemma ssum_add n f g : ssum n (fun j => f j + g j) = ssum n f + ssum n g.
Proof. induction n as [|n IH]; simpl; [|rewrite IH]; ring. Qed.

Lemma ssum_sub n f g : ssum n (fun j => f j - g j) = ssum n f - ssum n g.
Proof. induction n as [|n IH]; simpl; [|rewrite IH]; ring. Qed.

(** Interchanging the order of summation. *)
Lemma ssum_swap n m (f : nat -> nat -> scalar) :
  ssum n (fun i => ssum m (f i)) = ssum m (fun j => ssum n (fun i => f i j)).
Proof.
  induction n as [|n IH]; simpl; [by rewrite ssum_zero|].
  by rewrite IH, <- ssum_add.
Qed.

(** A sum with one non-zero term. *)
Lemma ssum_single n k f :
  (k < n)%nat -> (forall j, (j < n)%nat -> j <> k -> f j = scalar_zero) ->
  ssum n f = f k.
Proof.
  induction n as [|n IH]; intros Hk Hf; simpl; [lia|].
  destruct (decide (k = n)) as [->|Hne].
  - rewrite (ssum_ext n f (fun _ => scalar_zero)).
    + rewrite ssum_zero. ring.
    + intros j Hj. apply Hf; lia.
  - rewrite IH, (Hf n); [ring|lia|done|lia|]. intros j Hj Hjk. apply Hf; lia.
Qed.

(** A sum over the first [k] terms when the others vanish. *)
Lemma ssum_truncate k n f :
  (k <= n)%nat -> (forall j, (k <= j < n)%nat -> f j = scalar_zero) ->
  ssum n f = ssum k f.
Proof.
  induction n as [|n IH]; intros Hk Hf.
  - by replace k with 0%nat by lia.
  - destruct (decide (k = S n)) as [->|Hne]; [done|]. simpl.
    rewrite IH, (Hf n); [ring|lia|lia|]. intros j Hj. apply Hf; lia.
Qed.
End sums.

(** ** What each loop does to the entries *)

Section loops.
Context `{SecpLaws}.
Local Open Scope secp_scope.
Add Field scalar_field_loops : scalar_ft.

Implicit Types (m : list (list scalar)) (t row : list scalar).

(** The entry of a row or a matrix at an index in range, as a total function:
    the vocabulary of the statements below. *)
Definition row_entry row (j : nat) : scalar := nth j row scalar_zero.

Definition entry m (i j : nat) : scalar := row_entry (nth i m []) j.

Definition shape (n : nat) m t : Prop :=
  length m = n /\ (forall i, (i < n)%nat -> length (nth i m []) = n) /\ length t = n.

Lemma nth_insert {A} (l : list A) i j x d :
  (i < length l)%nat -> nth j (<[i := x]> l) d = if decide (i = j) then x else nth j l d.
Proof.
  intros Hi. rewrite !nth_lookup. case_decide as Hij; subst.
  - by rewrite list_lookup_insert_eq.
  - by rewrite list_lookup_insert_ne.
Qed.

Lemma row_entry_insert row i j x :
  (i < length row)%nat ->
  row_entry (<[i := x]> row) j = if decide (i = j) then x else row_entry row j.
Proof. apply nth_insert. Qed.

(** What [swap] leaves behind. *)
Lemma vec_swap_spec {A} (l : list A) i j :
  (i < length l)%nat -> (j < length l)%nat ->
  exists l', vec_swap l i j = (Ok l' : Result (list A)) /\ length l' = length l /\
    forall k d, nth k l' d =
      nth (if decide (k = i) then j else if decide (k = j) then i else k) l d.
Proof.
  intros Hi Hj. destruct (lookup_lt_is_Some_2 l i Hi) as [x Hx].
  destruct (lookup_lt_is_Some_2 l j Hj) as [y Hy].
  exists (<[j := x]> (<[i := y]> l)). split_and!.
  - unfold vec_swap, vec_get. rewrite Hx, Hy. cbn [expect]. rewrite !ok_bind.
    rewrite vec_set_insert by done. rewrite ok_bind. apply vec_set_insert.
    by rewrite length_insert.
  - by rewrite !length_insert.
  - intros k d. rewrite !nth_insert by (by rewrite ?length_insert).
    repeat case_decide; subst; try done; rewrite nth_lookup; by rewrite ?Hx, ?Hy.
Qed.

(** Every index in range is read and assigned. *)
Lemma vec_get_entry t i :
  (i < length t)%nat -> vec_get t i = (Ok (row_entry t i) : Result scalar).
Proof. intros Hi. by apply vec_get_nth. Qed.

Lemma matrix_get_entry n m t i j :
  shape n m t -> (i < n)%nat -> (j < n)%nat -> matrix_get m i j = Ok (entry m i j).
Proof.
  intros (Hm & Hr & _) Hi Hj. unfold matrix_get.
  rewrite (vec_get_nth m i []), ok_bind by lia. apply vec_get_entry. rewrite Hr; lia.
Qed.

Lemma matrix_set_entry n m t i j x :
  shape n m t -> (i < n)%nat -> (j < n)%nat ->
  exists m', matrix_set m i j x = Ok m' /\ shape n m' t /\
    forall i' j', entry m' i' j' =
      if decide (i' = i /\ j' = j) then x else entry m i' j'.
Proof.
  intros (Hm & Hr & Ht) Hi Hj. exists (<[i := <[j := x]> (nth i m [])]> m).
  unfold matrix_set. rewrite (vec_get_nth m i []), ok_bind by lia.
  rewrite vec_set_insert, ok_bind by (rewrite Hr; lia).
  rewrite vec_set_insert by lia. split_and!; [done| |].
  - split_and!; [by rewrite length_insert| |done]. intros k Hk.
    rewrite nth_insert by lia. case_decide; [rewrite length_insert|]; by apply Hr.
  - intros i' j'. unfold entry at 1. rewrite nth_insert by lia.
    destruct (decide (i = i')) as [<-|]; [|by rewrite decide_False by naive_solver].
    rewrite row_entry_insert by (rewrite Hr; lia).
    unfold entry. by repeat case_decide; try naive_solver.
Qed.

Lemma row_entry_scale col c row j :
  row_entry (scale_row_from col c row) j =
  if decide (j < col)%nat then row_entry row j else row_entry row j * c.
Proof.
  unfold row_entry, scale_row_from. rewrite !nth_lookup, list_lookup_imap.
  destruct (row !! j); simpl.
  - destruct (Nat.ltb_spec j col); case_decide; done || lia.
  - case_decide; [done|ring].
Qed.

Lemma length_scale_row col c row : length (scale_row_from col c row) = length row.
Proof. apply length_imap. Qed.

(** The inner loop, [k] columns from column [a]: it subtracts the multiple of
    the pivot row from the entries it visits, and indexes nothing out of
    range. *)
Lemma subtract_entries n col (row : nat) f t k : forall a m,
  shape n m t -> (col < n)%nat -> (row < n)%nat -> row <> col -> (a + k <= n)%nat ->
  exists m', foldlM (subtract_entry col row f) m (seq a k) = Ok m' /\ shape n m' t /\
    forall i j, entry m' i j =
      if decide (i = row /\ (a <= j < a + k)%nat)
      then entry m i j - f * entry m col j else entry m i j.
Proof.
  induction k as [|k IH]; intros a m Hsh Hcol Hrow Hne Ha; cbn [seq foldlM].
  - exists m. split_and!; [done|done|]. intros i j. by rewrite decide_False by lia.
  - unfold subtract_entry at 2. rewrite !(matrix_get_entry n m t), !ok_bind by (done || lia).
    destruct (matrix_set_entry n m t row a (entry m row a - f * entry m col a))
      as (m1 & -> & Hsh1 & He1); [done|done|lia|]. rewrite ok_bind.
    destruct (IH (S a) m1) as (m2 & -> & Hsh2 & He2); [done..|lia|].
    exists m2. split_and!; [done|done|]. intros i j. rewrite He2, !He1.
    repeat case_decide; try lia; try done.
    destruct_and!. by subst.
Qed.

Lemma subtract_row_spec n col (row : nat) f m t :
  shape n m t -> (col < n)%nat -> (row < n)%nat -> row <> col ->
  exists m', subtract_row_from n col row f m = Ok m' /\ shape n m' t /\
    forall i j, (j < n)%nat -> entry m' i j =
      if decide (i = row /\ (col <= j)%nat)
      then entry m i j - f * entry m col j else entry m i j.
Proof.
  intros Hsh Hcol Hrow Hne.
  destruct (subtract_entries n col row f t (n - col) col m) as (m' & E & Hsh' & He);
    [done..|lia|]. exists m'. split_and!; [done|done|].
  intros i j Hj. rewrite He. repeat case_decide; done || lia.
Qed.

(** One iteration changes at most the row it visits. *)
Lemma eliminate_row_spec n col m t k :
  shape n m t -> (col < n)%nat -> (k < n)%nat ->
  exists m' t', eliminate_row n col (m, t) k = Ok (m', t') /\ shape n m' t' /\
  forall i, (i < n)%nat ->
    (forall j, (j < n)%nat -> entry m' i j =
       if decide (i = k /\ i <> col /\ (col <= j)%nat)
       then entry m i j - entry m i col * entry m col j else entry m i j) /\
    row_entry t' i =
      if decide (i = k /\ i <> col)
      then row_entry t i - entry m i col * row_entry t col else row_entry t i.
Proof.
  intros Hsh Hcol Hk. unfold eliminate_row. destruct (Nat.eqb_spec k col) as [->|Hkc].
  { exists m, t. split_and!; [done|done|]. intros i Hi. split; [intros j Hj|];
      by rewrite decide_False by naive_solver. }
  rewrite (matrix_get_entry n m t), ok_bind by done.
  destruct (scalar_is_zero (entry m k col)) eqn:Hz.
  { apply scalar_is_zero_true in Hz. exists m, t. split_and!; [done|done|]. intros i Hi.
    split; [intros j Hj|]; case_decide as Hd; try done;
      destruct Hd as [-> _]; rewrite Hz; ring. }
  destruct (subtract_row_spec n col k (entry m k col) m t) as (m' & -> & Hsh' & He); [done..|].
  destruct Hsh' as (Hm' & Hr' & Ht). rewrite ok_bind, !vec_get_entry, !ok_bind by lia.
  rewrite vec_set_insert, ok_bind by lia. eexists _, _. split_and!; [done| |].
  { split_and!; [done|done|by rewrite length_insert]. }
  intros i Hi. split; [intros j Hj; rewrite He by done|rewrite row_entry_insert by lia].
  - repeat case_decide; try naive_solver.
  - repeat case_decide; naive_solver.
Qed.

(** After the first [k] iterations the rows below [k], except the pivot row,
    have the pivot row's multiple subtracted. *)
Lemma eliminate_prefix n col m t k :
  shape n m t -> (col < n)%nat -> (k <= n)%nat ->
  exists m' t', foldlM (eliminate_row n col) (m, t) (seq 0 k) = Ok (m', t') /\ shape n m' t' /\
  forall i, (i < n)%nat ->
    (forall j, (j < n)%nat -> entry m' i j =
       if decide ((i < k)%nat /\ i <> col /\ (col <= j)%nat)
       then entry m i j - entry m i col * entry m col j else entry m i j) /\
    row_entry t' i =
      if decide ((i < k)%nat /\ i <> col)
      then row_entry t i - entry m i col * row_entry t col else row_entry t i.
Proof.
  intros Hsh Hcol. induction k as [|k IH]; intros Hk.
  - exists m, t. split_and!; [done|done|]. intros i Hi. split; [intros j Hj|];
      by rewrite decide_False by lia.
  - rewrite seq_S, foldlM_app. destruct IH as (m1 & t1 & -> & Hsh1 & Hv); [lia|].
    rewrite ok_bind. cbn [foldlM Nat.add].
    destruct (eliminate_row_spec n col m1 t1 k Hsh1 Hcol ltac:(lia))
      as (m2 & t2 & -> & Hsh2 & Hs).
    exists m2, t2. split_and!; [done|done|]. intros i Hi.
    destruct (Hv i Hi) as [He Ht], (Hs i Hi) as [He2 Ht2], (Hv col Hcol) as [Hec Htc].
    split; [intros j Hj; rewrite He2, (He j), (He col), (Hec j) by done
           |rewrite Ht2, Ht, (He col), Htc by done];
      clear; repeat case_decide; done || lia.
Qed.
End loops.

(** ** Row operations keep the solutions *)

Section solutions.
Context `{SecpLaws}.
Local Open Scope secp_scope.
Add Field scalar_field_solutions : scalar_ft.

Implicit Types (m : list (list scalar)) (t row : list scalar) (x : nat -> scalar).

(** [x] solves the system with the right-hand side scaled by [w]: [w = 1] is
    the system itself and [w = 0] the homogeneous one. *)
Definition residual (n : nat) (w : scalar) m t x (i : nat) : scalar :=
  ssum n (fun j => entry m i j * x j) - w * row_entry t i.

Definition solves (n : nat) (w : scalar) m t x : Prop :=
  forall i, (i < n)%nat -> residual n w m t x i = scalar_zero.

(** The first [col] columns are those of the identity matrix. *)
Definition unit_columns (n col : nat) m : Prop :=
  forall i j, (i < n)%nat -> (j < col)%nat ->
    entry m i j = if decide (i = j) then scalar_one else scalar_zero.

Lemma residual_combine n w m t x m' t' i k c f :
  (forall j, (j < n)%nat -> entry m' i j = c * entry m i j - f * entry m k j) ->
  row_entry t' i = c * row_entry t i - f * row_entry t k ->
  residual n w m' t' x i = c * residual n w m t x i - f * residual n w m t x k.
Proof.
  intros Hm Ht. unfold residual. rewrite Ht.
  rewrite (ssum_ext n _ (fun j => c * (entry m i j * x j) - f * (entry m k j * x j))).
  - rewrite ssum_sub, !ssum_scale. ring.
  - intros j Hj. rewrite Hm by done. ring.
Qed.

Lemma swap_step n p col m t :
  shape n m t -> (col <= p < n)%nat ->
  exists m' t', vec_swap m p col = (Ok m' : Result _) /\ vec_swap t p col = (Ok t' : Result _) /\
  shape n m' t' /\
  (unit_columns n col m -> unit_columns n col m') /\
  (forall j, entry m' col j = entry m p j) /\
  (forall w x, solves n w m' t' x <-> solves n w m t x).
Proof.
  intros (Hm & Hr & Ht) Hp.
  destruct (vec_swap_spec m p col) as (m' & Em & Hlm & Hnm); [lia|lia|].
  destruct (vec_swap_spec t p col) as (t' & Et & Hlt & Hnt); [lia|lia|].
  exists m', t'. set (s i := if decide (i = p) then col else if decide (i = col) then p else i).
  assert (He : forall i j, entry m' i j = entry m (s i) j).
  { intros i j. unfold entry. by rewrite Hnm. }
  assert (Htt : forall i, row_entry t' i = row_entry t (s i)).
  { intros i. apply Hnt. }
  assert (Hs : forall i, (i < n)%nat -> (s i < n)%nat).
  { intros i Hi. unfold s. repeat case_decide; lia. }
  assert (Hss : forall i, s (s i) = i).
  { intros i. unfold s. repeat case_decide; lia. }
  assert (Hres : forall w x i, residual n w m' t' x i = residual n w m t x (s i)).
  { intros w x i. unfold residual. rewrite Htt. f_equal. apply ssum_ext.
    intros j _. by rewrite He. }
  split_and!; [done|done|..].
  - split_and!; [by rewrite Hlm| |by rewrite Hlt].
    intros i Hi. rewrite Hnm. apply Hr, (Hs i Hi).
  - intros Hu i j Hi Hj. rewrite He, Hu by (auto || lia).
    unfold s. repeat case_decide; done || lia.
  - intros j. rewrite He. f_equal. unfold s. repeat case_decide; lia.
  - intros w x. split; intros Hsol i Hi.
    + rewrite <- (Hss i), <- Hres. auto.
    + rewrite Hres. auto.
Qed.

Lemma scale_step n col c m t :
  shape n m t -> (col < n)%nat -> unit_columns n col m ->
  c <> scalar_zero ->
  let m' := <[col := scale_row_from col c (nth col m [])]> m in
  let t' := <[col := row_entry t col * c]> t in
  shape n m' t' /\ unit_columns n col m' /\ entry m' col col = entry m col col * c /\
  (forall w x, solves n w m' t' x <-> solves n w m t x).
Proof.
  intros (Hm & Hr & Ht) Hcol Hu Hc m' t'.
  assert (He : forall i j, (j < n)%nat ->
            entry m' i j = if decide (col = i) then entry m i j * c else entry m i j).
  { intros i j Hj. unfold entry at 1, m'. rewrite nth_insert by lia.
    case_decide as E; [subst i|done]. rewrite row_entry_scale.
    case_decide as Hjc; [|done]. fold (entry m col j).
    rewrite Hu by lia. rewrite decide_False by lia. ring. }
  assert (Htt : forall i,
            row_entry t' i = if decide (col = i) then row_entry t i * c else row_entry t i).
  { intros i. unfold t'. rewrite row_entry_insert by lia. by case_decide; subst. }
  assert (Hres : forall w x i, residual n w m' t' x i =
            (if decide (col = i) then c else scalar_one) * residual n w m t x i).
  { intros w x i.
    rewrite (residual_combine n w m t x m' t' i i
               (if decide (col = i) then c else scalar_one) scalar_zero).
    - ring.
    - intros j Hj. rewrite He by done. case_decide; ring.
    - rewrite Htt. case_decide; ring. }
  split_and!.
  - split_and!; [by unfold m'; rewrite length_insert| |by unfold t'; rewrite length_insert].
    intros i Hi. unfold m'. rewrite nth_insert by lia.
    case_decide; [rewrite length_scale_row|]; by apply Hr.
  - intros i j Hi Hj. rewrite He, Hu by lia. repeat case_decide; subst; try done; try lia. ring.
  - rewrite He by done. by rewrite decide_True.
  - intros w x. split; intros Hsol i Hi; specialize (Hsol i Hi); rewrite Hres in *.
    + apply scalar_integral in Hsol as [Hz|Hz]; [|done]. exfalso. case_decide.
      * done.
      * by apply scalar_one_neq_zero.
    + rewrite Hsol. ring.
Qed.

Lemma eliminate_step n col m t :
  shape n m t -> (col < n)%nat -> unit_columns n col m -> entry m col col = scalar_one ->
  exists m' t', foldlM (eliminate_row n col) (m, t) (seq 0 n) = Ok (m', t') /\
  shape n m' t' /\ unit_columns n (S col) m' /\
  (forall w x, solves n w m' t' x <-> solves n w m t x).
Proof.
  intros Hsh Hcol Hu Hone.
  destruct (eliminate_prefix n col m t n Hsh Hcol ltac:(lia)) as (m' & t' & E & Hsh' & Hp).
  exists m', t'.
  set (f i := if decide (i = col) then scalar_zero else entry m i col).
  assert (He : forall i j, (i < n)%nat -> (j < n)%nat ->
            entry m' i j = scalar_one * entry m i j - f i * entry m col j).
  { intros i j Hi Hj. destruct (Hp i Hi) as [Hij _]. rewrite Hij by done. clear Hij. unfold f.
    destruct (decide (i = col)); [rewrite decide_False by tauto; ring|].
    case_decide; [ring|]. rewrite (Hu col j) by lia.
    rewrite decide_False by lia. ring. }
  assert (Hres : forall w x i, (i < n)%nat -> residual n w m' t' x i =
            residual n w m t x i - f i * residual n w m t x col).
  { intros w x i Hi. rewrite (residual_combine n w m t x m' t' i col scalar_one (f i)).
    - ring.
    - auto.
    - destruct (Hp i Hi) as [_ Hti]. rewrite Hti. clear Hti. unfold f.
      repeat case_decide; try lia; try ring; tauto. }
  split_and!; [done|done| |].
  - intros i j Hi Hj. rewrite He by lia. destruct (decide (j = col)) as [->|Hjc].
    + rewrite Hone. unfold f. case_decide; [subst; rewrite Hone|]; ring.
    + rewrite (Hu i j), (Hu col j), (decide_False (P := col = j)) by lia. ring.
  - intros w x. split; intros Hsol i Hi.
    + assert (Hc : residual n w m t x col = scalar_zero).
      { specialize (Hsol col Hcol). rewrite Hres in Hsol by done. unfold f in Hsol.
        rewrite decide_True in Hsol by done. rewrite <- Hsol. ring. }
      specialize (Hsol i Hi). rewrite Hres, Hc in Hsol by done. rewrite <- Hsol. ring.
    + rewrite Hres, !Hsol by done. ring.
Qed.
End solutions.

(** ** Correctness of the solver *)

Section correctness.
Context `{SecpLaws}.
Local Open Scope secp_scope.
Add Field scalar_field_correctness : scalar_ft.

Implicit Types (m : list (list scalar)) (t s : list scalar) (x : nat -> scalar).

Definition singular_error : DkgKitError := Protocol "singular Birkhoff interpolation system".

Lemma find_pivot_spec n m t col k (a : nat) :
  shape n m t -> (col < n)%nat -> (a + k <= n)%nat ->
  exists found, find_pivot m col (seq a k) = Ok found /\
  match found with
  | Some p => (a <= p < a + k)%nat /\ entry m p col <> scalar_zero
  | None => forall row, (a <= row < a + k)%nat -> entry m row col = scalar_zero
  end.
Proof.
  intros Hsh Hcol. revert a. induction k as [|k IH]; intros a Ha; cbn [seq find_pivot].
  - exists None. split; [done|]. intros row Hrow. lia.
  - rewrite (matrix_get_entry n m t), ok_bind by (done || lia).
    destruct (scalar_is_zero (entry m a col)) eqn:Hz.
    + destruct (IH (S a)) as (found & -> & Hf); [lia|]. exists found. split; [done|].
      destruct found as [p|]; [destruct Hf; split; [lia|done]|]. intros row Hrow.
      destruct (decide (row = a)) as [->|]; [by apply scalar_is_zero_true|]. apply Hf. lia.
    + exists (Some a). split; [done|]. split; [lia|]. by apply scalar_is_zero_false.
Qed.

(** Bringing the pivot row into place. *)
Lemma pivot_step n p col m t :
  shape n m t -> (col <= p < n)%nat -> unit_columns n col m -> entry m p col <> scalar_zero ->
  exists m1 t1,
    (if p =? col then Ok (m, t)
     else m ← vec_swap m p col; t ← vec_swap t p col; Ok (m, t)) = (Ok (m1, t1) : Result _) /\
    shape n m1 t1 /\ unit_columns n col m1 /\ entry m1 col col <> scalar_zero /\
    forall w x, solves n w m1 t1 x <-> solves n w m t x.
Proof.
  intros Hsh Hp Hu Hnz. destruct (Nat.eqb_spec p col) as [->|Hne]; [by exists m, t|].
  destruct (swap_step n p col m t Hsh Hp) as (m1 & t1 & -> & -> & Hs & Hus & Hes & Hsol).
  exists m1, t1. split_and!; [done|done|auto|by rewrite Hes|done].
Qed.

Lemma solve_column_spec n m t col :
  shape n m t -> (col < n)%nat -> unit_columns n col m ->
  match solve_column n (m, t) col with
  | Ok (m', t') => shape n m' t' /\ unit_columns n (S col) m' /\
                   (forall w x, solves n w m' t' x <-> solves n w m t x)
  | Err e => e = singular_error /\
             forall row, (col <= row < n)%nat -> entry m row col = scalar_zero
  | Panic => False
  end.
Proof.
  intros Hsh Hcol Hu. unfold solve_column.
  destruct (find_pivot_spec n m t col (n - col) col Hsh Hcol ltac:(lia))
    as ([p|] & -> & Hpiv); rewrite ok_bind; cbn [ok_or].
  2: { split; [done|]. intros row Hr. apply Hpiv. lia. }
  destruct Hpiv as [Hp Hnz]. rewrite ok_bind.
  destruct (pivot_step n p col m t) as (m1 & t1 & -> & Hsh1 & Hu1 & Hnz1 & Hsol1);
    [done|lia|done|done|].
  rewrite ok_bind, (matrix_get_entry n m1 t1), ok_bind by done.
  unfold scalar_non_zero. apply scalar_is_zero_false in Hnz1 as Hf. rewrite Hf.
  cbn [ok_or]. destruct Hsh1 as (Hm1 & Hr1 & Ht1).
  rewrite ok_bind, (vec_get_nth m1 col []), ok_bind, vec_set_insert, ok_bind by lia.
  rewrite vec_get_entry, ok_bind, vec_set_insert, ok_bind by lia.
  destruct (scale_step n col (scalar_invert (entry m1 col col)) m1 t1)
    as (Hsh2 & Hu2 & Hone & Hsol2); [done|done|done|by apply scalar_invert_nonzero|].
  destruct (eliminate_step n col _ _ Hsh2 Hcol Hu2) as (m3 & t3 & -> & Hsh3 & Hu3 & Hsol3).
  { rewrite Hone. field. done. }
  split_and!; [done|done|]. intros w x. by rewrite Hsol3, Hsol2.
Qed.

(** A column without a pivot gives a non-zero vector of the kernel. *)
Lemma kernel_of_column n m t col :
  (col < n)%nat -> unit_columns n col m ->
  (forall row, (col <= row < n)%nat -> entry m row col = scalar_zero) ->
  exists x, solves n scalar_zero m t x /\ x col <> scalar_zero.
Proof.
  intros Hcol Hu Hz.
  exists (fun j => if decide (j < col)%nat then - entry m j col
                   else if decide (j = col) then scalar_one else scalar_zero).
  split.
  2: { rewrite decide_False, decide_True by lia. apply scalar_one_neq_zero. }
  intros i Hi. unfold residual.
  rewrite (ssum_truncate (S col)) by
    (lia || (intros j Hj; rewrite !decide_False by lia; ring)).
  cbn [ssum]. rewrite (decide_False (P := (col < col)%nat)), (decide_True (P := col = col))
    by lia.
  destruct (decide (i < col)%nat) as [Hic|Hic].
  - rewrite (ssum_single col i) by
      (lia || (intros j Hj Hji; rewrite Hu, decide_False by lia; ring)).
    rewrite Hu, !decide_True by lia. ring.
  - rewrite Hz by lia.
    rewrite (ssum_ext col _ (fun _ => scalar_zero)), ssum_zero; [ring|].
    intros j Hj. rewrite Hu, (decide_False (P := i = j)) by lia. ring.
Qed.

Lemma solve_columns_spec n k : forall m t col,
  shape n m t -> (col + k = n)%nat -> unit_columns n col m ->
  match foldlM (solve_column n) (m, t) (seq col k) with
  | Ok (m', t') => shape n m' t' /\ unit_columns n n m' /\
                   (forall w x, solves n w m' t' x <-> solves n w m t x)
  | Err e => e = singular_error /\
             exists x i, (i < n)%nat /\ x i <> scalar_zero /\ solves n scalar_zero m t x
  | Panic => False
  end.
Proof.
  induction k as [|k IH]; intros m t col Hsh Hn Hu.
  - replace col with n in Hu by lia. done.
  - cbn [seq foldlM].
    pose proof (solve_column_spec n m t col Hsh ltac:(lia) Hu) as Hc.
    destruct (solve_column n (m, t) col) as [[m1 t1]|e|]; cbn [mbind outcome_bind].
    + destruct Hc as (Hsh1 & Hu1 & Hsol1).
      specialize (IH m1 t1 (S col) Hsh1 ltac:(lia) Hu1).
      destruct (foldlM _ _ _) as [[m2 t2]|e|]; [| |done].
      * destruct IH as (? & ? & Hsol2). split_and!; [done|done|].
        intros w x. by rewrite Hsol2.
      * destruct IH as (-> & x & i & Hi & Hx & Hs). split; [done|].
        exists x, i. by rewrite <- Hsol1.
    + destruct Hc as [-> Hz]. split; [done|].
      destruct (kernel_of_column n m t col ltac:(lia) Hu Hz) as (x & Hx & Hnz).
      exists x, col. split_and!; [lia|done|done].
    + done.
Qed.

Lemma unit_solves n w m t x :
  unit_columns n n m ->
  solves n w m t x <-> forall i, (i < n)%nat -> x i = w * row_entry t i.
Proof.
  intros Hu. unfold solves.
  assert (Hr : forall i, (i < n)%nat -> residual n w m t x i = x i - w * row_entry t i).
  { intros i Hi. unfold residual. f_equal. rewrite (ssum_single n i _ Hi).
    - rewrite Hu, decide_True by done. ring.
    - intros j Hj Hji. rewrite Hu, decide_False by auto. ring. }
  split; intros Hs i Hi; specialize (Hs i Hi).
  - by rewrite Hr, scalar_sub_zero_iff in Hs.
  - by rewrite Hr, scalar_sub_zero_iff.
Qed.

Definition square m t : Prop :=
  length t = length m /\ Forall (fun row => length row = length m) m.

Lemma solve_scalar_system_square m t :
  square m t ->
  solve_scalar_system m t =
  ('(_, target) ← foldlM (solve_column (length m)) (m, t) (seq 0 (length m)); Ok target).
Proof.
  intros [Ht Hr]. unfold solve_scalar_system. rewrite Ht, Nat.eqb_refl.
  destruct (existsb _ _) eqn:E; [|done].
  apply existsb_exists in E as (row & Hin & Hl).
  apply negb_true_iff, Nat.eqb_neq in Hl. rewrite Forall_forall in Hr.
  destruct Hl. by apply Hr, list_elem_of_In.
Qed.

(** Every run of the solver on a square system: it returns the vector that
    every solution is (scaled with the right-hand side), or reports the
    singular system, which then has a non-zero kernel vector. *)
Lemma solve_scalar_system_cases m t :
  square m t ->
  (exists s, solve_scalar_system m t = Ok s /\ length s = length m /\
     forall w x, solves (length m) w m t x <->
                 forall i, (i < length m)%nat -> x i = w * row_entry s i) \/
  (solve_scalar_system m t = Err singular_error /\
   exists x i, (i < length m)%nat /\ x i <> scalar_zero /\
               solves (length m) scalar_zero m t x).
Proof.
  intros Hsq. rewrite solve_scalar_system_square by done. destruct Hsq as [Ht Hr].
  assert (Hsh : shape (length m) m t).
  { split_and!; [done| |done]. intros i Hi. rewrite Forall_forall in Hr.
    apply Hr, list_elem_of_In, nth_In, Hi. }
  pose proof (solve_columns_spec (length m) (length m) m t 0 Hsh eq_refl
                ltac:(intros ? ? ? ?; lia)) as Hs.
  destruct (foldlM _ _ _) as [[m1 t1]|e|]; [left|right|done].
  - destruct Hs as ((_ & _ & Hl) & Hu & Hsol). exists t1. split_and!; [done|done|].
    intros w x. rewrite <- Hsol. by apply unit_solves.
  - destruct Hs as [-> Hk]. done.
Qed.
End correctness.

(** ** Regular matrices *)

Section regular.
Context `{SecpLaws}.
Local Open Scope secp_scope.
Add Field scalar_field_regular : scalar_ft.

Implicit Types (a : nat -> nat -> scalar) (x y : nat -> scalar).

(** The [n]-by-[n] matrix with the entries [a i j]. *)
Definition matrix_of (n : nat) a : list (list scalar) :=
  map (fun i => map (a i) (seq 0 n)) (seq 0 n).

Definition kernel (n : nat) a x : Prop :=
  forall i, (i < n)%nat -> ssum n (fun j => a i j * x j) = scalar_zero.

(** The kernel is trivial. *)
Definition regular (n : nat) a : Prop :=
  forall x, kernel n a x -> forall i, (i < n)%nat -> x i = scalar_zero.

Lemma nth_map_seq {B} (f : nat -> B) n i d : (i < n)%nat -> nth i (map f (seq 0 n)) d = f i.
Proof.
  intros Hi. rewrite (nth_indep _ d (f 0%nat)) by (by rewrite length_map, length_seq).
  by rewrite map_nth, seq_nth.
Qed.

Lemma entry_matrix_of n a i j :
  (i < n)%nat -> (j < n)%nat -> entry (matrix_of n a) i j = a i j.
Proof.
  intros Hi Hj. unfold entry, matrix_of, row_entry. by rewrite !nth_map_seq by done.
Qed.

(** A square matrix is determined by its entries. *)
Lemma shape_matrix_of n m t a :
  shape n m t -> (forall i j, (i < n)%nat -> (j < n)%nat -> entry m i j = a i j) ->
  m = matrix_of n a.
Proof.
  intros (Hm & Hr & _) Ha. unfold matrix_of.
  apply (nth_ext _ _ [] []); [by rewrite length_map, length_seq|].
  intros i Hi. rewrite nth_map_seq by lia.
  apply (nth_ext _ _ scalar_zero scalar_zero); [rewrite length_map, length_seq; apply Hr; lia|].
  intros j Hj. rewrite Hr in Hj by lia. rewrite nth_map_seq by done. apply Ha; lia.
Qed.

Lemma length_matrix_of n a : length (matrix_of n a) = n.
Proof. unfold matrix_of. by rewrite length_map, length_seq. Qed.

Lemma matrix_of_square n a t : length t = n -> square (matrix_of n a) t.
Proof.
  intros Ht. split; rewrite length_matrix_of; [done|]. unfold matrix_of.
  apply Forall_fmap, Forall_forall. intros i _. simpl. by rewrite length_map, length_seq.
Qed.

Lemma residual_matrix_of n w a t x i :
  (i < n)%nat ->
  residual n w (matrix_of n a) t x i = ssum n (fun j => a i j * x j) - w * row_entry t i.
Proof.
  intros Hi. unfold residual. f_equal. apply ssum_ext. intros j Hj.
  by rewrite entry_matrix_of.
Qed.

Lemma solves_matrix_of n w a t x :
  solves n w (matrix_of n a) t x <->
  forall i, (i < n)%nat -> ssum n (fun j => a i j * x j) = w * row_entry t i.
Proof.
  unfold solves. split; intros Hs i Hi; specialize (Hs i Hi).
  - by rewrite residual_matrix_of, scalar_sub_zero_iff in Hs.
  - by rewrite residual_matrix_of, scalar_sub_zero_iff.
Qed.

Lemma solves_kernel n a t x : solves n scalar_zero (matrix_of n a) t x <-> kernel n a x.
Proof.
  rewrite solves_matrix_of. unfold kernel.
  split; intros Hs i Hi; rewrite Hs by done; ring.
Qed.

(** The solver succeeds on a regular matrix with the unique solution and
    reports every other matrix. *)
Lemma solve_regular n a t :
  length t = n -> regular n a ->
  exists s, solve_scalar_system (matrix_of n a) t = Ok s /\ length s = n /\
    (forall i, (i < n)%nat -> ssum n (fun j => a i j * row_entry s j) = row_entry t i).
Proof.
  intros Ht Hreg. pose proof (matrix_of_square n a t Ht) as Hsq.
  pose proof (solve_scalar_system_cases (matrix_of n a) t Hsq) as Hc.
  rewrite !length_matrix_of in Hc.
  destruct Hc as [(s & -> & Hl & Hs)|(_ & x & i & Hi & Hx & Hk)].
  - exists s. split_and!; [done|done|].
    specialize (Hs scalar_one (row_entry s)). rewrite solves_matrix_of in Hs.
    intros i Hi. rewrite (proj2 Hs); [ring| |done]. intros k _. ring.
  - apply solves_kernel in Hk. by destruct Hx, (Hreg x Hk i Hi).
Qed.

Lemma solve_Ok_regular n a t s :
  length t = n -> solve_scalar_system (matrix_of n a) t = Ok s -> regular n a.
Proof.
  intros Ht Hs. pose proof (matrix_of_square n a t Ht) as Hsq.
  pose proof (solve_scalar_system_cases (matrix_of n a) t Hsq) as Hc.
  rewrite !length_matrix_of in Hc.
  destruct Hc as [(s' & _ & _ & Hx)|(E & _)]; [|congruence].
  intros x Hk i Hi. apply (solves_kernel n a t) in Hk.
  rewrite (proj1 (Hx scalar_zero x) Hk i Hi). ring.
Qed.

Lemma solve_not_regular n a t :
  length t = n -> ~ regular n a ->
  solve_scalar_system (matrix_of n a) t = Err singular_error.
Proof.
  intros Ht Hn. pose proof (matrix_of_square n a t Ht) as Hsq.
  destruct (solve_scalar_system_cases (matrix_of n a) t Hsq) as [(s & E & _)|(E & _)].
  - by destruct Hn; eapply solve_Ok_regular.
  - done.
Qed.

(** A matrix is regular or has a non-zero kernel vector. *)
Lemma regular_or_kernel n a :
  regular n a \/ exists x i, (i < n)%nat /\ x i <> scalar_zero /\ kernel n a x.
Proof.
  set (t := replicate n scalar_zero : list scalar).
  assert (Ht : length t = n) by apply length_replicate.
  pose proof (solve_scalar_system_cases _ _ (matrix_of_square n a t Ht)) as Hc.
  rewrite !length_matrix_of in Hc.
  destruct Hc as [(s & E & _)|(_ & x & i & Hi & Hx & Hk)].
  - left. by eapply solve_Ok_regular.
  - right. apply solves_kernel in Hk. eauto.
Qed.

(** Regularity is invariant under transposition. *)
Lemma regular_transpose n a : regular n a -> regular n (fun i j => a j i).
Proof.
  intros Hreg y Hy k Hk.
  set (t := map (fun i => if decide (i = k) then scalar_one else scalar_zero) (seq 0 n)).
  assert (Ht : length t = n) by (unfold t; by rewrite length_map, length_seq).
  destruct (solve_regular n a t Ht Hreg) as (s & _ & _ & Hs).
  transitivity (ssum n (fun i => y i * row_entry t i)).
  - rewrite (ssum_single n k _ Hk); unfold t, row_entry.
    + rewrite nth_map_seq, decide_True by done. ring.
    + intros j Hj Hjk. rewrite nth_map_seq, decide_False by done. ring.
  - rewrite (ssum_ext n _ (fun i => ssum n (fun j => row_entry s j * (a i j * y i)))).
    + rewrite ssum_swap, (ssum_ext n _ (fun _ => scalar_zero)); [apply ssum_zero|].
      intros j Hj. rewrite ssum_scale, Hy by done. ring.
    + intros i Hi. rewrite <- Hs, <- ssum_scale by done. apply ssum_ext. intros. ring.
Qed.

(** Fewer equations than unknowns: there is a non-zero solution. *)
Lemma underdetermined r n a :
  (r < n)%nat ->
  exists x i, (i < n)%nat /\ x i <> scalar_zero /\
    forall k, (k < r)%nat -> ssum n (fun j => a k j * x j) = scalar_zero.
Proof.
  intros Hr. set (b := fun i j => if decide (i < r)%nat then a i j else scalar_zero).
  set (t := replicate n scalar_zero : list scalar).
  assert (Ht : length t = n) by apply length_replicate.
  pose proof (matrix_of_square n b t Ht) as Hsq.
  pose proof (solve_scalar_system_cases (matrix_of n b) t Hsq) as Hc.
  rewrite !length_matrix_of in Hc.
  destruct Hc as [(s & E & _)|(_ & x & i & Hi & Hx & Hk)].
  - exfalso. apply solve_Ok_regular in E; [|done]. apply regular_transpose in E.
    set (y := fun j : nat => if decide (j = r) then scalar_one else scalar_zero).
    apply scalar_one_neq_zero. transitivity (y r); [unfold y; by rewrite decide_True|].
    apply E; [|done]. intros i Hi. rewrite (ssum_single n r) by
      (done || (intros j Hj Hjr; unfold y; rewrite decide_False by done; ring)).
    unfold b. rewrite decide_False by lia. ring.
  - apply solves_kernel in Hk. exists x, i. split_and!; [done|done|].
    intros k Hkr. rewrite <- (Hk k ltac:(lia)). apply ssum_ext. intros j Hj.
    unfold b. by rewrite decide_True.
Qed.

Lemma regular_ext n a b :
  (forall i j, (i < n)%nat -> (j < n)%nat -> a i j = b i j) -> regular n a -> regular n b.
Proof.
  intros Hab Ha x Hx. apply Ha. intros i Hi. rewrite <- (Hx i Hi).
  apply ssum_ext. intros j Hj. by rewrite Hab.
Qed.
End regular.

(** ** The solver's contract *)

Section contract.
Context `{SecpLaws}.

(** C5: [solve_scalar_system] is correct on every input.  On [Ok s] the system
    was square and [s] is its one solution; a system that is not square is
    rejected with the shape error; the singular error is returned only for a
    matrix with a non-zero kernel vector; and no index of the elimination
    leaves its range, so it never panics. *)
Theorem solve_scalar_system_correct (matrix : list (list scalar)) (target : list scalar) :
  match solve_scalar_system matrix target with
  | Ok s => square matrix target /\ length s = length matrix /\
      forall x, solves (length matrix) scalar_one matrix target x <->
                forall i, (i < length matrix)%nat -> x i = row_entry s i
  | Err e =>
      (e = Protocol "Birkhoff linear system must be square" /\ ~ square matrix target) \/
      (e = singular_error /\ square matrix target /\
       exists x i, (i < length matrix)%nat /\ x i <> scalar_zero /\
                   solves (length matrix) scalar_zero matrix target x)
  | Panic => False
  end.
Proof.
  assert (Decision (square matrix target)) as [Hsq|Hns] by (unfold square; apply _).
  - destruct (solve_scalar_system_cases matrix target Hsq) as [(s & -> & Hl & Hs)|[-> Hk]].
    + split_and!; [done|done|]. intros x. rewrite Hs.
      split; intros Hx i Hi; rewrite Hx by done;
        [apply (Rmul_1_l (F_R scalar_ft))|symmetry; apply (Rmul_1_l (F_R scalar_ft))].
    + right. auto.
  - unfold solve_scalar_system.
    destruct (negb _ || existsb _ _) eqn:E; cbn [reject_if mbind outcome_bind]; [by left|].
    exfalso. apply Hns. apply orb_false_iff in E as [Hl Hr].
    apply negb_false_iff, Nat.eqb_eq in Hl. split; [done|]. apply Forall_forall.
    intros row Hrow. apply list_elem_of_In in Hrow.
    destruct (Nat.eqb_spec (length row) (length matrix)) as [|Hne]; [done|].
    exfalso. apply not_true_iff_false in Hr. apply Hr, existsb_exists. exists row.
    split; [done|]. by apply negb_true_iff, Nat.eqb_neq.
Qed.
End contract.

Section witness.
Local Existing Instances small_group small_group_laws.

(** [2x + y = 3, x + y = 2] has the solution [(1, 1)]; [x + y = 3, x + y = 2] is
    reported. *)
Lemma solve_scalar_system_correct_witness :
  let m := [[f_of 2; f_of 1]; [f_of 1; f_of 1]] in
  let t := [f_of 3; f_of 2] in
  solve_scalar_system m t = Ok [f_of 1; f_of 1] /\
  solve_scalar_system [[f_of 1; f_of 1]; [f_of 1; f_of 1]] t = Err singular_error /\
  forall x, solves 2 scalar_one m t x <->
            forall i, (i < 2)%nat -> x i = row_entry [f_of 1; f_of 1] i.
Proof.
  intros m t. split_and!; [vm_compute; reflexivity|vm_compute; reflexivity|].
  pose proof (solve_scalar_system_correct m t) as Hc.
  assert (E : @solve_scalar_system small_group m t = Ok [f_of 1; f_of 1])
    by (vm_compute; reflexivity).
  rewrite E in Hc. apply Hc.
Defined.
End witness.
