(* ===== verification/Packages.v ===== *)
(** The protocol packages of [crates/dkgkit-frost/src/lib.rs] (the records from
    [DkgSessionConfig] to [HtssSignatureSharePackage]) and their conversion to
    and from the [ProtocolMessage] envelope.

    Fixed-size arrays ([[u8; 32]]) are byte lists; where the sources convert a
    [Vec<u8>] to an array the length check is written out. *)

From Stdlib Require Import Ascii String.
From stdpp Require Import base numbers countable gmap strings list.
From S2P Require Import Prelude Core Codec.

(** ** Records *)

Record DkgSessionConfig := mkDkgSessionConfig {
  dsc_session_id : SessionId;
  dsc_threshold : ThresholdConfig;
  dsc_participant_id : ParticipantId;
}.

Record Round1Package := mkRound1Package {
  r1_participant_id : ParticipantId;
  r1_bytes : bytes;
}.

Record Round2Package := mkRound2Package {
  r2_sender : ParticipantId;
  r2_recipient : ParticipantId;
  r2_bytes : bytes;
}.

Record GroupKey := mkGroupKey {
  gk_xonly_public_key : bytes;
  gk_verification_key_bytes : bytes;
}.

Record LocalKeyShare := mkLocalKeyShare {
  lks_participant_id : ParticipantId;
  lks_group_key : GroupKey;
  lks_secret_share_bytes : bytes;
}.

Record NoncePackage := mkNoncePackage {
  np_participant_id : ParticipantId;
  np_signing_session_id : SessionId;
  np_public_nonce_bytes : bytes;
}.

Record SignatureSharePackage := mkSignatureSharePackage {
  ssp_participant_id : ParticipantId;
  ssp_signing_session_id : SessionId;
  ssp_public_nonce_bytes : bytes;
  ssp_signature_share_bytes : bytes;
}.

Record AggregateSignature := mkAggregateSignature { as_signature_bytes : bytes }.

Record HtssLocalKeyShare := mkHtssLocalKeyShare {
  hks_participant_id : ParticipantId;
  hks_rank : N;
  hks_share_value_bytes : bytes;
}.

Record HtssLocalKeySet := mkHtssLocalKeySet {
  hkset_group_key : GroupKey;
  hkset_shares : list HtssLocalKeyShare;
}.

Record HtssDkgRound1Package := mkHtssDkgRound1Package {
  h1_participant_id : ParticipantId;
  h1_rank : N;
  h1_commitment_bytes : list bytes;
}.

Record HtssDkgRound1State := mkHtssDkgRound1State {
  h1s_package : HtssDkgRound1Package;
  h1s_secret_coefficient_bytes : list bytes;
}.

Record HtssDkgRound2Package := mkHtssDkgRound2Package {
  h2_sender : ParticipantId;
  h2_recipient : ParticipantId;
  h2_recipient_rank : N;
  h2_share_value_bytes : bytes;
}.

Record HtssNoncePackage := mkHtssNoncePackage {
  hnp_participant_id : ParticipantId;
  hnp_signing_session_id : SessionId;
  hnp_public_nonce_bytes : bytes;
}.

Record HtssLocalNonce := mkHtssLocalNonce {
  hln_package : HtssNoncePackage;
  hln_secret_nonce_bytes : bytes;
}.

Record HtssSignatureSharePackage := mkHtssSignatureSharePackage {
  hsp_participant_id : ParticipantId;
  hsp_signing_session_id : SessionId;
  hsp_signature_share_bytes : bytes;
}.

(** Decidable equality ([derive(PartialEq, Eq)]). *)

#[export] Instance dkg_session_config_eq_dec : EqDecision DkgSessionConfig.
Proof. solve_decision. Defined.

#[export] Instance round1_package_eq_dec : EqDecision Round1Package.
Proof. solve_decision. Defined.

#[export] Instance round2_package_eq_dec : EqDecision Round2Package.
Proof. solve_decision. Defined.

#[export] Instance group_key_eq_dec : EqDecision GroupKey.
Proof. solve_decision. Defined.

#[export] Instance local_key_share_eq_dec : EqDecision LocalKeyShare.
Proof. solve_decision. Defined.

#[export] Instance nonce_package_eq_dec : EqDecision NoncePackage.
Proof. solve_decision. Defined.

#[export] Instance signature_share_package_eq_dec : EqDecision SignatureSharePackage.
Proof. solve_decision. Defined.

#[export] Instance aggregate_signature_eq_dec : EqDecision AggregateSignature.
Proof. solve_decision. Defined.

#[export] Instance htss_local_key_share_eq_dec : EqDecision HtssLocalKeyShare.
Proof. solve_decision. Defined.

#[export] Instance htss_local_key_set_eq_dec : EqDecision HtssLocalKeySet.
Proof. solve_decision. Defined.

#[export] Instance htss_dkg_round1_package_eq_dec : EqDecision HtssDkgRound1Package.
Proof. solve_decision. Defined.

#[export] Instance htss_dkg_round1_state_eq_dec : EqDecision HtssDkgRound1State.
Proof. solve_decision. Defined.

#[export] Instance htss_dkg_round2_package_eq_dec : EqDecision HtssDkgRound2Package.
Proof. solve_decision. Defined.

#[export] Instance htss_nonce_package_eq_dec : EqDecision HtssNoncePackage.
Proof. solve_decision. Defined.

#[export] Instance htss_local_nonce_eq_dec : EqDecision HtssLocalNonce.
Proof. solve_decision. Defined.

#[export] Instance htss_signature_share_package_eq_dec : EqDecision HtssSignatureSharePackage.
Proof. solve_decision. Defined.

(** ** Checks on the envelope *)

Definition require_kind (message : ProtocolMessage) (expected : ProtocolMessageKind) :
  Result unit :=
  reject_if (bool_decide (pm_kind message <> expected))
    (Protocol ("unexpected protocol message kind: expected "
               +:+ ProtocolMessageKind_as_str expected
               +:+ ", got " +:+ ProtocolMessageKind_as_str (pm_kind message))).

Definition require_broadcast (message : ProtocolMessage) : Result unit :=
  reject_if (bool_decide (is_Some (pm_recipient message)))
    (Protocol "expected broadcast protocol message").

(** [if package_sender != message.sender { return Err(...) }] *)
Definition require_sender (what : string) (message : ProtocolMessage)
    (package_sender : ParticipantId) : Result unit :=
  reject_if (bool_decide (package_sender <> pm_sender message))
    (Protocol (what +:+ " sender mismatch: envelope=" +:+ dec (pid_0 (pm_sender message))
               +:+ ", payload=" +:+ dec (pid_0 package_sender))).

Definition require_recipient (what : string) (message : ProtocolMessage)
    (package_recipient : ParticipantId) : Result unit :=
  reject_if (bool_decide (Some package_recipient <> pm_recipient message))
    (Protocol (what +:+ " recipient mismatch")).

Definition require_session (what : string) (message : ProtocolMessage)
    (package_session : SessionId) : Result unit :=
  reject_if (bool_decide (package_session <> pm_session_id message))
    (Protocol (what +:+ " session mismatch")).

Definition AggregateSignature_new (signature_bytes : bytes) : Result AggregateSignature :=
  reject_if (bool_decide (signature_bytes = []))
    (Protocol "aggregate signature cannot be empty");;
  Ok (mkAggregateSignature signature_bytes).

Definition nonce_public_nonce_bytes (nonce : HtssNoncePackage) : Result bytes :=
  reject_if (negb (length (hnp_public_nonce_bytes nonce) =? 33))
    (Protocol ("HTSS public nonce for participant " +:+ dec (pid_0 (hnp_participant_id nonce))
               +:+ " must be 33 bytes"));;
  Ok (hnp_public_nonce_bytes nonce).

(** ** Conversions *)

Section conversions.
Context `{SerdeJson Round1Package, SerdeJson Round2Package, SerdeJson NoncePackage,
          SerdeJson SignatureSharePackage, SerdeJson HtssDkgRound1Package,
          SerdeJson HtssDkgRound2Package, SerdeJson HtssNoncePackage,
          SerdeJson HtssSignatureSharePackage}.

Definition Round1Package_to_protocol_message (self : Round1Package) (session_id : SessionId) :
  Result ProtocolMessage :=
  payload ← encode_payload self;
  Ok (ProtocolMessage_broadcast session_id (r1_participant_id self) FrostDkgRound1 payload).

Definition Round1Package_from_protocol_message (message : ProtocolMessage) :
  Result Round1Package :=
  require_kind message FrostDkgRound1;;
  require_broadcast message;;
  package ← decode_payload (pm_payload message);
  require_sender "round1" message (r1_participant_id package);;
  Ok package.

Definition Round2Package_to_protocol_message (self : Round2Package) (session_id : SessionId) :
  Result ProtocolMessage :=
  payload ← encode_payload self;
  Ok (ProtocolMessage_direct session_id (r2_sender self) (r2_recipient self) FrostDkgRound2
        payload).

Definition Round2Package_from_protocol_message (message : ProtocolMessage) :
  Result Round2Package :=
  require_kind message FrostDkgRound2;;
  package ← decode_payload (pm_payload message);
  require_sender "round2" message (r2_sender package);;
  require_recipient "round2" message (r2_recipient package);;
  Ok package.

Definition NoncePackage_to_protocol_message (self : NoncePackage) : Result ProtocolMessage :=
  payload ← encode_payload self;
  Ok (ProtocolMessage_broadcast (np_signing_session_id self) (np_participant_id self)
        FrostSigningNonce payload).

Definition NoncePackage_from_protocol_message (message : ProtocolMessage) :
  Result NoncePackage :=
  require_kind message FrostSigningNonce;;
  require_broadcast message;;
  package ← decode_payload (pm_payload message);
  require_sender "nonce" message (np_participant_id package);;
  require_session "nonce" message (np_signing_session_id package);;
  Ok package.

Definition SignatureSharePackage_to_protocol_message (self : SignatureSharePackage) :
  Result ProtocolMessage :=
  payload ← encode_payload self;
  Ok (ProtocolMessage_broadcast (ssp_signing_session_id self) (ssp_participant_id self)
        FrostSignatureShare payload).

Definition SignatureSharePackage_from_protocol_message (message : ProtocolMessage) :
  Result SignatureSharePackage :=
  require_kind message FrostSignatureShare;;
  require_broadcast message;;
  package ← decode_payload (pm_payload message);
  require_sender "signature share" message (ssp_participant_id package);;
  require_session "signature share" message (ssp_signing_session_id package);;
  Ok package.

Definition HtssDkgRound1Package_to_protocol_message (self : HtssDkgRound1Package)
    (session_id : SessionId) : Result ProtocolMessage :=
  payload ← encode_payload self;
  Ok (ProtocolMessage_broadcast session_id (h1_participant_id self) HtssDkgRound1 payload).

Definition HtssDkgRound1Package_from_protocol_message (message : ProtocolMessage) :
  Result HtssDkgRound1Package :=
  require_kind message HtssDkgRound1;;
  require_broadcast message;;
  package ← decode_payload (pm_payload message);
  require_sender "HTSS DKG round1" message (h1_participant_id package);;
  Ok package.

Definition HtssDkgRound2Package_to_protocol_message (self : HtssDkgRound2Package)
    (session_id : SessionId) : Result ProtocolMessage :=
  payload ← encode_payload self;
  Ok (ProtocolMessage_direct session_id (h2_sender self) (h2_recipient self) HtssDkgRound2
        payload).

Definition HtssDkgRound2Package_from_protocol_message (message : ProtocolMessage) :
  Result HtssDkgRound2Package :=
  require_kind message HtssDkgRound2;;
  package ← decode_payload (pm_payload message);
  require_sender "HTSS DKG round2" message (h2_sender package);;
  require_recipient "HTSS DKG round2" message (h2_recipient package);;
  Ok package.

Definition HtssNoncePackage_to_protocol_message (self : HtssNoncePackage) :
  Result ProtocolMessage :=
  payload ← encode_payload self;
  Ok (ProtocolMessage_broadcast (hnp_signing_session_id self) (hnp_participant_id self)
        HtssSigningNonce payload).

Definition HtssNoncePackage_from_protocol_message (message : ProtocolMessage) :
  Result HtssNoncePackage :=
  require_kind message HtssSigningNonce;;
  require_broadcast message;;
  package ← decode_payload (pm_payload message);
  require_sender "HTSS nonce" message (hnp_participant_id package);;
  require_session "HTSS nonce" message (hnp_signing_session_id package);;
  nonce_public_nonce_bytes package;;
  Ok package.

Definition HtssSignatureSharePackage_to_protocol_message (self : HtssSignatureSharePackage) :
  Result ProtocolMessage :=
  payload ← encode_payload self;
  Ok (ProtocolMessage_broadcast (hsp_signing_session_id self) (hsp_participant_id self)
        HtssSignatureShare payload).

Definition HtssSignatureSharePackage_from_protocol_message (message : ProtocolMessage) :
  Result HtssSignatureSharePackage :=
  require_kind message HtssSignatureShare;;
  require_broadcast message;;
  package ← decode_payload (pm_payload message);
  require_sender "HTSS signature share" message (hsp_participant_id package);;
  require_session "HTSS signature share" message (hsp_signing_session_id package);;
  Ok package.
End conversions.

(** ** The concrete codec at the packages *)

#[export] Program Instance round1_package_countable : Countable Round1Package :=
  inj_countable' (fun p => (r1_participant_id p, r1_bytes p))
    (fun '(a, b) => mkRound1Package a b) _.
Next Obligation. by intros []. Qed.

#[export] Program Instance round2_package_countable : Countable Round2Package :=
  inj_countable' (fun p => (r2_sender p, r2_recipient p, r2_bytes p))
    (fun '(a, b, c) => mkRound2Package a b c) _.
Next Obligation. by intros []. Qed.

#[export] Program Instance nonce_package_countable : Countable NoncePackage :=
  inj_countable' (fun p => (np_participant_id p, np_signing_session_id p, np_public_nonce_bytes p))
    (fun '(a, b, c) => mkNoncePackage a b c) _.
Next Obligation. by intros []. Qed.

#[export] Program Instance signature_share_package_countable : Countable SignatureSharePackage :=
  inj_countable' (fun p => (ssp_participant_id p, ssp_signing_session_id p, ssp_public_nonce_bytes p, ssp_signature_share_bytes p))
    (fun '(a, b, c, d) => mkSignatureSharePackage a b c d) _.
Next Obligation. by intros []. Qed.

#[export] Program Instance htss_dkg_round1_package_countable : Countable HtssDkgRound1Package :=
  inj_countable' (fun p => (h1_participant_id p, h1_rank p, h1_commitment_bytes p))
    (fun '(a, b, c) => mkHtssDkgRound1Package a b c) _.
Next Obligation. by intros []. Qed.

#[export] Program Instance htss_dkg_round2_package_countable : Countable HtssDkgRound2Package :=
  inj_countable' (fun p => (h2_sender p, h2_recipient p, h2_recipient_rank p, h2_share_value_bytes p))
    (fun '(a, b, c, d) => mkHtssDkgRound2Package a b c d) _.
Next Obligation. by intros []. Qed.

#[export] Program Instance htss_nonce_package_countable : Countable HtssNoncePackage :=
  inj_countable' (fun p => (hnp_participant_id p, hnp_signing_session_id p, hnp_public_nonce_bytes p))
    (fun '(a, b, c) => mkHtssNoncePackage a b c) _.
Next Obligation. by intros []. Qed.

#[export] Program Instance htss_signature_share_package_countable : Countable HtssSignatureSharePackage :=
  inj_countable' (fun p => (hsp_participant_id p, hsp_signing_session_id p, hsp_signature_share_bytes p))
    (fun '(a, b, c) => mkHtssSignatureSharePackage a b c) _.
Next Obligation. by intros []. Qed.

(** ** Authentication and round trips *)

(** [from] accepts exactly the messages of kind [kind] whose envelope carries
    the sender, the recipient and (where the package has one) the session that
    the decoded package names, and returns that package. *)
Definition accepts_exactly {T} `{SerdeJson T} (from : ProtocolMessage -> Result T)
    (kind : ProtocolMessageKind) (sender_of : T -> ParticipantId)
    (recipient_of : T -> option ParticipantId) (session_ok : SessionId -> T -> Prop) : Prop :=
  forall m x,
    from m = Ok x <->
    pm_kind m = kind /\ decode_payload (pm_payload m) = Ok x /\
    pm_sender m = sender_of x /\ pm_recipient m = recipient_of x /\
    session_ok (pm_session_id m) x.

(** Converting to a message succeeds and converting back gives the package. *)
Definition round_trips {T} (to : T -> Result ProtocolMessage)
    (from : ProtocolMessage -> Result T) (x : T) : Prop :=
  exists m, to x = Ok m /\ from m = Ok x.

(** The guards in front of a continuation, as the facts they establish. *)
Section guards.
Context {A : Type} (m : ProtocolMessage) (next : Result A) (x : A).

Lemma require_kind_Ok k : (require_kind m k;; next) = Ok x <-> pm_kind m = k /\ next = Ok x.
Proof. unfold require_kind. case_bool_decide; simpl; naive_solver. Qed.

Lemma require_broadcast_Ok :
  (require_broadcast m;; next) = Ok x <-> pm_recipient m = None /\ next = Ok x.
Proof.
  unfold require_broadcast. rewrite eq_None_not_Some.
  case_bool_decide; simpl; naive_solver.
Qed.

Lemma require_sender_Ok w p :
  (require_sender w m p;; next) = Ok x <-> pm_sender m = p /\ next = Ok x.
Proof. unfold require_sender. case_bool_decide; simpl; naive_solver. Qed.

Lemma require_recipient_Ok w p :
  (require_recipient w m p;; next) = Ok x <-> pm_recipient m = Some p /\ next = Ok x.
Proof. unfold require_recipient. case_bool_decide; simpl; naive_solver. Qed.

Lemma require_session_Ok w sid :
  (require_session w m sid;; next) = Ok x <-> sid = pm_session_id m /\ next = Ok x.
Proof. unfold require_session. case_bool_decide; simpl; naive_solver. Qed.

Lemma nonce_public_nonce_bytes_Ok n :
  (nonce_public_nonce_bytes n;; next) = Ok x <->
  length (hnp_public_nonce_bytes n) = 33 /\ next = Ok x.
Proof.
  unfold nonce_public_nonce_bytes. destruct (Nat.eqb_spec (length (hnp_public_nonce_bytes n)) 33);
    simpl; naive_solver.
Qed.
End guards.

Create Rewrite HintDb package.
#[export] Hint Rewrite @require_kind_Ok @require_broadcast_Ok @require_sender_Ok
  @require_recipient_Ok @require_session_Ok @nonce_public_nonce_bytes_Ok : package.

(** A conversion from messages: its guards, then the decoded payload. *)
Ltac solve_accepts from :=
  intros m x; unfold from; autorewrite with package; rewrite bind_Ok;
  setoid_rewrite require_sender_Ok;
  try setoid_rewrite require_recipient_Ok; try setoid_rewrite require_session_Ok;
  try setoid_rewrite nonce_public_nonce_bytes_Ok; naive_solver.

Lemma round_trips_of_accepts {T} `{SerdeJsonLaws T} from kind sender_of recipient_of
    session_ok (to : T -> Result ProtocolMessage) sid x :
  accepts_exactly from kind sender_of recipient_of session_ok ->
  to x = (payload ← encode_payload x;
          Ok (mkProtocolMessage DKGKIT_PROTOCOL_VERSION sid (sender_of x) (recipient_of x)
                kind payload)) ->
  session_ok sid x ->
  round_trips to from x.
Proof.
  intros Hacc Hto Hok. destruct (encode_payload_total x) as (bs & Henc & Hdec & _).
  rewrite Henc in Hto. eexists. split; [exact Hto|]. by apply Hacc.
Qed.

Create HintDb accepts.

Section packages.
Context `{SerdeJson Round1Package, SerdeJson Round2Package, SerdeJson NoncePackage,
          SerdeJson SignatureSharePackage, SerdeJson HtssDkgRound1Package,
          SerdeJson HtssDkgRound2Package, SerdeJson HtssNoncePackage,
          SerdeJson HtssSignatureSharePackage}.

Lemma round1_package_accepts :
  accepts_exactly Round1Package_from_protocol_message FrostDkgRound1 r1_participant_id
    (fun _ => None) (fun _ _ => True).
Proof. solve_accepts @Round1Package_from_protocol_message. Qed.

Lemma round2_package_accepts :
  accepts_exactly Round2Package_from_protocol_message FrostDkgRound2 r2_sender
    (fun p => Some (r2_recipient p)) (fun _ _ => True).
Proof. solve_accepts @Round2Package_from_protocol_message. Qed.

Lemma nonce_package_accepts :
  accepts_exactly NoncePackage_from_protocol_message FrostSigningNonce np_participant_id
    (fun _ => None) (fun sid p => np_signing_session_id p = sid).
Proof. solve_accepts @NoncePackage_from_protocol_message. Qed.

Lemma signature_share_package_accepts :
  accepts_exactly SignatureSharePackage_from_protocol_message FrostSignatureShare ssp_participant_id
    (fun _ => None) (fun sid p => ssp_signing_session_id p = sid).
Proof. solve_accepts @SignatureSharePackage_from_protocol_message. Qed.

Lemma htss_dkg_round1_package_accepts :
  accepts_exactly HtssDkgRound1Package_from_protocol_message HtssDkgRound1 h1_participant_id
    (fun _ => None) (fun _ _ => True).
Proof. solve_accepts @HtssDkgRound1Package_from_protocol_message. Qed.

Lemma htss_dkg_round2_package_accepts :
  accepts_exactly HtssDkgRound2Package_from_protocol_message HtssDkgRound2 h2_sender
    (fun p => Some (h2_recipient p)) (fun _ _ => True).
Proof. solve_accepts @HtssDkgRound2Package_from_protocol_message. Qed.

Lemma htss_nonce_package_accepts :
  accepts_exactly HtssNoncePackage_from_protocol_message HtssSigningNonce hnp_participant_id
    (fun _ => None) (fun sid p => hnp_signing_session_id p = sid /\ length (hnp_public_nonce_bytes p) = 33).
Proof. solve_accepts @HtssNoncePackage_from_protocol_message. Qed.

Lemma htss_signature_share_package_accepts :
  accepts_exactly HtssSignatureSharePackage_from_protocol_message HtssSignatureShare hsp_participant_id
    (fun _ => None) (fun sid p => hsp_signing_session_id p = sid).
Proof. solve_accepts @HtssSignatureSharePackage_from_protocol_message. Qed.

#[local] Hint Resolve round1_package_accepts round2_package_accepts nonce_package_accepts
  signature_share_package_accepts htss_dkg_round1_package_accepts
  htss_dkg_round2_package_accepts htss_nonce_package_accepts
  htss_signature_share_package_accepts : accepts.

(** C32: what each package type is read from, exactly.  [from_protocol_message]
    returns a package if and only if the kind is the package's own, the payload
    decodes to the package, the envelope's sender is the package's participant
    and the recipient is the package's recipient: the addressee of a round-two
    package, none for the six broadcast types, so that a nonce or signature share
    sent to one recipient is refused; and, for the nonce and signature-share
    packages, which carry a session, the envelope's session is that one, and an
    HTSS nonce is 33 bytes long.  The four key-generation types carry no session,
    and any session of the envelope is accepted. *)
Theorem packages_authenticate_envelope :
  accepts_exactly Round1Package_from_protocol_message FrostDkgRound1
    r1_participant_id (fun _ => None) (fun _ _ => True) /\
  accepts_exactly Round2Package_from_protocol_message FrostDkgRound2
    r2_sender (fun p => Some (r2_recipient p)) (fun _ _ => True) /\
  accepts_exactly NoncePackage_from_protocol_message FrostSigningNonce
    np_participant_id (fun _ => None) (fun sid p => np_signing_session_id p = sid) /\
  accepts_exactly SignatureSharePackage_from_protocol_message FrostSignatureShare
    ssp_participant_id (fun _ => None) (fun sid p => ssp_signing_session_id p = sid) /\
  accepts_exactly HtssDkgRound1Package_from_protocol_message HtssDkgRound1
    h1_participant_id (fun _ => None) (fun _ _ => True) /\
  accepts_exactly HtssDkgRound2Package_from_protocol_message HtssDkgRound2
    h2_sender (fun p => Some (h2_recipient p)) (fun _ _ => True) /\
  accepts_exactly HtssNoncePackage_from_protocol_message HtssSigningNonce
    hnp_participant_id (fun _ => None)
    (fun sid p => hnp_signing_session_id p = sid /\ length (hnp_public_nonce_bytes p) = 33) /\
  accepts_exactly HtssSignatureSharePackage_from_protocol_message HtssSignatureShare
    hsp_participant_id (fun _ => None) (fun sid p => hsp_signing_session_id p = sid).
Proof.
  split_and!; auto with accepts.
Qed.

Context `{!SerdeJsonLaws Round1Package, !SerdeJsonLaws Round2Package,
          !SerdeJsonLaws NoncePackage, !SerdeJsonLaws SignatureSharePackage,
          !SerdeJsonLaws HtssDkgRound1Package, !SerdeJsonLaws HtssDkgRound2Package,
          !SerdeJsonLaws HtssNoncePackage, !SerdeJsonLaws HtssSignatureSharePackage}.

(** Packages survive the wire.  For each of the eight package types and
    every session, [to_protocol_message] succeeds and
    [from_protocol_message] returns the same package (an HTSS nonce package
    when its nonce has the 33 bytes of a compressed point). *)
Theorem packages_round_trip (sid : SessionId) :
  (forall x, round_trips (fun x => Round1Package_to_protocol_message x sid)
               Round1Package_from_protocol_message x) /\
  (forall x, round_trips (fun x => Round2Package_to_protocol_message x sid)
               Round2Package_from_protocol_message x) /\
  (forall x, round_trips NoncePackage_to_protocol_message
               NoncePackage_from_protocol_message x) /\
  (forall x, round_trips SignatureSharePackage_to_protocol_message
               SignatureSharePackage_from_protocol_message x) /\
  (forall x, round_trips (fun x => HtssDkgRound1Package_to_protocol_message x sid)
               HtssDkgRound1Package_from_protocol_message x) /\
  (forall x, round_trips (fun x => HtssDkgRound2Package_to_protocol_message x sid)
               HtssDkgRound2Package_from_protocol_message x) /\
  (forall x, length (hnp_public_nonce_bytes x) = 33 ->
     round_trips HtssNoncePackage_to_protocol_message
       HtssNoncePackage_from_protocol_message x) /\
  (forall x, round_trips HtssSignatureSharePackage_to_protocol_message
               HtssSignatureSharePackage_from_protocol_message x).
Proof.
  split_and!; intros x; try intros Hlen; eapply round_trips_of_accepts;
    eauto with accepts; done.
Qed.
End packages.

#[export] Hint Resolve round1_package_accepts round2_package_accepts nonce_package_accepts
  signature_share_package_accepts htss_dkg_round1_package_accepts
  htss_dkg_round2_package_accepts htss_nonce_package_accepts
  htss_signature_share_package_accepts : accepts.

Section round_trip_witness.
Local Existing Instances digits_json digits_json_laws.

Lemma packages_round_trip_witness :
  let x := mkHtssDkgRound2Package (mkParticipantId 1) (mkParticipantId 2) 1 [Byte.x07] in
  let n := mkHtssNoncePackage (mkParticipantId 3) (mkSessionId "s") (replicate 33 Byte.x02) in
  round_trips (fun x => HtssDkgRound2Package_to_protocol_message x (mkSessionId "dkg"))
    HtssDkgRound2Package_from_protocol_message x /\
  round_trips HtssNoncePackage_to_protocol_message HtssNoncePackage_from_protocol_message n.
Proof.
  split; [apply (packages_round_trip (mkSessionId "dkg"))|].
  by apply (packages_round_trip (mkSessionId "s")).
Defined.
End round_trip_witness.
