(* ===== verification/SignerPolicy.v ===== *)
(** Signer-set validation of [crates/dkgkit-frost/src/lib.rs] under the three
    signing policies, and the signing requests that are built on it.

    The theorems restate the two ranked policies without the loops: a
    hierarchical signer set passes when for every position [i] below the
    threshold more than [i] signers have rank at most [i] (the Birkhoff rank
    rule, which the code checks on the sorted ranks); a grouped signer set
    passes when every rank reaches its quota. *)

From Stdlib Require Import Ascii String.
From stdpp Require Import base numbers countable gmap strings list sorting.
From S2P Require Import Prelude Core Packages.

(** ** The validators *)

Definition signer_step (participants : N) (seen : gset N) (signer : ParticipantId) :
  Result (gset N) :=
  reject_if (participants <? pid_0 signer)%N
    (ParticipantOutOfRange (pid_0 signer) participants);;
  if decide (pid_0 signer ∈ seen) then Err (DuplicateParticipantId (pid_0 signer))
  else Ok ({[pid_0 signer]} ∪ seen).

Definition validate_signer_set (signers : list ParticipantId) (threshold : ThresholdConfig) :
  Result unit :=
  reject_if (N.of_nat (length signers) <? tc_threshold threshold)%N
    (Protocol ("not enough signers: have " +:+ dec_nat (length signers)
               +:+ ", need " +:+ dec (tc_threshold threshold)));;
  foldlM (signer_step (tc_participants threshold)) ∅ signers;;
  Ok tt.

(** [ranks.sort_unstable()]: a list of integers has one sorted permutation, so
    the algorithm does not matter. *)
Definition sort_ranks (ranks : list N) : list N := merge_sort N.le ranks.

Definition rank_rule_step (index : nat) (rank : N) : Result nat :=
  reject_if (N.of_nat index <? rank)%N
    (Protocol ("hierarchical signer set violates Birkhoff rank rule at position "
               +:+ dec_nat index +:+ ": rank " +:+ dec rank +:+ " > " +:+ dec_nat index));;
  Ok (S index).

Definition validate_hierarchical_signer_set (signers : list ParticipantId)
    (config : HierarchicalThresholdConfig) : Result unit :=
  threshold ← HierarchicalThresholdConfig_threshold_config config;
  validate_signer_set signers threshold;;
  ranks ← mapM (fun signer =>
                  rank ← ok_or (HierarchicalThresholdConfig_rank_of config signer)
                               (MissingRankedParticipant (pid_0 signer));
                  Ok (rank_0 rank)) signers;
  foldlM rank_rule_step 0 (take (N.to_nat (htc_threshold config)) (sort_ranks ranks));;
  Ok tt.

(** [*selected_by_rank.entry(rank.0).or_default() += 1] *)
Definition select_step (config : GroupedThresholdConfig)
    (selected_by_rank : gmap N N) (signer : ParticipantId) : Result (gmap N N) :=
  rank ← ok_or (GroupedThresholdConfig_rank_of config signer)
               (MissingRankedParticipant (pid_0 signer));
  count ← u16_add (default 0%N (selected_by_rank !! rank_0 rank)) 1;
  Ok (<[rank_0 rank := count]> selected_by_rank).

Definition quota_step (selected_by_rank : gmap N N) (_ : unit)
    (requirement : GroupThresholdRequirement) : Result unit :=
  let rank := rank_0 (gtr_rank requirement) in
  let selected := default 0%N (selected_by_rank !! rank) in
  reject_if (selected <? gtr_required requirement)%N
    (Protocol ("grouped threshold rank " +:+ dec rank +:+ " needs "
               +:+ dec (gtr_required requirement) +:+ " signer(s), got " +:+ dec selected)).

Definition validate_grouped_threshold_signer_set (signers : list ParticipantId)
    (config : GroupedThresholdConfig) : Result unit :=
  threshold ← GroupedThresholdConfig_threshold_config config;
  validate_signer_set signers threshold;;
  selected_by_rank ← foldlM (select_step config) ∅ signers;
  foldlM (quota_step selected_by_rank) tt (gtc_requirements config);;
  Ok tt.

Definition validate_signer_set_with_policy (signers : list ParticipantId)
    (policy : SigningPolicy) : Result unit :=
  match policy with
  | Threshold threshold => validate_signer_set signers threshold
  | Hierarchical config => validate_hierarchical_signer_set signers config
  | Grouped config => validate_grouped_threshold_signer_set signers config
  end.

(** ** Signing requests *)

Record SigningRequest := mkSigningRequest {
  sr_session_id : SessionId;
  sr_group_key : GroupKey;
  sr_message_digest : bytes;
  sr_signer_set : list ParticipantId;
}.

#[export] Instance signing_request_eq_dec : EqDecision SigningRequest.
Proof. solve_decision. Defined.

Definition SigningRequest_new (session_id : SessionId) (group_key : GroupKey)
    (message_digest : bytes) (signer_set : list ParticipantId) (threshold : ThresholdConfig) :
  Result SigningRequest :=
  validate_signer_set signer_set threshold;;
  Ok (mkSigningRequest session_id group_key message_digest signer_set).

Definition SigningRequest_new_with_policy (session_id : SessionId) (group_key : GroupKey)
    (message_digest : bytes) (signer_set : list ParticipantId) (policy : SigningPolicy) :
  Result SigningRequest :=
  validate_signer_set_with_policy signer_set policy;;
  Ok (mkSigningRequest session_id group_key message_digest signer_set).

Record GroupedSigningRequest := mkGroupedSigningRequest {
  gsr_request : SigningRequest;
  gsr_config : GroupedThresholdConfig;
}.

Definition GroupedSigningRequest_new (session_id : SessionId) (group_key : GroupKey)
    (message_digest : bytes) (signer_set : list ParticipantId)
    (config : GroupedThresholdConfig) : Result GroupedSigningRequest :=
  request ← SigningRequest_new_with_policy session_id group_key message_digest signer_set
              (Grouped config);
  Ok (mkGroupedSigningRequest request config).

(** ** Counting signers *)

(** The signer has a rank, and it is at most [i]. *)
Definition rank_at_most (ps : list RankedParticipant) (i : N) (s : ParticipantId) : bool :=
  match find_rank ps s with Some r => (rank_0 r <=? i)%N | None => false end.

Definition has_rank (ps : list RankedParticipant) (r : Rank) (s : ParticipantId) : bool :=
  bool_decide (find_rank ps s = Some r).

Definition count_where (f : ParticipantId -> bool) (signers : list ParticipantId) : N :=
  N.of_nat (length (List.filter f signers)).

Definition ranked (ps : list RankedParticipant) (s : ParticipantId) : Prop :=
  is_Some (find_rank ps s).

(** [threshold] signers at least, pairwise distinct and in range. *)
Definition signer_set_ok (signers : list ParticipantId) (threshold participants : N) : Prop :=
  (threshold <= N.of_nat (length signers))%N /\ NoDup signers /\
  (forall s, s ∈ signers -> pid_0 s <= participants)%N.

Lemma signer_step_Ok n seen s s' :
  signer_step n seen s = Ok s' <->
  (pid_0 s <= n)%N /\ (pid_0 s ∉ seen) /\ s' = ({[pid_0 s]} ∪ seen).
Proof.
  unfold signer_step, reject_if. destruct (N.ltb_spec n (pid_0 s)); simpl; [naive_solver lia|].
  case_decide; naive_solver.
Qed.

Lemma NoDup_pids (l : list ParticipantId) : NoDup (pid_0 <$> l) <-> NoDup l.
Proof. split; [apply NoDup_fmap_1|apply NoDup_fmap_2; apply _]. Qed.

Lemma validate_signer_set_Ok signers t u :
  validate_signer_set signers t = Ok u <->
  signer_set_ok signers (tc_threshold t) (tc_participants t).
Proof.
  unfold validate_signer_set, signer_set_ok. destruct u.
  rewrite bind_Ok. setoid_rewrite reject_if_Ok. setoid_rewrite bind_Ok.
  setoid_rewrite (seen_loop_Ok pid_0 _ _ (signer_step_Ok (tc_participants t))).
  setoid_rewrite N.ltb_ge. rewrite <- NoDup_pids. setoid_rewrite Forall_forall. split.
  - intros (_ & Hlen & s & (Hr & HN & _) & _). auto.
  - intros (Hlen & HN & Hr). exists tt. split; [done|]. eexists. split_and!; [done|done| |done|done].
    intros x Hx. set_solver.
Qed.

Lemma validate_signer_set_returns signers t : returns (validate_signer_set signers t).
Proof.
  unfold validate_signer_set. apply bind_returns; [apply reject_if_returns|]. intros _ _.
  apply bind_returns; [|done]. apply (foldlM_returns _ (fun _ => True)); [|done].
  intros s x _ _. unfold signer_step, reject_if. repeat case_match; done.
Qed.

(** ** The hierarchical rule *)

(** In a sorted list the entry at [i] is at most [v] exactly when more than [i]
    entries are. *)
Lemma sorted_lookup_count (l : list N) :
  Sorted N.le l -> forall i x v, l !! i = Some x ->
  ((x <= v)%N <-> (i < length (filter (fun y => (y <= v)%N) l))%nat).
Proof.
  intros Hs%Sorted_StronglySorted; [|intros ? ? ? ? ?; lia].
  induction Hs as [|y l Hs IH Hall]; intros i x v Hi; [done|].
  rewrite filter_cons. destruct i as [|i]; simpl in Hi.
  - simplify_eq. case_decide as Hv; simpl; [split; [lia|done]|]. split; [done|].
    rewrite filter_none; [simpl; lia|]. rewrite Forall_forall in Hall.
    intros z Hz. specialize (Hall z Hz). simpl in *. lia.
  - rewrite (IH i x v Hi). case_decide as Hv; simpl; [lia|].
    assert (y <= x)%N by (rewrite Forall_forall in Hall; eapply Hall, list_elem_of_lookup_2, Hi).
    rewrite filter_none; [simpl; lia|]. rewrite Forall_forall in Hall.
    intros z Hz. specialize (Hall z Hz). simpl in *. lia.
Qed.

Lemma rank_rule_step_Ok i r j :
  rank_rule_step i r = Ok j <-> (r <= N.of_nat i)%N /\ j = S i.
Proof. unfold rank_rule_step, reject_if. destruct (N.ltb_spec (N.of_nat i) r); naive_solver lia. Qed.

Lemma rank_rule_loop_Ok l : forall i,
  is_ok (foldlM rank_rule_step i l) = true <->
  (forall k x, l !! k = Some x -> x <= N.of_nat (i + k))%N.
Proof.
  induction l as [|r l IH]; intros i; cbn [foldlM].
  - split; [|done]. intros _ k x Hk. by rewrite lookup_nil in Hk.
  - destruct (rank_rule_step i r) as [j|e|] eqn:E.
    + apply rank_rule_step_Ok in E as [Hr ->]. cbn [mbind outcome_bind]. rewrite IH. split.
      * intros Hl [|k] x Hk; simpl in Hk; [simplify_eq; lia|].
        rewrite Nat.add_succ_r. by apply (Hl k).
      * intros Hl k x Hk. rewrite Nat.add_succ_l, <- Nat.add_succ_r. by apply (Hl (S k)).
    + split; [done|]. intros Hl. specialize (Hl 0%nat r eq_refl).
      assert (rank_rule_step i r = Ok (S i)); [|congruence].
      apply rank_rule_step_Ok. split; [lia|done].
    + unfold rank_rule_step, reject_if in E. by case_match.
Qed.

Lemma sort_ranks_Sorted l : Sorted N.le (sort_ranks l).
Proof. apply Sorted_merge_sort. intros x y. lia. Qed.

Lemma sort_ranks_Permutation l : sort_ranks l ≡ₚ l.
Proof. apply merge_sort_Permutation. Qed.

(** The loop on the sorted ranks is the counting rule. *)
Lemma rank_rule_counts ranks t :
  (t <= length ranks)%nat ->
  is_ok (foldlM rank_rule_step 0 (take t (sort_ranks ranks))) = true <->
  (forall i, (i < t)%nat ->
     (i < length (filter (fun r => (r <= N.of_nat i)%N) ranks))%nat).
Proof.
  intros Ht. rewrite rank_rule_loop_Ok.
  assert (Hlen : length (sort_ranks ranks) = length ranks)
    by apply Permutation_length, sort_ranks_Permutation.
  assert (Hc : forall i, length (filter (fun r => (r <= N.of_nat i)%N) ranks) =
                         length (filter (fun r => (r <= N.of_nat i)%N) (sort_ranks ranks))).
  { intros i. apply Permutation_length. by rewrite sort_ranks_Permutation. }
  split.
  - intros Hl i Hi. rewrite Hc.
    destruct (lookup_lt_is_Some_2 (sort_ranks ranks) i) as [x Hx]; [lia|].
    apply (sorted_lookup_count _ (sort_ranks_Sorted ranks) i x (N.of_nat i) Hx).
    apply (Hl i). by rewrite lookup_take_lt by lia.
  - intros Hcount k x Hk. apply lookup_take_Some in Hk as [Hx Hk].
    rewrite Nat.add_0_l. apply (sorted_lookup_count _ (sort_ranks_Sorted ranks) k x _ Hx).
    rewrite <- Hc. by apply Hcount.
Qed.

Definition rank_value (ps : list RankedParticipant) (s : ParticipantId) : N :=
  default 0%N (rank_0 <$> find_rank ps s).

Lemma rank_lookups_Ok ps signers ranks :
  mapM (fun signer => rank ← ok_or (find_rank ps signer) (MissingRankedParticipant (pid_0 signer));
                      Ok (rank_0 rank)) signers = Ok ranks <->
  (forall s, s ∈ signers -> ranked ps s) /\ ranks = rank_value ps <$> signers.
Proof.
  split.
  - intros Hm%mapM_Ok. induction Hm as [|s r ss rs Hsr _ [IH ->]].
    + split; [|done]. intros s Hs. by apply not_elem_of_nil in Hs.
    + inv_ok Hsr. split.
      * intros x [->|Hx]%elem_of_cons; [unfold ranked; naive_solver|auto].
      * rewrite fmap_cons. f_equal. unfold rank_value.
        by rename select (find_rank _ _ = _) into Hf; rewrite Hf.
  - intros [Hr ->]. apply mapM_pure. intros s Hs. unfold rank_value.
    destruct (Hr s Hs) as [r ->]. done.
Qed.

Lemma count_rank_at_most ps signers i :
  (forall s, s ∈ signers -> ranked ps s) ->
  length (filter (fun r => (r <= i)%N) (rank_value ps <$> signers)) =
  length (List.filter (rank_at_most ps i) signers).
Proof.
  induction signers as [|s ss IH]; intros Hr; [done|].
  rewrite fmap_cons, filter_cons. cbn [List.filter].
  specialize (IH ltac:(intros x Hx; apply Hr; by right)).
  destruct (Hr s ltac:(left)) as [r Hs].
  assert (Hv : rank_value ps s = rank_0 r) by (unfold rank_value; by rewrite Hs).
  assert (Hb : rank_at_most ps i s = (rank_0 r <=? i)%N) by (unfold rank_at_most; by rewrite Hs).
  rewrite Hb. destruct (N.leb_spec (rank_0 r) i); case_decide; try lia; simpl; lia.
Qed.

(** The Birkhoff rank rule, by counting. *)
Definition rank_rule (c : HierarchicalThresholdConfig) (signers : list ParticipantId) : Prop :=
  forall i, (i < htc_threshold c)%N ->
    (i < count_where (rank_at_most (htc_participants c) i) signers)%N.

Definition hierarchical_signer_set_ok (c : HierarchicalThresholdConfig)
    (signers : list ParticipantId) : Prop :=
  signer_set_ok signers (htc_threshold c) (N.of_nat (length (htc_participants c))) /\
  (forall s, s ∈ signers -> ranked (htc_participants c) s) /\ rank_rule c signers.

Lemma validate_hierarchical_Ok c signers u :
  wf_hierarchical c ->
  validate_hierarchical_signer_set signers c = Ok u <-> hierarchical_signer_set_ok c signers.
Proof.
  intros Hwf. unfold validate_hierarchical_signer_set, HierarchicalThresholdConfig_rank_of.
  rewrite wf_hierarchical_threshold_config, ok_bind by done. destruct u.
  unfold hierarchical_signer_set_ok.
  assert (Hrule : (forall s, s ∈ signers -> ranked (htc_participants c) s) ->
    (htc_threshold c <= N.of_nat (length signers))%N ->
    is_ok (foldlM rank_rule_step 0 (take (N.to_nat (htc_threshold c))
      (sort_ranks (rank_value (htc_participants c) <$> signers)))) = true <->
    rank_rule c signers).
  { intros Hr Hlen. rewrite rank_rule_counts by (rewrite length_fmap; lia).
    unfold rank_rule, count_where. split; intros Hi i Hit.
    - specialize (Hi (N.to_nat i) ltac:(lia)). rewrite count_rank_at_most in Hi by done.
      rewrite N2Nat.id in Hi. lia.
    - rewrite count_rank_at_most by done. specialize (Hi (N.of_nat i) ltac:(lia)). lia. }
  split.
  - intros Hv. apply bind_Ok in Hv as ([] & Hok%validate_signer_set_Ok & Hv).
    apply bind_Ok in Hv as (ranks & [Hr ->]%rank_lookups_Ok & Hv).
    apply bind_Ok in Hv as (k & Hf & _). split_and!; [done|done|].
    apply Hrule; [done|by destruct Hok|]. by rewrite Hf.
  - intros (Hok & Hr & Hru). apply Hrule in Hru; [|done|by destruct Hok].
    rewrite (proj2 (validate_signer_set_Ok signers (mkThresholdConfig _ _) tt) Hok), ok_bind.
    rewrite (proj2 (rank_lookups_Ok _ signers _) (conj Hr eq_refl)), ok_bind.
    by destruct (foldlM _ _ _).
Qed.

(** C19: a signer set passes [validate_hierarchical_signer_set] under a policy
    that [HierarchicalThresholdConfig::new] accepted exactly when it has at least
    [threshold] distinct in-range signers, all of them ranked, and for every
    [i < threshold] more than [i] of them have rank at most [i]. *)
Theorem hierarchical_signer_set_iff t ps c signers :
  HierarchicalThresholdConfig_new t ps = Ok c ->
  validate_hierarchical_signer_set signers c = Ok tt <-> hierarchical_signer_set_ok c signers.
Proof. intros Hc. apply validate_hierarchical_Ok. eapply hierarchical_new_wf, Hc. Qed.

(** One signer of rank zero and one of rank one, threshold two. *)
Lemma hierarchical_signer_set_iff_witness :
  let ps := [mkRankedParticipant (mkParticipantId 1) (mkRank 0) None;
             mkRankedParticipant (mkParticipantId 2) (mkRank 1) None;
             mkRankedParticipant (mkParticipantId 3) (mkRank 1) None] in
  let c := mkHierarchicalThresholdConfig 2 ps in
  hierarchical_signer_set_ok c [mkParticipantId 2; mkParticipantId 1] /\
  ~ hierarchical_signer_set_ok c [mkParticipantId 2; mkParticipantId 3].
Proof.
  intros ps c. split.
  - apply (hierarchical_signer_set_iff 2 ps c); vm_compute; reflexivity.
  - rewrite <- (hierarchical_signer_set_iff 2 ps c) by (vm_compute; reflexivity).
    vm_compute. discriminate.
Defined.

(** ** The grouped rule *)

Lemma has_rank_inj (r : Rank) (k : N) : rank_0 r = k <-> r = mkRank k.
Proof. destruct r; simpl. naive_solver. Qed.

Lemma select_step_cases c m s :
  select_step c m s =
  match find_rank (gtc_participants c) s with
  | Some r => count ← u16_add (default 0%N (m !! rank_0 r)) 1; Ok (<[rank_0 r := count]> m)
  | None => Err (MissingRankedParticipant (pid_0 s))
  end.
Proof.
  unfold select_step, GroupedThresholdConfig_rank_of. by destruct (find_rank _ _).
Qed.

Definition rank_count (ps : list RankedParticipant) (k : N) (signers : list ParticipantId) : N :=
  count_where (has_rank ps (mkRank k)) signers.

Lemma rank_count_cons ps k s ss :
  rank_count ps k (s :: ss) =
  ((if bool_decide (find_rank ps s = Some (mkRank k)) then 1 else 0) + rank_count ps k ss)%N.
Proof.
  unfold rank_count, count_where. cbn [List.filter]. unfold has_rank at 1.
  destruct (bool_decide _); [cbn [length]; lia|lia].
Qed.

(** One step counts the signer under its rank. *)
Lemma select_step_Ok c m s ss :
  (forall k, default 0 (m !! k) + rank_count (gtc_participants c) k (s :: ss) <= u16_max)%N ->
  ranked (gtc_participants c) s ->
  exists m', select_step c m s = Ok m' /\
    forall k, (default 0 (m' !! k) + rank_count (gtc_participants c) k ss =
               default 0 (m !! k) + rank_count (gtc_participants c) k (s :: ss))%N.
Proof.
  intros Hb [r Hs]. rewrite select_step_cases, Hs.
  setoid_rewrite rank_count_cons. setoid_rewrite rank_count_cons in Hb.
  rewrite Hs in *.
  assert (Hk : (default 0 (m !! rank_0 r) + 1 <= u16_max)%N).
  { specialize (Hb (rank_0 r)). rewrite bool_decide_eq_true_2 in Hb by (by destruct r). lia. }
  rewrite (proj2 (u16_add_Ok _ 1 _) (conj Hk eq_refl)), ok_bind.
  eexists. split; [done|]. intros k. destruct (decide (rank_0 r = k)) as [<-|Hne].
  - rewrite lookup_insert_eq, bool_decide_eq_true_2 by (by destruct r). cbn. lia.
  - rewrite lookup_insert_ne by done. rewrite bool_decide_eq_false_2; [lia|].
    intros [= ->]. done.
Qed.

(** The map holds the number of signers of each rank, and no counter
    overflows. *)
Lemma select_loop c signers : forall m,
  (forall k, default 0 (m !! k) + rank_count (gtc_participants c) k signers <= u16_max)%N ->
  match foldlM (select_step c) m signers with
  | Ok m' => forall k, (default 0 (m' !! k) =
                        default 0 (m !! k) + rank_count (gtc_participants c) k signers)%N
  | Err _ => ~ forall s, s ∈ signers -> ranked (gtc_participants c) s
  | Panic => False
  end.
Proof.
  induction signers as [|s ss IH]; intros m Hb; cbn [foldlM].
  - intros k. unfold rank_count, count_where. simpl. lia.
  - destruct (find_rank (gtc_participants c) s) as [r|] eqn:Hs.
    + destruct (select_step_Ok c m s ss Hb) as (m1 & -> & Hm1); [by exists r|].
      rewrite ok_bind. specialize (IH m1 ltac:(intros k; rewrite Hm1; apply Hb)).
      destruct (foldlM _ _ _); [|set_solver|done]. intros k. rewrite IH. apply Hm1.
    + rewrite select_step_cases, Hs. simpl. intros Hr.
      destruct (Hr s ltac:(left)) as [r Hr']. congruence.
Qed.

Lemma select_loop_ranked c signers : forall m m',
  foldlM (select_step c) m signers = Ok m' ->
  forall s, s ∈ signers -> ranked (gtc_participants c) s.
Proof.
  induction signers as [|s ss IH]; intros m m' Hf x Hx; [by apply not_elem_of_nil in Hx|].
  cbn [foldlM] in Hf. apply bind_Ok in Hf as (m1 & Hs & Hf). rewrite select_step_cases in Hs.
  unfold ranked. apply elem_of_cons in Hx as [->|Hx]; [by case_match|by eapply IH].
Qed.

Lemma quota_step_Ok m u r v :
  quota_step m u r = Ok v <-> (gtr_required r <= default 0 (m !! rank_0 (gtr_rank r)))%N.
Proof. unfold quota_step. cbv zeta. by rewrite reject_if_Ok, N.ltb_ge. Qed.

Lemma quota_loop_Ok m rs u :
  foldlM (quota_step m) tt rs = Ok u <->
  (forall r, r ∈ rs -> gtr_required r <= default 0 (m !! rank_0 (gtr_rank r)))%N.
Proof.
  destruct u. induction rs as [|r rs IH]; cbn [foldlM].
  - split; [intros _ r Hr; by apply not_elem_of_nil in Hr|done].
  - rewrite bind_Ok. setoid_rewrite quota_step_Ok. setoid_rewrite elem_of_cons. split.
    + intros ([] & Hr & Hl) x [->|Hx]; [done|]. by apply IH.
    + intros Hall. exists tt. split; [auto|]. apply IH. auto.
Qed.

(** Every rank has at most as many distinct signers as participants. *)
Lemma rank_count_bound ps k signers :
  NoDup signers -> (rank_count ps k signers <= N.of_nat (length ps))%N.
Proof.
  intros HN. unfold rank_count, count_where.
  enough (length (List.filter (has_rank ps (mkRank k)) signers) <= length ps)%nat by lia.
  rewrite <- (length_fmap rp_id ps). apply submseteq_length, NoDup_submseteq.
  - apply NoDup_ListNoDup, List.NoDup_filter, NoDup_ListNoDup, HN.
  - intros s Hs. apply list_elem_of_In, filter_In in Hs as [_ Hs].
    apply bool_decide_eq_true in Hs. apply find_rank_Some in Hs as (p & Hp & <- & _).
    by apply list_elem_of_fmap_2.
Qed.

Lemma NoDup_rank_0 (rs : list Rank) : NoDup (rank_0 <$> rs) -> NoDup rs.
Proof. apply NoDup_fmap_1. Qed.

(** Summing the signers of the required ranks counts every ranked signer. *)
Lemma rank_counts_total c signers :
  wf_grouped c -> (forall s, s ∈ signers -> ranked (gtc_participants c) s) ->
  sumN (fun r => rank_count (gtc_participants c) (rank_0 (gtr_rank r)) signers)
       (gtc_requirements c) = N.of_nat (length signers).
Proof.
  intros (_ & _ & _ & HN & _ & Hcov) Hr.
  transitivity (sumN (fun k => N.of_nat (length (filter
      (fun s => find_rank (gtc_participants c) s = k) signers)))
      ((Some ∘ gtr_rank) <$> gtc_requirements c)).
  { rewrite sumN_fmap. apply sumN_ext. intros r _. unfold rank_count, count_where. simpl.
    do 2 f_equal. clear. induction signers as [|s ss IH]; [done|].
    rewrite filter_cons. cbn [List.filter]. unfold has_rank at 1. rewrite IH.
    replace (mkRank (rank_0 (gtr_rank r))) with (gtr_rank r) by (by destruct (gtr_rank r)).
    by case_decide; case_bool_decide. }
  rewrite sumN_count_classes.
  - f_equal. apply length_filter_all. intros s Hs. destruct (Hr s Hs) as [r Hsr].
    rewrite Hsr. apply find_rank_Some in Hsr as (p & Hp & _ & <-).
    destruct (Hcov p Hp) as (q & Hq & <-). apply list_elem_of_fmap. eauto.
  - rewrite (list_fmap_compose gtr_rank Some). apply NoDup_fmap_2; [apply _|].
    apply NoDup_rank_0. by rewrite <- list_fmap_compose.
Qed.

(** Distinct, in-range, ranked signers that reach every rank's quota. *)
Definition grouped_signer_set_ok (c : GroupedThresholdConfig)
    (signers : list ParticipantId) : Prop :=
  NoDup signers /\
  (forall s, s ∈ signers -> pid_0 s <= N.of_nat (length (gtc_participants c)))%N /\
  (forall s, s ∈ signers -> ranked (gtc_participants c) s) /\
  (forall r, r ∈ gtc_requirements c ->
     gtr_required r <= rank_count (gtc_participants c) (rank_0 (gtr_rank r)) signers)%N.

Section grouped.
Context (c : GroupedThresholdConfig).
Hypothesis wf : wf_grouped c.
Hypothesis ids : valid_ids (gtc_participants c).
Hypothesis reqs : forall r, r ∈ gtc_requirements c -> valid_requirement r.

Lemma grouped_select signers :
  NoDup signers ->
  match foldlM (select_step c) ∅ signers with
  | Ok m => forall k, default 0%N (m !! k) = rank_count (gtc_participants c) k signers
  | Err _ => ~ forall s, s ∈ signers -> ranked (gtc_participants c) s
  | Panic => False
  end.
Proof.
  intros HN. pose proof (select_loop c signers ∅) as Hl.
  destruct (foldlM _ _ _); [intros k; rewrite Hl| |]; try apply Hl;
    try (rewrite lookup_empty; cbn; lia);
    (intros k'; rewrite lookup_empty; cbn; rewrite N.add_0_l;
     etransitivity; [by apply rank_count_bound|]; apply valid_ids_length; [apply wf|done]).
Qed.

Lemma validate_grouped_Ok signers u :
  validate_grouped_threshold_signer_set signers c = Ok u <-> grouped_signer_set_ok c signers.
Proof.
  unfold validate_grouped_threshold_signer_set, grouped_signer_set_ok. destruct u.
  destruct (wf_grouped_threshold_config c wf ids reqs) as (_ & _ & Htc).
  rewrite Htc, ok_bind. split.
  - intros Hv. apply bind_Ok in Hv as ([] & (_ & HN & Hle)%validate_signer_set_Ok & Hv).
    apply bind_Ok in Hv as (m & Hm & Hv). apply bind_Ok in Hv as ([] & Hq & _).
    pose proof (select_loop_ranked c signers _ _ Hm) as Hr.
    pose proof (grouped_select signers HN) as Hk. rewrite Hm in Hk.
    rewrite quota_loop_Ok in Hq. setoid_rewrite Hk in Hq. done.
  - intros (HN & Hle & Hr & Hq).
    assert (Hok : signer_set_ok signers (sumN gtr_required (gtc_requirements c))
                    (N.of_nat (length (gtc_participants c)))).
    { split_and!; [|done|done]. rewrite <- (rank_counts_total c signers wf Hr).
      apply sumN_le. exact Hq. }
    rewrite (proj2 (validate_signer_set_Ok signers (mkThresholdConfig _ _) tt) Hok), ok_bind.
    pose proof (grouped_select signers HN) as Hk.
    destruct (foldlM (select_step c) ∅ signers) as [m| |]; [|done|done]. rewrite ok_bind.
    by rewrite (proj2 (quota_loop_Ok m _ tt)) by (intros r Hr'; rewrite Hk; auto).
Qed.

Lemma validate_grouped_returns signers :
  returns (validate_grouped_threshold_signer_set signers c).
Proof.
  unfold validate_grouped_threshold_signer_set.
  destruct (wf_grouped_threshold_config c wf ids reqs) as (_ & _ & Htc). rewrite Htc, ok_bind.
  apply bind_returns; [apply validate_signer_set_returns|].
  intros [] (_ & HN & _)%validate_signer_set_Ok.
  pose proof (grouped_select signers HN) as Hk.
  destruct (foldlM (select_step c) ∅ signers) as [m| |]; [|done|done]. rewrite ok_bind.
  apply bind_returns; [|done]. apply (foldlM_returns _ (fun _ => True)); [|done].
  intros [] r _ _. unfold quota_step. cbv zeta. by destruct (_ <? _)%N.
Qed.
End grouped.

(** C20: a signer set passes [validate_grouped_threshold_signer_set] under a
    grouped policy exactly when its signers are distinct, in range and ranked and
    every rank reaches its quota; the check on the total number of signers is
    implied.  The [u16] counters cannot overflow, so the validator never
    panics. *)
Theorem grouped_signer_set_iff ps rs c signers :
  GroupedThresholdConfig_new ps rs = Ok c -> valid_ids ps ->
  (forall r, r ∈ rs -> valid_requirement r) ->
  returns (validate_grouped_threshold_signer_set signers c) /\
  (validate_grouped_threshold_signer_set signers c = Ok tt <-> grouped_signer_set_ok c signers).
Proof.
  intros [-> Hwf]%GroupedThresholdConfig_new_Ok Hids Hreqs. split.
  - by apply validate_grouped_returns.
  - by apply validate_grouped_Ok.
Qed.

Lemma grouped_signer_set_iff_witness :
  let ps := [mkRankedParticipant (mkParticipantId 1) (mkRank 0) None;
             mkRankedParticipant (mkParticipantId 2) (mkRank 1) None;
             mkRankedParticipant (mkParticipantId 3) (mkRank 1) None] in
  let rs := [mkGroupThresholdRequirement (mkRank 0) 1 1;
             mkGroupThresholdRequirement (mkRank 1) 1 2] in
  let c := mkGroupedThresholdConfig ps rs in
  grouped_signer_set_ok c [mkParticipantId 3; mkParticipantId 1].
Proof.
  intros ps rs c.
  apply (grouped_signer_set_iff ps rs c); [vm_compute; reflexivity| | |vm_compute; reflexivity].
  - intros p Hp. unfold ps in Hp. rewrite !elem_of_cons in Hp.
    destruct Hp as [->|[->|[->|Hp]]]; [vm_compute; split; discriminate..|].
    by apply not_elem_of_nil in Hp.
  - intros r Hr. unfold rs in Hr. rewrite !elem_of_cons in Hr.
    destruct Hr as [->|[->|Hr]]; [vm_compute; split; discriminate..|].
    by apply not_elem_of_nil in Hr.
Defined.
