(* ===== verification/Birkhoff.v ===== *)
(** Birkhoff interpolation of [crates/dkgkit-frost/src/lib.rs]: derivative
    evaluation of polynomials over the scalar field, the interpolation matrix,
    and the coefficients that reconstruct [f(0)] from derivative values.

    The reference definitions are the formal derivative [poly_deriv] and
    Horner's rule [poly_eval] on coefficient lists (constant term first). *)

From Stdlib Require Import Ascii String Field.
From stdpp Require Import base numbers countable gmap strings list.
From S2P Require Import Prelude Core Secp SmallGroup LinearSystem Packages SignerPolicy.

Record BirkhoffPoint := mkBirkhoffPoint {
  bp_participant_id : ParticipantId;
  bp_x : N;
  bp_derivative_order : N;
}.

#[export] Instance birkhoff_point_eq_dec : EqDecision BirkhoffPoint.
Proof. solve_decision. Defined.

Definition BirkhoffPoint_new (participant_id : ParticipantId) (x derivative_order : N) :
  Result BirkhoffPoint :=
  reject_if (x =? 0)%N (Protocol "Birkhoff x-coordinate cannot be zero");;
  Ok (mkBirkhoffPoint participant_id x derivative_order).

Record BirkhoffCoefficient := mkBirkhoffCoefficient {
  bc_participant_id : ParticipantId;
  bc_derivative_order : N;
  bc_coefficient_bytes : bytes;
}.

#[export] Instance birkhoff_coefficient_eq_dec : EqDecision BirkhoffCoefficient.
Proof. solve_decision. Defined.

Definition birkhoff_points_from_hierarchical_signer_set (signers : list ParticipantId)
    (config : HierarchicalThresholdConfig) : Result (list BirkhoffPoint) :=
  validate_hierarchical_signer_set signers config;;
  mapM (fun signer =>
          rank ← ok_or (HierarchicalThresholdConfig_rank_of config signer)
                       (MissingRankedParticipant (pid_0 signer));
          BirkhoffPoint_new signer (pid_0 signer) (rank_0 rank)) signers.

(** [r.expect(..)] on a [Result] *)
Definition expect_ok {E E' A} (o : Outcome E A) : Outcome E' A :=
  match o with Ok a => Ok a | Err _ => Panic | Panic => Panic end.

Section birkhoff.
Context `{Secp}.

(** The factors [lo..=hi] multiplied up, one by one. *)
Definition factor_product (lo hi : N) : scalar :=
  foldl (fun coefficient factor => scalar_mul coefficient (scalar_from_u32 factor))
    scalar_one (N.of_nat <$> seq (N.to_nat lo) (N.to_nat hi + 1 - N.to_nat lo)).

Definition derivative_basis_scalar (degree derivative_order x : N) : Result scalar :=
  if (degree <? derivative_order)%N then Ok scalar_zero
  else
    lo ← u16_add (degree - derivative_order) 1;
    Ok (scalar_mul (factor_product lo degree)
                   (scalar_pow (scalar_from_u32 x) (degree - derivative_order))).

Definition birkhoff_matrix (points : list BirkhoffPoint) : Result (list (list scalar)) :=
  let n := length points in
  mapM (fun point =>
          mapM (fun degree => derivative_basis_scalar (as_u16 (N.of_nat degree))
                                (bp_derivative_order point) (bp_x point))
               (seq 0 n)) points.

(** [coefficients.iter().enumerate().map(..).fold(scalar_zero(), scalar_add)];
    the [expect] inside makes an error a panic. *)
Definition polynomial_derivative_value (coefficients : list scalar) (x derivative_order : N) :
  Result scalar :=
  foldlM (fun acc '(degree, coefficient) =>
            basis ← expect_ok (derivative_basis_scalar (as_u16 (N.of_nat degree))
                                 derivative_order x);
            Ok (scalar_add acc (scalar_mul coefficient basis)))
    scalar_zero (imap pair coefficients).

(** [for col in 0..n { transpose[col][row] = matrix[row][col]; }] *)
Definition transpose_row (n : nat) (matrix transpose : list (list scalar)) (row : nat) :
  Result (list (list scalar)) :=
  foldlM (fun transpose col =>
            x ← matrix_get matrix row col;
            matrix_set transpose col row x)
    transpose (seq 0 n).

(** The loop over the rows, into a matrix of zeros. *)
Definition transpose_matrix (n : nat) (matrix : list (list scalar)) :
  Result (list (list scalar)) :=
  foldlM (transpose_row n matrix) (replicate n (replicate n scalar_zero)) (seq 0 n).

Definition birkhoff_interpolation_coefficients (points : list BirkhoffPoint) :
  Result (list BirkhoffCoefficient) :=
  reject_if (bool_decide (points = [])) (Protocol "Birkhoff point set cannot be empty");;
  let n := length points in
  matrix ← birkhoff_matrix points;
  transpose ← transpose_matrix n matrix;
  target ← vec_set (replicate n scalar_zero) 0 scalar_one;
  coefficients ← solve_scalar_system transpose target;
  Ok (zip_with (fun point coefficient =>
                  mkBirkhoffCoefficient (bp_participant_id point)
                    (bp_derivative_order point) (scalar_to_bytes coefficient))
        points coefficients).

Record HierarchicalSigningRequest := mkHierarchicalSigningRequest {
  hsr_request : SigningRequest;
  hsr_points : list BirkhoffPoint;
  hsr_coefficients : list BirkhoffCoefficient;
}.

Definition HierarchicalSigningRequest_new (session_id : SessionId) (group_key : GroupKey)
    (message_digest : bytes) (signer_set : list ParticipantId)
    (config : HierarchicalThresholdConfig) : Result HierarchicalSigningRequest :=
  points ← birkhoff_points_from_hierarchical_signer_set signer_set config;
  coefficients ← birkhoff_interpolation_coefficients points;
  request ← SigningRequest_new_with_policy session_id group_key message_digest signer_set
              (Hierarchical config);
  Ok (mkHierarchicalSigningRequest request points coefficients).

(** ** Reference definitions *)

Definition poly_coeff (f : list scalar) (d : nat) : scalar := nth d f scalar_zero.

Definition poly_eval (f : list scalar) (x : scalar) : scalar :=
  foldr (fun c acc => scalar_add c (scalar_mul x acc)) scalar_zero f.

(** [c_0 + c_1 t + c_2 t^2 + ...] becomes [c_1 + 2 c_2 t + ...]. *)
Definition poly_deriv (f : list scalar) : list scalar :=
  imap (fun i c => scalar_mul (scalar_from_u32 (N.of_nat (S i))) c) (tail f).

(** The value at [x] of the [r]-th derivative. *)
Definition derivative_at (f : list scalar) (r : nat) (x : scalar) : scalar :=
  poly_eval (Nat.iter r poly_deriv f) x.

(** The contribution of the monomial [t^d] to the [r]-th derivative at [x]. *)
Definition basis_value (d r : nat) (x : scalar) : scalar :=
  if (d <? r)%nat then scalar_zero
  else scalar_mul (foldl (fun c i => scalar_mul c (scalar_from_u32 (N.of_nat i))) scalar_one
                     (seq (S (d - r)) r))
         (scalar_pow x (N.of_nat (d - r))).
End birkhoff.

(** ** Polynomials *)

Section polynomials.
Context `{SecpLaws}.
Local Open Scope secp_scope.
Add Field scalar_field_polynomials : scalar_ft.

Implicit Types (f g : list scalar) (x : scalar).

Lemma scalar_pow_nat x d : scalar_pow x (N.of_nat (S d)) = scalar_pow x (N.of_nat d) * x.
Proof. by rewrite Nat2N.inj_succ, scalar_pow_succ. Qed.

Lemma ssum_shift n (h : nat -> scalar) : ssum (S n) h = h 0%nat + ssum n (fun j => h (S j)).
Proof.
  induction n as [|n IH]; [simpl; ring|].
  change (ssum (S (S n)) h) with (ssum (S n) h + h (S n)). rewrite IH. simpl. ring.
Qed.

(** Horner's rule is the sum of the monomials. *)
Lemma poly_eval_sum f x n :
  (length f <= n)%nat ->
  poly_eval f x = ssum n (fun d => poly_coeff f d * scalar_pow x (N.of_nat d)).
Proof.
  revert n; induction f as [|c f IH]; intros n Hn.
  - rewrite (ssum_ext n _ (fun _ => scalar_zero)), ssum_zero; [done|].
    intros [|d] _; unfold poly_coeff; simpl; ring.
  - destruct n as [|n]; [simpl in Hn; lia|]. rewrite ssum_shift. simpl poly_eval.
    rewrite (IH n) by (simpl in Hn; lia). rewrite <- ssum_scale.
    change (poly_coeff (c :: f) 0) with c.
    rewrite (ssum_ext n _ (fun j => poly_coeff (c :: f) (S j) * scalar_pow x (N.of_nat (S j)))).
    + change (scalar_pow x (N.of_nat 0)) with scalar_one. ring.
    + intros j _. rewrite scalar_pow_nat. change (poly_coeff (c :: f) (S j)) with (poly_coeff f j).
      ring.
Qed.

Lemma poly_eval_0 f : poly_eval f scalar_zero = poly_coeff f 0.
Proof. destruct f as [|c f]; [done|]. simpl. unfold poly_coeff. simpl. ring. Qed.

Lemma length_poly_deriv f : length (poly_deriv f) = pred (length f).
Proof. unfold poly_deriv. rewrite length_imap. by destruct f. Qed.

Lemma poly_coeff_deriv f d :
  poly_coeff (poly_deriv f) d = scalar_from_u32 (N.of_nat (S d)) * poly_coeff f (S d).
Proof.
  unfold poly_coeff, poly_deriv. rewrite !nth_lookup, list_lookup_imap, lookup_tail.
  destruct (f !! S d); simpl; [done|ring].
Qed.

Lemma basis_value_0 d x : basis_value d 0 x = scalar_pow x (N.of_nat d).
Proof. unfold basis_value. simpl. rewrite Nat.sub_0_r. ring. Qed.

Lemma basis_value_const r x : basis_value 0 (S r) x = scalar_zero.
Proof. done. Qed.

Lemma basis_value_succ d r x :
  basis_value (S d) (S r) x = scalar_from_u32 (N.of_nat (S d)) * basis_value d r x.
Proof.
  unfold basis_value. change (S d <? S r)%nat with (d <? r)%nat.
  destruct (Nat.ltb_spec d r); [ring|]. rewrite Nat.sub_succ.
  rewrite seq_S, foldl_app. cbn [foldl].
  replace (S (d - r) + r)%nat with (S d) by lia. ring.
Qed.

Lemma basis_value_high d r x : (d < r)%nat -> basis_value d r x = scalar_zero.
Proof. intros Hd. unfold basis_value. by rewrite (proj2 (Nat.ltb_lt d r) Hd). Qed.

(** The derivative as a combination of the monomials' contributions. *)
Lemma derivative_at_sum r : forall f x n,
  (length f <= n)%nat ->
  derivative_at f r x = ssum n (fun d => poly_coeff f d * basis_value d r x).
Proof.
  induction r as [|r IH]; intros f x n Hn.
  - unfold derivative_at. simpl. rewrite (poly_eval_sum f x n Hn). apply ssum_ext.
    intros d _. by rewrite basis_value_0.
  - unfold derivative_at. rewrite Nat.iter_succ_r. fold (derivative_at (poly_deriv f) r x).
    rewrite (IH _ x (pred n)) by (rewrite length_poly_deriv; lia).
    destruct n as [|n]; [done|]. rewrite ssum_shift, basis_value_const. simpl pred.
    rewrite (ssum_ext n _ (fun j => poly_coeff f (S j) * basis_value (S j) (S r) x)); [ring|].
    intros j _. rewrite poly_coeff_deriv, basis_value_succ. ring.
Qed.
End polynomials.

(** ** The code computes derivatives *)

Section derivatives.
Context `{SecpLaws}.
Local Open Scope secp_scope.
Add Field scalar_field_derivatives : scalar_ft.

Lemma foldl_of_nat {B} (g : B -> N -> B) (b : B) (l : list nat) :
  foldl g b (N.of_nat <$> l) = foldl (fun acc i => g acc (N.of_nat i)) b l.
Proof. revert b; induction l as [|i l IH]; intros b; [done|]. rewrite fmap_cons. simpl. apply IH. Qed.

(** The [u16] arithmetic is exact for every degree the program meets: a
    threshold is a [u16], so degrees stay below 65535. *)
Lemma derivative_basis_scalar_spec d r x :
  (N.of_nat d < u16_max)%N ->
  derivative_basis_scalar (as_u16 (N.of_nat d)) r x =
  Ok (basis_value d (N.to_nat r) (scalar_from_u32 x)).
Proof.
  unfold u16_max. intros Hd. unfold as_u16. rewrite N.mod_small by lia.
  unfold derivative_basis_scalar, basis_value, factor_product.
  destruct (N.ltb_spec (N.of_nat d) r); destruct (Nat.ltb_spec d (N.to_nat r)); try lia; [done|].
  rewrite (proj2 (u16_add_Ok _ 1 (N.of_nat d - r + 1))) by (unfold u16_max; lia).
  rewrite ok_bind, foldl_of_nat. do 2 f_equal.
  - replace (N.to_nat (N.of_nat d - r + 1)) with (S (d - N.to_nat r)) by lia. do 2 f_equal. lia.
  - f_equal. lia.
Qed.

Lemma poly_coeff_app_l f g d : (d < length f)%nat -> poly_coeff (f ++ g) d = poly_coeff f d.
Proof. intros Hd. unfold poly_coeff. by rewrite app_nth1. Qed.

Lemma poly_coeff_last f c : poly_coeff (f ++ [c]) (length f) = c.
Proof. unfold poly_coeff. rewrite app_nth2, Nat.sub_diag by lia. done. Qed.

Lemma polynomial_derivative_value_spec f x r :
  (N.of_nat (length f) <= u16_max)%N ->
  polynomial_derivative_value f x r = Ok (derivative_at f (N.to_nat r) (scalar_from_u32 x)).
Proof.
  intros Hf. rewrite (derivative_at_sum _ f _ (length f)) by lia.
  unfold polynomial_derivative_value. induction f as [|c f IH] using rev_ind; [done|].
  rewrite length_app, Nat.add_1_r in *. rewrite imap_app, foldlM_app, IH by lia.
  rewrite ok_bind. cbn [imap foldlM compose]. unfold compose. rewrite Nat.add_0_r.
  rewrite derivative_basis_scalar_spec by lia. cbn [expect_ok]. rewrite !ok_bind.
  cbn [ssum]. rewrite poly_coeff_last. do 2 f_equal. apply ssum_ext.
  intros d Hd. by rewrite poly_coeff_app_l.
Qed.

End derivatives.

Section derivative_claim.
Context `{SecpLaws}.

(** C21: [polynomial_derivative_value] computes the formal derivative.  For every
    coefficient list of at most 65535 entries (every threshold is a [u16]) it
    returns the value at [x] of the [derivative_order]-th derivative, with no
    overflow and no failing [expect]. *)
Theorem polynomial_derivative_value_correct (coefficients : list scalar)
    (x derivative_order : N) :
  (N.of_nat (length coefficients) <= u16_max)%N ->
  polynomial_derivative_value coefficients x derivative_order =
  Ok (poly_eval (Nat.iter (N.to_nat derivative_order) poly_deriv coefficients)
                (scalar_from_u32 x)).
Proof. apply polynomial_derivative_value_spec. Qed.

End derivative_claim.

(** ** Polynomials with many roots *)

Section roots.
Context `{SecpLaws}.
Local Open Scope secp_scope.
Add Field scalar_field_roots : scalar_ft.

Implicit Types (f g : list scalar) (x a : scalar).

(** The quotient of [f] by [t - a]. *)
Fixpoint poly_quotient a f : list scalar :=
  match f with
  | [] => []
  | _ :: f' => match f' with [] => [] | _ => poly_eval f' a :: poly_quotient a f' end
  end.

Lemma poly_eval_cons c f x : poly_eval (c :: f) x = c + x * poly_eval f x.
Proof. done. Qed.

Lemma length_poly_quotient a f : length (poly_quotient a f) = pred (length f).
Proof.
  induction f as [|c [|c' f] IH]; [done|done|].
  cbn [poly_quotient length] in *. by rewrite IH.
Qed.

Lemma poly_quotient_eval a f x :
  poly_eval f x = (x - a) * poly_eval (poly_quotient a f) x + poly_eval f a.
Proof.
  induction f as [|c [|c' f] IH]; [simpl; ring|simpl; ring|].
  change (poly_quotient a (c :: c' :: f))
    with (poly_eval (c' :: f) a :: poly_quotient a (c' :: f)).
  generalize dependent (c' :: f). intros f' IH.
  rewrite !poly_eval_cons, IH. ring.
Qed.

Definition poly_zero f : Prop := Forall (fun c => c = scalar_zero) f.

Lemma poly_quotient_zero a f :
  poly_zero (poly_quotient a f) -> poly_eval f a = scalar_zero -> poly_zero f.
Proof.
  unfold poly_zero. induction f as [|c [|c' f] IH]; intros Hq Hr; [constructor| |].
  - simpl in Hr. constructor; [|constructor]. rewrite <- Hr. ring.
  - set (f' := c' :: f) in *.
    change (poly_quotient a (c :: f')) with (poly_eval f' a :: poly_quotient a f') in Hq.
    apply Forall_cons in Hq as [Hf' Hq]. constructor; [|by apply IH].
    rewrite poly_eval_cons, Hf' in Hr.
    rewrite <- Hr. ring.
Qed.

(** A polynomial with as many distinct roots as coefficients is zero. *)
Lemma poly_roots_zero xs : forall f,
  NoDup xs -> (length f <= length xs)%nat ->
  (forall x, x ∈ xs -> poly_eval f x = scalar_zero) -> poly_zero f.
Proof.
  induction xs as [|a xs IH]; intros f HN Hlen Hroots.
  - destruct f; [constructor|simpl in Hlen; lia].
  - apply NoDup_cons in HN as [Ha HN].
    apply (poly_quotient_zero a); [|apply Hroots; left].
    apply IH; [done|rewrite length_poly_quotient; simpl in Hlen; lia|].
    intros x Hx. assert (Hfx : poly_eval f x = scalar_zero) by (apply Hroots; by right).
    rewrite (poly_quotient_eval a f x), (Hroots a ltac:(left)) in Hfx.
    assert (Hprod : (x - a) * poly_eval (poly_quotient a f) x = scalar_zero)
      by (rewrite <- Hfx; ring).
    apply scalar_integral in Hprod as [Hxa|]; [|done].
    apply scalar_sub_zero_iff in Hxa as ->. done.
Qed.

Lemma poly_zero_coeff f d : poly_zero f -> poly_coeff f d = scalar_zero.
Proof.
  unfold poly_zero, poly_coeff. intros Hf. revert d.
  induction Hf as [|c f -> _ IH]; intros [|d]; simpl; auto.
Qed.

End roots.

(** ** Interpolation *)

Section interpolation.
Context `{SecpLaws}.
Local Open Scope secp_scope.
Add Field scalar_field_interpolation : scalar_ft.

Implicit Types (pts : list BirkhoffPoint) (f : list scalar).

Definition lsum (l : list scalar) : scalar := foldr scalar_add scalar_zero l.

Lemma lsum_ssum l n : length l = n -> lsum l = ssum n (row_entry l).
Proof.
  revert n; induction l as [|c l IH]; intros n <-; [done|].
  cbn [length]. rewrite ssum_shift, <- IH by done. done.
Qed.

(** The condition a point stands for: the derivative value [f^(r)(x)]. *)
Definition point_value f (p : BirkhoffPoint) : scalar :=
  derivative_at f (N.to_nat (bp_derivative_order p)) (scalar_from_u32 (bp_x p)).

Definition point_basis (p : BirkhoffPoint) (d : nat) : scalar :=
  basis_value d (N.to_nat (bp_derivative_order p)) (scalar_from_u32 (bp_x p)).

(** The interpolation matrix. *)
Definition interpolation pts (i d : nat) : scalar :=
  match pts !! i with Some p => point_basis p d | None => scalar_zero end.

Definition fits_u16 pts : Prop := (N.of_nat (length pts) <= u16_max)%N.

Lemma birkhoff_matrix_spec pts :
  fits_u16 pts ->
  birkhoff_matrix pts = Ok ((fun p => map (point_basis p) (seq 0 (length pts))) <$> pts).
Proof.
  intros Hn. unfold birkhoff_matrix. apply mapM_pure. intros p _.
  apply mapM_pure. intros d Hd. apply elem_of_seq in Hd.
  apply derivative_basis_scalar_spec. unfold fits_u16 in Hn. lia.
Qed.

Lemma transpose_row_spec n m t t' tr row k :
  shape n m t -> shape n tr t' -> (row < n)%nat -> (k <= n)%nat ->
  exists tr', foldlM (fun transpose col => x ← matrix_get m row col;
                                           matrix_set transpose col row x)
                tr (seq 0 k) = Ok tr' /\ shape n tr' t' /\
    forall i j, entry tr' i j =
      if decide (j = row /\ (i < k)%nat) then entry m j i else entry tr i j.
Proof.
  intros Hm Htr Hrow. induction k as [|k IH]; intros Hk.
  - exists tr. split_and!; [done|done|]. intros i j. by rewrite decide_False by lia.
  - destruct IH as (tr1 & E & Hsh1 & He1); [lia|].
    rewrite seq_S, foldlM_app, E, ok_bind. cbn [foldlM Nat.add].
    rewrite (matrix_get_entry n m t), ok_bind by (done || lia).
    destruct (matrix_set_entry n tr1 t' k row (entry m row k)) as (tr2 & -> & Hsh2 & He2);
      [done|lia|done|].
    exists tr2. split_and!; [done|done|]. intros i j. rewrite He2, He1.
    repeat case_decide; destruct_and?; subst; done || lia.
Qed.

(** The loops transpose every square matrix without leaving its range. *)
Lemma transpose_matrix_spec n m t :
  shape n m t -> transpose_matrix n m = Ok (matrix_of n (fun i j => entry m j i)).
Proof.
  intros Hm. set (tr0 := replicate n (replicate n scalar_zero) : list (list scalar)).
  assert (Hsh0 : shape n tr0 t).
  { destruct Hm as (_ & _ & Ht). split_and!; [apply length_replicate| |done].
    intros i Hi. unfold tr0. rewrite nth_lookup, lookup_replicate_2 by done.
    apply length_replicate. }
  assert (Hp : forall k, (k <= n)%nat ->
    exists tr', foldlM (transpose_row n m) tr0 (seq 0 k) = Ok tr' /\ shape n tr' t /\
      forall i j, (i < n)%nat -> (j < k)%nat -> entry tr' i j = entry m j i).
  { intros k. induction k as [|k IH]; intros Hk; [exists tr0; split_and!; done || lia|].
    destruct IH as (tr1 & E & Hsh1 & He1); [lia|].
    rewrite seq_S, foldlM_app, E, ok_bind. cbn [foldlM Nat.add]. unfold transpose_row at 1.
    destruct (transpose_row_spec n m t t tr1 k n Hm Hsh1 ltac:(lia) ltac:(lia))
      as (tr2 & -> & Hsh2 & He2).
    exists tr2. split_and!; [done|done|]. intros i j Hi Hj. rewrite He2.
    case_decide; [done|]. apply He1; lia. }
  destruct (Hp n ltac:(lia)) as (tr & E & Hsh & He). unfold transpose_matrix. fold tr0.
  rewrite E. f_equal. by eapply shape_matrix_of.
Qed.

Lemma interpolation_shape pts :
  shape (length pts) ((fun p => map (point_basis p) (seq 0 (length pts))) <$> pts)
    (replicate (length pts) scalar_zero).
Proof.
  split_and!; [apply length_fmap| |apply length_replicate]. intros i Hi.
  destruct (lookup_lt_is_Some_2 pts i Hi) as [p Hp].
  rewrite nth_lookup, list_lookup_fmap, Hp. simpl. by rewrite length_map, length_seq.
Qed.

Lemma entry_interpolation pts i d :
  (i < length pts)%nat -> (d < length pts)%nat ->
  entry ((fun p => map (point_basis p) (seq 0 (length pts))) <$> pts) i d =
  interpolation pts i d.
Proof.
  intros Hi Hd. unfold entry, interpolation.
  destruct (lookup_lt_is_Some_2 pts i Hi) as [p Hp]. rewrite Hp.
  rewrite nth_lookup, list_lookup_fmap, Hp. simpl. unfold row_entry. by rewrite nth_map_seq.
Qed.

Definition unit_target (n : nat) : list scalar := <[0 := scalar_one]> (replicate n scalar_zero).

Lemma row_entry_unit_target n d :
  (d < n)%nat ->
  row_entry (unit_target n) d = if decide (d = 0)%nat then scalar_one else scalar_zero.
Proof.
  intros Hd. unfold unit_target. rewrite row_entry_insert by (rewrite length_replicate; lia).
  unfold row_entry. rewrite nth_lookup, lookup_replicate_2 by done.
  by repeat case_decide.
Qed.

Definition coefficient_of (p : BirkhoffPoint) (c : scalar) : BirkhoffCoefficient :=
  mkBirkhoffCoefficient (bp_participant_id p) (bp_derivative_order p) (scalar_to_bytes c).

(** The function with its loops over the matrix taken away. *)
Lemma birkhoff_interpolation_coefficients_eq pts :
  pts <> [] -> fits_u16 pts ->
  birkhoff_interpolation_coefficients pts =
  (cs ← solve_scalar_system
          (matrix_of (length pts) (fun d i => interpolation pts i d))
          (unit_target (length pts));
   Ok (zip_with coefficient_of pts cs)).
Proof.
  intros Hne Hn. unfold birkhoff_interpolation_coefficients.
  rewrite bool_decide_eq_false_2 by done. cbn [reject_if]. rewrite ok_bind.
  rewrite birkhoff_matrix_spec, ok_bind by done.
  rewrite (transpose_matrix_spec _ _ _ (interpolation_shape pts)), ok_bind.
  rewrite vec_set_insert, ok_bind by
    (rewrite length_replicate; destruct pts; [done|simpl; lia]).
  f_equal. f_equal. unfold matrix_of. apply map_ext_in. intros d Hd%in_seq. apply map_ext_in.
  intros i Hi%in_seq. apply entry_interpolation; lia.
Qed.

Lemma length_unit_target n : length (unit_target n) = n.
Proof. unfold unit_target. by rewrite length_insert, length_replicate. Qed.

(** The values [cs] reconstruct [f(0)] from the conditions of the points. *)
Definition reconstructs pts (cs : list scalar) : Prop :=
  length cs = length pts /\
  forall f, (length f <= length pts)%nat ->
    lsum (zip_with scalar_mul cs (point_value f <$> pts)) = poly_eval f scalar_zero.

Lemma row_entry_zip_mul (l k : list scalar) i :
  length l = length k ->
  row_entry (zip_with scalar_mul l k) i = row_entry l i * row_entry k i.
Proof.
  intros Hl. unfold row_entry. rewrite !nth_lookup, lookup_zip_with.
  destruct (l !! i) eqn:El; simpl; [|ring].
  destruct (k !! i) eqn:Ek; simpl; [done|ring].
Qed.

Lemma row_entry_point_values f pts i :
  (i < length pts)%nat -> (length f <= length pts)%nat ->
  row_entry (point_value f <$> pts) i =
  ssum (length pts) (fun d => poly_coeff f d * interpolation pts i d).
Proof.
  intros Hi Hf. unfold row_entry, interpolation. rewrite nth_lookup, list_lookup_fmap.
  destruct (lookup_lt_is_Some_2 pts i Hi) as [p Hp]. rewrite Hp. simpl.
  unfold point_value. by rewrite (derivative_at_sum _ f _ (length pts) Hf).
Qed.

Lemma solution_reconstructs pts cs :
  length cs = length pts ->
  (forall d, (d < length pts)%nat ->
     ssum (length pts) (fun i => interpolation pts i d * row_entry cs i) =
     row_entry (unit_target (length pts)) d) ->
  reconstructs pts cs.
Proof.
  intros Hl Hsol. split; [done|]. intros f Hf. set (n := length pts) in *.
  rewrite (lsum_ssum _ n) by (rewrite length_zip_with, length_fmap; fold n; lia).
  rewrite (ssum_ext n _ (fun i => ssum n (fun d =>
             poly_coeff f d * (interpolation pts i d * row_entry cs i)))).
  2: { intros i Hi. rewrite row_entry_zip_mul by (by rewrite length_fmap).
       rewrite row_entry_point_values by done. fold n. rewrite <- ssum_scale.
       apply ssum_ext. intros d _. ring. }
  rewrite ssum_swap, (ssum_ext n _ (fun d => poly_coeff f d * row_entry (unit_target n) d)).
  2: { intros d Hd. by rewrite ssum_scale, Hsol. }
  rewrite poly_eval_0. destruct (decide (n = 0)%nat) as [E|Hn].
  - rewrite E. simpl. destruct f; [done|]. simpl in Hf. lia.
  - rewrite (ssum_single n 0) by
      (lia || (intros d Hd Hd0; rewrite row_entry_unit_target by done;
               rewrite decide_False by done; ring)).
    rewrite row_entry_unit_target by lia. rewrite decide_True by done. ring.
Qed.

(** The system is regular, and the coefficients reconstruct; or it is not, and
    the error says so. *)
Lemma birkhoff_coefficients_regular pts :
  pts <> [] -> fits_u16 pts -> regular (length pts) (interpolation pts) ->
  exists cs, birkhoff_interpolation_coefficients pts = Ok (zip_with coefficient_of pts cs) /\
             reconstructs pts cs.
Proof.
  intros Hne Hn Hreg. rewrite birkhoff_interpolation_coefficients_eq by done.
  destruct (solve_regular (length pts) (fun d i => interpolation pts i d)
              (unit_target (length pts)) (length_unit_target _) (regular_transpose _ _ Hreg))
    as (cs & -> & Hl & Hs).
  exists cs. split; [done|]. by apply solution_reconstructs.
Qed.

Lemma birkhoff_coefficients_singular pts :
  pts <> [] -> fits_u16 pts -> ~ regular (length pts) (interpolation pts) ->
  birkhoff_interpolation_coefficients pts = Err singular_error.
Proof.
  intros Hne Hn Hreg. rewrite birkhoff_interpolation_coefficients_eq by done.
  rewrite solve_not_regular; [done|apply length_unit_target|].
  intros Ht. apply Hreg. eapply regular_ext, (regular_transpose _ _ Ht). done.
Qed.

Lemma birkhoff_coefficients_Ok pts out :
  fits_u16 pts -> birkhoff_interpolation_coefficients pts = Ok out ->
  pts <> [] /\ regular (length pts) (interpolation pts) /\
  exists cs, out = zip_with coefficient_of pts cs /\ reconstructs pts cs.
Proof.
  intros Hn Hout. assert (Hne : pts <> []) by (by intros ->).
  assert (Hreg : regular (length pts) (interpolation pts)).
  { rewrite birkhoff_interpolation_coefficients_eq in Hout by done.
    apply bind_Ok in Hout as (cs & Hs & _).
    apply solve_Ok_regular in Hs; [|apply length_unit_target].
    eapply regular_ext, (regular_transpose _ _ Hs). done. }
  split_and!; [done|done|].
  destruct (birkhoff_coefficients_regular pts Hne Hn Hreg) as (cs & E & Hr).
  rewrite E in Hout. simplify_eq. eauto.
Qed.
(** A kernel vector is a polynomial the conditions do not see. *)
Lemma kernel_polynomial pts x i :
  (i < length pts)%nat -> x i <> scalar_zero -> kernel (length pts) (interpolation pts) x ->
  exists f, length f = length pts /\ ~ poly_zero f /\
            forall p, p ∈ pts -> point_value f p = scalar_zero.
Proof.
  intros Hi Hx Hk. set (n := length pts) in *. exists (map x (seq 0 n)).
  assert (Hl : length (map x (seq 0 n)) = n) by (by rewrite length_map, length_seq).
  assert (Hc : forall d, (d < n)%nat -> poly_coeff (map x (seq 0 n)) d = x d).
  { intros d Hd. unfold poly_coeff. by apply nth_map_seq. }
  split_and!; [done| |].
  - intros Hz. apply Hx. rewrite <- Hc by done. by apply poly_zero_coeff.
  - intros p (k & Hp)%list_elem_of_lookup. pose proof (lookup_lt_Some _ _ _ Hp) as Hkn.
    pose proof (row_entry_point_values (map x (seq 0 n)) pts k Hkn ltac:(fold n; lia)) as Hv.
    unfold row_entry in Hv. rewrite nth_lookup, list_lookup_fmap, Hp in Hv. simpl in Hv.
    rewrite Hv. fold n. rewrite <- (Hk k Hkn). apply ssum_ext. intros d Hd.
    rewrite Hc by done. ring.
Qed.

(** Plain Shamir sharing: values at distinct points determine the polynomial. *)
Lemma vandermonde_regular pts :
  (forall p, p ∈ pts -> bp_derivative_order p = 0%N) ->
  NoDup (scalar_from_u32 ∘ bp_x <$> pts) ->
  regular (length pts) (interpolation pts).
Proof.
  intros Hr HN. destruct (regular_or_kernel (length pts) (interpolation pts))
    as [|(x & i & Hi & Hx & Hk)]; [done|]. exfalso.
  destruct (kernel_polynomial pts x i Hi Hx Hk) as (f & Hl & Hnz & Hf). apply Hnz.
  apply (poly_roots_zero (scalar_from_u32 ∘ bp_x <$> pts)); [done|rewrite length_fmap; lia|].
  intros y (p & -> & Hp)%list_elem_of_fmap. rewrite <- (Hf p Hp).
  unfold point_value, derivative_at. by rewrite Hr.
Qed.

(** The points whose derivative order is at most [m]. *)
Definition low_order (m : nat) pts : list BirkhoffPoint :=
  List.filter (fun p => (bp_derivative_order p <=? N.of_nat m)%N) pts.

(** Too few low-order conditions leave a polynomial of degree [m]
    undetermined. *)
Lemma polya_violation pts m :
  (m < length pts)%nat -> (length (low_order m pts) <= m)%nat ->
  ~ regular (length pts) (interpolation pts).
Proof.
  intros Hm Hc Hreg.
  destruct (underdetermined (length (low_order m pts)) (S m) (interpolation (low_order m pts)))
    as (v & k & Hk & Hv & Hz); [lia|].
  set (x := fun d => if decide (d <= m)%nat then v d else scalar_zero).
  apply Hv. transitivity (x k); [unfold x; by rewrite decide_True by lia|].
  apply Hreg; [|lia]. intros i Hi.
  rewrite (ssum_truncate (S m)) by
    (lia || (intros d Hd; unfold x; rewrite decide_False by lia; ring)).
  unfold interpolation at 1. destruct (lookup_lt_is_Some_2 pts i Hi) as [p Hp]. rewrite Hp.
  destruct (decide (bp_derivative_order p <= N.of_nat m)%N) as [Hlow|Hhigh].
  - assert (Hin : p ∈ low_order m pts).
    { apply list_elem_of_In, filter_In. split; [|by apply N.leb_le].
      by apply list_elem_of_In, list_elem_of_lookup_2 with i. }
    apply list_elem_of_lookup in Hin as [j Hj]. pose proof (lookup_lt_Some _ _ _ Hj) as Hjl.
    rewrite <- (Hz j Hjl). apply ssum_ext. intros d Hd. unfold interpolation, x.
    rewrite Hj. by rewrite decide_True by lia.
  - rewrite (ssum_ext (S m) _ (fun _ => scalar_zero)); [apply ssum_zero|].
    intros d Hd. unfold point_basis. rewrite basis_value_high by lia. ring.
Qed.
End interpolation.

(** ** The interpolation contract *)

Section contract.
Context `{SecpLaws}.

(** C4: [birkhoff_interpolation_coefficients] is correct on every point set of
    at most 65535 points.  On [Ok] the coefficients [c_i] (one per point, in
    order, with the point's participant and derivative order) satisfy
    [f(0) = sum_i c_i * f^(r_i)(x_i)] for every polynomial [f] with at most as
    many coefficients as there are points.  It fails only on the empty set and
    on point sets that cannot determine a polynomial: some non-zero polynomial
    with as many coefficients as points satisfies every condition with value
    zero.  It never panics. *)
Theorem birkhoff_coefficients_correct (points : list BirkhoffPoint) :
  fits_u16 points ->
  match birkhoff_interpolation_coefficients points with
  | Ok coefficients =>
      exists cs, coefficients = zip_with coefficient_of points cs /\
        length cs = length points /\
        forall f, (length f <= length points)%nat ->
          lsum (zip_with scalar_mul cs (point_value f <$> points)) = poly_eval f scalar_zero
  | Err e =>
      (points = [] /\ e = Protocol "Birkhoff point set cannot be empty") \/
      (e = singular_error /\
       exists f, length f = length points /\ ~ poly_zero f /\
                 forall p, p ∈ points -> point_value f p = scalar_zero)
  | Panic => False
  end.
Proof.
  intros Hn. destruct (decide (points = [])) as [->|Hne]; [by left|].
  destruct (regular_or_kernel (length points) (interpolation points))
    as [Hreg|(x & i & Hi & Hx & Hk)].
  - destruct (birkhoff_coefficients_regular points Hne Hn Hreg) as (cs & -> & Hl & Hr). eauto.
  - rewrite birkhoff_coefficients_singular; [|done|done|by intros Hreg; destruct Hx; apply Hreg].
    right. split; [done|]. by apply (kernel_polynomial points x i).
Qed.

(** Plain threshold sharing always reconstructs.  When every signer has rank
    zero and the x-coordinates are distinct 16-bit values, the interpolation
    coefficients exist. *)
Theorem birkhoff_rank_zero_solvable (points : list BirkhoffPoint) :
  points <> [] -> fits_u16 points ->
  (forall p, p ∈ points -> bp_derivative_order p = 0%N /\ (bp_x p <= u16_max)%N) ->
  NoDup (bp_x <$> points) ->
  is_ok (birkhoff_interpolation_coefficients points) = true.
Proof.
  intros Hne Hn Hp HN.
  destruct (birkhoff_coefficients_regular points Hne Hn) as (cs & -> & _); [|done].
  apply vandermonde_regular; [intros p Hin; by apply Hp|].
  rewrite list_fmap_compose. apply NoDup_fmap_2_strong; [|done].
  intros x y (p & -> & Hpx)%list_elem_of_fmap (q & -> & Hqy)%list_elem_of_fmap Heq.
  destruct (Hp p Hpx) as [_ Hxp], (Hp q Hqy) as [_ Hyq].
  unfold u16_max in *. apply scalar_from_inj in Heq; unfold u32_max; lia.
Qed.

(** The rank rule is necessary.  Whenever the interpolation coefficients
    exist, for every [m] below the number of points more than [m] points have
    derivative order at most [m], which is the rule the signer-set validation
    checks on the sorted ranks. *)
Theorem birkhoff_solvable_rank_rule (points : list BirkhoffPoint) out m :
  fits_u16 points ->
  birkhoff_interpolation_coefficients points = Ok out ->
  (m < length points)%nat -> (m < length (low_order m points))%nat.
Proof.
  intros Hn Hout Hm. destruct (birkhoff_coefficients_Ok points out Hn Hout) as (_ & Hreg & _).
  destruct (decide (m < length (low_order m points))%nat) as [|Hc]; [done|].
  exfalso. apply (polya_violation points m Hm); [lia|done].
Qed.
(** More signers than the threshold can pass the validation and still have
    no interpolation coefficients.  Under threshold two with ranks 0, 1 and 5 the
    set of all three participants satisfies the rank rule on its first two sorted
    ranks, but the three-point interpolation system is singular, so reconstruction
    and signing with that set fail. *)
Theorem oversized_signer_set_singular :
  let participants := [mkRankedParticipant (mkParticipantId 1) (mkRank 0) None;
                       mkRankedParticipant (mkParticipantId 2) (mkRank 1) None;
                       mkRankedParticipant (mkParticipantId 3) (mkRank 5) None] in
  let config := mkHierarchicalThresholdConfig 2 participants in
  let signers := [mkParticipantId 1; mkParticipantId 2; mkParticipantId 3] in
  exists points,
    HierarchicalThresholdConfig_new 2 participants = Ok config /\
    validate_hierarchical_signer_set signers config = Ok tt /\
    birkhoff_points_from_hierarchical_signer_set signers config = Ok points /\
    birkhoff_interpolation_coefficients points = Err singular_error.
Proof.
  eexists. split_and!; [reflexivity|vm_compute; reflexivity|vm_compute; reflexivity|].
  apply birkhoff_coefficients_singular; [done|by vm_compute|].
  apply (polya_violation _ 2); simpl; lia.
Qed.
End contract.

(** ** Concrete runs *)

Section witnesses.
Local Existing Instances small_group small_group_laws.

Definition demo_point (id x r : N) : BirkhoffPoint := mkBirkhoffPoint (mkParticipantId id) x r.

(** The derivative of [1 + 2t + 3t^2] is [2 + 6t], at [5] it is [32]. *)
Lemma polynomial_derivative_value_correct_witness :
  polynomial_derivative_value [f_of 1; f_of 2; f_of 3] 5 1 = Ok (f_of 32).
Proof.
  rewrite (@polynomial_derivative_value_correct small_group _ [f_of 1; f_of 2; f_of 3] 5 1)
    by (vm_compute; discriminate).
  vm_compute. reflexivity.
Defined.

(** A value at [1] and a derivative at [2] determine a line. *)
Lemma birkhoff_coefficients_correct_witness :
  exists cs, birkhoff_interpolation_coefficients [demo_point 1 1 0; demo_point 2 2 1] =
    Ok (zip_with coefficient_of [demo_point 1 1 0; demo_point 2 2 1] cs) /\ length cs = 2 /\
    forall f, (length f <= 2)%nat ->
      lsum (zip_with scalar_mul cs (point_value f <$> [demo_point 1 1 0; demo_point 2 2 1])) =
      poly_eval f scalar_zero.
Proof.
  pose proof (birkhoff_coefficients_correct [demo_point 1 1 0; demo_point 2 2 1]
                ltac:(vm_compute; discriminate)) as Hc.
  destruct (birkhoff_interpolation_coefficients _) as [out|e|] eqn:E.
  - destruct Hc as (cs & -> & Hl & Hr). by exists cs.
  - exfalso. assert (Hok : is_ok (birkhoff_interpolation_coefficients
      [demo_point 1 1 0; demo_point 2 2 1]) = true) by (vm_compute; reflexivity).
    by rewrite E in Hok.
  - done.
Defined.

Lemma birkhoff_rank_zero_solvable_witness :
  is_ok (birkhoff_interpolation_coefficients
           [demo_point 1 1 0; demo_point 4 4 0; demo_point 2 2 0]) = true.
Proof.
  apply (birkhoff_rank_zero_solvable [demo_point 1 1 0; demo_point 4 4 0; demo_point 2 2 0]).
  - discriminate.
  - vm_compute. discriminate.
  - intros p Hp. rewrite !elem_of_cons in Hp.
    destruct Hp as [->|[->|[->|Hp]]]; [vm_compute; split; [done|discriminate]..|].
    by apply not_elem_of_nil in Hp.
  - vm_compute. repeat constructor; set_solver.
Defined.

Lemma birkhoff_solvable_rank_rule_witness :
  (1 < length (low_order 1 [demo_point 1 1 0; demo_point 2 2 1]))%nat.
Proof.
  destruct (birkhoff_interpolation_coefficients [demo_point 1 1 0; demo_point 2 2 1])
    as [out|e|] eqn:E.
  - apply (birkhoff_solvable_rank_rule [demo_point 1 1 0; demo_point 2 2 1] out 1);
      [vm_compute; discriminate|exact E|simpl; lia].
  - exfalso. assert (Hok : is_ok (birkhoff_interpolation_coefficients
      [demo_point 1 1 0; demo_point 2 2 1]) = true) by (vm_compute; reflexivity).
    by rewrite E in Hok.
  - exfalso. assert (Hok : is_ok (birkhoff_interpolation_coefficients
      [demo_point 1 1 0; demo_point 2 2 1]) = true) by (vm_compute; reflexivity).
    by rewrite E in Hok.
Defined.

Lemma oversized_signer_set_singular_witness :
  exists points, birkhoff_interpolation_coefficients points = Err singular_error.
Proof.
  destruct oversized_signer_set_singular as (points & _ & _ & _ & E). by exists points.
Defined.
End witnesses.
