(* ===== verification/HtssKeygen.v ===== *)
(** Hierarchical threshold secret sharing with one dealer, from
    [crates/dkgkit-frost/src/lib.rs]: [run_local_htss_keygen], [reshare_htss],
    [reconstruct_htss_secret_scalar], [sign_digest_with_local_htss_shares] and
    the grouped-policy wrappers.

    [rand::thread_rng()] is a generator state that the functions thread.

    The invariant of the component is [valid_key_set]: the shares are the
    derivative values of one polynomial with as many coefficients as the
    threshold, whose constant term is the secret key of the group key. *)

From Stdlib Require Import Ascii String Field.
From stdpp Require Import base numbers countable gmap strings list.
From S2P Require Import Prelude Core Secp SmallGroup LinearSystem Packages SignerPolicy Birkhoff.

Section operations.
Context `{Secp}.

(** [Scalar::<Secret, NonZero>::random(&mut rng)] *)
Definition draw_scalar : ST rng DkgKitError scalar :=
  fun g => let '(s, g') := scalar_random g in (g', Ok s).

(** [polynomial.push(secret); for _ in 1..threshold { polynomial.push(random) }] *)
Definition random_polynomial (secret : scalar) (threshold : N) : ST rng DkgKitError (list scalar) :=
  rest ← mapM (fun _ => draw_scalar) (seq 1 (N.to_nat threshold - 1));
  mret (secret :: rest).

Definition deal_share (polynomial : list scalar) (participant : RankedParticipant) :
  Result HtssLocalKeyShare :=
  value ← polynomial_derivative_value polynomial (pid_0 (rp_id participant))
            (rank_0 (rp_rank participant));
  Ok (mkHtssLocalKeyShare (rp_id participant) (rank_0 (rp_rank participant))
        (scalar_to_bytes value)).

Definition run_local_htss_keygen (config : HierarchicalThresholdConfig) : ST rng DkgKitError HtssLocalKeySet :=
  initial_secret ← draw_scalar;
  let '(secret, public_key) := schnorr_new_keypair initial_secret in
  polynomial ← random_polynomial secret (htc_threshold config);
  shares ← st_lift (mapM (deal_share polynomial) (htc_participants config));
  mret (mkHtssLocalKeySet (mkGroupKey (point_to_xonly_bytes public_key) []) shares).

Definition reconstruct_step (share_map : gmap ParticipantId HtssLocalKeyShare)
    (secret : scalar) (coefficient : BirkhoffCoefficient) : Result scalar :=
  share ← ok_or (share_map !! bc_participant_id coefficient)
                (MissingRankedParticipant (pid_0 (bc_participant_id coefficient)));
  reject_if (negb (hks_rank share =? bc_derivative_order coefficient)%N)
    (Protocol ("HTSS share rank mismatch for participant "
               +:+ dec (pid_0 (hks_participant_id share)) +:+ ": share rank "
               +:+ dec (hks_rank share) +:+ ", coefficient rank "
               +:+ dec (bc_derivative_order coefficient)));;
  share_value ← ok_or (scalar_from_bytes (hks_share_value_bytes share))
                  (Protocol ("invalid HTSS share scalar for participant "
                             +:+ dec (pid_0 (hks_participant_id share))));
  coefficient_value ← ok_or (scalar_from_bytes (bc_coefficient_bytes coefficient))
                        (Protocol ("invalid Birkhoff coefficient scalar for participant "
                                   +:+ dec (pid_0 (bc_participant_id coefficient))));
  Ok (scalar_add secret (scalar_mul coefficient_value share_value)).

Definition reconstruct_htss_secret_scalar (shares : list HtssLocalKeyShare)
    (signer_set : list ParticipantId) (config : HierarchicalThresholdConfig) : Result bytes :=
  points ← birkhoff_points_from_hierarchical_signer_set signer_set config;
  coefficients ← birkhoff_interpolation_coefficients points;
  let share_map := collect_map hks_participant_id shares in
  secret ← foldlM (reconstruct_step share_map) scalar_zero coefficients;
  Ok (scalar_to_bytes secret).

(** [Scalar::<Secret, Zero>::from_bytes(bytes).and_then(|s| s.non_zero())] *)
Definition nonzero_secret (secret_bytes : bytes) : Result scalar :=
  ok_or (secret ← scalar_from_bytes secret_bytes; scalar_non_zero secret)
    (Protocol "reconstructed HTSS secret is zero").

Definition reshare_htss (old : HtssLocalKeySet) (old_config : HierarchicalThresholdConfig)
    (reconstruct_set : list ParticipantId) (new_config : HierarchicalThresholdConfig) :
  ST rng DkgKitError HtssLocalKeySet :=
  secret_bytes ← st_lift (reconstruct_htss_secret_scalar (hkset_shares old) reconstruct_set
                            old_config);
  secret ← st_lift (nonzero_secret secret_bytes);
  let '(secret_term, public_key) := schnorr_new_keypair secret in
  st_lift (reject_if (bool_decide (point_to_xonly_bytes public_key
                                   <> gk_xonly_public_key (hkset_group_key old)))
             (Protocol "reshare would change the group key"));;
  polynomial ← random_polynomial secret_term (htc_threshold new_config);
  shares ← st_lift (mapM (deal_share polynomial) (htc_participants new_config));
  mret (mkHtssLocalKeySet (hkset_group_key old) shares).

Definition sign_digest_with_local_htss_shares (group_key : GroupKey) (digest : bytes)
    (shares : list HtssLocalKeyShare) (signer_set : list ParticipantId)
    (config : HierarchicalThresholdConfig) : Result AggregateSignature :=
  secret_bytes ← reconstruct_htss_secret_scalar shares signer_set config;
  secret ← nonzero_secret secret_bytes;
  let keypair := schnorr_new_keypair secret in
  reject_if (bool_decide (point_to_xonly_bytes keypair.2 <> gk_xonly_public_key group_key))
    (Protocol "reconstructed HTSS secret does not match group key");;
  let signature := schnorr_sign keypair (frost_message digest) in
  AggregateSignature_new (signature_to_bytes signature).

Definition hierarchical_config_from_grouped_threshold (config : GroupedThresholdConfig) :
  Result HierarchicalThresholdConfig :=
  required ← GroupedThresholdConfig_required_signer_count config;
  HierarchicalThresholdConfig_new required (gtc_participants config).

Definition run_local_grouped_htss_keygen (config : GroupedThresholdConfig) :
  ST rng DkgKitError HtssLocalKeySet :=
  hierarchical ← st_lift (hierarchical_config_from_grouped_threshold config);
  run_local_htss_keygen hierarchical.

(** ** The invariant *)

(** The share of a participant under the polynomial [f]. *)
Definition share_of (f : list scalar) (p : RankedParticipant) : HtssLocalKeyShare :=
  mkHtssLocalKeyShare (rp_id p) (rank_0 (rp_rank p))
    (scalar_to_bytes (derivative_at f (N.to_nat (rank_0 (rp_rank p)))
                        (scalar_from_u32 (pid_0 (rp_id p))))).

(** [sk] is the secret key of the x-only group key [xonly]. *)
Definition secret_key_of (sk : scalar) (xonly : bytes) : Prop :=
  sk <> scalar_zero /\ even_y (point_scale sk point_G) /\
  xonly = point_to_xonly_bytes (point_scale sk point_G).

Definition valid_key_set (c : HierarchicalThresholdConfig) (ks : HtssLocalKeySet) : Prop :=
  exists f, length f = N.to_nat (htc_threshold c) /\
    secret_key_of (poly_eval f scalar_zero) (gk_xonly_public_key (hkset_group_key ks)) /\
    hkset_shares ks = share_of f <$> htc_participants c.

(** The signer set passes the policy and its interpolation system is regular. *)
Definition can_reconstruct (c : HierarchicalThresholdConfig) (signers : list ParticipantId) :
  Prop :=
  is_ok (points ← birkhoff_points_from_hierarchical_signer_set signers c;
         birkhoff_interpolation_coefficients points) = true.

End operations.

(** ** Signer sets and their coefficients *)

Section signers.
Context `{SecpLaws}.
Local Open Scope secp_scope.
Add Field scalar_field_signers : scalar_ft.

Implicit Types (c : HierarchicalThresholdConfig) (signers : list ParticipantId)
  (f cs : list scalar).

Definition signer_point c (s : ParticipantId) : BirkhoffPoint :=
  mkBirkhoffPoint s (pid_0 s) (rank_value (htc_participants c) s).

(** The share value of a signer under the polynomial [f]. *)
Definition signer_value c f (s : ParticipantId) : scalar :=
  derivative_at f (N.to_nat (rank_value (htc_participants c) s)) (scalar_from_u32 (pid_0 s)).

Definition signer_coefficient c (s : ParticipantId) (v : scalar) : BirkhoffCoefficient :=
  mkBirkhoffCoefficient s (rank_value (htc_participants c) s) (scalar_to_bytes v).

Lemma birkhoff_points_Ok c signers pts :
  wf_hierarchical c ->
  birkhoff_points_from_hierarchical_signer_set signers c = Ok pts ->
  hierarchical_signer_set_ok c signers /\ (forall s, s ∈ signers -> 1 <= pid_0 s)%N /\
  pts = signer_point c <$> signers.
Proof.
  intros Hwf Hp. unfold birkhoff_points_from_hierarchical_signer_set in Hp.
  apply bind_Ok in Hp as ([] & Hok & Hm).
  apply (validate_hierarchical_Ok c signers tt Hwf) in Hok. split; [done|].
  apply mapM_Ok in Hm. clear Hok.
  induction Hm as [|s p ss ps Hsp _ [IH ->]].
  - split; [|done]. intros s Hs. by apply not_elem_of_nil in Hs.
  - unfold BirkhoffPoint_new in Hsp. inv_ok Hsp.
    rename select ((_ =? 0)%N = false) into Hz. apply N.eqb_neq in Hz. split.
    + intros x [->|Hx]%elem_of_cons; [lia|auto].
    + rewrite fmap_cons. f_equal. unfold signer_point, rank_value. f_equal.
      rename select (HierarchicalThresholdConfig_rank_of c s = Some _) into Hr.
      unfold HierarchicalThresholdConfig_rank_of in Hr. by rewrite Hr.
Qed.

Lemma signers_fit c signers :
  wf_hierarchical c -> hierarchical_signer_set_ok c signers ->
  (forall s, s ∈ signers -> 1 <= pid_0 s)%N -> (N.of_nat (length signers) <= u16_max)%N.
Proof.
  intros (_ & Hlen & _) ((_ & HN & Hle) & _) Hpos.
  enough (length (pid_0 <$> signers) <= N.to_nat u16_max)%nat by (rewrite length_fmap in *; lia).
  apply (NoDup_interval_length 1); [by apply NoDup_pids|].
  intros x (s & -> & Hs)%list_elem_of_fmap. specialize (Hpos s Hs). specialize (Hle s Hs). lia.
Qed.

(** A signer set that can reconstruct: its coefficients weigh the share values
    of any polynomial of fitting degree to its constant term. *)
Lemma signer_coefficients c signers :
  wf_hierarchical c -> can_reconstruct c signers ->
  exists cs,
    (points ← birkhoff_points_from_hierarchical_signer_set signers c;
     birkhoff_interpolation_coefficients points) =
      Ok (zip_with (signer_coefficient c) signers cs) /\
    length cs = length signers /\ hierarchical_signer_set_ok c signers /\
    (forall s, s ∈ signers -> 1 <= pid_0 s)%N /\
    forall f, (length f <= length signers)%nat ->
      lsum (zip_with scalar_mul cs (signer_value c f <$> signers)) = poly_eval f scalar_zero.
Proof.
  intros Hwf Hcan. unfold can_reconstruct in Hcan.
  destruct (birkhoff_points_from_hierarchical_signer_set signers c) as [pts| |] eqn:Hp;
    [|done|done]. rewrite ok_bind in *.
  destruct (birkhoff_points_Ok c signers pts Hwf Hp) as (Hok & Hpos & ->).
  destruct (birkhoff_interpolation_coefficients _) as [out| |] eqn:Hout; [|done|done].
  destruct (birkhoff_coefficients_Ok (signer_point c <$> signers) out) as (_ & _ & cs & -> & Hl & Hr).
  { unfold fits_u16. rewrite length_fmap. by apply (signers_fit c). }
  { done. }
  rewrite length_fmap in Hl. exists cs. split_and!; [|done|done|done|].
  - f_equal. rewrite zip_with_fmap_l. done.
  - intros f Hf. rewrite length_fmap in Hr. rewrite <- (Hr f Hf). do 2 f_equal.
    rewrite <- list_fmap_compose. done.
Qed.

Lemma find_rank_value c s :
  wf_hierarchical c -> ranked (htc_participants c) s ->
  exists p, p ∈ htc_participants c /\ rp_id p = s /\
            rank_0 (rp_rank p) = rank_value (htc_participants c) s.
Proof.
  intros _ [r Hr]. apply find_rank_Some in Hr as Hp. destruct Hp as (p & Hp & Hid & Hrank).
  exists p. split_and!; [done|done|]. unfold rank_value. by rewrite Hr, Hrank.
Qed.

Lemma dealt_share_lookup c f s :
  wf_hierarchical c -> ranked (htc_participants c) s ->
  collect_map hks_participant_id (share_of f <$> htc_participants c) !! s =
  Some (mkHtssLocalKeyShare s (rank_value (htc_participants c) s)
          (scalar_to_bytes (signer_value c f s))).
Proof.
  intros Hwf Hs. destruct (find_rank_value c s Hwf Hs) as (p & Hp & <- & Hr).
  change (rp_id p) with (hks_participant_id (share_of f p)) at 1.
  rewrite collect_map_elem.
  - unfold share_of, signer_value. by rewrite Hr.
  - rewrite <- list_fmap_compose. destruct Hwf as (_ & _ & HN). unfold distinct_ids in HN.
    rewrite (list_fmap_compose rp_id pid_0) in HN. by apply NoDup_pids.
  - by apply list_elem_of_fmap_2.
Qed.

Lemma reconstruct_step_dealt c m f acc s v :
  m !! s = Some (mkHtssLocalKeyShare s (rank_value (htc_participants c) s)
                   (scalar_to_bytes (signer_value c f s))) ->
  reconstruct_step m acc (signer_coefficient c s v) = Ok (acc + v * signer_value c f s).
Proof.
  intros Hm. unfold reconstruct_step, signer_coefficient. cbn [bc_participant_id].
  rewrite Hm. cbn. rewrite N.eqb_refl. cbn. by rewrite !scalar_from_to_bytes.
Qed.

Lemma reconstruct_loop c m f signers : forall cs acc,
  (forall s, s ∈ signers -> m !! s =
     Some (mkHtssLocalKeyShare s (rank_value (htc_participants c) s)
             (scalar_to_bytes (signer_value c f s)))) ->
  length cs = length signers ->
  foldlM (reconstruct_step m) acc (zip_with (signer_coefficient c) signers cs) =
  Ok (acc + lsum (zip_with scalar_mul cs (signer_value c f <$> signers))).
Proof.
  induction signers as [|s ss IH]; intros [|v cs] acc Hm Hl; try done.
  - cbn. f_equal. ring.
  - cbn [zip_with foldlM]. rewrite (reconstruct_step_dealt c m f) by (apply Hm; left).
    rewrite ok_bind.
    rewrite IH; [|intros x Hx; apply Hm; by right|by injection Hl].
    rewrite fmap_cons. cbn [zip_with]. unfold lsum. cbn [foldr]. f_equal. ring.
Qed.

(** Shares dealt from [f] reconstruct [f(0)]. *)
Lemma reconstruct_dealt c f signers :
  wf_hierarchical c -> can_reconstruct c signers -> (length f = N.to_nat (htc_threshold c))%nat ->
  reconstruct_htss_secret_scalar (share_of f <$> htc_participants c) signers c =
  Ok (scalar_to_bytes (poly_eval f scalar_zero)).
Proof.
  intros Hwf Hcan Hf.
  destruct (signer_coefficients c signers Hwf Hcan) as (cs & Hco & Hl & Hok & _ & Hr).
  unfold reconstruct_htss_secret_scalar.
  destruct (birkhoff_points_from_hierarchical_signer_set signers c) as [pts| |];
    rewrite ?ok_bind in *; [|discriminate Hco..].
  rewrite Hco, ok_bind. rewrite (reconstruct_loop c _ f).
  - rewrite ok_bind, Hr; [do 2 f_equal; ring|].
    destruct Hok as ((Ht & _) & _). lia.
  - intros s Hs. apply dealt_share_lookup; [done|]. by apply Hok.
  - done.
Qed.
End signers.

(** ** Dealing *)

Section dealing.
Context `{SecpLaws}.
Local Open Scope secp_scope.
Add Field scalar_field_dealing : scalar_ft.

Lemma new_keypair_secret s sk P :
  s <> scalar_zero -> schnorr_new_keypair s = (sk, P) ->
  P = sk · point_G /\ secret_key_of sk (point_to_xonly_bytes P).
Proof.
  intros Hs Hk. rewrite schnorr_new_keypair_eq in Hk by done.
  destruct (point_into_even_y (s · point_G)) as [Q b] eqn:E. simplify_eq.
  destruct (even_y_of_scale s P b Hs E) as (HP & He & Hnz). split; [done|].
  rewrite HP in He, Hnz. split_and!; [by apply scale_G_nonzero|done|by rewrite HP].
Qed.

(** A secret key is its own key pair. *)
Lemma new_keypair_idempotent sk xonly :
  secret_key_of sk xonly -> schnorr_new_keypair sk = (sk, sk · point_G).
Proof.
  intros (Hs & He & _). rewrite schnorr_new_keypair_eq by done.
  rewrite He. by rewrite scalar_cond_negate.
Qed.

Lemma draw_scalar_eq g : draw_scalar g = ((scalar_random g).2, Ok (scalar_random g).1).
Proof. unfold draw_scalar. by destruct (scalar_random g). Qed.

Lemma draws_total {X} (l : list X) : forall g,
  exists ss g', mapM (fun _ => draw_scalar) l g = (g', Ok ss) /\ length ss = length l /\
                Forall (fun s => s <> scalar_zero) ss.
Proof.
  induction l as [|x l IH]; intros g; [by exists [], g|].
  destruct (IH (scalar_random g).2) as (ss & g' & E & Hl & Hnz).
  exists ((scalar_random g).1 :: ss), g'. rewrite st_mapM_cons.
  rewrite (st_bind_Ok _ _ g _ _ (draw_scalar_eq g)), (st_bind_Ok _ _ _ _ _ E).
  split_and!; [done|simpl; by rewrite Hl|]. constructor; [apply scalar_random_nonzero|done].
Qed.

Lemma random_polynomial_total s t g :
  (1 <= t)%N ->
  exists f g', random_polynomial s t g = (g', Ok f) /\ length f = N.to_nat t /\
               poly_eval f scalar_zero = s.
Proof.
  intros Ht. destruct (draws_total (seq 1 (N.to_nat t - 1)) g) as (ss & g' & E & Hl & _).
  exists (s :: ss), g'. unfold random_polynomial. rewrite (st_bind_Ok _ _ _ _ _ E).
  rewrite length_seq in Hl. split_and!; [done|simpl; lia|]. by rewrite poly_eval_0.
Qed.

Lemma deal_shares f ps :
  (N.of_nat (length f) <= u16_max)%N -> mapM (deal_share f) ps = Ok (share_of f <$> ps).
Proof.
  intros Hf. apply mapM_pure. intros p _. unfold deal_share.
  by rewrite polynomial_derivative_value_spec.
Qed.

Lemma threshold_fits c : wf_hierarchical c -> (1 <= htc_threshold c <= u16_max)%N.
Proof. intros (Ht & Hl & _). lia. Qed.

Lemma keygen_valid c g :
  wf_hierarchical c ->
  exists g' ks, run_local_htss_keygen c g = (g', Ok ks) /\ valid_key_set c ks.
Proof.
  intros Hwf. pose proof (threshold_fits c Hwf) as Ht. unfold run_local_htss_keygen.
  rewrite (st_bind_Ok _ _ g _ _ (draw_scalar_eq g)).
  destruct (schnorr_new_keypair (scalar_random g).1) as [sk P] eqn:Hk.
  apply new_keypair_secret in Hk as [-> Hsk]; [|apply scalar_random_nonzero].
  destruct (random_polynomial_total sk (htc_threshold c) (scalar_random g).2)
    as (f & g' & Hf & Hl & Hf0); [lia|].
  rewrite (st_bind_Ok _ _ _ _ _ Hf), st_lift_bind, deal_shares by lia.
  eexists _, _. split; [done|]. exists f. rewrite Hf0. done.
Qed.

Lemma nonzero_secret_bytes sk :
  sk <> scalar_zero -> nonzero_secret (scalar_to_bytes sk) = Ok sk.
Proof.
  intros Hs. unfold nonzero_secret. rewrite scalar_from_to_bytes. simpl.
  unfold scalar_non_zero. by apply scalar_is_zero_false in Hs as ->.
Qed.

Lemma reconstruct_valid c ks signers :
  wf_hierarchical c -> valid_key_set c ks -> can_reconstruct c signers ->
  exists sk, reconstruct_htss_secret_scalar (hkset_shares ks) signers c =
               Ok (scalar_to_bytes sk) /\
             secret_key_of sk (gk_xonly_public_key (hkset_group_key ks)).
Proof.
  intros Hwf (f & Hl & Hsk & ->) Hcan. eexists. split; [by apply reconstruct_dealt|done].
Qed.

(** A successful reshare keeps the group key and deals its secret afresh,
    whatever the old shares were. *)
Lemma reshare_Ok old old_config set new_config g g' new :
  wf_hierarchical new_config ->
  reshare_htss old old_config set new_config g = (g', Ok new) ->
  hkset_group_key new = hkset_group_key old /\ valid_key_set new_config new.
Proof.
  intros Hwf Hr. pose proof (threshold_fits new_config Hwf) as Ht. unfold reshare_htss in Hr.
  apply st_bind_inv_Ok in Hr as (g1 & sb & _ & Hr).
  apply st_bind_inv_Ok in Hr as (g2 & s & Hs & Hr).
  destruct (schnorr_new_keypair s) as [sk P] eqn:Hk.
  unfold st_lift, nonzero_secret in Hs. injection Hs as _ Hs. apply ok_or_Ok in Hs.
  apply bind_Some in Hs as (s' & _ & Hs). unfold scalar_non_zero in Hs.
  destruct (scalar_is_zero s') eqn:Hz; [done|]. simplify_eq.
  apply scalar_is_zero_false in Hz. apply new_keypair_secret in Hk as [-> Hsk]; [|done].
  apply st_bind_inv_Ok in Hr as (g3 & u & Hc & Hr). injection Hc as _ Hc.
  apply reject_if_Ok, bool_decide_eq_false, dec_stable in Hc.
  destruct (random_polynomial_total sk (htc_threshold new_config) g3)
    as (f & g4 & Hf & Hl & Hf0); [lia|].
  rewrite (st_bind_Ok _ _ _ _ _ Hf), st_lift_bind, deal_shares in Hr by lia.
  injection Hr as <- <-. split; [done|]. exists f. rewrite Hf0. simpl.
  split_and!; [done| |done]. by rewrite <- Hc.
Qed.

Lemma reshare_valid old old_config set new_config g :
  wf_hierarchical old_config -> wf_hierarchical new_config ->
  valid_key_set old_config old -> can_reconstruct old_config set ->
  exists g' new, reshare_htss old old_config set new_config g = (g', Ok new).
Proof.
  intros Hwf Hwf' Hv Hcan. pose proof (threshold_fits new_config Hwf') as Ht.
  destruct (reconstruct_valid old_config old set Hwf Hv Hcan) as (sk & Hrec & Hsk).
  unfold reshare_htss. rewrite st_lift_bind, Hrec, st_lift_bind.
  rewrite nonzero_secret_bytes by apply Hsk. rewrite (new_keypair_idempotent _ _ Hsk).
  rewrite st_lift_bind, bool_decide_eq_false_2; [|destruct Hsk as (_ & _ & ->); naive_solver].
  cbn [reject_if].
  destruct (random_polynomial_total sk (htc_threshold new_config) g)
    as (f & g4 & Hf & Hl & Hf0); [lia|].
  rewrite (st_bind_Ok _ _ _ _ _ Hf), st_lift_bind, deal_shares by lia. by eexists _, _.
Qed.

(** The group key of a valid key set decodes to the public key of its secret. *)
Lemma group_key_decodes sk xonly :
  secret_key_of sk xonly -> point_from_xonly_bytes xonly = Some (sk · point_G).
Proof.
  intros (Hnz & He & ->). apply point_xonly_even; [by apply scale_G_nonzero|done].
Qed.

(** The signature is that of the reconstructed key. *)
Lemma local_sign_value c ks signers digest :
  wf_hierarchical c -> valid_key_set c ks -> can_reconstruct c signers ->
  exists sk, secret_key_of sk (gk_xonly_public_key (hkset_group_key ks)) /\
    sign_digest_with_local_htss_shares (hkset_group_key ks) digest (hkset_shares ks) signers c =
      Ok (mkAggregateSignature (signature_to_bytes
            (schnorr_sign (sk, point_scale sk point_G) (frost_message digest)))).
Proof.
  intros Hwf Hv Hcan.
  destruct (reconstruct_valid c ks signers Hwf Hv Hcan) as (sk & Hrec & Hsk). exists sk.
  split; [done|]. pose proof (new_keypair_idempotent _ _ Hsk) as Hkp. destruct Hsk as (Hnz & He & Hx).
  unfold sign_digest_with_local_htss_shares. rewrite Hrec, ok_bind.
  rewrite nonzero_secret_bytes, ok_bind by done. rewrite Hkp. cbv zeta.
  rewrite bool_decide_eq_false_2 by (simpl; naive_solver). cbn [reject_if].
  rewrite ok_bind. destruct (schnorr_sign _ _) as [R s].
  unfold AggregateSignature_new. rewrite bool_decide_eq_false_2; [done|].
  intros E. pose proof (signature_to_bytes_length R s) as Hlen. by rewrite E in Hlen.
Qed.
End dealing.

(** ** The claims *)

Section claims.
Context `{SecpLaws}.

(** C14: dealing and reconstruction are inverse.  For every policy the
    constructor accepts and every generator state, [run_local_htss_keygen]
    succeeds, and every signer set that passes the policy and has interpolation
    coefficients reconstructs one and the same secret: a non-zero scalar whose
    public key is the group key. *)
Theorem local_keygen_reconstructs t ps c g :
  HierarchicalThresholdConfig_new t ps = Ok c ->
  exists g' ks sk,
    run_local_htss_keygen c g = (g', Ok ks) /\
    secret_key_of sk (gk_xonly_public_key (hkset_group_key ks)) /\
    forall signers, can_reconstruct c signers ->
      reconstruct_htss_secret_scalar (hkset_shares ks) signers c = Ok (scalar_to_bytes sk).
Proof.
  intros Hwf%hierarchical_new_wf. destruct (keygen_valid c g Hwf) as (g' & ks & E & f & Hl & Hsk & Hs).
  exists g', ks, (poly_eval f scalar_zero). split_and!; [done|done|].
  intros signers Hcan. rewrite Hs. by apply reconstruct_dealt.
Qed.

(** Resharing never changes the group key.  Whenever [reshare_htss] returns a
    key set, whatever shares it was given, the key set carries the old group key
    and its shares are a fresh sharing, under the new policy, of the secret key
    of that group key. *)
Theorem reshare_preserves_group_key old old_config set t ps new_config g g' new :
  HierarchicalThresholdConfig_new t ps = Ok new_config ->
  reshare_htss old old_config set new_config g = (g', Ok new) ->
  hkset_group_key new = hkset_group_key old /\ valid_key_set new_config new.
Proof. intros Hwf%hierarchical_new_wf. by apply reshare_Ok. Qed.

(** Resharing succeeds.  A key set that is a sharing of its group key's
    secret can be reshared to any accepted policy with any signer set that can
    reconstruct. *)
Theorem reshare_succeeds old t ps old_config set t' ps' new_config g :
  HierarchicalThresholdConfig_new t ps = Ok old_config ->
  HierarchicalThresholdConfig_new t' ps' = Ok new_config ->
  valid_key_set old_config old -> can_reconstruct old_config set ->
  exists g' new, reshare_htss old old_config set new_config g = (g', Ok new).
Proof.
  intros Hwf%hierarchical_new_wf Hwf'%hierarchical_new_wf. by apply reshare_valid.
Qed.

(** C17: resharing works and never changes the group key.  Whenever [reshare_htss]
    returns a key set, whatever shares it was given, the key set carries the old
    group key and its shares are a fresh sharing, under the new policy, of the
    secret key of that group key; and it returns one for every key set that is a
    sharing of its group key's secret, every signer set that can reconstruct and
    every accepted new policy. *)
Theorem reshare_correct old t ps old_config set t' ps' new_config g :
  HierarchicalThresholdConfig_new t' ps' = Ok new_config ->
  (forall g' new, reshare_htss old old_config set new_config g = (g', Ok new) ->
     hkset_group_key new = hkset_group_key old /\ valid_key_set new_config new) /\
  (HierarchicalThresholdConfig_new t ps = Ok old_config ->
   valid_key_set old_config old -> can_reconstruct old_config set ->
   exists g' new, reshare_htss old old_config set new_config g = (g', Ok new)).
Proof.
  intros Hwf'%hierarchical_new_wf. split; [intros g' new; by apply reshare_Ok|].
  intros Hwf%hierarchical_new_wf. by apply reshare_valid.
Qed.

(** C37: the policy constructors return exactly the well-formed policies.
    [HierarchicalThresholdConfig::new] accepts a list of at most 65535 ranked
    participants with distinct identifiers and a threshold between one and their
    number; [GroupedThresholdConfig::new] accepts non-empty participants and
    requirements with distinct identifiers, one requirement per rank whose total
    is the number of participants of the rank, and no rank without requirement;
    and a grouped policy with valid identifiers and requirements converts to the
    well-formed hierarchical policy of the same participants whose threshold is
    the sum of the quorums. *)
Theorem policies_well_typed :
  (forall t ps c, HierarchicalThresholdConfig_new t ps = Ok c <->
     c = mkHierarchicalThresholdConfig t ps /\ wf_hierarchical c) /\
  (forall ps rs c, GroupedThresholdConfig_new ps rs = Ok c <->
     c = mkGroupedThresholdConfig ps rs /\ wf_grouped c) /\
  (forall c, wf_grouped c -> valid_ids (gtc_participants c) ->
     (forall r, r ∈ gtc_requirements c -> valid_requirement r) ->
     exists h, hierarchical_config_from_grouped_threshold c = Ok h /\ wf_hierarchical h /\
       htc_participants h = gtc_participants c /\
       htc_threshold h = sumN gtr_required (gtc_requirements c)).
Proof.
  split; [apply HierarchicalThresholdConfig_new_Ok|]. split; [apply GroupedThresholdConfig_new_Ok|].
  intros c Hwf Hids Hreq.
  destruct (wf_grouped_threshold_config c Hwf Hids Hreq) as (Hr & Hn & Ht).
  unfold GroupedThresholdConfig_threshold_config in Ht. rewrite Hr, ok_bind, Hn in Ht.
  apply ThresholdConfig_new_Ok in Ht as [Ht _].
  eexists. unfold hierarchical_config_from_grouped_threshold. rewrite Hr, ok_bind.
  assert (Hh : wf_hierarchical (mkHierarchicalThresholdConfig
    (sumN gtr_required (gtc_requirements c)) (gtc_participants c))).
  { split_and!; cbn; [lia|lia|by apply valid_ids_length; [apply Hwf|]|apply Hwf]. }
  split; [by apply HierarchicalThresholdConfig_new_Ok|]. by split_and!.
Qed.

(** Signing by local reconstruction yields a valid BIP340 signature.  From a
    sharing of the group key's secret, every signer set that can reconstruct
    signs, and the signature verifies under the group key. *)
Theorem local_sign_verifies t ps c ks signers digest :
  HierarchicalThresholdConfig_new t ps = Ok c ->
  valid_key_set c ks -> can_reconstruct c signers ->
  exists P sig,
    sign_digest_with_local_htss_shares (hkset_group_key ks) digest (hkset_shares ks) signers c =
      Ok (mkAggregateSignature (signature_to_bytes sig)) /\
    point_from_xonly_bytes (gk_xonly_public_key (hkset_group_key ks)) = Some P /\
    schnorr_verify P (frost_message digest) sig = true.
Proof.
  intros Hwf%hierarchical_new_wf Hv Hcan.
  destruct (local_sign_value c ks signers digest Hwf Hv Hcan) as (sk & Hsk & Hsign).
  pose proof (new_keypair_idempotent _ _ Hsk) as Hkp.
  exists (point_scale sk point_G), (schnorr_sign (sk, point_scale sk point_G) (frost_message digest)).
  split_and!; [done|by apply group_key_decodes|].
  pose proof (schnorr_sign_verifies sk (frost_message digest) (proj1 Hsk)) as Hs. by rewrite Hkp in Hs.
Qed.
End claims.

(** ** Concrete runs *)

Definition demo_participants : list RankedParticipant :=
  [mkRankedParticipant (mkParticipantId 1) (mkRank 0) None;
   mkRankedParticipant (mkParticipantId 2) (mkRank 1) None;
   mkRankedParticipant (mkParticipantId 3) (mkRank 1) None].

Definition demo_config : HierarchicalThresholdConfig :=
  mkHierarchicalThresholdConfig 2 demo_participants.

Definition demo_signers : list ParticipantId := [mkParticipantId 1; mkParticipantId 3].

Lemma demo_config_new : HierarchicalThresholdConfig_new 2 demo_participants = Ok demo_config.
Proof. vm_compute. reflexivity. Qed.

Section witnesses.
Local Existing Instances small_group small_group_laws.

Definition demo_rng : rng := 7%Z.

Lemma demo_can_reconstruct : can_reconstruct demo_config demo_signers.
Proof. vm_compute. reflexivity. Qed.

Lemma local_keygen_reconstructs_witness :
  exists g' ks sk,
    run_local_htss_keygen demo_config demo_rng = (g', Ok ks) /\
    reconstruct_htss_secret_scalar (hkset_shares ks) demo_signers demo_config =
      Ok (scalar_to_bytes sk).
Proof.
  destruct (local_keygen_reconstructs 2 demo_participants demo_config demo_rng demo_config_new)
    as (g' & ks & sk & E & _ & Hr).
  exists g', ks, sk. split; [exact E|]. apply Hr, demo_can_reconstruct.
Defined.

Lemma reshare_succeeds_witness :
  exists old g' new,
    run_local_htss_keygen demo_config demo_rng = old /\
    match old with
    | (g, Ok ks) => reshare_htss ks demo_config demo_signers demo_config g = (g', Ok new)
    | _ => False
    end.
Proof.
  destruct (keygen_valid demo_config demo_rng (hierarchical_new_wf _ _ _ demo_config_new))
    as (g & ks & E & Hv).
  destruct (reshare_succeeds ks 2 demo_participants demo_config demo_signers
              2 demo_participants demo_config g demo_config_new demo_config_new Hv
              demo_can_reconstruct) as (g' & new & Hn).
  exists (g, Ok ks), g', new. split; [exact E|exact Hn].
Defined.

Lemma reshare_preserves_group_key_witness :
  exists old new, hkset_group_key new = hkset_group_key old /\ valid_key_set demo_config new.
Proof.
  destruct (keygen_valid demo_config demo_rng (hierarchical_new_wf _ _ _ demo_config_new))
    as (g & ks & _ & Hv).
  destruct (reshare_valid ks demo_config demo_signers demo_config g
              (hierarchical_new_wf _ _ _ demo_config_new)
              (hierarchical_new_wf _ _ _ demo_config_new) Hv demo_can_reconstruct)
    as (g' & new & Hn).
  exists ks, new.
  apply (reshare_preserves_group_key ks demo_config demo_signers 2 demo_participants
           demo_config g g' new demo_config_new Hn).
Defined.

Lemma reshare_correct_witness :
  exists old g' new,
    reshare_htss old demo_config demo_signers demo_config demo_rng = (g', Ok new) /\
    hkset_group_key new = hkset_group_key old.
Proof.
  destruct (keygen_valid demo_config demo_rng (hierarchical_new_wf _ _ _ demo_config_new))
    as (g & ks & _ & Hv).
  destruct (reshare_correct ks 2 demo_participants demo_config demo_signers 2 demo_participants
              demo_config demo_rng demo_config_new) as [Hkeep Hgo].
  destruct (Hgo demo_config_new Hv demo_can_reconstruct) as (g' & new & Hn).
  exists ks, g', new. split; [exact Hn|exact (proj1 (Hkeep g' new Hn))].
Defined.

Lemma policies_well_typed_witness :
  exists h, hierarchical_config_from_grouped_threshold
              (mkGroupedThresholdConfig demo_participants
                 [mkGroupThresholdRequirement (mkRank 0) 1 1;
                  mkGroupThresholdRequirement (mkRank 1) 1 2]) = Ok h /\ htc_threshold h = 2%N.
Proof.
  destruct (proj2 (proj2 policies_well_typed)
    (mkGroupedThresholdConfig demo_participants
       [mkGroupThresholdRequirement (mkRank 0) 1 1; mkGroupThresholdRequirement (mkRank 1) 1 2]))
    as (h & Hh & _ & _ & Ht).
  - apply (GroupedThresholdConfig_new_Ok demo_participants
      [mkGroupThresholdRequirement (mkRank 0) 1 1; mkGroupThresholdRequirement (mkRank 1) 1 2]).
    vm_compute. reflexivity.
  - intros p Hp. repeat (apply elem_of_cons in Hp as [->|Hp]; [vm_compute; split; discriminate|]).
    by apply not_elem_of_nil in Hp.
  - intros r Hr. repeat (apply elem_of_cons in Hr as [->|Hr]; [vm_compute; split; discriminate|]).
    by apply not_elem_of_nil in Hr.
  - exists h. split; [exact Hh|exact Ht].
Defined.

Lemma local_sign_verifies_witness :
  exists ks P sig,
    sign_digest_with_local_htss_shares (hkset_group_key ks) (replicate 32 Byte.x05)
      (hkset_shares ks) demo_signers demo_config =
      Ok (mkAggregateSignature (signature_to_bytes sig)) /\
    schnorr_verify P (replicate 32 Byte.x05) sig = true.
Proof.
  destruct (keygen_valid demo_config demo_rng (hierarchical_new_wf _ _ _ demo_config_new))
    as (g & ks & _ & Hv).
  destruct (local_sign_verifies 2 demo_participants demo_config ks demo_signers
              (replicate 32 Byte.x05) demo_config_new Hv demo_can_reconstruct)
    as (P & sig & Hs & _ & Hver).
  exists ks, P, sig. split; [exact Hs|exact Hver].
Defined.
End witnesses.
