(* ===== verification/Certificates.v ===== *)
(** Interpolation systems by integer certificates.

    Whether a signer set can reconstruct depends on the group only through its
    order: the interpolation matrix of [crates/dkgkit-frost/src/lib.rs] has small
    integer entries.  Rows of integers that combine them to a multiple of a unit
    vector show, by a computation over the integers, that the set reconstructs
    over every lawful group.  The same rows are the weights with which a set of
    shares gives the secret away ([Secrecy]). *)

From Stdlib Require Import Ascii String Field InitialRing.
From stdpp Require Import base numbers countable gmap strings list.
From S2P Require Import Prelude Core Secp SmallGroup LinearSystem Packages SignerPolicy Birkhoff HtssKeygen.

(** ** Rows and the vectors they kill *)

Section dichotomy.
Context `{SecpLaws}.
Local Open Scope secp_scope.
Add Field scalar_field_dichotomy : scalar_ft.

Implicit Types (r e u v : nat -> scalar) (rows : list (nat -> scalar)) (cs : list scalar).

Definition dot (n : nat) u v : scalar := ssum n (fun j => u j * v j).

(** The combination of the rows with the weights [cs]. *)
Definition combination cs rows (j : nat) : scalar :=
  lsum (zip_with (fun c r => c * r j) cs rows).

Definition spanned (n : nat) rows e : Prop :=
  exists cs, length cs = length rows /\ forall j, (j < n)%nat -> e j = combination cs rows j.

Definition killed (n : nat) rows v : Prop := Forall (fun r => dot n r v = scalar_zero) rows.

Lemma dot_comb n a b r1 r2 v :
  dot n (fun j => a * r1 j + b * r2 j) v = a * dot n r1 v + b * dot n r2 v.
Proof.
  unfold dot. rewrite <- !ssum_scale, <- ssum_add. apply ssum_ext. intros j _. ring.
Qed.

Lemma dot_comm n u v : dot n u v = dot n v u.
Proof. apply ssum_ext. intros j _. ring. Qed.

Lemma dot_ext n u u' v : (forall j, (j < n)%nat -> u j = u' j) -> dot n u v = dot n u' v.
Proof. intros E. apply ssum_ext. intros j Hj. by rewrite E. Qed.

Lemma dot_combination n cs rows v :
  length cs = length rows ->
  dot n (combination cs rows) v = lsum (zip_with scalar_mul cs ((fun r => dot n r v) <$> rows)).
Proof.
  revert cs; induction rows as [|r rows IH]; intros [|c cs] Hl; try done.
  - unfold dot, combination. simpl. rewrite (ssum_ext n _ (fun _ => scalar_zero)).
    + by rewrite ssum_zero.
    + intros j _. ring.
  - injection Hl as Hl. rewrite fmap_cons. cbn [zip_with lsum foldr].
    fold (lsum (zip_with scalar_mul cs ((fun r => dot n r v) <$> rows))).
    rewrite <- (IH cs Hl), (dot_ext n _ (fun j => c * r j + scalar_one * combination cs rows j)).
    + rewrite dot_comb. ring.
    + intros j _. unfold combination. cbn [zip_with lsum foldr].
      fold (lsum (zip_with (fun c r => c * r j) cs rows)). ring.
Qed.

(** Vectors killed by the rows are closed under combination. *)
Lemma killed_comb n rows a b u v :
  killed n rows u -> killed n rows v -> killed n rows (fun j => a * u j + b * v j).
Proof.
  unfold killed. rewrite !Forall_forall. intros Hu Hv r Hr.
  rewrite dot_comm, dot_comb, !(dot_comm n _ r), Hu, Hv by done. ring.
Qed.

Lemma spanned_cons n r rows e c e' :
  spanned n rows e' -> (forall j, (j < n)%nat -> e j = c * r j + e' j) ->
  spanned n (r :: rows) e.
Proof.
  intros (cs & Hl & Hcs) He. exists (c :: cs). split; [simpl; by rewrite Hl|].
  intros j Hj. rewrite He, Hcs by done. done.
Qed.

(** A vector that vanishes nowhere below [n] but at one place. *)
Lemma zero_or_entry n e :
  (forall j, (j < n)%nat -> e j = scalar_zero) \/
  exists j, (j < n)%nat /\ e j <> scalar_zero.
Proof.
  induction n as [|n [IH|(j & Hj & Hnz)]]; [left; lia| |right; exists j; split; [lia|done]].
  destruct (scalar_zero_dec (e n)) as [Hz|Hz]; [left|right; by exists n; split; [lia|]].
  intros j Hj. destruct (decide (j = n)) as [->|]; [done|apply IH; lia].
Qed.

(** Either the target is a combination of the rows, or some vector is killed by
    all of them and not by the target. *)
Lemma spanned_or_killed n rows : forall e,
  spanned n rows e \/ exists v, killed n rows v /\ dot n e v = scalar_one.
Proof.
  induction rows as [|r rows IH]; intros e.
  - destruct (zero_or_entry n e) as [Hz|(k & Hk & Hnz)].
    + left. exists []. split; [done|]. intros j Hj. by rewrite Hz.
    + right. exists (fun j => if decide (j = k) then scalar_invert (e k) else scalar_zero).
      split; [constructor|]. unfold dot. rewrite (ssum_single n k) by
        (done || (intros j _ Hj; rewrite decide_False by done; ring)).
      rewrite decide_True by done. field. done.
  - destruct (IH e) as [Hs|(v & Hv & Hev)].
    { left. apply (spanned_cons n r rows e scalar_zero e Hs). intros j _. ring. }
    destruct (scalar_zero_dec (dot n r v)) as [Hz|Ha].
    { right. exists v. split; [by constructor|done]. }
    set (a := scalar_invert (dot n r v)).
    destruct (IH (fun j => scalar_one * e j + (- a) * r j)) as [Hs|(w & Hw & Hew)].
    { left. apply (spanned_cons n r rows e a _ Hs). intros j _. ring. }
    right. exists (fun j => scalar_one * w j + (- (dot n r w * a)) * v j).
    rewrite dot_comb in Hew. split.
    + constructor; [|by apply killed_comb].
      rewrite dot_comm, dot_comb, !(dot_comm n _ r). unfold a. field. done.
    + rewrite dot_comm, dot_comb, !(dot_comm n _ e), Hev.
      transitivity (scalar_one * dot n e w + (- a) * dot n r w); [ring|exact Hew].
Qed.

(** Not both: a combination of the rows is killed with them. *)
Lemma spanned_killed n rows e v :
  spanned n rows e -> killed n rows v -> dot n e v = scalar_zero.
Proof.
  intros (cs & Hl & Hcs) Hv. rewrite (dot_ext n e (combination cs rows)) by done.
  rewrite dot_combination by done. clear Hcs. revert cs Hl.
  induction Hv as [|r rows Hr _ IH]; intros [|c cs] Hl; try done.
  injection Hl as Hl. rewrite fmap_cons, Hr. cbn [zip_with lsum foldr].
  fold (lsum (zip_with scalar_mul cs ((fun r => dot n r v) <$> rows))).
  rewrite IH by done. ring.
Qed.
End dichotomy.

(** ** Integer weights

    The basis values of small points are integers; [scalar_of_Z] embeds them in
    the scalars. *)

Section integers.
Context `{SecpLaws}.
Local Open Scope secp_scope.
Add Field scalar_field_integers : scalar_ft.

Implicit Types (pts : list BirkhoffPoint) (ws : list Z).

Definition scalar_of_Z (z : Z) : scalar :=
  gen_phiZ scalar_zero scalar_one scalar_add scalar_mul scalar_opp z.

Lemma scalar_of_Z_0 : scalar_of_Z 0 = scalar_zero.
Proof. done. Qed.

Lemma scalar_of_Z_morph :
  (forall a b, scalar_of_Z (a + b) = scalar_of_Z a + scalar_of_Z b) /\
  (forall a b, scalar_of_Z (a * b) = scalar_of_Z a * scalar_of_Z b).
Proof.
  pose proof (gen_phiZ_morph (Eqsth scalar) (Eq_ext scalar_add scalar_mul scalar_opp)
                (F_R scalar_ft)) as [].
  split; assumption.
Qed.

Lemma scalar_of_Z_add a b : scalar_of_Z (a + b) = scalar_of_Z a + scalar_of_Z b.
Proof. apply scalar_of_Z_morph. Qed.

Lemma scalar_of_Z_mul a b : scalar_of_Z (a * b) = scalar_of_Z a * scalar_of_Z b.
Proof. apply scalar_of_Z_morph. Qed.

Lemma scalar_from_u32_Z n : (n <= u32_max)%N -> scalar_from_u32 n = scalar_of_Z (Z.of_N n).
Proof.
  induction n as [|n IH] using N.peano_ind; intros Hn; [apply scalar_from_u32_zero|].
  rewrite N2Z.inj_succ, <- Z.add_1_r, scalar_of_Z_add, <- IH, <- N.add_1_r by lia.
  apply scalar_from_succ. lia.
Qed.

Definition basis_Z (d r : nat) (x : Z) : Z :=
  if (d <? r)%nat then 0
  else foldl (fun c i => c * Z.of_nat i)%Z 1%Z (seq (S (d - r)) r) * x ^ Z.of_nat (d - r).

Lemma falling_Z r : forall lo b c,
  (N.of_nat (lo + r) <= u32_max)%N -> b = scalar_of_Z c ->
  foldl (fun c i => c * scalar_from_u32 (N.of_nat i)) b (seq lo r) =
  scalar_of_Z (foldl (fun c i => c * Z.of_nat i)%Z c (seq lo r)).
Proof.
  induction r as [|r IH]; intros lo b c Hlo ->; [done|]. cbn [seq foldl]. apply IH; [lia|].
  by rewrite scalar_of_Z_mul, scalar_from_u32_Z, nat_N_Z by lia.
Qed.

Lemma scalar_pow_Z x z n : x = scalar_of_Z z -> scalar_pow x (N.of_nat n) = scalar_of_Z (z ^ Z.of_nat n).
Proof.
  intros ->. induction n as [|n IH]; [done|].
  rewrite scalar_pow_nat, IH, Nat2Z.inj_succ, Z.pow_succ_r, scalar_of_Z_mul by lia. ring.
Qed.

Lemma basis_value_Z d r x :
  (N.of_nat d < u32_max)%N -> (x <= u32_max)%N ->
  basis_value d r (scalar_from_u32 x) = scalar_of_Z (basis_Z d r (Z.of_N x)).
Proof.
  intros Hd Hx. unfold basis_value, basis_Z. destruct (Nat.ltb_spec d r); [done|].
  rewrite scalar_of_Z_mul. f_equal.
  - apply falling_Z; [lia|done].
  - apply scalar_pow_Z. by apply scalar_from_u32_Z.
Qed.

(** The weighted sum of the points' contributions to the coefficient [d]. *)
Definition weigh_Z ws pts (d : nat) : Z :=
  foldr Z.add 0%Z
    (zip_with (fun w p => w * basis_Z d (N.to_nat (bp_derivative_order p)) (Z.of_N (bp_x p)))%Z
       ws pts).

(** The weights give [D] at the coefficient [k] and nothing at the others. *)
Definition weights_check (n k : nat) (D : N) ws pts : bool :=
  (length ws =? length pts) && forallb (fun p => bp_x p <=? u16_max)%N pts &&
  (1 <=? D)%N && (D <=? u32_max)%N &&
  forallb (fun d => weigh_Z ws pts d =? if (d =? k)%nat then Z.of_N D else 0)%Z (seq 0 n).

Definition weights_of (D : N) ws : list scalar :=
  (fun w => scalar_of_Z w * scalar_invert (scalar_from_u32 D)) <$> ws.

Definition unit_row (k d : nat) : scalar := if decide (d = k) then scalar_one else scalar_zero.

Lemma dot_unit_row n k (v : nat -> scalar) : (k < n)%nat -> dot n (unit_row k) v = v k.
Proof.
  intros Hk. unfold dot, unit_row. rewrite (ssum_single n k) by
    (done || (intros j _ Hj; rewrite decide_False by done; ring)).
  rewrite decide_True by done. ring.
Qed.

Lemma combination_Z D ws pts d :
  (N.of_nat d < u32_max)%N -> Forall (fun p => (bp_x p <= u16_max)%N) pts ->
  combination (weights_of D ws) (point_basis <$> pts) d =
  scalar_of_Z (weigh_Z ws pts d) * scalar_invert (scalar_from_u32 D).
Proof.
  intros Hd Hps. revert ws. induction Hps as [|p pts Hp _ IH]; intros [|w ws];
    try (transitivity (scalar_zero * scalar_invert (scalar_from_u32 D)); [|done];
         unfold combination; simpl; ring).
  unfold combination, weigh_Z, weights_of. cbn [fmap list_fmap zip_with foldr lsum].
  rewrite scalar_of_Z_add, scalar_of_Z_mul. specialize (IH ws).
  unfold combination, weigh_Z, weights_of, lsum in IH. unfold lsum. rewrite IH.
  unfold point_basis. rewrite basis_value_Z by (unfold u16_max, u32_max in *; lia). ring.
Qed.

Lemma weights_span n k D ws pts :
  (N.of_nat n <= u16_max)%N -> weights_check n k D ws pts = true ->
  length (weights_of D ws) = length (point_basis <$> pts) /\
  forall j, (j < n)%nat -> unit_row k j = combination (weights_of D ws) (point_basis <$> pts) j.
Proof.
  intros Hm Hc. unfold weights_check in Hc. rewrite !andb_true_iff in Hc.
  destruct Hc as ((((Hl%Nat.eqb_eq & Hps) & HD1%N.leb_le) & HD2%N.leb_le) & Hd).
  assert (Hnz : scalar_from_u32 D <> scalar_zero) by (apply scalar_from_u32_nonzero; lia).
  assert (Hids : Forall (fun p => (bp_x p <= u16_max)%N) pts).
  { apply Forall_forall. intros p Hp. rewrite forallb_forall in Hps.
    by apply N.leb_le, Hps, list_elem_of_In. }
  split; [unfold weights_of; by rewrite !length_fmap|]. intros j Hj.
  rewrite combination_Z by (unfold u16_max, u32_max in *; done || lia).
  rewrite forallb_forall in Hd. specialize (Hd j ltac:(apply in_seq; lia)).
  apply Z.eqb_eq in Hd. rewrite Hd. unfold unit_row.
  destruct (Nat.eqb_spec j k); case_decide; try done.
  - rewrite <- scalar_from_u32_Z by lia. field. done.
  - rewrite scalar_of_Z_0. ring.
Qed.

(** ** Regular systems *)

(** A row of weights for every coefficient. *)
Definition certificate_check pts (rows : list (N * list Z)) : bool :=
  (length rows =? length pts) && (N.of_nat (length pts) <=? u16_max)%N &&
  forallb (fun '(k, (D, ws)) => weights_check (length pts) k D ws pts) (imap pair rows).

Lemma certificate_regular pts rows :
  certificate_check pts rows = true -> regular (length pts) (interpolation pts).
Proof.
  unfold certificate_check. rewrite !andb_true_iff, forallb_forall.
  intros [[Hl%Nat.eqb_eq Hm%N.leb_le] Hrows] x Hk k Hkn.
  destruct (lookup_lt_is_Some_2 rows k ltac:(lia)) as [[D ws] Hr].
  assert (Hc : weights_check (length pts) k D ws pts = true).
  { apply (Hrows (k, (D, ws))), list_elem_of_In, list_elem_of_lookup. exists k.
    by rewrite list_lookup_imap, Hr. }
  destruct (weights_span _ _ _ _ _ Hm Hc) as [Hlen Hspan].
  rewrite <- (dot_unit_row (length pts) k x Hkn).
  apply (spanned_killed _ (point_basis <$> pts)); [by exists (weights_of D ws)|].
  apply Forall_fmap, Forall_forall. intros p Hp.
  apply list_elem_of_lookup in Hp as [i Hi]. cbn.
  rewrite <- (Hk i ltac:(by apply lookup_lt_Some in Hi)). apply ssum_ext. intros d _.
  unfold interpolation. by rewrite Hi.
Qed.

Lemma certificate_solvable pts rows :
  pts <> [] -> certificate_check pts rows = true ->
  is_ok (birkhoff_interpolation_coefficients pts) = true.
Proof.
  intros Hne Hc. assert (Hm : fits_u16 pts).
  { unfold certificate_check in Hc. rewrite !andb_true_iff in Hc.
    by destruct Hc as [[_ Hm%N.leb_le] _]. }
  destruct (birkhoff_coefficients_regular pts Hne Hm (certificate_regular pts rows Hc))
    as (cs & -> & _). done.
Qed.

(** A signer set whose points are certified can reconstruct. *)
Lemma certified_can_reconstruct c signers pts rows :
  birkhoff_points_from_hierarchical_signer_set signers c = Ok pts -> pts <> [] ->
  certificate_check pts rows = true -> can_reconstruct c signers.
Proof.
  intros Hp Hne Hc. unfold can_reconstruct. rewrite Hp, ok_bind.
  by apply (certificate_solvable pts rows).
Qed.
End integers.
