(* ===== verification/Secrecy.v ===== *)
(** What the shares dealt by [run_local_htss_keygen] and [reshare_htss] of
    [crates/dkgkit-frost/src/lib.rs] tell about the secret.

    A participant's share is a linear function of the dealer's polynomial, so a
    set of participants either determines the constant term, by fixed weights,
    or does not: some translation of the polynomials keeps all its shares and
    moves the secret by any amount.  The first theorem is this dichotomy for the
    share dealing of the code, over all polynomials with [threshold]
    coefficients; the others say which sets are on which side, and where this
    differs from the policies.

    [random_polynomial] draws non-zero coefficients only, so a set of the second
    kind does learn something: a translated polynomial with a zero coefficient
    was not drawn, and the secrets that need one are ruled out.
    [shares_leave_open] is what remains against this dealer: whatever it drew,
    all secrets but at most [threshold] are still possible, each with a
    polynomial it can draw that deals the same shares. *)

From Stdlib Require Import Ascii String Field.
From stdpp Require Import base numbers countable gmap strings list.
From S2P Require Import Prelude Core Secp SmallGroup LinearSystem Packages SignerPolicy Birkhoff HtssKeygen Certificates.

(** ** Shares as rows *)

Section shares.
Context `{SecpLaws}.
Local Open Scope secp_scope.
Add Field scalar_field_shares : scalar_ft.

Implicit Types (f v cs : list scalar) (ps : list RankedParticipant) (t : nat).

(** The interpolation point of a participant and its row. *)
Definition participant_point (p : RankedParticipant) : BirkhoffPoint :=
  mkBirkhoffPoint (rp_id p) (pid_0 (rp_id p)) (rank_0 (rp_rank p)).

Definition share_row (p : RankedParticipant) : nat -> scalar := point_basis (participant_point p).

Definition constant_row : nat -> scalar := unit_row 0.

Definition share_value f (p : RankedParticipant) : scalar :=
  derivative_at f (N.to_nat (rank_0 (rp_rank p))) (scalar_from_u32 (pid_0 (rp_id p))).

(** The polynomial moved by [c] times [v]. *)
Definition shift_polynomial f (c : scalar) v : list scalar :=
  zip_with (fun a b => a + c * b) f v.

(** The scalars that a list of shares carries, weighed with [cs]. *)
Definition recover cs (shares : list HtssLocalKeyShare) : option scalar :=
  values ← mapM (fun share => scalar_from_bytes (hks_share_value_bytes share)) shares;
  Some (lsum (zip_with scalar_mul cs values)).

(** Fixed weights recover the constant term of every polynomial with [t]
    coefficients from the shares that [deal_share] gives the participants. *)
Definition shares_determine t ps : Prop :=
  exists cs, length cs = length ps /\ forall f, length f = t ->
    exists shares, mapM (deal_share f) ps = Ok shares /\
                   recover cs shares = Some (poly_eval f scalar_zero).

(** The polynomials can be moved without changing a share of the participants,
    so that the constant term takes every value. *)
Definition shares_hide t ps : Prop :=
  exists v, length v = t /\ forall f c, length f = t ->
    mapM (deal_share (shift_polynomial f c v)) ps = mapM (deal_share f) ps /\
    poly_eval (shift_polynomial f c v) scalar_zero = poly_eval f scalar_zero + c.

Lemma share_value_dot t f p :
  length f = t -> share_value f p = dot t (share_row p) (poly_coeff f).
Proof.
  intros Hf. unfold share_value. rewrite (derivative_at_sum _ f _ t) by lia.
  apply ssum_ext. intros d _. unfold share_row, point_basis; cbn. ring.
Qed.

Lemma constant_dot t f : (1 <= t)%nat -> dot t constant_row (poly_coeff f) = poly_eval f scalar_zero.
Proof. intros Ht. by rewrite poly_eval_0, <- (dot_unit_row t 0 (poly_coeff f)). Qed.

Lemma length_shift_polynomial t f c v :
  length f = t -> length v = t -> length (shift_polynomial f c v) = t.
Proof. intros Hf Hv. unfold shift_polynomial. rewrite length_zip_with. lia. Qed.

Lemma poly_coeff_shift f c v d :
  length v = length f ->
  poly_coeff (shift_polynomial f c v) d = scalar_one * poly_coeff f d + c * poly_coeff v d.
Proof.
  intros Hv. unfold poly_coeff, shift_polynomial. rewrite !nth_lookup, lookup_zip_with.
  destruct (f !! d) as [a|] eqn:Ea; simpl.
  - destruct (lookup_lt_is_Some_2 v d) as [b ->]; [|simpl; ring].
    rewrite Hv. by apply lookup_lt_Some in Ea.
  - apply lookup_ge_None in Ea. rewrite (lookup_ge_None_2 v d) by lia. simpl. ring.
Qed.

Lemma share_value_shift t f c v p :
  length f = t -> length v = t ->
  share_value (shift_polynomial f c v) p = share_value f p + c * share_value v p.
Proof.
  intros Hf Hv. rewrite !(share_value_dot t) by auto using length_shift_polynomial.
  rewrite dot_comm, (dot_ext t _ (fun d => scalar_one * poly_coeff f d + c * poly_coeff v d)).
  - rewrite dot_comb, !(dot_comm t _ (share_row p)). ring.
  - intros d _. apply poly_coeff_shift. lia.
Qed.

Lemma poly_eval_shift t f c v :
  length f = t -> length v = t ->
  poly_eval (shift_polynomial f c v) scalar_zero =
  poly_eval f scalar_zero + c * poly_eval v scalar_zero.
Proof. intros Hf Hv. rewrite !poly_eval_0, poly_coeff_shift by lia. ring. Qed.

Lemma recover_dealt cs f ps :
  recover cs (share_of f <$> ps) = Some (lsum (zip_with scalar_mul cs (share_value f <$> ps))).
Proof.
  unfold recover. assert (E : mapM (fun share => scalar_from_bytes (hks_share_value_bytes share))
                                (share_of f <$> ps) = Some (share_value f <$> ps)).
  { apply mapM_Some. induction ps as [|p ps IH]; constructor; [|done].
    apply scalar_from_to_bytes. }
  by rewrite E.
Qed.

(** A polynomial with constant term one at which all shares vanish hides the
    secret from these participants. *)
Lemma hide_intro t ps v :
  (N.of_nat t <= u16_max)%N -> length v = t -> poly_eval v scalar_zero = scalar_one ->
  Forall (fun p => share_value v p = scalar_zero) ps -> shares_hide t ps.
Proof.
  intros Ht Hv H1 Hz. exists v. split; [done|]. intros f c Hf. split.
  - rewrite !deal_shares by (rewrite ?(length_shift_polynomial t); auto; lia).
    f_equal. apply list_fmap_ext. intros i p Hp. unfold share_of. do 2 f_equal.
    change (share_value (shift_polynomial f c v) p = share_value f p).
    rewrite (share_value_shift t), (proj1 (Forall_forall _ _) Hz p) by
      (auto; by eapply list_elem_of_lookup_2). ring.
  - rewrite (poly_eval_shift t), H1 by done. ring.
Qed.

(** Weights of the rows recover the secret. *)
Lemma span_recovers t cs ps f :
  (1 <= t)%nat -> length cs = length (share_row <$> ps) ->
  (forall j, (j < t)%nat -> constant_row j = combination cs (share_row <$> ps) j) -> length f = t ->
  recover cs (share_of f <$> ps) = Some (poly_eval f scalar_zero).
Proof.
  intros Ht Hl Hcs Hf. rewrite recover_dealt. f_equal.
  rewrite <- (constant_dot t f Ht), (dot_ext t _ _ _ Hcs), dot_combination by done.
  do 2 f_equal. rewrite <- list_fmap_compose. apply list_fmap_ext.
  intros i p _. by apply share_value_dot.
Qed.

Lemma weights_determine t D ws ps f :
  (1 <= t)%nat -> (N.of_nat t <= u16_max)%N ->
  weights_check t 0 D ws (participant_point <$> ps) = true -> length f = t ->
  recover (weights_of D ws) (share_of f <$> ps) = Some (poly_eval f scalar_zero).
Proof.
  intros Ht Hm Hc Hf. destruct (weights_span _ _ _ _ _ Hm Hc) as [Hl Hs].
  rewrite <- list_fmap_compose in Hl, Hs. by apply (span_recovers t).
Qed.

Lemma nth_map_row (u : nat -> scalar) t d :
  (d < t)%nat -> poly_coeff (map u (seq 0 t)) d = u d.
Proof. apply nth_map_seq. Qed.

Lemma dichotomy t ps :
  (1 <= t)%nat -> (N.of_nat t <= u16_max)%N -> shares_determine t ps \/ shares_hide t ps.
Proof.
  intros Ht Hm. destruct (spanned_or_killed t (share_row <$> ps) constant_row)
    as [(cs & Hl & Hcs)|(u & Hk & Hu)]; [left|right].
  - rewrite length_fmap in Hl. exists cs. split; [done|]. intros f Hf.
    exists (share_of f <$> ps). split; [apply deal_shares; lia|].
    apply (span_recovers t); [done|by rewrite length_fmap|done|done].
  - assert (Hv : length (map u (seq 0 t)) = t) by (by rewrite length_map, length_seq).
    apply (hide_intro t ps (map u (seq 0 t))); [done|done| |].
    + rewrite <- (constant_dot t) by done. rewrite <- Hu, !(dot_comm t constant_row).
      apply dot_ext. intros j Hj. by apply nth_map_row.
    + apply Forall_fmap in Hk. eapply Forall_impl; [exact Hk|]. intros p Hp. cbn in Hp.
      rewrite (share_value_dot t), <- Hp, !(dot_comm t (share_row p)) by done.
      apply dot_ext. intros j Hj. by apply nth_map_row.
Qed.

Lemma not_determine_and_hide t ps :
  (N.of_nat t <= u16_max)%N -> shares_determine t ps -> ~ shares_hide t ps.
Proof.
  intros Hm (cs & _ & Hd) (v & Hv & Hh).
  set (f := replicate t scalar_zero). assert (Hf : length f = t) by apply length_replicate.
  destruct (Hh f scalar_one Hf) as [Hs He].
  destruct (Hd f Hf) as (sh & E & Hr).
  destruct (Hd (shift_polynomial f scalar_one v)) as (sh' & E' & Hr');
    [by apply length_shift_polynomial|].
  assert (Heq : poly_eval f scalar_zero + scalar_one = poly_eval f scalar_zero) by congruence.
  apply scalar_one_neq_zero, scalar_sub_zero_iff.
  transitivity (poly_eval f scalar_zero + scalar_one - poly_eval f scalar_zero - scalar_zero);
    [ring|]. rewrite Heq. ring.
Qed.
End shares.

(** ** Which sets determine the secret *)

Section sets.
Context `{SecpLaws}.
Local Open Scope secp_scope.
Add Field scalar_field_sets : scalar_ft.

Implicit Types (c : HierarchicalThresholdConfig) (ps : list RankedParticipant)
  (f cs xs : list scalar) (t k : nat).

Lemma member_value c f p :
  wf_hierarchical c -> p ∈ htc_participants c -> signer_value c f (rp_id p) = share_value f p.
Proof.
  intros (_ & _ & HN) Hp. unfold signer_value, share_value, rank_value.
  by rewrite (find_rank_elem _ p HN Hp).
Qed.

(** A signer set that reconstructs determines the secret, with the weights that
    [birkhoff_interpolation_coefficients] computes. *)
Lemma can_reconstruct_determines c ps :
  wf_hierarchical c -> (forall p, p ∈ ps -> p ∈ htc_participants c) ->
  can_reconstruct c (rp_id <$> ps) -> shares_determine (N.to_nat (htc_threshold c)) ps.
Proof.
  intros Hwf Hin Hcan. pose proof (threshold_fits c Hwf) as Ht.
  destruct (signer_coefficients c _ Hwf Hcan) as (cs & _ & Hl & ((Hlen & _) & _) & _ & Hr).
  rewrite length_fmap in *. exists cs. split; [done|]. intros f Hf.
  exists (share_of f <$> ps). split; [apply deal_shares; lia|].
  rewrite recover_dealt, <- (Hr f) by lia. do 3 f_equal.
  rewrite <- list_fmap_compose. apply list_fmap_ext. intros i p Hp. simpl.
  symmetry. apply member_value; [done|]. by eapply Hin, list_elem_of_lookup_2.
Qed.

(** The coefficients of [(1 - T / x) * f]. *)
Definition times_root (x : scalar) f : list scalar :=
  zip_with scalar_add (f ++ [scalar_zero])
    (scalar_zero :: ((fun a => - (scalar_invert x * a)) <$> f)).

(** One at zero, zero at each of [xs]. *)
Definition root_polynomial xs : list scalar := foldr times_root [scalar_one] xs.

Lemma length_times_root x f : length (times_root x f) = S (length f).
Proof. unfold times_root. rewrite length_zip_with, length_app. simpl. rewrite length_fmap. lia. Qed.

Lemma length_root_polynomial xs : length (root_polynomial xs) = S (length xs).
Proof. induction xs as [|x xs IH]; [done|]. simpl. by rewrite length_times_root, IH. Qed.

Lemma poly_eval_add f g y :
  length f = length g ->
  poly_eval (zip_with scalar_add f g) y = poly_eval f y + poly_eval g y.
Proof.
  revert g; induction f as [|a f IH]; intros [|b g] Hl; try done; [simpl; ring|].
  injection Hl as Hl. cbn [zip_with]. rewrite !poly_eval_cons, IH by done. ring.
Qed.

Lemma poly_eval_snoc_zero f y : poly_eval (f ++ [scalar_zero]) y = poly_eval f y.
Proof.
  induction f as [|a f IH]; [simpl; ring|].
  change ((a :: f) ++ [scalar_zero]) with (a :: (f ++ [scalar_zero])).
  by rewrite !poly_eval_cons, IH.
Qed.

Lemma poly_eval_times_root x f y :
  poly_eval (times_root x f) y = (scalar_one - scalar_invert x * y) * poly_eval f y.
Proof.
  unfold times_root. rewrite poly_eval_add by (rewrite length_app; simpl; rewrite length_fmap; lia).
  rewrite poly_eval_snoc_zero, poly_eval_cons.
  enough (poly_eval ((fun a => - (scalar_invert x * a)) <$> f) y =
          - (scalar_invert x * poly_eval f y)) as -> by ring.
  induction f as [|a f IH]; [simpl; ring|]. rewrite fmap_cons, !poly_eval_cons, IH. ring.
Qed.

Lemma root_polynomial_0 xs : poly_eval (root_polynomial xs) scalar_zero = scalar_one.
Proof.
  induction xs as [|x xs IH]; [simpl; ring|]. simpl. rewrite poly_eval_times_root, IH. ring.
Qed.

Lemma root_polynomial_root xs x :
  x ∈ xs -> x <> scalar_zero -> poly_eval (root_polynomial xs) x = scalar_zero.
Proof.
  intros Hx Hnz. induction xs as [|y xs IH]; [by apply not_elem_of_nil in Hx|].
  simpl. rewrite poly_eval_times_root. apply elem_of_cons in Hx as [->|Hx].
  - field. done.
  - rewrite IH by done. ring.
Qed.

Lemma share_value_pad f m p :
  share_value (f ++ replicate m scalar_zero) p = share_value f p.
Proof.
  rewrite (share_value_dot (length f + m)) by (by rewrite length_app, length_replicate).
  unfold share_value. rewrite (derivative_at_sum _ f _ (length f + m)) by lia.
  apply ssum_ext. intros d _. unfold share_row, point_basis, poly_coeff. cbn [participant_point bp_derivative_order bp_x].
  destruct (decide (d < length f)%nat).
  - rewrite app_nth1 by done. ring.
  - rewrite app_nth2, (nth_overflow f), nth_lookup by lia.
    destruct (replicate m scalar_zero !! (d - length f)%nat) as [z|] eqn:E; simpl; [|ring].
    apply lookup_replicate in E as [-> _]. ring.
Qed.

Lemma share_value_low f p :
  (length f <= N.to_nat (rank_0 (rp_rank p)))%nat -> share_value f p = scalar_zero.
Proof.
  intros Hf. rewrite (share_value_dot (length f)) by done. unfold dot.
  rewrite (ssum_ext _ _ (fun _ => scalar_zero)); [apply ssum_zero|]. intros d Hd.
  unfold share_row, point_basis; cbn. rewrite basis_value_high by lia. ring.
Qed.

Lemma share_value_rank_zero f p :
  rank_0 (rp_rank p) = 0%N -> share_value f p = poly_eval f (scalar_from_u32 (pid_0 (rp_id p))).
Proof. intros Hr. unfold share_value. by rewrite Hr. Qed.

(** The participants of rank zero. *)
Definition rank_zero (p : RankedParticipant) : bool := (rank_0 (rp_rank p) =? 0)%N.

Definition x_coordinate (p : RankedParticipant) : scalar := scalar_from_u32 (pid_0 (rp_id p)).

Lemma x_coordinate_nonzero ps p : valid_ids ps -> p ∈ ps -> x_coordinate p <> scalar_zero.
Proof.
  intros Hv Hp. apply scalar_from_u32_nonzero. specialize (Hv p Hp). unfold u16_max, u32_max in *.
  lia.
Qed.

(** With fewer than [k] participants of rank zero, all others of rank at least
    [k], the polynomial of degree below [k] with their coordinates as roots is
    invisible. *)
Lemma few_rank_zero_hide t k ps :
  (N.of_nat t <= u16_max)%N -> (k <= t)%nat -> valid_ids ps ->
  (length (List.filter rank_zero ps) < k)%nat ->
  (forall p, p ∈ ps -> rank_zero p = true \/ (k <= N.to_nat (rank_0 (rp_rank p)))%nat) ->
  shares_hide t ps.
Proof.
  intros Ht Hk Hv Hlen Hrank.
  set (xs := x_coordinate <$> List.filter rank_zero ps). set (f := root_polynomial xs).
  assert (Hf : (length f <= k)%nat).
  { unfold f, xs. rewrite length_root_polynomial, length_fmap. lia. }
  apply (hide_intro t ps (f ++ replicate (t - length f) scalar_zero)); [done| | |].
  - rewrite length_app, length_replicate. lia.
  - rewrite poly_eval_0. unfold poly_coeff. rewrite app_nth1.
    + change (poly_coeff f 0 = scalar_one). rewrite <- poly_eval_0. apply root_polynomial_0.
    + unfold f. rewrite length_root_polynomial. lia.
  - apply Forall_forall. intros p Hp. rewrite share_value_pad.
    destruct (Hrank p Hp) as [Hz|Hr]; [|apply share_value_low; lia].
    rewrite share_value_rank_zero by (by apply N.eqb_eq).
    apply root_polynomial_root; [|by apply (x_coordinate_nonzero ps)].
    apply list_elem_of_fmap. exists p. split; [done|].
    apply list_elem_of_In, filter_In. by rewrite <- list_elem_of_In.
Qed.

Lemma solvable_points_determine t ps :
  (t <= length ps)%nat -> (N.of_nat (length ps) <= u16_max)%N ->
  is_ok (birkhoff_interpolation_coefficients (participant_point <$> ps)) = true ->
  shares_determine t ps.
Proof.
  intros Ht Hn Hok.
  destruct (birkhoff_interpolation_coefficients _) as [out| |] eqn:E; [|done..].
  destruct (birkhoff_coefficients_Ok (participant_point <$> ps) out) as (_ & _ & cs & _ & Hl & Hr);
    [by unfold fits_u16; rewrite length_fmap|done|].
  rewrite length_fmap in *. exists cs. split; [done|]. intros f Hf.
  exists (share_of f <$> ps). split; [apply deal_shares; lia|].
  rewrite recover_dealt, <- (Hr f) by lia. do 3 f_equal. by rewrite <- list_fmap_compose.
Qed.

(** Among participants of rank zero the dealing is Shamir's: [t] of them
    determine the secret and the shares of fewer are compatible with any. *)
Lemma rank_zero_threshold t ps :
  (1 <= t)%nat -> (N.of_nat t <= u16_max)%N -> valid_ids ps -> distinct_ids ps ->
  (forall p, p ∈ ps -> rank_0 (rp_rank p) = 0%N) ->
  (if decide (t <= length ps)%nat then shares_determine t ps else shares_hide t ps).
Proof.
  intros Ht Hm Hv HN Hr. case_decide as Hlen.
  - pose proof (valid_ids_length ps HN Hv) as Hn.
    apply solvable_points_determine; [done|done|]. apply birkhoff_rank_zero_solvable.
    + destruct ps; [simpl in Hlen; lia|done].
    + unfold fits_u16. by rewrite length_fmap.
    + intros q (p & -> & Hp)%list_elem_of_fmap. split; [by apply Hr|]. by apply Hv.
    + rewrite <- list_fmap_compose. exact HN.
  - apply (few_rank_zero_hide t t); [done|done|done| |].
    + eapply Nat.le_lt_trans; [apply filter_length_le|lia].
    + intros p Hp. left. unfold rank_zero. by rewrite Hr.
Qed.
End sets.

(** ** The polynomials the dealer draws *)

Section drawn.
Context `{SecpLaws}.
Local Open Scope secp_scope.
Add Field scalar_field_drawn : scalar_ft.

Implicit Types (f v : list scalar) (ps : list RankedParticipant) (t : nat) (g : rng).

(** The next draws of the generator [g] are [l]. *)
Fixpoint yields g (l : list scalar) : Prop :=
  match l with
  | [] => True
  | s :: l => (scalar_random g).1 = s /\ yields (scalar_random g).2 l
  end.

(** The dealer draws [f] for the secret [s] from every generator whose next
    draws are the coefficients after the first. *)
Definition draws_polynomial (s : scalar) (t : nat) f : Prop :=
  length f = t /\ Forall (fun a => a <> scalar_zero) f /\
  forall g, yields g (tail f) -> (random_polynomial s (N.of_nat t) g).2 = Ok f.

(** Whatever polynomial the dealer draws, the shares of [ps] fit every secret
    outside a list of at most [t]: the dealer can draw a polynomial for it that
    deals the same shares. *)
Definition shares_leave_open t ps : Prop :=
  forall s g, s <> scalar_zero ->
  exists f, (random_polynomial s (N.of_nat t) g).2 = Ok f /\
    poly_eval f scalar_zero = s /\ Forall (fun a => a <> scalar_zero) f /\
    exists excluded, (length excluded <= t)%nat /\
      forall s', s' ∉ excluded ->
      exists f', draws_polynomial s' t f' /\ poly_eval f' scalar_zero = s' /\
                 mapM (deal_share f') ps = mapM (deal_share f) ps.

Lemma yields_draws {X} l : forall (xs : list X) g,
  length xs = length l -> yields g l -> (mapM (fun _ => draw_scalar) xs g).2 = Ok l.
Proof.
  induction l as [|s l IH]; intros [|x xs] g Hl Hy; try done. destruct Hy as [Hs Hy].
  injection Hl as Hl. specialize (IH xs _ Hl Hy). rewrite st_mapM_cons.
  rewrite (st_bind_Ok _ _ g _ _ (draw_scalar_eq g)), Hs.
  destruct (mapM (fun _ => draw_scalar) xs (scalar_random g).2) as [g' o] eqn:E.
  cbn in IH. subst o. by rewrite (st_bind_Ok _ _ _ _ _ E).
Qed.

Lemma random_polynomial_yields s t l g :
  S (length l) = t -> yields g l -> (random_polynomial s (N.of_nat t) g).2 = Ok (s :: l).
Proof.
  intros Hl Hy. unfold random_polynomial.
  pose proof (yields_draws l (seq 1 (N.to_nat (N.of_nat t) - 1)) g
                ltac:(rewrite length_seq; lia) Hy) as E.
  destruct (mapM (fun _ => draw_scalar) _ g) as [g' o] eqn:Em. cbn in E. subst o.
  by rewrite (st_bind_Ok _ _ _ _ _ Em).
Qed.

Lemma random_polynomial_nonzero s t g :
  (1 <= t)%nat -> s <> scalar_zero ->
  exists f, (random_polynomial s (N.of_nat t) g).2 = Ok f /\ length f = t /\
    poly_eval f scalar_zero = s /\ Forall (fun a => a <> scalar_zero) f.
Proof.
  intros Ht Hs. destruct (draws_total (seq 1 (N.to_nat (N.of_nat t) - 1)) g)
    as (ss & g' & E & Hl & Hnz). rewrite length_seq in Hl.
  exists (s :: ss). unfold random_polynomial. rewrite (st_bind_Ok _ _ _ _ _ E).
  split_and!; [done|simpl; lia|by rewrite poly_eval_0|by constructor].
Qed.

(** The dealer draws every polynomial without a zero coefficient. *)
Lemma draws_polynomial_intro t f :
  (1 <= t)%nat -> length f = t -> Forall (fun a => a <> scalar_zero) f ->
  draws_polynomial (poly_eval f scalar_zero) t f.
Proof.
  intros Ht Hl Hnz. split_and!; [done|done|]. intros g Hy.
  destruct f as [|a f]; [simpl in Hl; lia|]. rewrite poly_eval_0.
  by apply random_polynomial_yields.
Qed.

(** The secrets whose translated polynomial has a zero coefficient. *)
Definition excluded_secrets f v : list scalar :=
  zip_with (fun a b => poly_eval f scalar_zero - a * scalar_invert b) f v.

Lemma shift_nonzero f v s' :
  length v = length f -> Forall (fun a => a <> scalar_zero) f ->
  s' ∉ excluded_secrets f v ->
  Forall (fun a => a <> scalar_zero) (shift_polynomial f (s' - poly_eval f scalar_zero) v).
Proof.
  intros Hl Hnz Hs. apply Forall_forall. intros e (d & Hd)%list_elem_of_lookup.
  apply lookup_zip_with_Some in Hd as (a & b & -> & Ha & Hb). intros Hz.
  assert (Hanz : a <> scalar_zero) by (by eapply (Forall_lookup_1 _ _ _ _ Hnz)).
  assert (Hbnz : b <> scalar_zero).
  { intros ->. apply Hanz. rewrite <- Hz. ring. }
  apply Hs, list_elem_of_lookup. exists d. apply lookup_zip_with_Some. exists a, b.
  split_and!; [|done|done].
  apply scalar_sub_zero_iff. transitivity ((a + (s' - poly_eval f scalar_zero) * b) * scalar_invert b);
    [field; done|]. rewrite Hz. ring.
Qed.

Lemma hide_leaves_open t ps : (1 <= t)%nat -> shares_hide t ps -> shares_leave_open t ps.
Proof.
  intros Ht (v & Hv & Hh) s g Hs.
  destruct (random_polynomial_nonzero s t g Ht Hs) as (f & E & Hl & Hs0 & Hnz).
  exists f. split_and!; [done|done|done|]. exists (excluded_secrets f v). split.
  { unfold excluded_secrets. rewrite length_zip_with. lia. }
  intros s' Hs'. destruct (Hh f (s' - s) Hl) as [Hshares Hsecret].
  assert (He : poly_eval (shift_polynomial f (s' - s) v) scalar_zero = s')
    by (rewrite Hsecret, Hs0; ring).
  exists (shift_polynomial f (s' - s) v). split_and!; [|done|done].
  rewrite <- He at 1. apply draws_polynomial_intro; [done|by apply length_shift_polynomial|].
  rewrite <- Hs0. apply shift_nonzero; [lia|done|done].
Qed.
End drawn.

(** ** The claims *)

(** The shares of a key set that belong to the given participants. *)
Definition shares_of (ids : list ParticipantId) (ks : HtssLocalKeySet) : list HtssLocalKeyShare :=
  List.filter (fun share => bool_decide (hks_participant_id share ∈ ids)) (hkset_shares ks).

Definition members_of (ids : list ParticipantId) (ps : list RankedParticipant) :
  list RankedParticipant :=
  List.filter (fun p => bool_decide (rp_id p ∈ ids)) ps.

Section claims.
Context `{SecpLaws}.
Local Open Scope secp_scope.
Add Field scalar_field_claims : scalar_ft.

Lemma shares_of_dealt ids f ps :
  List.filter (fun share => bool_decide (hks_participant_id share ∈ ids)) (share_of f <$> ps) =
  share_of f <$> members_of ids ps.
Proof.
  unfold members_of. induction ps as [|p ps IH]; [done|]. rewrite fmap_cons. simpl.
  case_bool_decide; by rewrite ?fmap_cons, IH.
Qed.

(** Checked weights turn the members' shares of every key set that the dealer
    can produce into the secret of its group key. *)
Lemma members_recover c ids D ws g :
  wf_hierarchical c ->
  weights_check (N.to_nat (htc_threshold c)) 0 D ws
    (participant_point <$> members_of ids (htc_participants c)) = true ->
  exists g' ks sk, run_local_htss_keygen c g = (g', Ok ks) /\
    secret_key_of sk (gk_xonly_public_key (hkset_group_key ks)) /\
    recover (weights_of D ws) (shares_of ids ks) = Some sk.
Proof.
  intros Hwf Hc. pose proof (threshold_fits c Hwf) as Ht.
  destruct (keygen_valid c g Hwf) as (g' & ks & E & f & Hf & Hsk & Hs).
  exists g', ks, (poly_eval f scalar_zero). split_and!; [done|done|].
  unfold shares_of. rewrite Hs, shares_of_dealt.
  apply (weights_determine (N.to_nat (htc_threshold c))); [lia|lia|done|done].
Qed.

(** C15: the dealt shares determine the secret or hide it.  Under a policy that
    [HierarchicalThresholdConfig::new] accepts, for every list of participants
    either fixed weights recover the constant term of every polynomial with
    [threshold] coefficients from the shares that [deal_share] gives them, or
    the polynomials can be translated, keeping all these shares and moving the
    constant term by any amount; never both.  Participants that can reconstruct
    are of the first kind. *)
Theorem shares_all_or_nothing t ps c set :
  HierarchicalThresholdConfig_new t ps = Ok c ->
  (shares_determine (N.to_nat t) set \/ shares_hide (N.to_nat t) set) /\
  (shares_determine (N.to_nat t) set -> ~ shares_hide (N.to_nat t) set) /\
  ((forall p, p ∈ set -> p ∈ ps) -> can_reconstruct c (rp_id <$> set) ->
   shares_determine (N.to_nat t) set).
Proof.
  intros [-> Hwf]%HierarchicalThresholdConfig_new_Ok.
  pose proof (threshold_fits _ Hwf) as Ht. cbn [htc_threshold] in Ht. split_and!.
  - apply dichotomy; lia.
  - apply not_determine_and_hide. lia.
  - intros Hin Hcan. by apply (can_reconstruct_determines _ _ Hwf).
Qed.

(** C16: sets below the threshold leave the secret open.  Under an accepted
    policy with valid identifiers, take participants of whom fewer than [k] have
    rank zero and the others at least rank [k], for some [k] up to the threshold;
    this covers every set without a participant of rank zero and every set of
    fewer than [threshold] participants of rank zero.  Whatever polynomial
    [random_polynomial] draws for a secret, for all secrets outside a list of at
    most [threshold] it can draw another polynomial that deals these
    participants the same shares.  Its coefficients are never zero, so that the
    exceptions are real; and only the shares are considered, not the public
    group key.  Of distinct participants of rank zero any [threshold]
    determine the secret. *)
Theorem shares_below_threshold_hide t ps c set :
  HierarchicalThresholdConfig_new t ps = Ok c -> valid_ids ps ->
  (forall p, p ∈ set -> p ∈ ps) ->
  (forall k, (k <= N.to_nat t)%nat -> (length (List.filter rank_zero set) < k)%nat ->
     (forall p, p ∈ set -> rank_zero p = true \/ (k <= N.to_nat (rank_0 (rp_rank p)))%nat) ->
     shares_leave_open (N.to_nat t) set) /\
  (distinct_ids set -> (forall p, p ∈ set -> rank_zero p = true) -> (N.to_nat t <= length set)%nat ->
     shares_determine (N.to_nat t) set).
Proof.
  intros [-> Hwf]%HierarchicalThresholdConfig_new_Ok Hv Hin.
  pose proof (threshold_fits _ Hwf) as Ht. cbn [htc_threshold] in Ht.
  assert (Hvs : valid_ids set) by (intros p Hp; auto). split.
  - intros k Hk Hlen Hr. apply hide_leaves_open; [lia|].
    apply (few_rank_zero_hide _ k); [lia|done..].
  - intros Hd Hz Hlen.
    pose proof (rank_zero_threshold (N.to_nat t) set ltac:(lia) ltac:(lia) Hvs Hd) as Hs.
    rewrite decide_True in Hs by done. apply Hs. intros p Hp. by apply N.eqb_eq, Hz.
Qed.

(** C33: a policy of threshold three can give its secret to two participants.
    [HierarchicalThresholdConfig::new] accepts participant 2 with rank zero beside
    participants 1 and 3 with rank one; the pair of the participants 1 and 2 is
    refused as a signer set, yet after every key generation the share of 2 minus
    twice the share of 1 is the secret of the group key.  No order of the
    identifiers within the ranks is checked. *)
Theorem two_shares_of_threshold_three g :
  let ps := [mkRankedParticipant (mkParticipantId 1) (mkRank 1) None;
             mkRankedParticipant (mkParticipantId 2) (mkRank 0) None;
             mkRankedParticipant (mkParticipantId 3) (mkRank 1) None] in
  let pair := [mkParticipantId 1; mkParticipantId 2] in
  exists c g' ks sk,
    HierarchicalThresholdConfig_new 3 ps = Ok c /\
    is_ok (validate_hierarchical_signer_set pair c) = false /\
    run_local_htss_keygen c g = (g', Ok ks) /\
    secret_key_of sk (gk_xonly_public_key (hkset_group_key ks)) /\
    recover [- (scalar_one + scalar_one); scalar_one] (shares_of pair ks) = Some sk.
Proof.
  intros ps pair. set (c := mkHierarchicalThresholdConfig 3 ps).
  assert (Hc : HierarchicalThresholdConfig_new 3 ps = Ok c) by (vm_compute; reflexivity).
  destruct (members_recover c pair 1 [-2; 1]%Z g (hierarchical_new_wf _ _ _ Hc))
    as (g' & ks & sk & E & Hsk & Hr); [vm_compute; reflexivity|].
  exists c, g', ks, sk. split_and!; [done|vm_compute; reflexivity|done|done|].
  rewrite <- Hr. f_equal. unfold weights_of. cbn [fmap list_fmap].
  change (scalar_from_u32 1) with scalar_one.
  assert (Hi : scalar_invert scalar_one = scalar_one) by (field; apply scalar_one_neq_zero).
  rewrite Hi. f_equal; [|f_equal]; unfold scalar_of_Z; simpl; ring.
Qed.
End claims.

(** ** Concrete runs *)

Section witnesses.
Local Existing Instances small_group small_group_laws.

Definition demo_members : list RankedParticipant :=
  [mkRankedParticipant (mkParticipantId 1) (mkRank 0) None;
   mkRankedParticipant (mkParticipantId 3) (mkRank 1) None].

Lemma shares_all_or_nothing_witness :
  shares_determine 2 demo_members /\ ~ shares_hide 2 demo_members.
Proof.
  destruct (shares_all_or_nothing 2 demo_participants demo_config demo_members demo_config_new)
    as (_ & Hn & Hd).
  assert (Hdet : shares_determine 2 demo_members).
  { apply Hd; [|vm_compute; reflexivity]. unfold demo_members, demo_participants. set_solver. }
  split; [exact Hdet|exact (Hn Hdet)].
Defined.

(** Participant 1, of rank zero, holds the value at one.  The draws 3 and 4 give
    it the share 8 of the secrets 5 and 4. *)
Lemma shares_below_threshold_hide_witness :
  let one := [mkRankedParticipant (mkParticipantId 1) (mkRank 0) None] in
  shares_leave_open 2 one /\
  (random_polynomial (f_of 5) 2 2%Z).2 = Ok [f_of 5; f_of 3] /\
  (random_polynomial (f_of 4) 2 3%Z).2 = Ok [f_of 4; f_of 4] /\
  mapM (deal_share [f_of 5; f_of 3]) one = mapM (deal_share [f_of 4; f_of 4]) one.
Proof.
  intros one. split; [|split_and!; vm_compute; reflexivity].
  assert (Hin : forall p, p ∈ one -> p ∈ demo_participants)
    by (unfold one, demo_participants; set_solver).
  assert (Hv : valid_ids demo_participants).
  { intros p Hp. unfold demo_participants in Hp. rewrite !elem_of_cons in Hp.
    destruct Hp as [->|[->|[->|Hp]]]; [vm_compute; split; discriminate..|].
    by apply not_elem_of_nil in Hp. }
  apply (proj1 (shares_below_threshold_hide 2 demo_participants demo_config one
                  demo_config_new Hv Hin) 2); [vm_compute; lia|vm_compute; lia|].
  intros p Hp. left. apply list_elem_of_singleton in Hp as ->. reflexivity.
Defined.

Lemma two_shares_of_threshold_three_witness :
  exists c g' ks sk,
    run_local_htss_keygen c demo_rng = (g', Ok ks) /\ htc_threshold c = 3%N /\
    recover [scalar_opp (scalar_add scalar_one scalar_one); scalar_one]
      (shares_of [mkParticipantId 1; mkParticipantId 2] ks) = Some sk.
Proof.
  destruct (two_shares_of_threshold_three demo_rng) as (c & g' & ks & sk & Hc & _ & Hrun & _ & Hr).
  exists c, g', ks, sk. split_and!; [exact Hrun| |exact Hr].
  vm_compute in Hc. injection Hc as <-. reflexivity.
Defined.
End witnesses.
