(* ===== verification/HtssDkg.v ===== *)
(** The distributed HTSS key generation of [crates/dkgkit-frost/src/lib.rs]:
    round one (commitments), round two (derivative shares), finalization with
    Feldman verification, and the in-process ceremony
    [run_distributed_htss_keygen].

    The main results: a share passes [verify_htss_dkg_derivative_share] exactly
    when it is the derivative of the polynomial the sender committed to; the
    shares of all participants that finalize against the same round-one packages
    lie on one joint polynomial, whose constant term is the secret of the group
    key, no matter how the packages were produced; and the honest ceremony
    establishes the invariant [valid_key_set]. *)

From Stdlib Require Import Ascii String Field.
From stdpp Require Import base numbers countable gmap strings list.
From S2P Require Import Prelude Core Secp SmallGroup LinearSystem Packages SignerPolicy Birkhoff.
From S2P Require Import HtssKeygen.

Section operations.
Context `{Secp}.

Definition htss_dkg_commitment_point (bs : bytes) : Result point :=
  reject_if (negb (length bs =? 33))
    (Protocol ("HTSS DKG commitment must be 33 bytes, got " +:+ dec_nat (length bs)));;
  ok_or (point_from_bytes bs) (Protocol "invalid HTSS DKG commitment point").

Definition htss_dkg_round1 (participant_id : ParticipantId)
    (config : HierarchicalThresholdConfig) : ST rng DkgKitError HtssDkgRound1State :=
  rank ← st_lift (ok_or (HierarchicalThresholdConfig_rank_of config participant_id)
                        (MissingRankedParticipant (pid_0 participant_id)));
  coefficients ← mapM (fun _ => draw_scalar) (seq 0 (N.to_nat (htc_threshold config)));
  mret (mkHtssDkgRound1State
          (mkHtssDkgRound1Package participant_id (rank_0 rank)
             ((fun coefficient => point_to_bytes (point_scale coefficient point_G))
                <$> coefficients))
          (scalar_to_bytes <$> coefficients)).

(** One iteration over the round-one packages: a repeated sender, a wrong rank,
    a wrong number of commitments or an invalid commitment ends the loop. *)
Definition round1_step (config : HierarchicalThresholdConfig)
    (seen : gset ParticipantId) (package : HtssDkgRound1Package) :
  Result (gset ParticipantId) :=
  let id := h1_participant_id package in
  if decide (id ∈ seen) then Err (DuplicateParticipantId (pid_0 id))
  else
    expected_rank ← ok_or (HierarchicalThresholdConfig_rank_of config id)
                          (MissingRankedParticipant (pid_0 id));
    reject_if (negb (h1_rank package =? rank_0 expected_rank)%N)
      (Protocol ("HTSS DKG round1 rank mismatch for participant " +:+ dec (pid_0 id)
                 +:+ ": got " +:+ dec (h1_rank package)
                 +:+ ", expected " +:+ dec (rank_0 expected_rank)));;
    reject_if (negb (length (h1_commitment_bytes package) =? N.to_nat (htc_threshold config)))
      (Protocol ("HTSS DKG round1 participant " +:+ dec (pid_0 id) +:+ " has "
                 +:+ dec_nat (length (h1_commitment_bytes package))
                 +:+ " commitments, expected " +:+ dec (htc_threshold config)));;
    mapM htss_dkg_commitment_point (h1_commitment_bytes package);;
    Ok ({[id]} ∪ seen).

Definition validate_htss_dkg_round1_set (round1_packages : list HtssDkgRound1Package)
    (config : HierarchicalThresholdConfig) : Result unit :=
  seen ← foldlM (round1_step config) ∅ round1_packages;
  reject_if (negb (size seen =? length (htc_participants config)))
    (Protocol ("HTSS DKG round1 set mismatch: have " +:+ dec_nat (size seen)
               +:+ ", need " +:+ dec_nat (length (htc_participants config)))).

Definition htss_dkg_round2 (state : HtssDkgRound1State)
    (round1_packages : list HtssDkgRound1Package) (config : HierarchicalThresholdConfig) :
  Result (list HtssDkgRound2Package) :=
  let own := h1_participant_id (h1s_package state) in
  validate_htss_dkg_round1_set round1_packages config;;
  reject_if (negb (existsb (fun package => bool_decide (h1_participant_id package = own))
                           round1_packages))
    (Protocol ("missing own HTSS DKG round1 package for participant " +:+ dec (pid_0 own)));;
  reject_if (negb (length (h1s_secret_coefficient_bytes state)
                   =? N.to_nat (htc_threshold config)))
    (Protocol ("HTSS DKG contributor " +:+ dec (pid_0 own) +:+ " has "
               +:+ dec_nat (length (h1s_secret_coefficient_bytes state))
               +:+ " coefficients, expected " +:+ dec (htc_threshold config)));;
  coefficients ← mapM (fun bs => ok_or (scalar_from_bytes bs)
                         (Protocol ("invalid HTSS DKG coefficient for participant "
                                    +:+ dec (pid_0 own))))
                      (h1s_secret_coefficient_bytes state);
  mapM (fun recipient =>
          share_value ← polynomial_derivative_value coefficients (pid_0 (rp_id recipient))
                          (rank_0 (rp_rank recipient));
          Ok (mkHtssDkgRound2Package own (rp_id recipient) (rank_0 (rp_rank recipient))
                (scalar_to_bytes share_value)))
       (htc_participants config).

Definition round2_step (config : HierarchicalThresholdConfig) (participant_id : ParticipantId)
    (expected_rank : Rank) (seen : gset ParticipantId) (package : HtssDkgRound2Package) :
  Result (gset ParticipantId) :=
  reject_if (bool_decide (h2_recipient package <> participant_id))
    (Protocol ("HTSS DKG round2 package for participant " +:+ dec (pid_0 (h2_recipient package))
               +:+ " cannot finalize participant " +:+ dec (pid_0 participant_id)));;
  reject_if (negb (h2_recipient_rank package =? rank_0 expected_rank)%N)
    (Protocol ("HTSS DKG round2 recipient rank mismatch for participant "
               +:+ dec (pid_0 participant_id) +:+ ": got " +:+ dec (h2_recipient_rank package)
               +:+ ", expected " +:+ dec (rank_0 expected_rank)));;
  ok_or (HierarchicalThresholdConfig_rank_of config (h2_sender package))
    (MissingRankedParticipant (pid_0 (h2_sender package)));;
  if decide (h2_sender package ∈ seen)
  then Err (DuplicateParticipantId (pid_0 (h2_sender package)))
  else Ok ({[h2_sender package]} ∪ seen).

Definition validate_htss_dkg_round2_set (participant_id : ParticipantId)
    (round2_packages : list HtssDkgRound2Package) (config : HierarchicalThresholdConfig) :
  Result unit :=
  expected_rank ← ok_or (HierarchicalThresholdConfig_rank_of config participant_id)
                        (MissingRankedParticipant (pid_0 participant_id));
  seen ← foldlM (round2_step config participant_id expected_rank) ∅ round2_packages;
  reject_if (negb (size seen =? length (htc_participants config)))
    (Protocol ("HTSS DKG round2 set for participant " +:+ dec (pid_0 participant_id)
               +:+ " mismatch: have " +:+ dec_nat (size seen)
               +:+ ", need " +:+ dec_nat (length (htc_participants config)))).

(** The body of the loop that sums up the expected point. *)
Definition expected_step (package : HtssDkgRound2Package) (expected : point)
    (item : nat * bytes) : Result point :=
  let '(degree, commitment_bytes) := item in
  basis ← derivative_basis_scalar (as_u16 (N.of_nat degree)) (h2_recipient_rank package)
            (pid_0 (h2_recipient package));
  if scalar_is_zero basis then Ok expected
  else
    commitment ← htss_dkg_commitment_point commitment_bytes;
    Ok (point_add expected (point_scale basis commitment)).

Definition verify_htss_dkg_derivative_share (package : HtssDkgRound2Package)
    (round1 : HtssDkgRound1Package) : Result unit :=
  reject_if (bool_decide (h2_sender package <> h1_participant_id round1))
    (Protocol "HTSS DKG derivative share sender mismatch");;
  share_value ← ok_or (scalar_from_bytes (h2_share_value_bytes package))
                  (Protocol ("invalid HTSS DKG derivative share from participant "
                             +:+ dec (pid_0 (h2_sender package))));
  expected ← foldlM (expected_step package) point_zero (imap pair (h1_commitment_bytes round1));
  let actual := point_scale share_value point_G in
  reject_if (bool_decide (point_to_bytes actual <> point_to_bytes expected))
    (Protocol ("HTSS DKG derivative share from participant "
               +:+ dec (pid_0 (h2_sender package)) +:+ " failed commitment verification")).

Definition group_key_step (aggregate : point) (package : HtssDkgRound1Package) : Result point :=
  first_commitment ← ok_or (head (h1_commitment_bytes package))
                       (Protocol ("HTSS DKG participant "
                                  +:+ dec (pid_0 (h1_participant_id package))
                                  +:+ " missing constant commitment"));
  commitment ← htss_dkg_commitment_point first_commitment;
  Ok (point_add aggregate commitment).

Definition htss_dkg_group_xonly_public_key (round1_packages : list HtssDkgRound1Package) :
  Result (bytes * bool) :=
  aggregate ← foldlM group_key_step point_zero round1_packages;
  nonzero ← ok_or (point_non_zero aggregate) (Protocol "HTSS DKG group key cannot be zero");
  let '(even_public_key, negated) := point_into_even_y nonzero in
  Ok (point_to_xonly_bytes even_public_key, negated).

Definition contribution_step (round1_by_sender : gmap ParticipantId HtssDkgRound1Package)
    (share_value : scalar) (package : HtssDkgRound2Package) : Result scalar :=
  round1 ← ok_or (round1_by_sender !! h2_sender package)
                 (MissingRankedParticipant (pid_0 (h2_sender package)));
  verify_htss_dkg_derivative_share package round1;;
  contribution ← ok_or (scalar_from_bytes (h2_share_value_bytes package))
                   (Protocol ("invalid HTSS DKG round2 share from participant "
                              +:+ dec (pid_0 (h2_sender package))));
  Ok (scalar_add share_value contribution).

Definition finalize_htss_dkg (participant_id : ParticipantId)
    (round1_packages : list HtssDkgRound1Package)
    (round2_packages : list HtssDkgRound2Package) (config : HierarchicalThresholdConfig) :
  Result (GroupKey * HtssLocalKeyShare) :=
  rank ← ok_or (HierarchicalThresholdConfig_rank_of config participant_id)
               (MissingRankedParticipant (pid_0 participant_id));
  validate_htss_dkg_round1_set round1_packages config;;
  validate_htss_dkg_round2_set participant_id round2_packages config;;
  let round1_by_sender := collect_map h1_participant_id round1_packages in
  share_value ← foldlM (contribution_step round1_by_sender) scalar_zero round2_packages;
  '(xonly_public_key, negated) ← htss_dkg_group_xonly_public_key round1_packages;
  let share_value := if negated : bool then scalar_sub scalar_zero share_value else share_value in
  Ok (mkGroupKey xonly_public_key [],
      mkHtssLocalKeyShare participant_id (rank_0 rank) (scalar_to_bytes share_value)).

(** The loop over the participants that finalizes each and compares the group
    keys. *)
Definition finalize_step (config : HierarchicalThresholdConfig)
    (round1_packages : list HtssDkgRound1Package) (round2_packages : list HtssDkgRound2Package)
    (state : option GroupKey * list HtssLocalKeyShare) (participant : RankedParticipant) :
  Result (option GroupKey * list HtssLocalKeyShare) :=
  let '(group_key, shares) := state in
  let packages_for_participant :=
    filter (fun package => h2_recipient package = rp_id participant) round2_packages in
  '(participant_group_key, share) ←
    finalize_htss_dkg (rp_id participant) round1_packages packages_for_participant config;
  match group_key with
  | Some existing =>
      reject_if (bool_decide (gk_xonly_public_key existing
                              <> gk_xonly_public_key participant_group_key))
        (Protocol "HTSS DKG participants derived different group keys");;
      Ok (Some existing, shares ++ [share])
  | None => Ok (Some participant_group_key, shares ++ [share])
  end.

Definition run_distributed_htss_keygen (config : HierarchicalThresholdConfig) :
  ST rng DkgKitError HtssLocalKeySet :=
  states ← mapM (fun participant => htss_dkg_round1 (rp_id participant) config)
             (htc_participants config);
  let round1_packages := h1s_package <$> states in
  round2_packages ← st_lift (mapM (fun state => htss_dkg_round2 state round1_packages config)
                                  states);
  '(group_key, shares) ←
    st_lift (foldlM (finalize_step config round1_packages (concat round2_packages))
               (None, []) (htc_participants config));
  group_key ← st_lift (ok_or group_key (Protocol "missing HTSS DKG group key"));
  mret (mkHtssLocalKeySet group_key shares).

End operations.

(** ** Sums of polynomials *)

Section sums.
Context `{SecpLaws}.
Local Open Scope secp_scope.
Add Field scalar_field_dkg_sums : scalar_ft.

Implicit Types (f : list scalar) (fs : list (list scalar)).

#[local] Instance scalar_add_comm : Comm (=) scalar_add.
Proof. intros x y. ring. Qed.
#[local] Instance scalar_add_assoc : Assoc (=) scalar_add.
Proof. intros x y z. ring. Qed.

Lemma lsum_Permutation (l k : list scalar) : l ≡ₚ k -> lsum l = lsum k.
Proof. intros Hp. unfold lsum. by apply foldr_permutation_proper'; [apply _..|]. Qed.

Lemma lsum_snoc (l : list scalar) x : lsum (l ++ [x]) = lsum l + x.
Proof.
  unfold lsum. induction l as [|y l IH]; cbn [app foldr]; [ring|]. rewrite IH. ring.
Qed.

(** Coefficientwise sum of polynomials with [t] coefficients. *)
Definition poly_sum (t : nat) fs : list scalar :=
  map (fun d => lsum ((fun f => poly_coeff f d) <$> fs)) (seq 0 t).

Definition poly_cond_negate (b : bool) f : list scalar :=
  if b then map scalar_opp f else f.

Lemma length_poly_sum t fs : length (poly_sum t fs) = t.
Proof. unfold poly_sum. by rewrite length_map, length_seq. Qed.

Lemma length_poly_cond_negate b f : length (poly_cond_negate b f) = length f.
Proof. destruct b; simpl; by rewrite ?length_map. Qed.

Lemma derivative_at_poly_sum t fs r x :
  Forall (fun f => (length f <= t)%nat) fs ->
  derivative_at (poly_sum t fs) r x = lsum ((fun f => derivative_at f r x) <$> fs).
Proof.
  intros Hfs. rewrite (derivative_at_sum r _ x t) by (by rewrite length_poly_sum).
  rewrite (ssum_ext t _ (fun d => lsum ((fun f => poly_coeff f d) <$> fs) * basis_value d r x)).
  2: { intros d Hd. unfold poly_coeff at 1, poly_sum. by rewrite nth_map_seq. }
  induction Hfs as [|f fs Hf _ IH].
  - rewrite (ssum_ext t _ (fun _ => scalar_zero)); [apply ssum_zero|]. intros d _. cbn. ring.
  - rewrite fmap_cons. unfold lsum at 2. cbn [foldr].
    fold (lsum ((fun f => derivative_at f r x) <$> fs)).
    rewrite <- IH, (derivative_at_sum r f x t Hf), <- ssum_add. apply ssum_ext.
    intros d _. rewrite fmap_cons. unfold lsum. cbn [foldr]. ring.
Qed.

Lemma derivative_at_cond_negate b f r x :
  derivative_at (poly_cond_negate b f) r x =
  scalar_conditional_negate b (derivative_at f r x).
Proof.
  rewrite scalar_cond_negate. destruct b; [|done].
  rewrite (derivative_at_sum r _ x (length f)) by (by rewrite length_poly_cond_negate).
  rewrite (derivative_at_sum r f x (length f)) by lia.
  transitivity (ssum (length f) (fun d => (- scalar_one) * (poly_coeff f d * basis_value d r x))).
  - apply ssum_ext. intros d Hd. unfold poly_cond_negate, poly_coeff.
    rewrite (nth_indep _ scalar_zero (- scalar_zero)) by (by rewrite length_map).
    rewrite map_nth. ring.
  - rewrite ssum_scale. ring.
Qed.

Lemma poly_eval_derivative f x : poly_eval f x = derivative_at f 0 x.
Proof. done. Qed.

End sums.

(** ** Commitments *)

Section commitments.
Context `{SecpLaws}.
Local Open Scope secp_scope.
Add Field scalar_field_commitments : scalar_ft.

(** The commitment to a scalar. *)
Definition commitment (a : scalar) : bytes := point_to_bytes (a · point_G).

Lemma commitment_point a :
  a <> scalar_zero -> htss_dkg_commitment_point (commitment a) = Ok (a · point_G).
Proof.
  intros Ha. unfold htss_dkg_commitment_point, commitment. rewrite point_to_bytes_length.
  cbn. by rewrite point_from_to_bytes by (by apply scale_G_nonzero).
Qed.

Lemma commitment_point_Ok bs P :
  htss_dkg_commitment_point bs = Ok P ->
  exists a, a <> scalar_zero /\ bs = commitment a /\ P = a · point_G.
Proof.
  unfold htss_dkg_commitment_point. intros Hp. inv_ok Hp.
  apply point_from_bytes_Some in Hp as [Hnz <-].
  destruct (point_generated P) as [a ->]. exists a.
  split_and!; [by apply scale_G_nonzero|done|done].
Qed.

(** The package commits to the polynomial [f]. *)
Definition commits_to (package : HtssDkgRound1Package) (f : list scalar) : Prop :=
  h1_commitment_bytes package = commitment <$> f /\ Forall (fun a => a <> scalar_zero) f.

Lemma commitments_Ok bss Ps :
  mapM htss_dkg_commitment_point bss = Ok Ps ->
  exists f, bss = commitment <$> f /\ Forall (fun a => a <> scalar_zero) f.
Proof.
  intros Hm%mapM_Ok. induction Hm as [|bs P bss Ps (a & Ha & -> & _)%commitment_point_Ok _
                                        (f & -> & Hf)]; [by exists []|].
  exists (a :: f). split; [done|by constructor].
Qed.

Lemma commitments_total f :
  Forall (fun a => a <> scalar_zero) f ->
  mapM htss_dkg_commitment_point (commitment <$> f) = Ok ((fun a => a · point_G) <$> f).
Proof.
  intros Hf. apply mapM_Ok. induction Hf as [|a f Ha _ IH]; [constructor|].
  rewrite !fmap_cons. constructor; [by apply commitment_point|done].
Qed.

(** The expected point is the derivative of the committed polynomial, in the
    exponent. *)
Lemma expected_point package f :
  Forall (fun a => a <> scalar_zero) f -> (N.of_nat (length f) <= u16_max)%N ->
  foldlM (expected_step package) point_zero (imap pair (commitment <$> f)) =
  Ok (derivative_at f (N.to_nat (h2_recipient_rank package))
        (scalar_from_u32 (pid_0 (h2_recipient package))) · point_G).
Proof.
  intros Hnz Hf. rewrite (derivative_at_sum _ f _ (length f)) by lia.
  induction f as [|c f IH] using rev_ind; [cbn; by rewrite scale_zero_l|].
  rewrite length_app, Nat.add_1_r in *. apply Forall_app in Hnz as [Hnz Hc].
  rewrite Forall_singleton in Hc.
  rewrite fmap_app, imap_app, foldlM_app, IH, ok_bind by (done || lia).
  cbn [fmap list_fmap imap foldlM]. unfold compose. rewrite length_fmap, Nat.add_0_r.
  unfold expected_step. rewrite derivative_basis_scalar_spec, ok_bind by lia.
  cbn [ssum]. rewrite poly_coeff_last.
  rewrite (ssum_ext (length f) (fun d => poly_coeff (f ++ [c]) d * _)
             (fun d => poly_coeff f d * basis_value d (N.to_nat (h2_recipient_rank package))
                        (scalar_from_u32 (pid_0 (h2_recipient package)))))
    by (intros d Hd; by rewrite poly_coeff_app_l).
  set (b := basis_value _ _ _). set (s := ssum _ _).
  destruct (scalar_is_zero b) eqn:Hz; cbn [mbind outcome_bind].
  - apply scalar_is_zero_true in Hz. do 2 f_equal. rewrite Hz. ring.
  - rewrite commitment_point by exact Hc. cbn [mbind outcome_bind]. f_equal.
    rewrite scale_add_l, <- scale_mul_l. do 2 f_equal. ring.
Qed.

Lemma verify_share_Ok package round1 f :
  commits_to round1 f -> (N.of_nat (length f) <= u16_max)%N ->
  verify_htss_dkg_derivative_share package round1 = Ok tt <->
  h2_sender package = h1_participant_id round1 /\
  scalar_from_bytes (h2_share_value_bytes package) =
    Some (derivative_at f (N.to_nat (h2_recipient_rank package))
            (scalar_from_u32 (pid_0 (h2_recipient package)))).
Proof.
  intros [Hc Hnz] Hf. unfold verify_htss_dkg_derivative_share.
  rewrite Hc, expected_point by done. case_bool_decide as Hs; cbn [reject_if].
  { split; [intros E; discriminate E|by intros [? _]]. }
  rewrite ok_bind.
  destruct (scalar_from_bytes _) as [v|]; cbn [ok_or]; [|split; [intros E; discriminate E|by intros [_ ?]]].
  rewrite !ok_bind. cbv zeta. rewrite reject_if_Ok, bool_decide_eq_false.
  split.
  - intros E%dec_stable%point_to_bytes_inj%scale_G_inj. by subst.
  - intros [_ E]. simplify_eq. naive_solver.
Qed.
End commitments.

(** ** What the set validations establish *)

Section validation.
Context `{SecpLaws}.

Implicit Types (c : HierarchicalThresholdConfig).

Definition round1_ok c (package : HtssDkgRound1Package) : Prop :=
  find_rank (htc_participants c) (h1_participant_id package) = Some (mkRank (h1_rank package)) /\
  exists f, length f = N.to_nat (htc_threshold c) /\ commits_to package f.

Lemma round1_step_Ok c seen package s' :
  round1_step c seen package = Ok s' <->
  round1_ok c package /\ (h1_participant_id package ∉ seen) /\
  s' = ({[h1_participant_id package]} ∪ seen).
Proof.
  unfold round1_step, round1_ok, HierarchicalThresholdConfig_rank_of. cbv zeta.
  case_decide as Hin; [naive_solver|].
  destruct (find_rank _ _) as [[r]|]; cbn [ok_or];
    [|split; [intros E; discriminate E|naive_solver]]. rewrite ok_bind. cbn [rank_0].
  destruct (N.eqb_spec (h1_rank package) r) as [->|Hr]; cbn [negb reject_if];
    [|split; [intros E; discriminate E|naive_solver]]. rewrite ok_bind.
  destruct (Nat.eqb_spec (length (h1_commitment_bytes package)) (N.to_nat (htc_threshold c)))
    as [Hl|Hl]; cbn [negb reject_if].
  - rewrite ok_bind, bind_Ok. split.
    + intros (Ps & (f & Hc & Hnz)%commitments_Ok & [= <-]). split_and!; try done.
      exists f. split; [by rewrite <- Hl, Hc, length_fmap|done].
    + intros ((_ & f & _ & Hc & Hnz) & _ & ->). eexists. rewrite Hc.
      split; [by apply commitments_total|done].
  - split; [intros E; discriminate E|]. intros ((_ & f & Hf & Hc & _) & _).
    rewrite Hc, length_fmap in Hl. done.
Qed.

Lemma validate_round1_Ok c l u :
  validate_htss_dkg_round1_set l c = Ok u <->
  (forall package, package ∈ l -> round1_ok c package) /\
  NoDup (h1_participant_id <$> l) /\ length l = length (htc_participants c).
Proof.
  unfold validate_htss_dkg_round1_set. rewrite bind_Ok.
  setoid_rewrite (seen_loop_Ok h1_participant_id _ _ (round1_step_Ok c)).
  setoid_rewrite reject_if_Ok. setoid_rewrite negb_false_iff. setoid_rewrite Nat.eqb_eq.
  setoid_rewrite Forall_forall. split.
  - intros (s & (HQ & HN & _ & ->) & Hs). rewrite seen_size in Hs by done. done.
  - intros (HQ & HN & Hl). eexists. split; [split_and!; [done|done|set_solver|done]|].
    by rewrite seen_size.
Qed.

Definition round2_ok c (id : ParticipantId) (r : Rank) (package : HtssDkgRound2Package) : Prop :=
  h2_recipient package = id /\ h2_recipient_rank package = rank_0 r /\
  ranked (htc_participants c) (h2_sender package).

Lemma round2_step_Ok c id r seen package s' :
  round2_step c id r seen package = Ok s' <->
  round2_ok c id r package /\ (h2_sender package ∉ seen) /\
  s' = ({[h2_sender package]} ∪ seen).
Proof.
  unfold round2_step, round2_ok, HierarchicalThresholdConfig_rank_of, ranked.
  case_bool_decide as Hr; cbn [reject_if]; [split; [intros E; discriminate E|naive_solver]|].
  rewrite ok_bind.
  destruct (N.eqb_spec (h2_recipient_rank package) (rank_0 r)) as [Hk|Hk]; cbn [negb reject_if];
    [|split; [intros E; discriminate E|naive_solver]]. rewrite ok_bind.
  destruct (find_rank _ _) as [q|]; cbn [ok_or].
  - rewrite ok_bind. case_decide; split; naive_solver.
  - split; [intros E; discriminate E|]. intros ((_ & _ & [? ?]) & _). done.
Qed.

Lemma validate_round2_Ok c id l u :
  validate_htss_dkg_round2_set id l c = Ok u <->
  exists r, find_rank (htc_participants c) id = Some r /\
    (forall package, package ∈ l -> round2_ok c id r package) /\
    NoDup (h2_sender <$> l) /\ length l = length (htc_participants c).
Proof.
  unfold validate_htss_dkg_round2_set, HierarchicalThresholdConfig_rank_of.
  rewrite bind_Ok. setoid_rewrite ok_or_Ok. setoid_rewrite bind_Ok.
  setoid_rewrite (fun r => seen_loop_Ok h2_sender _ _ (round2_step_Ok c id r)).
  setoid_rewrite reject_if_Ok. setoid_rewrite negb_false_iff. setoid_rewrite Nat.eqb_eq.
  setoid_rewrite Forall_forall. split.
  - intros (r & Hr & s & (HQ & HN & _ & ->) & Hs). rewrite seen_size in Hs by done. eauto.
  - intros (r & Hr & HQ & HN & Hl). exists r. split; [done|]. eexists.
    split; [split_and!; [done|done|set_solver|done]|]. by rewrite seen_size.
Qed.

(** As many distinct ranked identifiers as participants are all of them. *)
Lemma full_cover c (l : list ParticipantId) :
  wf_hierarchical c -> NoDup l -> (forall s, s ∈ l -> ranked (htc_participants c) s) ->
  length l = length (htc_participants c) -> l ≡ₚ (rp_id <$> htc_participants c).
Proof.
  intros _ HN Hr Hl. apply submseteq_length_Permutation.
  - apply NoDup_submseteq; [done|]. intros s Hs. destruct (Hr s Hs) as [r Hs'].
    apply find_rank_Some in Hs' as (p & Hp & <- & _). by apply list_elem_of_fmap_2.
  - rewrite length_fmap. lia.
Qed.
End validation.

(** ** Soundness of finalization *)

(** A choice per element of a list with distinct keys is a function of the
    key. *)
Lemma choose_by_key {A K Y} `{EqDecision K} (key : A -> K) (R : A -> Y -> Prop) (dummy : Y)
    (l : list A) :
  NoDup (key <$> l) -> (forall x, x ∈ l -> exists y, R x y) ->
  exists g : K -> Y, forall x, x ∈ l -> R x (g (key x)).
Proof.
  induction l as [|x l IH]; intros HN Hex.
  - exists (fun _ => dummy). intros x Hx. by apply not_elem_of_nil in Hx.
  - rewrite fmap_cons in HN. apply NoDup_cons in HN as [Hx HN].
    destruct IH as [g Hg]; [done|intros y Hy; apply Hex; by right|].
    destruct (Hex x ltac:(left)) as [y Hy].
    exists (fun k => if decide (k = key x) then y else g k).
    intros z [->|Hz]%elem_of_cons; [by rewrite decide_True|].
    rewrite decide_False; [by apply Hg|]. intros E. apply Hx. rewrite <- E.
    by apply list_elem_of_fmap_2.
Qed.

Section soundness.
Context `{SecpLaws}.
Local Open Scope secp_scope.
Add Field scalar_field_soundness : scalar_ft.

Context (c : HierarchicalThresholdConfig) (wf : wf_hierarchical c).
Context (round1 : list HtssDkgRound1Package) (g : ParticipantId -> list scalar).
Hypothesis round1_valid : validate_htss_dkg_round1_set round1 c = Ok tt.
Hypothesis g_committed : forall package, package ∈ round1 ->
  length (g (h1_participant_id package)) = N.to_nat (htc_threshold c) /\
  commits_to package (g (h1_participant_id package)).

Definition committed_polys : list (list scalar) := g ∘ h1_participant_id <$> round1.

Definition joint_polynomial (negated : bool) : list scalar :=
  poly_cond_negate negated (poly_sum (N.to_nat (htc_threshold c)) committed_polys).

Lemma committed_lengths :
  Forall (fun f => (length f <= N.to_nat (htc_threshold c))%nat) committed_polys.
Proof.
  apply Forall_fmap, Forall_forall. intros package Hp. simpl.
  destruct (g_committed package Hp) as [-> _]. lia.
Qed.

Lemma joint_polynomial_derivative negated r x :
  derivative_at (joint_polynomial negated) r x =
  scalar_conditional_negate negated
    (lsum ((fun package => derivative_at (g (h1_participant_id package)) r x) <$> round1)).
Proof.
  unfold joint_polynomial. rewrite derivative_at_cond_negate, derivative_at_poly_sum
    by apply committed_lengths. unfold committed_polys. by rewrite <- list_fmap_compose.
Qed.

Lemma group_key_loop l acc :
  (forall package, package ∈ l -> package ∈ round1) ->
  foldlM group_key_step acc l =
  Ok (acc ⊕ lsum ((fun package => derivative_at (g (h1_participant_id package)) 0 scalar_zero)
                    <$> l) · point_G).
Proof.
  revert acc; induction l as [|package l IH]; intros acc Hl.
  - cbn. by rewrite scale_zero_l, point_add_0_r.
  - cbn [foldlM]. destruct (g_committed package ltac:(apply Hl; left)) as (Hlen & Hc & Hnz).
    pose proof (threshold_fits c wf) as Ht.
    assert (Hstep : group_key_step acc package =
      Ok (acc ⊕ derivative_at (g (h1_participant_id package)) 0 scalar_zero · point_G)).
    { unfold group_key_step. rewrite Hc.
      change (derivative_at (g (h1_participant_id package)) 0 scalar_zero)
        with (poly_eval (g (h1_participant_id package)) scalar_zero).
      rewrite poly_eval_0. destruct (g (h1_participant_id package)) as [|a f]; [simpl in Hlen; lia|].
      apply Forall_cons in Hnz as [Ha _]. cbn [fmap list_fmap head ok_or].
      by rewrite ok_bind, commitment_point by done. }
    rewrite Hstep, ok_bind, IH by (intros p Hp; apply Hl; by right).
    f_equal. rewrite fmap_cons. unfold lsum. cbn [foldr].
    by rewrite scale_add_l, point_add_assoc.
Qed.

Lemma group_key_Ok x negated :
  htss_dkg_group_xonly_public_key round1 = Ok (x, negated) ->
  secret_key_of (poly_eval (joint_polynomial negated) scalar_zero) x.
Proof.
  unfold htss_dkg_group_xonly_public_key. rewrite group_key_loop by auto.
  rewrite ok_bind, point_add_0_l. set (S := lsum _).
  change (poly_eval (joint_polynomial negated) scalar_zero)
    with (derivative_at (joint_polynomial negated) 0 scalar_zero).
  rewrite joint_polynomial_derivative. fold S. intros Hk.
  apply bind_Ok in Hk as (P & HP & Hk). apply ok_or_Ok in HP. unfold point_non_zero in HP.
  destruct (point_is_zero (S · point_G)) eqn:Hz; [done|]. simplify_eq.
  apply point_is_zero_false, scale_G_nonzero in Hz.
  destruct (point_into_even_y (S · point_G)) as [Q b] eqn:E. simplify_eq.
  destruct (even_y_of_scale S Q negated Hz E) as (HQ & He & Hnz). rewrite HQ in He, Hnz.
  split_and!; [by apply scale_G_nonzero|done|by rewrite <- HQ].
Qed.

Lemma contribution_loop id r l : forall acc v,
  (forall package, package ∈ l -> round2_ok c id r package) ->
  foldlM (contribution_step (collect_map h1_participant_id round1)) acc l = Ok v ->
  v = acc + lsum ((fun package => derivative_at (g (h2_sender package)) (N.to_nat (rank_0 r))
                                    (scalar_from_u32 (pid_0 id))) <$> l).
Proof.
  induction l as [|package l IH]; intros acc v Hl Hf; cbn [foldlM] in Hf.
  - simplify_eq. cbn. ring.
  - apply bind_Ok in Hf as (acc' & Hs & Hf). unfold contribution_step in Hs.
    apply bind_Ok in Hs as (r1 & Hr1 & Hs). apply ok_or_Ok, collect_map_Some in Hr1 as [Hin Hid].
    apply bind_Ok in Hs as ([] & Hv & Hs). apply bind_Ok in Hs as (w & Hw & Hs).
    apply ok_or_Ok in Hw. injection Hs as <-.
    destruct (g_committed r1 Hin) as [Hlen Hc]. pose proof (threshold_fits c wf) as Ht.
    apply (verify_share_Ok package r1 _ Hc) in Hv as [_ Hv]; [|lia].
    destruct (Hl package ltac:(left)) as (Hrec & Hrk & _).
    rewrite Hw, Hrec, Hrk, Hid in Hv. injection Hv as ->.
    rewrite (IH _ _ ltac:(intros p Hp; apply Hl; by right) Hf), fmap_cons.
    unfold lsum. cbn [foldr]. ring.
Qed.

(** Senders of round two are the participants of round one. *)
Lemma senders_cover id r l :
  (forall package, package ∈ l -> round2_ok c id r package) ->
  NoDup (h2_sender <$> l) -> length l = length (htc_participants c) ->
  (h2_sender <$> l) ≡ₚ (h1_participant_id <$> round1).
Proof.
  intros Hl HN Hlen. apply validate_round1_Ok in round1_valid as (Hr1 & HN1 & Hlen1).
  rewrite (full_cover c (h2_sender <$> l)); [symmetry; apply (full_cover c)|..]; try done.
  - intros s (p & -> & Hp)%list_elem_of_fmap. destruct (Hr1 p Hp) as [Hf _].
    unfold ranked. by rewrite Hf.
  - by rewrite length_fmap.
  - intros s (p & -> & Hp)%list_elem_of_fmap. by apply (Hl p Hp).
  - by rewrite length_fmap.
Qed.

Lemma finalize_Ok id round2 gk share :
  finalize_htss_dkg id round1 round2 c = Ok (gk, share) ->
  exists x negated p,
    htss_dkg_group_xonly_public_key round1 = Ok (x, negated) /\ gk = mkGroupKey x [] /\
    p ∈ htc_participants c /\ rp_id p = id /\ share = share_of (joint_polynomial negated) p.
Proof.
  unfold finalize_htss_dkg, HierarchicalThresholdConfig_rank_of. intros Hf.
  apply bind_Ok in Hf as (r & Hr & Hf). apply ok_or_Ok in Hr.
  apply bind_Ok in Hf as ([] & _ & Hf).
  apply bind_Ok in Hf as ([] & (r' & Hr' & Hl & HN & Hlen)%validate_round2_Ok & Hf).
  simplify_eq. apply bind_Ok in Hf as (v & Hv & Hf).
  apply bind_Ok in Hf as ([x negated] & Hk & Hf).
  apply (contribution_loop id r) in Hv; [|done]. injection Hf as <- <-.
  apply find_rank_Some in Hr as (p & Hp & <- & <-).
  exists x, negated, p. split_and!; try done. unfold share_of. do 2 f_equal.
  rewrite joint_polynomial_derivative.
  assert (Hsum : v = lsum ((fun package => derivative_at (g (h1_participant_id package))
            (N.to_nat (rank_0 (rp_rank p))) (scalar_from_u32 (pid_0 (rp_id p)))) <$> round1)).
  { rewrite Hv.
    set (h := fun s => derivative_at (g s) (N.to_nat (rank_0 (rp_rank p)))
                         (scalar_from_u32 (pid_0 (rp_id p)))).
    transitivity (lsum (h <$> (h2_sender <$> round2))).
    { rewrite <- list_fmap_compose.
      transitivity (scalar_zero + lsum (h ∘ h2_sender <$> round2)); [done|ring]. }
    transitivity (lsum (h <$> (h1_participant_id <$> round1))).
    { apply lsum_Permutation. by rewrite (senders_cover (rp_id p) (rp_rank p) round2 Hl HN Hlen). }
    by rewrite <- list_fmap_compose. }
  rewrite <- Hsum, scalar_cond_negate. by destruct negated.
Qed.
End soundness.

(** ** The honest ceremony *)

Lemma NoDup_fmap_same {A B} (f : A -> B) (l : list A) x y :
  NoDup (f <$> l) -> x ∈ l -> y ∈ l -> f x = f y -> x = y.
Proof.
  induction l as [|z l IH]; intros HN Hx Hy E; [by apply not_elem_of_nil in Hx|].
  rewrite fmap_cons in HN. apply NoDup_cons in HN as [Hz HN].
  apply elem_of_cons in Hx as [->|Hx], Hy as [->|Hy]; try done.
  - destruct Hz. rewrite E. by apply list_elem_of_fmap_2.
  - destruct Hz. rewrite <- E. by apply list_elem_of_fmap_2.
  - by apply IH.
Qed.

Lemma filter_fmap_unique {A B C} (key : A -> C) `{EqDecision C} (h : A -> B) (kb : B -> C)
    (l : list A) x :
  (forall y, kb (h y) = key y) -> NoDup (key <$> l) -> x ∈ l ->
  filter (fun b => kb b = key x) (h <$> l) = [h x].
Proof.
  intros Hkb. induction l as [|y l IH]; intros HN Hx; [by apply not_elem_of_nil in Hx|].
  rewrite fmap_cons in HN. apply NoDup_cons in HN as [Hy HN]. rewrite fmap_cons, filter_cons.
  apply elem_of_cons in Hx as [->|Hx].
  - rewrite decide_True by done. f_equal. apply filter_none.
    intros b (z & -> & Hz)%list_elem_of_fmap Hb. rewrite Hkb in Hb. apply Hy. rewrite <- Hb.
    by apply list_elem_of_fmap_2.
  - rewrite decide_False; [by apply IH|]. rewrite Hkb. intros E. apply Hy. rewrite E.
    by apply list_elem_of_fmap_2.
Qed.

Section ceremony.
Context `{SecpLaws}.
Local Open Scope secp_scope.
Add Field scalar_field_ceremony : scalar_ft.

Context (c : HierarchicalThresholdConfig) (wf : wf_hierarchical c).

Lemma participants_distinct : NoDup (rp_id <$> htc_participants c).
Proof.
  destruct wf as (_ & _ & HN). unfold distinct_ids in HN.
  rewrite (list_fmap_compose rp_id pid_0) in HN. by apply NoDup_pids.
Qed.

(** A participant together with the polynomial it drew. *)
Definition contributor : Type := RankedParticipant * list scalar.

Definition good_contributor (k : contributor) : Prop :=
  k.1 ∈ htc_participants c /\ length k.2 = N.to_nat (htc_threshold c) /\
  Forall (fun a => a <> scalar_zero) k.2.

Definition round1_of (k : contributor) : HtssDkgRound1Package :=
  mkHtssDkgRound1Package (rp_id k.1) (rank_0 (rp_rank k.1)) (commitment <$> k.2).

Definition state_of (k : contributor) : HtssDkgRound1State :=
  mkHtssDkgRound1State (round1_of k) (scalar_to_bytes <$> k.2).

Definition round2_of (p : RankedParticipant) (k : contributor) : HtssDkgRound2Package :=
  mkHtssDkgRound2Package (rp_id k.1) (rp_id p) (rank_0 (rp_rank p))
    (scalar_to_bytes (derivative_at k.2 (N.to_nat (rank_0 (rp_rank p)))
                        (scalar_from_u32 (pid_0 (rp_id p))))).

Lemma participant_rank p :
  p ∈ htc_participants c -> find_rank (htc_participants c) (rp_id p) = Some (rp_rank p).
Proof. intros Hp. apply find_rank_elem; [apply wf|done]. Qed.

Lemma round1_single p s :
  p ∈ htc_participants c ->
  exists f s', htss_dkg_round1 (rp_id p) c s = (s', Ok (state_of (p, f))) /\
               good_contributor (p, f).
Proof.
  intros Hp.
  destruct (draws_total (seq 0 (N.to_nat (htc_threshold c))) s) as (f & s' & Hf & Hl & Hnz).
  exists f, s'. split.
  - unfold htss_dkg_round1, HierarchicalThresholdConfig_rank_of.
    rewrite st_lift_bind, participant_rank by done.
    cbn [ok_or]. by rewrite (st_bind_Ok _ _ _ _ _ Hf).
  - rewrite length_seq in Hl. by split_and!.
Qed.

Lemma round1_total ps : forall s,
  (forall p, p ∈ ps -> p ∈ htc_participants c) ->
  exists ks s', mapM (fun p => htss_dkg_round1 (rp_id p) c) ps s =
                  (s', Ok (state_of <$> ks)) /\
                ks.*1 = ps /\ Forall good_contributor ks.
Proof.
  induction ps as [|p ps IH]; intros s Hps; [by exists [], s|].
  destruct (round1_single p s) as (f & s1 & Hr & Hgood); [apply Hps; left|].
  destruct (IH s1) as (ks & s' & Hm & Hk & Hg); [intros q Hq; apply Hps; by right|].
  exists ((p, f) :: ks), s'. rewrite st_mapM_cons.
  rewrite (st_bind_Ok _ _ _ _ _ Hr), (st_bind_Ok _ _ _ _ _ Hm). split_and!; [done| |by constructor].
  rewrite fmap_cons. by rewrite Hk.
Qed.

Context (ks : list contributor).
Hypothesis ks_participants : ks.*1 = htc_participants c.
Hypothesis ks_good : Forall good_contributor ks.

Lemma good k : k ∈ ks -> good_contributor k.
Proof. rewrite Forall_forall in ks_good. apply ks_good. Qed.

Lemma ks_distinct : NoDup (rp_id ∘ fst <$> ks).
Proof. rewrite list_fmap_compose, ks_participants. apply participants_distinct. Qed.

Lemma round1_valid_set : validate_htss_dkg_round1_set (round1_of <$> ks) c = Ok tt.
Proof.
  apply validate_round1_Ok. split_and!.
  - intros package (k & -> & Hk)%list_elem_of_fmap. destruct (good k Hk) as (Hp & Hl & Hnz).
    split; [|by exists k.2]. cbn. rewrite (participant_rank _ Hp).
    by destruct (rp_rank k.1).
  - rewrite <- list_fmap_compose. apply ks_distinct.
  - by rewrite <- ks_participants, !length_fmap.
Qed.

Lemma round2_total k :
  k ∈ ks ->
  htss_dkg_round2 (state_of k) (round1_of <$> ks) c =
  Ok ((fun p => round2_of p k) <$> htc_participants c).
Proof.
  intros Hk. destruct (good k Hk) as (Hp & Hl & Hnz). pose proof (threshold_fits c wf) as Ht.
  unfold htss_dkg_round2. rewrite round1_valid_set. cbv zeta. rewrite ok_bind.
  rewrite (proj2 (existsb_exists _ _)).
  2: { exists (round1_of k). split; [apply list_elem_of_In; by apply list_elem_of_fmap_2|].
       by apply bool_decide_eq_true. }
  cbn [negb reject_if state_of h1s_secret_coefficient_bytes]. rewrite ok_bind, length_fmap, Hl.
  rewrite Nat.eqb_refl. cbn [negb reject_if]. rewrite ok_bind.
  replace (mapM _ (scalar_to_bytes <$> k.2)) with (Ok k.2 : Result (list scalar)).
  2: { symmetry. apply mapM_Ok, Forall2_fmap_l, Forall_Forall2_diag, Forall_forall.
       intros a _. cbn. by rewrite scalar_from_to_bytes. }
  rewrite ok_bind. apply mapM_pure. intros p _. unfold round2_of.
  by rewrite polynomial_derivative_value_spec by lia.
Qed.

Definition all_round2 : list HtssDkgRound2Package :=
  concat ((fun k => (fun p => round2_of p k) <$> htc_participants c) <$> ks).

Lemma packages_for p :
  p ∈ htc_participants c ->
  filter (fun package => h2_recipient package = rp_id p) all_round2 = round2_of p <$> ks.
Proof.
  intros Hp. unfold all_round2. clear ks_participants ks_good.
  induction ks as [|k l IH]; [done|]. rewrite !fmap_cons. cbn [concat].
  rewrite filter_app, IH.
  by rewrite (filter_fmap_unique rp_id (fun p => round2_of p k) h2_recipient)
    by (done || apply participants_distinct).
Qed.

(** The packages for one recipient may arrive in any order. *)
Lemma round2_valid_set p l :
  p ∈ htc_participants c -> l ≡ₚ ks ->
  validate_htss_dkg_round2_set (rp_id p) (round2_of p <$> l) c = Ok tt.
Proof.
  intros Hp Hl. apply validate_round2_Ok. exists (rp_rank p). split_and!.
  - by apply participant_rank.
  - intros package (k & -> & Hk)%list_elem_of_fmap. rewrite Hl in Hk. split_and!; [done|done|].
    destruct (good k Hk) as (Hkp & _). unfold ranked. cbn.
    by rewrite participant_rank.
  - rewrite <- list_fmap_compose. change (h2_sender ∘ round2_of p) with (fun k : contributor => rp_id k.1).
    rewrite Hl. apply ks_distinct.
  - by rewrite length_fmap, Hl, <- ks_participants, length_fmap.
Qed.

Lemma contributions_total p l : forall acc,
  (forall k, k ∈ l -> k ∈ ks) ->
  exists v, foldlM (contribution_step (collect_map h1_participant_id (round1_of <$> ks))) acc
              (round2_of p <$> l) = Ok v.
Proof.
  induction l as [|k l IH]; intros acc Hl; [by exists acc|].
  rewrite fmap_cons. cbn [foldlM]. destruct (good k ltac:(apply Hl; left)) as (Hp & Hlen & Hnz).
  pose proof (threshold_fits c wf) as Ht.
  assert (Hlook : collect_map h1_participant_id (round1_of <$> ks) !! rp_id k.1 =
                  Some (round1_of k)).
  { change (rp_id k.1) with (h1_participant_id (round1_of k)). apply collect_map_elem.
    - rewrite <- list_fmap_compose. apply ks_distinct.
    - apply list_elem_of_fmap_2, Hl. left. }
  assert (Hv : verify_htss_dkg_derivative_share (round2_of p k) (round1_of k) = Ok tt).
  { apply (verify_share_Ok _ _ k.2); [done|lia|]. split; [done|].
    cbn. by rewrite scalar_from_to_bytes. }
  assert (Hs : exists v, contribution_step (collect_map h1_participant_id (round1_of <$> ks)) acc
                           (round2_of p k) = Ok v).
  { unfold contribution_step. change (h2_sender (round2_of p k)) with (rp_id k.1).
    rewrite Hlook. cbn [ok_or]. rewrite ok_bind, Hv, ok_bind.
    cbn [round2_of h2_share_value_bytes]. rewrite scalar_from_to_bytes. by eexists. }
  destruct Hs as [v ->]. rewrite ok_bind. apply IH. intros q Hq. apply Hl. by right.
Qed.
(** The polynomials by participant. *)
Lemma contributor_polynomials :
  exists h : ParticipantId -> list scalar, forall package, package ∈ (round1_of <$> ks) ->
    length (h (h1_participant_id package)) = N.to_nat (htc_threshold c) /\
    commits_to package (h (h1_participant_id package)).
Proof.
  apply (choose_by_key h1_participant_id
           (fun package f => length f = N.to_nat (htc_threshold c) /\ commits_to package f) []).
  - rewrite <- list_fmap_compose. apply ks_distinct.
  - intros package (k & -> & Hk)%list_elem_of_fmap. destruct (good k Hk) as (_ & Hl & Hnz).
    by exists k.2.
Qed.

Lemma finalize_total p l :
  p ∈ htc_participants c -> l ≡ₚ ks ->
  match htss_dkg_group_xonly_public_key (round1_of <$> ks) with
  | Ok (x, negated) => exists v,
      finalize_htss_dkg (rp_id p) (round1_of <$> ks) (round2_of p <$> l) c = Ok (mkGroupKey x [], v)
  | Err e => finalize_htss_dkg (rp_id p) (round1_of <$> ks) (round2_of p <$> l) c = Err e
  | Panic => False
  end.
Proof.
  intros Hp Hl. destruct contributor_polynomials as [h Hh].
  destruct (contributions_total p l scalar_zero) as [v Hv]; [intros k; by rewrite Hl|].
  unfold finalize_htss_dkg, HierarchicalThresholdConfig_rank_of.
  rewrite participant_rank by done. cbn [ok_or]. rewrite ok_bind, round1_valid_set, ok_bind.
  rewrite round2_valid_set, ok_bind by done. cbv zeta. rewrite Hv, ok_bind.
  unfold htss_dkg_group_xonly_public_key. rewrite (group_key_loop c wf _ h Hh) by auto.
  rewrite ok_bind. destruct (point_non_zero _) as [P|]; cbn [ok_or]; [|done].
  rewrite ok_bind. destruct (point_into_even_y P) as [Q b]. by eexists.
Qed.

Lemma finalize_loop F gk (r1 : list HtssDkgRound1Package) (r2 : list HtssDkgRound2Package) l :
  (forall p, p ∈ l ->
     finalize_htss_dkg (rp_id p) r1
       (filter (fun package => h2_recipient package = rp_id p) r2) c = Ok (gk, share_of F p)) ->
  forall gk0 acc, gk0 = None \/ gk0 = Some gk ->
  foldlM (finalize_step c r1 r2) (gk0, acc) l =
  Ok (match l with [] => gk0 | _ => Some gk end, acc ++ (share_of F <$> l)).
Proof.
  induction l as [|p l IH]; intros Hl gk0 acc Hgk; [cbn; by rewrite app_nil_r|].
  cbn [foldlM].
  assert (Hs : finalize_step c r1 r2 (gk0, acc) p = Ok (Some gk, acc ++ [share_of F p])).
  { unfold finalize_step. rewrite Hl, ok_bind by left.
    destruct Hgk as [->| ->]; [done|]. by rewrite bool_decide_eq_false_2 by naive_solver. }
  rewrite Hs, ok_bind, IH by (auto; intros q Hq; apply Hl; by right).
  rewrite fmap_cons, <- app_assoc. by destruct l.
Qed.

(** The outcome of the honest ceremony, in whatever order a participant receives
    its packages: everyone gets a share of one polynomial, or everyone fails with
    the zero-key error. *)
Lemma honest_finalize :
  (exists x F, length F = N.to_nat (htc_threshold c) /\
     secret_key_of (poly_eval F scalar_zero) x /\
     forall p l, p ∈ htc_participants c -> l ≡ₚ ks ->
       finalize_htss_dkg (rp_id p) (round1_of <$> ks) (round2_of p <$> l) c =
       Ok (mkGroupKey x [], share_of F p)) \/
  (forall p l, p ∈ htc_participants c -> l ≡ₚ ks ->
     finalize_htss_dkg (rp_id p) (round1_of <$> ks) (round2_of p <$> l) c =
     Err (Protocol "HTSS DKG group key cannot be zero")).
Proof.
  destruct contributor_polynomials as [h Hh].
  destruct (htss_dkg_group_xonly_public_key (round1_of <$> ks)) as [[x negated]|e|] eqn:Hk.
  - left. exists x, (joint_polynomial c (round1_of <$> ks) h negated). split_and!.
    + unfold joint_polynomial. by rewrite length_poly_cond_negate, length_poly_sum.
    + by apply (group_key_Ok c wf _ h Hh).
    + intros p l Hp Hl. pose proof (finalize_total p l Hp Hl) as Hv. rewrite Hk in Hv.
      destruct Hv as [v Hv]. rewrite Hv. do 2 f_equal.
      apply (finalize_Ok c wf _ h round1_valid_set Hh) in Hv
        as (x' & b & q & Hk' & _ & Hq & Hid & ->).
      rewrite Hk in Hk'. injection Hk' as <- <-. f_equal.
      by apply (NoDup_fmap_same rp_id (htc_participants c)); [apply participants_distinct|..].
  - right. intros p l Hp Hl. pose proof (finalize_total p l Hp Hl) as Hv. rewrite Hk in Hv.
    rewrite Hv. f_equal. unfold htss_dkg_group_xonly_public_key in Hk.
    rewrite (group_key_loop c wf _ h Hh) in Hk by auto. rewrite ok_bind in Hk.
    destruct (point_non_zero _) as [P|]; cbn [ok_or] in Hk; [|by injection Hk as <-].
    rewrite ok_bind in Hk. by destruct (point_into_even_y P).
  - exfalso. assert (Hne : exists p, p ∈ htc_participants c).
    { destruct wf as (Ht & _). destruct (htc_participants c) as [|p ps]; [simpl in Ht; lia|].
      exists p. left. }
    destruct Hne as [p Hp]. pose proof (finalize_total p ks Hp (Permutation_refl _)) as Hv.
    by rewrite Hk in Hv.
Qed.

Lemma ceremony_finalizes :
  (exists x F, length F = N.to_nat (htc_threshold c) /\
     secret_key_of (poly_eval F scalar_zero) x /\
     foldlM (finalize_step c (round1_of <$> ks) all_round2) (None, []) (htc_participants c) =
       Ok (Some (mkGroupKey x []), share_of F <$> htc_participants c)) \/
  foldlM (finalize_step c (round1_of <$> ks) all_round2) (None, []) (htc_participants c) =
    Err (Protocol "HTSS DKG group key cannot be zero").
Proof.
  assert (Hne : exists p ps, htc_participants c = p :: ps).
  { destruct wf as (Ht & _). destruct (htc_participants c); [simpl in Ht; lia|eauto]. }
  destruct honest_finalize as [(x & F & Hl & Hsk & Hf)|Hf]; [left|right].
  - exists x, F. split_and!; [done|done|].
    rewrite (finalize_loop F (mkGroupKey x [])); [by destruct Hne as (p & ps & ->)| |by left].
    intros p Hp. rewrite packages_for by done. by apply Hf.
  - destruct Hne as (p & ps & Heq). assert (Hp : p ∈ htc_participants c) by (rewrite Heq; left).
    assert (Hs : finalize_step c (round1_of <$> ks) all_round2 (None, []) p =
                 Err (Protocol "HTSS DKG group key cannot be zero")).
    { unfold finalize_step. by rewrite packages_for, Hf by done. }
    rewrite Heq. cbn [foldlM]. by rewrite Hs.
Qed.
End ceremony.

(** ** The claims *)

Section claims.
Context `{SecpLaws}.

Lemma distributed_keygen_cases c g :
  wf_hierarchical c ->
  exists g',
    (exists ks, run_distributed_htss_keygen c g = (g', Ok ks) /\ valid_key_set c ks) \/
    run_distributed_htss_keygen c g =
      (g', Err (Protocol "HTSS DKG group key cannot be zero")).
Proof.
  intros Hwf.
  destruct (round1_total c Hwf (htc_participants c) g ltac:(auto)) as (ks & g' & Hm & Hk & Hg).
  exists g'. unfold run_distributed_htss_keygen.
  rewrite (st_bind_Ok _ _ _ _ _ Hm). cbv zeta. rewrite <- list_fmap_compose.
  change (h1s_package ∘ state_of) with round1_of.
  rewrite st_lift_bind.
  replace (mapM _ (state_of <$> ks)) with
    (Ok ((fun k => (fun p => round2_of p k) <$> htc_participants c) <$> ks)
      : Result (list (list HtssDkgRound2Package))).
  2: { symmetry. apply mapM_Ok, Forall2_fmap, Forall_Forall2_diag, Forall_forall.
       intros k Hk'. by apply round2_total. }
  fold (all_round2 c ks). rewrite st_lift_bind.
  destruct (ceremony_finalizes c Hwf ks Hk Hg) as [(x & F & Hl & Hsk & ->)|Hf]; [left|right].
  - rewrite st_lift_bind. cbn [ok_or]. eexists. split; [done|]. by exists F.
  - by rewrite Hf.
Qed.

(** Whatever the packages, everyone who finalizes against the same round one gets
    a share of one polynomial. *)
Lemma finalized_shares c round1_packages :
  wf_hierarchical c ->
  exists F, length F = N.to_nat (htc_threshold c) /\
    forall id round2_packages group_key share,
      finalize_htss_dkg id round1_packages round2_packages c = Ok (group_key, share) ->
      secret_key_of (poly_eval F scalar_zero) (gk_xonly_public_key group_key) /\
      exists p, p ∈ htc_participants c /\ rp_id p = id /\ share = share_of F p.
Proof.
  intros Hwf.
  destruct (validate_htss_dkg_round1_set round1_packages c) as [[]| |] eqn:Hv.
  2-3: exists (replicate (N.to_nat (htc_threshold c)) scalar_zero);
    split; [apply length_replicate|]; intros id r2 gk share Hf; exfalso;
    unfold finalize_htss_dkg in Hf; apply bind_Ok in Hf as (r & _ & Hf);
    rewrite Hv in Hf; discriminate Hf.
  apply validate_round1_Ok in Hv as Hr1. destruct Hr1 as (Hr1 & HN & _).
  destruct (choose_by_key h1_participant_id
    (fun package f => length f = N.to_nat (htc_threshold c) /\ commits_to package f) []
    round1_packages HN) as [h Hh]; [intros p Hp; by apply Hr1|].
  destruct (htss_dkg_group_xonly_public_key round1_packages) as [[x b]| |] eqn:Hk.
  - exists (joint_polynomial c round1_packages h b). split.
    { unfold joint_polynomial. by rewrite length_poly_cond_negate, length_poly_sum. }
    intros id r2 gk share Hf. apply (finalize_Ok c Hwf _ h Hv Hh) in Hf
      as (x' & b' & p & Hk' & -> & Hp & Hid & ->).
    rewrite Hk in Hk'. injection Hk' as <- <-. split; [|by exists p].
    by apply (group_key_Ok c Hwf _ h Hh).
  - exists (replicate (N.to_nat (htc_threshold c)) scalar_zero). split; [apply length_replicate|].
    intros id r2 gk share Hf. apply (finalize_Ok c Hwf _ h Hv Hh) in Hf
      as (? & ? & ? & ? & _). congruence.
  - exists (replicate (N.to_nat (htc_threshold c)) scalar_zero). split; [apply length_replicate|].
    intros id r2 gk share Hf. apply (finalize_Ok c Hwf _ h Hv Hh) in Hf
      as (? & ? & ? & ? & _). congruence.
Qed.

(** C3: Feldman verification is exact.  A round-one package of a validated set
    commits to one polynomial [f] with as many coefficients as the threshold, and
    [verify_htss_dkg_derivative_share] accepts a round-two package exactly when it
    names that sender and carries the scalar [f^(rank)(recipient)]. *)
Theorem derivative_share_verification_exact t ps c round1_packages round1 :
  HierarchicalThresholdConfig_new t ps = Ok c ->
  validate_htss_dkg_round1_set round1_packages c = Ok tt -> round1 ∈ round1_packages ->
  exists f, length f = N.to_nat (htc_threshold c) /\
    h1_commitment_bytes round1 = (fun a => point_to_bytes (point_scale a point_G)) <$> f /\
    forall package,
      verify_htss_dkg_derivative_share package round1 = Ok tt <->
      h2_sender package = h1_participant_id round1 /\
      scalar_from_bytes (h2_share_value_bytes package) =
        Some (derivative_at f (N.to_nat (h2_recipient_rank package))
                (scalar_from_u32 (pid_0 (h2_recipient package)))).
Proof.
  intros Hwf%hierarchical_new_wf (Hr & _ & _)%validate_round1_Ok Hin.
  pose proof (threshold_fits c Hwf) as Ht.
  destruct (Hr round1 Hin) as (_ & f & Hl & Hc). exists f. split_and!; [done|apply Hc|].
  intros package. apply verify_share_Ok; [done|lia].
Qed.

(** C2: participants that finalize agree.  For any round-one packages, honest or
    not, there is one polynomial with as many coefficients as the threshold such
    that whoever finalizes against those packages gets its own derivative share of
    that polynomial and the group key whose secret is the constant term. *)
Theorem finalized_shares_consistent t ps c round1_packages :
  HierarchicalThresholdConfig_new t ps = Ok c ->
  exists F, length F = N.to_nat (htc_threshold c) /\
    forall id round2_packages group_key share,
      finalize_htss_dkg id round1_packages round2_packages c = Ok (group_key, share) ->
      secret_key_of (poly_eval F scalar_zero) (gk_xonly_public_key group_key) /\
      exists p, p ∈ htc_participants c /\ rp_id p = id /\ share = share_of F p.
Proof. intros Hwf%hierarchical_new_wf. by apply finalized_shares. Qed.

(** C6: the in-process ceremony is correct.  For every accepted policy and every
    generator state [run_distributed_htss_keygen] either returns a sharing of its
    group key's secret, or reports that the contributions cancelled to the zero
    key; no other error and no panic is possible. *)
Theorem distributed_keygen_correct t ps c g :
  HierarchicalThresholdConfig_new t ps = Ok c ->
  exists g',
    (exists ks, run_distributed_htss_keygen c g = (g', Ok ks) /\ valid_key_set c ks) \/
    run_distributed_htss_keygen c g =
      (g', Err (Protocol "HTSS DKG group key cannot be zero")).
Proof. intros Hwf%hierarchical_new_wf. by apply distributed_keygen_cases. Qed.
End claims.

(** ** Concrete runs *)

Section witnesses.
Local Existing Instances small_group small_group_laws.

Lemma distributed_keygen_correct_witness :
  exists g' ks, run_distributed_htss_keygen demo_config demo_rng = (g', Ok ks) /\
                valid_key_set demo_config ks.
Proof.
  destruct (distributed_keygen_correct 2 demo_participants demo_config demo_rng demo_config_new)
    as [g' [(ks & E & Hv)|E]]; [exists g', ks; split; [exact E|exact Hv]|].
  exfalso. assert (Hok : is_ok (run_distributed_htss_keygen demo_config demo_rng).2 = true)
    by (vm_compute; reflexivity).
  rewrite E in Hok. discriminate Hok.
Defined.

(** The first contributor of a ceremony, checked against its own shares. *)
Lemma derivative_share_verification_exact_witness :
  exists round1 f package, length f = 2 /\
    h1_commitment_bytes round1 = (fun a => point_to_bytes (point_scale a point_G)) <$> f /\
    verify_htss_dkg_derivative_share package round1 = Ok tt.
Proof.
  pose proof (hierarchical_new_wf _ _ _ demo_config_new) as Hwf.
  destruct (round1_total demo_config Hwf demo_participants demo_rng ltac:(auto))
    as (ks & g' & _ & Hk & Hg).
  destruct ks as [|k ks]; [done|].
  destruct (derivative_share_verification_exact 2 demo_participants demo_config
              (round1_of <$> k :: ks) (round1_of k) demo_config_new
              (round1_valid_set demo_config Hwf (k :: ks) Hk Hg) ltac:(left))
    as (f & Hl & Hc & Hiff).
  exists (round1_of k), f, (mkHtssDkgRound2Package (rp_id k.1) (mkParticipantId 2) 1
    (scalar_to_bytes (derivative_at f 1 (scalar_from_u32 2)))).
  split_and!; [exact Hl|exact Hc|]. apply Hiff. split; [reflexivity|].
  apply scalar_from_to_bytes.
Defined.

(** Two participants of one ceremony, one of which receives its packages in
    reverse order. *)
Lemma finalized_shares_consistent_witness :
  exists (F : list scalar) round1 round2 round2' gk gk' share share' p p',
    finalize_htss_dkg (mkParticipantId 1) round1 round2 demo_config = Ok (gk, share) /\
    finalize_htss_dkg (mkParticipantId 2) round1 round2' demo_config = Ok (gk', share') /\
    length F = 2 /\ secret_key_of (poly_eval F scalar_zero) (gk_xonly_public_key gk) /\
    secret_key_of (poly_eval F scalar_zero) (gk_xonly_public_key gk') /\
    share = share_of F p /\ share' = share_of F p'.
Proof.
  set (states := match mapM (fun p => htss_dkg_round1 (rp_id p) demo_config) demo_participants
                         demo_rng with (_, Ok states) => states | _ => [] end).
  set (round1 := h1s_package <$> states).
  set (round2 := match mapM (fun state => htss_dkg_round2 state round1 demo_config) states with
                 | Ok packages => concat packages | _ => [] end).
  set (packages := fun i => filter (fun package => h2_recipient package = mkParticipantId i) round2).
  destruct (finalized_shares_consistent 2 demo_participants demo_config round1 demo_config_new)
    as (F & Hl & HF).
  destruct (finalize_htss_dkg (mkParticipantId 1) round1 (packages 1%N) demo_config)
    as [[gk share]| |] eqn:E1; [|vm_compute in E1; discriminate E1..].
  destruct (finalize_htss_dkg (mkParticipantId 2) round1 (reverse (packages 2%N)) demo_config)
    as [[gk' share']| |] eqn:E2; [|vm_compute in E2; discriminate E2..].
  destruct (HF _ _ _ _ E1) as (Hk & p & _ & _ & Hs).
  destruct (HF _ _ _ _ E2) as (Hk' & p' & _ & _ & Hs').
  exists F, round1, (packages 1%N), (reverse (packages 2%N)), gk, gk', share, share', p, p'.
  split_and!; assumption.
Defined.
End witnesses.
