(* ===== verification/HtssSigning.v ===== *)
(** HTSS threshold signing of [crates/dkgkit-frost/src/lib.rs]: nonces,
    signature shares weighted by Birkhoff coefficients, aggregation, the variants
    for a tweaked Taproot output key and the local drivers.

    The main results: the aggregate of honest shares verifies under the group key
    (under the tweaked output key for the output variant), in whatever order the
    packages arrive; and aggregation never returns a signature that does not
    verify. *)

From Stdlib Require Import Ascii String Field.
From stdpp Require Import base numbers countable gmap strings list.
From S2P Require Import Prelude Core Secp SmallGroup LinearSystem Packages SignerPolicy Birkhoff.
From S2P Require Import HtssKeygen HtssDkg.

Section operations.
Context `{Secp}.

Definition htss_nonce (signing_session_id : SessionId) (local_share : HtssLocalKeyShare) :
  ST rng DkgKitError HtssLocalNonce :=
  nonce ← draw_scalar;
  let public_nonce := point_scale nonce point_G in
  mret (mkHtssLocalNonce
          (mkHtssNoncePackage (hks_participant_id local_share) signing_session_id
             (point_to_bytes public_nonce))
          (scalar_to_bytes nonce)).

(** The loop that both set validations run: every package belongs to the signer
    set, no participant repeats and all sessions agree. *)
Definition session_set_step (what : string) (signer_set : list ParticipantId)
    (state : gset ParticipantId * option SessionId) (item : ParticipantId * SessionId) :
  Result (gset ParticipantId * option SessionId) :=
  let '(seen, session_id) := state in
  let '(participant_id, signing_session_id) := item in
  reject_if (negb (bool_decide (participant_id ∈ signer_set)))
    (Protocol ("HTSS " +:+ what +:+ " participant " +:+ dec (pid_0 participant_id)
               +:+ " is not in signer set"));;
  if decide (participant_id ∈ seen) then Err (DuplicateParticipantId (pid_0 participant_id))
  else
    match session_id with
    | Some existing =>
        reject_if (bool_decide (existing <> signing_session_id))
          (Protocol ("HTSS " +:+ what +:+ " session mismatch"));;
        Ok ({[participant_id]} ∪ seen, Some existing)
    | None => Ok ({[participant_id]} ∪ seen, Some signing_session_id)
    end.

Definition validate_session_set (what : string) (items : list (ParticipantId * SessionId))
    (signer_set : list ParticipantId) : Result unit :=
  '(seen, _) ← foldlM (session_set_step what signer_set) (∅, None) items;
  reject_if (negb (size seen =? length signer_set))
    (Protocol ("HTSS " +:+ what +:+ " set mismatch: have " +:+ dec_nat (size seen)
               +:+ ", need " +:+ dec_nat (length signer_set))).

Definition validate_htss_nonce_set (nonces : list HtssNoncePackage)
    (signer_set : list ParticipantId) : Result unit :=
  validate_session_set "nonce"
    ((fun n => (hnp_participant_id n, hnp_signing_session_id n)) <$> nonces) signer_set.

Definition validate_htss_signature_share_set (shares : list HtssSignatureSharePackage)
    (signer_set : list ParticipantId) : Result unit :=
  validate_session_set "signature share"
    ((fun s => (hsp_participant_id s, hsp_signing_session_id s)) <$> shares) signer_set.

Record AggregateHtssNonce := mkAggregateHtssNonce {
  ahn_signing_session_id : SessionId;
  ahn_even_public_nonce : point;
  ahn_negated : bool;
}.

Definition add_public_nonce (aggregate : point) (nonce : HtssNoncePackage) : Result point :=
  bs ← nonce_public_nonce_bytes nonce;
  public_nonce ← ok_or (point_from_bytes bs)
                   (Protocol ("invalid HTSS public nonce for participant "
                              +:+ dec (pid_0 (hnp_participant_id nonce))));
  Ok (point_add aggregate public_nonce).

Definition aggregate_htss_public_nonce (nonces : list HtssNoncePackage)
    (signer_set : list ParticipantId) : Result AggregateHtssNonce :=
  validate_htss_nonce_set nonces signer_set;;
  first ← ok_or (head nonces) (Protocol "missing HTSS nonce set");
  aggregate ← foldlM add_public_nonce point_zero nonces;
  nonzero ← ok_or (point_non_zero aggregate) (Protocol "HTSS aggregate nonce cannot be zero");
  let '(even_public_nonce, negated) := point_into_even_y nonzero in
  Ok (mkAggregateHtssNonce (hnp_signing_session_id first) even_public_nonce negated).

(** The body that [htss_sign_share] and [htss_sign_share_for_output] share: they
    differ in the key the challenge commits to and in what happens to the
    challenge before it multiplies the weighted share. *)
Definition htss_share_for_key (xonly : bytes) (key_error : string)
    (adjust_challenge : scalar -> scalar) (digest : bytes) (local_share : HtssLocalKeyShare)
    (nonce : HtssLocalNonce) (nonces : list HtssNoncePackage)
    (signer_set : list ParticipantId) (config : HierarchicalThresholdConfig) :
  Result HtssSignatureSharePackage :=
  let own := hks_participant_id local_share in
  let nonce_owner := hnp_participant_id (hln_package nonce) in
  reject_if (bool_decide (own <> nonce_owner))
    (Protocol ("HTSS nonce participant mismatch: share " +:+ dec (pid_0 own)
               +:+ ", nonce " +:+ dec (pid_0 nonce_owner)));;
  reject_if (negb (bool_decide (own ∈ signer_set)))
    (Protocol ("participant " +:+ dec (pid_0 own) +:+ " is not in HTSS signer set"));;
  points ← birkhoff_points_from_hierarchical_signer_set signer_set config;
  coefficients ← birkhoff_interpolation_coefficients points;
  coefficient ← ok_or (List.find (fun co => bool_decide (bc_participant_id co = own)) coefficients)
                      (MissingRankedParticipant (pid_0 own));
  reject_if (negb (hks_rank local_share =? bc_derivative_order coefficient)%N)
    (Protocol ("HTSS share rank mismatch for participant " +:+ dec (pid_0 own)
               +:+ ": share rank " +:+ dec (hks_rank local_share)
               +:+ ", coefficient rank " +:+ dec (bc_derivative_order coefficient)));;
  aggregate_nonce ← aggregate_htss_public_nonce nonces signer_set;
  reject_if (bool_decide (ahn_signing_session_id aggregate_nonce
                          <> hnp_signing_session_id (hln_package nonce)))
    (Protocol "HTSS aggregate nonce session mismatch");;
  public_key ← ok_or (point_from_xonly_bytes xonly) (Protocol key_error);
  let challenge := schnorr_challenge (ahn_even_public_nonce aggregate_nonce) public_key
                     (frost_message digest) in
  secret_nonce ← ok_or (scalar_from_bytes (hln_secret_nonce_bytes nonce))
                   (Protocol ("invalid HTSS secret nonce scalar for participant "
                              +:+ dec (pid_0 nonce_owner)));
  let secret_nonce := scalar_conditional_negate (ahn_negated aggregate_nonce) secret_nonce in
  coefficient_value ← ok_or (scalar_from_bytes (bc_coefficient_bytes coefficient))
                        (Protocol ("invalid Birkhoff coefficient scalar for participant "
                                   +:+ dec (pid_0 (bc_participant_id coefficient))));
  share_value ← ok_or (scalar_from_bytes (hks_share_value_bytes local_share))
                  (Protocol ("invalid HTSS share scalar for participant " +:+ dec (pid_0 own)));
  let weighted_share := scalar_mul coefficient_value share_value in
  let challenge_share := scalar_mul (adjust_challenge challenge) weighted_share in
  let signature_share := scalar_add secret_nonce challenge_share in
  Ok (mkHtssSignatureSharePackage own (hnp_signing_session_id (hln_package nonce))
        (scalar_to_bytes signature_share)).

Definition htss_sign_share (group_key : GroupKey) (digest : bytes)
    (local_share : HtssLocalKeyShare) (nonce : HtssLocalNonce)
    (nonces : list HtssNoncePackage) (signer_set : list ParticipantId)
    (config : HierarchicalThresholdConfig) : Result HtssSignatureSharePackage :=
  htss_share_for_key (gk_xonly_public_key group_key) "invalid HTSS group x-only public key"
    (fun challenge => challenge) digest local_share nonce nonces signer_set config.

(** [group_key] is unused ([let _ = group_key;]). *)
Definition htss_sign_share_for_output (group_key : GroupKey) (digest output_xonly : bytes)
    (negate_key : bool) (local_share : HtssLocalKeyShare) (nonce : HtssLocalNonce)
    (nonces : list HtssNoncePackage) (signer_set : list ParticipantId)
    (config : HierarchicalThresholdConfig) : Result HtssSignatureSharePackage :=
  htss_share_for_key output_xonly "invalid HTSS output x-only public key"
    (scalar_conditional_negate negate_key) digest local_share nonce nonces signer_set config.

(** [s = scalar_add(s, share_value)] over the shares. *)
Definition add_signature_share (s : scalar) (share : HtssSignatureSharePackage) :
  Result scalar :=
  share_value ← ok_or (scalar_from_bytes (hsp_signature_share_bytes share))
                  (Protocol ("invalid HTSS signature share scalar for participant "
                             +:+ dec (pid_0 (hsp_participant_id share))));
  Ok (scalar_add s share_value).

Definition aggregate_htss_signature_shares (group_key : GroupKey) (digest : bytes)
    (nonces : list HtssNoncePackage) (shares : list HtssSignatureSharePackage)
    (signer_set : list ParticipantId) (config : HierarchicalThresholdConfig) :
  Result AggregateSignature :=
  validate_hierarchical_signer_set signer_set config;;
  validate_htss_nonce_set nonces signer_set;;
  validate_htss_signature_share_set shares signer_set;;
  aggregate_nonce ← aggregate_htss_public_nonce nonces signer_set;
  s ← foldlM add_signature_share scalar_zero shares;
  let signature := (ahn_even_public_nonce aggregate_nonce, s) in
  group_public_key ← ok_or (point_from_xonly_bytes (gk_xonly_public_key group_key))
                       (Protocol "invalid HTSS group x-only public key");
  reject_if (negb (schnorr_verify group_public_key (frost_message digest) signature))
    (Protocol "HTSS aggregate signature verification failed");;
  AggregateSignature_new (signature_to_bytes signature).

Definition aggregate_htss_signature_shares_for_output (digest output_xonly tweak : bytes)
    (nonces : list HtssNoncePackage) (shares : list HtssSignatureSharePackage)
    (signer_set : list ParticipantId) (config : HierarchicalThresholdConfig) :
  Result AggregateSignature :=
  validate_hierarchical_signer_set signer_set config;;
  validate_htss_nonce_set nonces signer_set;;
  validate_htss_signature_share_set shares signer_set;;
  aggregate_nonce ← aggregate_htss_public_nonce nonces signer_set;
  s ← foldlM add_signature_share scalar_zero shares;
  output_public_key ← ok_or (point_from_xonly_bytes output_xonly)
                        (Protocol "invalid HTSS output x-only public key");
  let challenge := schnorr_challenge (ahn_even_public_nonce aggregate_nonce) output_public_key
                     (frost_message digest) in
  tweak_scalar ← ok_or (scalar_from_bytes tweak) (Protocol "invalid Taproot tweak scalar");
  let s := scalar_add s (scalar_mul challenge tweak_scalar) in
  let signature := (ahn_even_public_nonce aggregate_nonce, s) in
  reject_if (negb (schnorr_verify output_public_key (frost_message digest) signature))
    (Protocol "HTSS tweaked aggregate signature verification failed");;
  AggregateSignature_new (signature_to_bytes signature).

(** The shares of the signers, in the order of the signer set. *)
Definition select_shares (shares : list HtssLocalKeyShare) (signer_set : list ParticipantId) :
  Result (list HtssLocalKeyShare) :=
  mapM (fun id => ok_or (List.find (fun share => bool_decide (hks_participant_id share = id)) shares)
                        (MissingRankedParticipant (pid_0 id))) signer_set.

Definition sign_digest_with_local_htss_threshold_shares (group_key : GroupKey) (digest : bytes)
    (shares : list HtssLocalKeyShare) (signer_set : list ParticipantId)
    (config : HierarchicalThresholdConfig) : ST rng DkgKitError AggregateSignature :=
  selected_shares ← st_lift (select_shares shares signer_set);
  signing_session_id ← st_lift (SessionId_new "local-htss-threshold-signing");
  nonces ← mapM (htss_nonce signing_session_id) selected_shares;
  let public_nonces := hln_package <$> nonces in
  signature_shares ← st_lift (mapM (fun '(share, nonce) =>
      htss_sign_share group_key digest share nonce public_nonces signer_set config)
      (zip selected_shares nonces));
  st_lift (aggregate_htss_signature_shares group_key digest public_nonces signature_shares
             signer_set config).

Definition sign_digest_with_local_htss_threshold_shares_for_output (group_key : GroupKey)
    (digest output_xonly tweak : bytes) (negate_key : bool)
    (shares : list HtssLocalKeyShare) (signer_set : list ParticipantId)
    (config : HierarchicalThresholdConfig) : ST rng DkgKitError AggregateSignature :=
  selected_shares ← st_lift (select_shares shares signer_set);
  signing_session_id ← st_lift (SessionId_new "local-htss-threshold-output-signing");
  nonces ← mapM (htss_nonce signing_session_id) selected_shares;
  let public_nonces := hln_package <$> nonces in
  signature_shares ← st_lift (mapM (fun '(share, nonce) =>
      htss_sign_share_for_output group_key digest output_xonly negate_key share nonce
        public_nonces signer_set config)
      (zip selected_shares nonces));
  st_lift (aggregate_htss_signature_shares_for_output digest output_xonly tweak public_nonces
             signature_shares signer_set config).

Definition sign_digest_with_local_grouped_htss_threshold_shares (group_key : GroupKey)
    (digest : bytes) (shares : list HtssLocalKeyShare) (signer_set : list ParticipantId)
    (config : GroupedThresholdConfig) : ST rng DkgKitError AggregateSignature :=
  st_lift (validate_grouped_threshold_signer_set signer_set config);;
  hierarchical ← st_lift (hierarchical_config_from_grouped_threshold config);
  sign_digest_with_local_htss_threshold_shares group_key digest shares signer_set hierarchical.

Definition sign_digest_with_local_grouped_htss_threshold_shares_for_output
    (group_key : GroupKey) (digest output_xonly tweak : bytes) (negate_key : bool)
    (shares : list HtssLocalKeyShare) (signer_set : list ParticipantId)
    (config : GroupedThresholdConfig) : ST rng DkgKitError AggregateSignature :=
  st_lift (validate_grouped_threshold_signer_set signer_set config);;
  hierarchical ← st_lift (hierarchical_config_from_grouped_threshold config);
  sign_digest_with_local_htss_threshold_shares_for_output group_key digest output_xonly tweak
    negate_key shares signer_set hierarchical.

End operations.

(** ** List lemmas *)

Lemma find_unique {A} (P : A -> bool) (l : list A) x :
  x ∈ l -> P x = true -> (forall y, y ∈ l -> P y = true -> y = x) -> List.find P l = Some x.
Proof.
  intros Hx HP Hu. destruct (List.find P l) as [y|] eqn:E.
  - apply List.find_some in E as [Hy HPy]. apply list_elem_of_In in Hy. by rewrite (Hu y).
  - apply list_elem_of_In in Hx. apply (List.find_none _ _ E) in Hx. congruence.
Qed.

(** A list beside a list of distinct keys is a function of the keys. *)
Lemma aligned_function {A B} `{EqDecision A} (dummy : B) (l : list A) : forall k : list B,
  NoDup l -> length k = length l -> exists h : A -> B, k = h <$> l.
Proof.
  induction l as [|x l IH]; intros [|y k] HN Hl; try done.
  - by exists (fun _ => dummy).
  - apply NoDup_cons in HN as [Hx HN]. destruct (IH k HN ltac:(by injection Hl)) as [h ->].
    exists (fun a => if decide (a = x) then y else h a). rewrite fmap_cons.
    rewrite decide_True by done. f_equal. apply list_fmap_ext. intros i a Ha.
    rewrite decide_False; [done|]. intros ->. apply Hx. by apply list_elem_of_lookup_2 in Ha.
Qed.

(** ** Set validation *)

Section sets.
Context (what : string) (signers : list ParticipantId) (sid : SessionId).

Lemma session_set_loop items : forall seen known,
  (known = None \/ known = Some sid) ->
  (forall i, i ∈ items -> i.1 ∈ signers /\ i.2 = sid /\ i.1 ∉ seen) -> NoDup items.*1 ->
  exists known', foldlM (session_set_step what signers) (seen, known) items =
                   Ok (list_to_set items.*1 ∪ seen, known').
Proof.
  induction items as [|[p s] items IH]; intros seen known Hk Hi HN.
  - exists known. cbn. by rewrite union_empty_l_L.
  - rewrite fmap_cons in HN. apply NoDup_cons in HN as [Hp HN].
    destruct (Hi (p, s) ltac:(left)) as (Hin & Hs & Hns). cbn [fst snd] in *. subst s.
    assert (Hstep : session_set_step what signers (seen, known) (p, sid) =
                    Ok ({[p]} ∪ seen, Some sid)).
    { unfold session_set_step. rewrite bool_decide_eq_true_2 by done. cbn [negb reject_if].
      rewrite ok_bind, decide_False by done. destruct Hk as [->| ->]; [done|].
      by rewrite bool_decide_eq_false_2 by naive_solver. }
    cbn [foldlM]. rewrite Hstep, ok_bind.
    destruct (IH ({[p]} ∪ seen) (Some sid)) as [k' ->].
    + by right.
    + intros i Hit. destruct (Hi i ltac:(by right)) as (? & ? & ?). split_and!; [done|done|].
      rewrite not_elem_of_union, not_elem_of_singleton. split; [|done]. intros E. apply Hp.
      rewrite <- E. by apply list_elem_of_fmap_2.
    + done.
    + exists k'. do 2 f_equal. rewrite fmap_cons. cbn. set_solver.
Qed.

(** Packages of exactly the signers, in one session, pass. *)
Lemma validate_session_set_total items :
  NoDup signers -> items.*1 ≡ₚ signers -> (forall i, i ∈ items -> i.2 = sid) ->
  validate_session_set what items signers = Ok tt.
Proof.
  intros HN Hp Hs. unfold validate_session_set.
  assert (HN' : NoDup items.*1) by (by rewrite Hp).
  destruct (session_set_loop items ∅ None) as [k ->]; [by left| |done|].
  - intros i Hi. split_and!; [|by apply Hs|set_solver]. rewrite <- Hp.
    by apply list_elem_of_fmap_2.
  - rewrite ok_bind, union_empty_r_L, size_list_to_set, Hp by done. by rewrite Nat.eqb_refl.
Qed.
End sets.

(** ** The signing equation *)

Section signing.
Context `{SecpLaws}.
Local Open Scope secp_scope.
Add Field scalar_field_signing : scalar_ft.

Definition sign_of (b : bool) : scalar := if b then - scalar_one else scalar_one.

Lemma cond_negate_sign b x : scalar_conditional_negate b x = sign_of b * x.
Proof. rewrite scalar_cond_negate. unfold sign_of. destruct b; ring. Qed.

Lemma lsum_fmap_add {A} (u v : A -> scalar) l :
  lsum ((fun x => u x + v x) <$> l) = lsum (u <$> l) + lsum (v <$> l).
Proof.
  unfold lsum. induction l as [|x l IH]; [cbn; ring|].
  rewrite !fmap_cons. cbn [foldr]. rewrite IH. ring.
Qed.

Lemma lsum_fmap_scale {A} a (u : A -> scalar) l :
  lsum ((fun x => a * u x) <$> l) = a * lsum (u <$> l).
Proof.
  unfold lsum. induction l as [|x l IH]; [cbn; ring|].
  rewrite !fmap_cons. cbn [foldr]. rewrite IH. ring.
Qed.

Lemma lsum_zip_fmap {A} (u v : A -> scalar) l :
  lsum (zip_with scalar_mul (u <$> l) (v <$> l)) = lsum ((fun x => u x * v x) <$> l).
Proof.
  unfold lsum. induction l as [|x l IH]; [done|]. rewrite !fmap_cons. cbn [zip_with foldr].
  by rewrite IH.
Qed.

Context (c : HierarchicalThresholdConfig) (wf : wf_hierarchical c).
Context (signers : list ParticipantId) (can : can_reconstruct c signers).

(** The coefficients as a function of the signer. *)
Lemma coefficient_function :
  exists cf : ParticipantId -> scalar,
    (points ← birkhoff_points_from_hierarchical_signer_set signers c;
     birkhoff_interpolation_coefficients points) =
      Ok ((fun s => signer_coefficient c s (cf s)) <$> signers) /\
    hierarchical_signer_set_ok c signers /\
    forall f, length f = N.to_nat (htc_threshold c) ->
      lsum ((fun s => cf s * signer_value c f s) <$> signers) = poly_eval f scalar_zero.
Proof.
  destruct (signer_coefficients c signers wf can) as (cs & E & Hl & Hok & _ & Hr).
  destruct Hok as ((Ht & HN & Hle) & Hrk & Hru).
  destruct (aligned_function scalar_zero signers cs HN Hl) as [cf ->].
  exists cf. split_and!; [|done|].
  - rewrite E. f_equal. clear. induction signers as [|s l IH]; [done|].
    rewrite !fmap_cons. cbn [zip_with]. by rewrite IH.
  - intros f Hf. rewrite <- lsum_zip_fmap. apply Hr. lia.
Qed.

(** Nonces: one non-zero scalar per signer, in any order. *)
Context (sid : SessionId) (nonce : ParticipantId -> scalar).
Hypothesis nonce_nonzero : forall s, nonce s <> scalar_zero.

Definition nonce_package (s : ParticipantId) : HtssNoncePackage :=
  mkHtssNoncePackage s sid (point_to_bytes (nonce s · point_G)).

Definition local_nonce (s : ParticipantId) : HtssLocalNonce :=
  mkHtssLocalNonce (nonce_package s) (scalar_to_bytes (nonce s)).

Lemma add_public_nonces l : forall acc,
  foldlM add_public_nonce acc (nonce_package <$> l) =
  Ok (acc ⊕ lsum (nonce <$> l) · point_G).
Proof.
  induction l as [|s l IH]; intros acc; [cbn; by rewrite scale_zero_l, point_add_0_r|].
  rewrite !fmap_cons. cbn [foldlM].
  assert (Hs : add_public_nonce acc (nonce_package s) = Ok (acc ⊕ nonce s · point_G)).
  { unfold add_public_nonce, nonce_public_nonce_bytes. cbn [nonce_package hnp_public_nonce_bytes].
    rewrite point_to_bytes_length. cbn [Nat.eqb negb reject_if]. rewrite !ok_bind.
    rewrite point_from_to_bytes by (by apply scale_G_nonzero). done. }
  rewrite Hs, ok_bind, IH. unfold lsum. cbn [foldr]. by rewrite scale_add_l, point_add_assoc.
Qed.

Lemma nonce_set_valid l :
  NoDup signers -> l ≡ₚ signers -> validate_htss_nonce_set (nonce_package <$> l) signers = Ok tt.
Proof.
  intros HN Hp. unfold validate_htss_nonce_set. rewrite <- list_fmap_compose.
  apply (validate_session_set_total _ _ sid); [done| |].
  - rewrite <- list_fmap_compose. change (fst ∘ _) with (fun s : ParticipantId => s).
    by rewrite list_fmap_id.
  - intros i (s & -> & _)%list_elem_of_fmap. done.
Qed.

Lemma aggregate_nonce_total l :
  NoDup signers -> signers <> [] -> l ≡ₚ signers ->
  lsum (nonce <$> signers) <> scalar_zero ->
  exists R b, aggregate_htss_public_nonce (nonce_package <$> l) signers =
                Ok (mkAggregateHtssNonce sid R b) /\
    point_into_even_y (lsum (nonce <$> signers) · point_G) = (R, b) /\
    R = (sign_of b * lsum (nonce <$> signers)) · point_G.
Proof.
  intros HN Hne Hp Hk. unfold aggregate_htss_public_nonce.
  rewrite nonce_set_valid, ok_bind by done.
  assert (Hh : exists s, head (nonce_package <$> l) = Some (nonce_package s)).
  { destruct l as [|s l]; [by apply Permutation_nil_l in Hp|]. by exists s. }
  destruct Hh as [s ->]. cbn [ok_or]. rewrite ok_bind, add_public_nonces, ok_bind, point_add_0_l.
  rewrite (lsum_Permutation (nonce <$> l) (nonce <$> signers)) by (by rewrite Hp).
  unfold point_non_zero. rewrite (proj2 (point_is_zero_false _)) by (by apply scale_G_nonzero).
  cbn [ok_or]. rewrite ok_bind.
  destruct (point_into_even_y _) as [R b] eqn:E. exists R, b. split_and!; [done|done|].
  rewrite <- cond_negate_sign. by apply (even_y_of_scale _ _ _ Hk E).
Qed.

(** The share of a signer under the polynomial [f]. *)
Definition key_share (f : list scalar) (s : ParticipantId) : HtssLocalKeyShare :=
  mkHtssLocalKeyShare s (rank_value (htc_participants c) s)
    (scalar_to_bytes (signer_value c f s)).

(** What is left of [htss_share_for_key] for a signer that holds its share and
    nonce. *)
Lemma sign_share_prefix cf f xonly err adjust digest l s :
  (points ← birkhoff_points_from_hierarchical_signer_set signers c;
   birkhoff_interpolation_coefficients points) =
    Ok ((fun s => signer_coefficient c s (cf s)) <$> signers) -> s ∈ signers ->
  htss_share_for_key xonly err adjust digest (key_share f s) (local_nonce s)
    (nonce_package <$> l) signers c =
  (agg ← aggregate_htss_public_nonce (nonce_package <$> l) signers;
   reject_if (bool_decide (ahn_signing_session_id agg <> sid))
     (Protocol "HTSS aggregate nonce session mismatch");;
   P ← ok_or (point_from_xonly_bytes xonly) (Protocol err);
   Ok (mkHtssSignatureSharePackage s sid (scalar_to_bytes
        (sign_of (ahn_negated agg) * nonce s
         + adjust (schnorr_challenge (ahn_even_public_nonce agg) P (frost_message digest))
           * (cf s * signer_value c f s))))).
Proof.
  intros Hco Hs. unfold htss_share_for_key.
  cbn [key_share hks_participant_id local_nonce hln_package nonce_package hnp_participant_id
       hnp_signing_session_id hln_secret_nonce_bytes hks_rank hks_share_value_bytes]. cbv zeta.
  rewrite (bool_decide_eq_false_2 (s <> s)) by (intros Hn; by apply Hn). cbn [reject_if].
  rewrite ok_bind, (bool_decide_eq_true_2 (s ∈ signers)) by done. cbn [negb reject_if].
  rewrite ok_bind.
  destruct (birkhoff_points_from_hierarchical_signer_set signers c) as [pts| |];
    [|discriminate Hco..]. rewrite ok_bind in Hco. rewrite ok_bind, Hco, ok_bind.
  rewrite (find_unique _ _ (signer_coefficient c s (cf s))).
  2: by apply (list_elem_of_fmap_2 (fun s => signer_coefficient c s (cf s))).
  2: by apply bool_decide_eq_true.
  2: { intros y (z & -> & _)%list_elem_of_fmap Hz%bool_decide_eq_true. cbn in Hz. by subst. }
  cbn [ok_or]. rewrite ok_bind.
  cbn [signer_coefficient bc_derivative_order bc_coefficient_bytes bc_participant_id].
  rewrite N.eqb_refl. cbn [negb reject_if]. rewrite ok_bind, !scalar_from_to_bytes.
  destruct (aggregate_htss_public_nonce _ _) as [agg| |]; [|done|done]. rewrite !ok_bind.
  destruct (bool_decide _); [done|]. cbn [reject_if]. rewrite !ok_bind.
  destruct (point_from_xonly_bytes xonly); cbn [ok_or]; [|done]. rewrite !ok_bind.
  by rewrite cond_negate_sign.
Qed.

(** The share package of a signer, in terms of its parts. *)
Definition signature_share_of (z : ParticipantId -> scalar) (s : ParticipantId) :
  HtssSignatureSharePackage :=
  mkHtssSignatureSharePackage s sid (scalar_to_bytes (z s)).

Lemma add_signature_shares z l : forall acc,
  foldlM add_signature_share acc (signature_share_of z <$> l) = Ok (acc + lsum (z <$> l)).
Proof.
  induction l as [|s l IH]; intros acc; [cbn; f_equal; ring|].
  rewrite !fmap_cons. cbn [foldlM].
  assert (Hs : add_signature_share acc (signature_share_of z s) = Ok (acc + z s)).
  { unfold add_signature_share. cbn [signature_share_of hsp_signature_share_bytes].
    by rewrite scalar_from_to_bytes. }
  rewrite Hs, ok_bind, IH. unfold lsum. cbn [foldr]. f_equal. ring.
Qed.

Lemma signature_share_set_valid z l :
  NoDup signers -> l ≡ₚ signers ->
  validate_htss_signature_share_set (signature_share_of z <$> l) signers = Ok tt.
Proof.
  intros HN Hp. unfold validate_htss_signature_share_set. rewrite <- list_fmap_compose.
  apply (validate_session_set_total _ _ sid); [done| |].
  - rewrite <- list_fmap_compose. change (fst ∘ _) with (fun s : ParticipantId => s).
    by rewrite list_fmap_id.
  - intros i (s & -> & _)%list_elem_of_fmap. done.
Qed.

(** What the shares of all signers add up to. *)
Lemma share_sum cf f b e :
  lsum ((fun s => cf s * signer_value c f s) <$> signers) = poly_eval f scalar_zero ->
  lsum ((fun s => sign_of b * nonce s + e * (cf s * signer_value c f s)) <$> signers) =
  sign_of b * lsum (nonce <$> signers) + e * poly_eval f scalar_zero.
Proof.
  intros Hf. rewrite (lsum_fmap_add (fun s => sign_of b * nonce s)).
  rewrite !lsum_fmap_scale, Hf. done.
Qed.

Lemma aggregate_new_Ok (sig : point * scalar) :
  AggregateSignature_new (signature_to_bytes sig) =
  Ok (mkAggregateSignature (signature_to_bytes sig)).
Proof.
  destruct sig as [R s]. unfold AggregateSignature_new.
  rewrite bool_decide_eq_false_2; [done|]. intros E.
  pose proof (signature_to_bytes_length R s) as Hl. by rewrite E in Hl.
Qed.

(** The steps of aggregation up to the sum of the shares. *)
Lemma aggregate_prefix lN lS z :
  signers <> [] -> hierarchical_signer_set_ok c signers ->
  lN ≡ₚ signers -> lS ≡ₚ signers -> lsum (nonce <$> signers) <> scalar_zero ->
  exists R b,
    point_into_even_y (lsum (nonce <$> signers) · point_G) = (R, b) /\
    R = (sign_of b * lsum (nonce <$> signers)) · point_G /\
    aggregate_htss_public_nonce (nonce_package <$> lN) signers =
      Ok (mkAggregateHtssNonce sid R b) /\
    validate_hierarchical_signer_set signers c = Ok tt /\
    validate_htss_nonce_set (nonce_package <$> lN) signers = Ok tt /\
    validate_htss_signature_share_set (signature_share_of z <$> lS) signers = Ok tt /\
    foldlM add_signature_share scalar_zero (signature_share_of z <$> lS) =
      Ok (lsum (z <$> signers)).
Proof.
  intros Hne Hok HlN HlS Hk. destruct Hok as (Hss & Hrest).
  pose proof (proj1 (proj2 Hss)) as HN.
  destruct (aggregate_nonce_total lN HN Hne HlN Hk) as (R & b & Hagg & HR & HRk).
  exists R, b. split_and!; [done|done|done| | | |].
  - by apply (validate_hierarchical_Ok c signers tt wf).
  - by apply nonce_set_valid.
  - by apply signature_share_set_valid.
  - rewrite add_signature_shares. f_equal.
    rewrite (lsum_Permutation (z <$> lS) (z <$> signers)) by (by rewrite HlS). ring.
Qed.

Lemma aggregate_total group_key digest lN lS z P :
  signers <> [] -> hierarchical_signer_set_ok c signers ->
  lN ≡ₚ signers -> lS ≡ₚ signers -> lsum (nonce <$> signers) <> scalar_zero ->
  point_from_xonly_bytes (gk_xonly_public_key group_key) = Some P ->
  (forall R b, point_into_even_y (lsum (nonce <$> signers) · point_G) = (R, b) ->
     lsum (z <$> signers) · point_G = R ⊕ schnorr_challenge R P (frost_message digest) · P) ->
  exists sig,
    aggregate_htss_signature_shares group_key digest (nonce_package <$> lN)
      (signature_share_of z <$> lS) signers c =
      Ok (mkAggregateSignature (signature_to_bytes sig)) /\
    schnorr_verify P (frost_message digest) sig = true.
Proof.
  intros Hne Hok HlN HlS Hk HP Heq.
  destruct (aggregate_prefix lN lS z Hne Hok HlN HlS Hk)
    as (R & b & HR & _ & Hagg & Hv & Hvn & Hvs & Hsum).
  exists (R, lsum (z <$> signers)).
  assert (Hver : schnorr_verify P (frost_message digest) (R, lsum (z <$> signers)) = true)
    by (by apply schnorr_verify_iff, (Heq R b)).
  split; [|done]. unfold aggregate_htss_signature_shares.
  rewrite Hv, ok_bind, Hvn, ok_bind, Hvs, ok_bind, Hagg, ok_bind, Hsum, ok_bind.
  cbv zeta. cbn [ahn_even_public_nonce]. rewrite HP. cbn [ok_or]. rewrite ok_bind, Hver.
  cbn [negb reject_if]. rewrite ok_bind. apply aggregate_new_Ok.
Qed.

Lemma aggregate_for_output_total digest output_xonly tweak lN lS z Q B :
  signers <> [] -> hierarchical_signer_set_ok c signers ->
  lN ≡ₚ signers -> lS ≡ₚ signers -> lsum (nonce <$> signers) <> scalar_zero ->
  point_from_xonly_bytes output_xonly = Some Q -> scalar_from_bytes tweak = Some B ->
  (forall R b, point_into_even_y (lsum (nonce <$> signers) · point_G) = (R, b) ->
     let e := schnorr_challenge R Q (frost_message digest) in
     (lsum (z <$> signers) + e * B) · point_G = R ⊕ e · Q) ->
  exists sig,
    aggregate_htss_signature_shares_for_output digest output_xonly tweak (nonce_package <$> lN)
      (signature_share_of z <$> lS) signers c =
      Ok (mkAggregateSignature (signature_to_bytes sig)) /\
    schnorr_verify Q (frost_message digest) sig = true.
Proof.
  intros Hne Hok HlN HlS Hk HQ HB Heq.
  destruct (aggregate_prefix lN lS z Hne Hok HlN HlS Hk)
    as (R & b & HR & _ & Hagg & Hv & Hvn & Hvs & Hsum).
  exists (R, lsum (z <$> signers) + schnorr_challenge R Q (frost_message digest) * B).
  assert (Hver : schnorr_verify Q (frost_message digest)
    (R, lsum (z <$> signers) + schnorr_challenge R Q (frost_message digest) * B) = true)
    by (by apply schnorr_verify_iff, (Heq R b)).
  split; [|done]. unfold aggregate_htss_signature_shares_for_output.
  rewrite Hv, ok_bind, Hvn, ok_bind, Hvs, ok_bind, Hagg, ok_bind, Hsum, ok_bind.
  rewrite HQ. cbn [ok_or]. rewrite ok_bind, HB. cbn [ok_or]. rewrite ok_bind.
  cbv zeta. cbn [ahn_even_public_nonce]. rewrite Hver.
  cbn [negb reject_if]. rewrite ok_bind. apply aggregate_new_Ok.
Qed.
End signing.

(** ** A round of signing from a valid key set *)

Lemma zip_fmap_diag {A B C} (u : A -> B) (v : A -> C) (l : list A) :
  zip (u <$> l) (v <$> l) = (fun x => (u x, v x)) <$> l.
Proof. induction l as [|x l IH]; [done|]. rewrite !fmap_cons. cbn. by rewrite <- IH. Qed.

Section rounds.
Context `{SecpLaws}.
Local Open Scope secp_scope.
Add Field scalar_field_rounds : scalar_ft.

Context (c : HierarchicalThresholdConfig) (wf : wf_hierarchical c).
Context (signers : list ParticipantId) (f : list scalar).

Lemma signers_nonempty : hierarchical_signer_set_ok c signers -> signers <> [].
Proof.
  intros ((Ht & _) & _) ->. destruct wf as ((Hlo & _) & _). simpl in Ht. lia.
Qed.

Lemma select_shares_dealt l :
  (forall s, s ∈ l -> ranked (htc_participants c) s) ->
  select_shares (share_of f <$> htc_participants c) l = Ok (key_share c f <$> l).
Proof.
  intros Hr. apply mapM_pure. intros s Hs.
  destruct (find_rank_value c s wf (Hr s Hs)) as (p & Hp & <- & Hrk).
  assert (Hsh : share_of f p = key_share c f (rp_id p)).
  { unfold share_of, key_share, signer_value. by rewrite Hrk. }
  rewrite (find_unique _ _ (share_of f p)); [by rewrite Hsh| | |].
  - by apply list_elem_of_fmap_2.
  - by apply bool_decide_eq_true.
  - intros y (q & -> & Hq)%list_elem_of_fmap Hid%bool_decide_eq_true. f_equal.
    apply (NoDup_fmap_same rp_id (htc_participants c)); [|done|done|done].
    by apply participants_distinct.
Qed.

Lemma nonces_drawn sid l : forall g,
  NoDup l ->
  exists nonce g', (forall s, nonce s <> scalar_zero) /\
    mapM (htss_nonce sid) (key_share c f <$> l) g = (g', Ok (local_nonce sid nonce <$> l)).
Proof.
  induction l as [|s l IH]; intros g HN.
  - exists (fun _ => scalar_one), g. split; [intros _; apply scalar_one_neq_zero|done].
  - apply NoDup_cons in HN as [Hs HN].
    destruct (IH (scalar_random g).2 HN) as (nonce & g' & Hnz & Hm).
    exists (fun a => if decide (a = s) then (scalar_random g).1 else nonce a), g'. split.
    { intros a. case_decide; [apply scalar_random_nonzero|done]. }
    rewrite !fmap_cons, st_mapM_cons.
    assert (Hn : htss_nonce sid (key_share c f s) g = ((scalar_random g).2,
      Ok (local_nonce sid (fun a => if decide (a = s) then (scalar_random g).1 else nonce a) s))).
    { unfold htss_nonce. rewrite (st_bind_Ok _ _ g _ _ (draw_scalar_eq g)).
      unfold local_nonce, nonce_package. by rewrite decide_True. }
    rewrite (st_bind_Ok _ _ _ _ _ Hn), (st_bind_Ok _ _ _ _ _ Hm).
    change (mret ?x) with (fun g : rng => (g, Ok x : Result (list HtssLocalNonce))). cbn beta.
    do 3 f_equal. apply list_fmap_ext. intros i a Ha. unfold local_nonce, nonce_package.
    rewrite decide_False; [done|]. intros ->. apply Hs. by apply list_elem_of_lookup_2 in Ha.
Qed.

Context (sid : SessionId) (nonce : ParticipantId -> scalar).
Hypothesis nonce_nonzero : forall s, nonce s <> scalar_zero.

(** The contributions cancel: signing reports it. *)
Lemma zero_nonce_reported lN :
  NoDup signers -> signers <> [] -> lN ≡ₚ signers -> lsum (nonce <$> signers) = scalar_zero ->
  aggregate_htss_public_nonce (nonce_package sid nonce <$> lN) signers =
  Err (Protocol "HTSS aggregate nonce cannot be zero").
Proof.
  intros HN Hne Hp Hz. unfold aggregate_htss_public_nonce.
  rewrite nonce_set_valid, ok_bind by done.
  assert (Hh : exists s, head (nonce_package sid nonce <$> lN) = Some (nonce_package sid nonce s)).
  { destruct lN as [|s l]; [by apply Permutation_nil_l in Hp|]. by exists s. }
  destruct Hh as [s ->]. cbn [ok_or]. rewrite ok_bind, add_public_nonces, ok_bind, point_add_0_l by done.
  rewrite (lsum_Permutation (nonce <$> lN) (nonce <$> signers)) by (by rewrite Hp).
  rewrite Hz, scale_zero_l. unfold point_non_zero.
  by rewrite (proj2 (point_is_zero_iff point_zero)).
Qed.

(** The share values of a round whose nonces add up to [K] with sign [b]. *)
Definition share_value cf (b : bool) (e : scalar) (s : ParticipantId) : scalar :=
  sign_of b * nonce s + e * (cf s * signer_value c f s).

Lemma sign_round cf xonly err P adjust digest lN lS R b :
  (points ← birkhoff_points_from_hierarchical_signer_set signers c;
   birkhoff_interpolation_coefficients points) =
    Ok ((fun s => signer_coefficient c s (cf s)) <$> signers) ->
  aggregate_htss_public_nonce (nonce_package sid nonce <$> lN) signers =
    Ok (mkAggregateHtssNonce sid R b) ->
  point_from_xonly_bytes xonly = Some P -> lS ≡ₚ signers ->
  mapM (fun '(share, n) => htss_share_for_key xonly err adjust digest share n
                             (nonce_package sid nonce <$> lN) signers c)
    (zip (key_share c f <$> lS) (local_nonce sid nonce <$> lS)) =
  Ok (signature_share_of sid
        (share_value cf b (adjust (schnorr_challenge R P (frost_message digest)))) <$> lS).
Proof.
  intros Hco Hagg HP Hp. rewrite zip_fmap_diag. apply mapM_Ok, Forall2_fmap.
  apply Forall_Forall2_diag, Forall_forall. intros s Hs.
  rewrite (sign_share_prefix c signers sid nonce cf) by (done || by rewrite <- Hp).
  rewrite Hagg, ok_bind. cbn [ahn_signing_session_id ahn_negated ahn_even_public_nonce].
  rewrite bool_decide_eq_false_2 by (intros Hn; by apply Hn). cbn [reject_if].
  rewrite ok_bind, HP. done.
Qed.

Lemma sign_round_zero cf xonly err adjust digest lN lS :
  (points ← birkhoff_points_from_hierarchical_signer_set signers c;
   birkhoff_interpolation_coefficients points) =
    Ok ((fun s => signer_coefficient c s (cf s)) <$> signers) ->
  NoDup signers -> signers <> [] -> lN ≡ₚ signers -> lS ≡ₚ signers ->
  lsum (nonce <$> signers) = scalar_zero ->
  mapM (fun '(share, n) => htss_share_for_key xonly err adjust digest share n
                             (nonce_package sid nonce <$> lN) signers c)
    (zip (key_share c f <$> lS) (local_nonce sid nonce <$> lS)) =
  Err (Protocol "HTSS aggregate nonce cannot be zero").
Proof.
  intros Hco HN Hne HlN HlS Hz. rewrite zip_fmap_diag.
  destruct lS as [|s lS]; [by apply Permutation_nil_l in HlS|].
  rewrite fmap_cons.
  change (mapM ?h (?x :: ?l)) with (y ← h x; k ← mapM h l; mret (y :: k)). cbn beta iota.
  rewrite (sign_share_prefix c signers sid nonce cf) by (done || rewrite <- HlS; left).
  by rewrite zero_nonce_reported.
Qed.
End rounds.

(** ** The claims *)

Section claims.
Context `{SecpLaws}.
Local Open Scope secp_scope.
Add Field scalar_field_claims : scalar_ft.

(** The aggregate of a round satisfies the verification equation. *)
Lemma round_equation K f0 b R e :
  R = (sign_of b * K) · point_G ->
  (sign_of b * K + e * f0) · point_G = R ⊕ e · (f0 · point_G).
Proof. intros ->. by rewrite scale_add_l, <- (scale_mul_l e f0). Qed.

Lemma tweaked_equation K f0 b R e a B :
  R = (sign_of b * K) · point_G ->
  (sign_of b * K + sign_of a * e * f0 + e * B) · point_G =
  R ⊕ e · ((sign_of a * f0 + B) · point_G).
Proof.
  intros ->. rewrite <- scale_mul_l, <- scale_add_l. f_equal. ring.
Qed.

Lemma even_sign_nonce K R b :
  K <> scalar_zero -> point_into_even_y (K · point_G) = (R, b) -> R = (sign_of b * K) · point_G.
Proof. intros HK E. rewrite <- cond_negate_sign. by apply (even_y_of_scale _ _ _ HK E). Qed.

(** One round from a valid key set, whatever the nonces and the orders: every
    signer's share is produced and the aggregate verifies, unless the nonces
    cancel. *)
Lemma signing_round c ks signers :
  wf_hierarchical c -> valid_key_set c ks -> can_reconstruct c signers ->
  exists f, hkset_shares ks = share_of f <$> htc_participants c /\ NoDup signers /\
    signers <> [] /\ (forall s, s ∈ signers -> ranked (htc_participants c) s) /\
    forall sid nonce digest lN lS,
      (forall s, nonce s <> scalar_zero) -> lN ≡ₚ signers -> lS ≡ₚ signers ->
      let nonces := nonce_package sid nonce <$> lN in
      let signed := mapM (fun '(share, n) =>
                            htss_sign_share (hkset_group_key ks) digest share n nonces signers c)
                      (zip (key_share c f <$> lS) (local_nonce sid nonce <$> lS)) in
      (lsum (nonce <$> signers) = scalar_zero /\
       signed = Err (Protocol "HTSS aggregate nonce cannot be zero")) \/
      exists z P sig,
        signed = Ok (signature_share_of sid z <$> lS) /\
        aggregate_htss_signature_shares (hkset_group_key ks) digest nonces
          (signature_share_of sid z <$> lS) signers c =
          Ok (mkAggregateSignature (signature_to_bytes sig)) /\
        point_from_xonly_bytes (gk_xonly_public_key (hkset_group_key ks)) = Some P /\
        schnorr_verify P (frost_message digest) sig = true.
Proof.
  intros Hwf (f & Hf & Hsk & Hsh) Hcan.
  destruct (coefficient_function c Hwf signers Hcan) as (cf & Hco & Hok & Hrec).
  pose proof (signers_nonempty c Hwf signers Hok) as Hne.
  pose proof (group_key_decodes _ _ Hsk) as HP.
  pose proof Hok as ((_ & HN & _) & Hrk & _). exists f. split_and!; [done..|].
  intros sid nonce digest lN lS Hnz HlN HlS nonces signed. unfold signed, htss_sign_share.
  destruct (scalar_zero_dec (lsum (nonce <$> signers))) as [Hz|HK]; [left|right].
  { split; [done|]. by apply (sign_round_zero c signers f sid nonce Hnz cf). }
  destruct (aggregate_nonce_total signers sid nonce Hnz lN HN Hne HlN HK)
    as (R & b & Hagg & HR & HRk).
  set (P := poly_eval f scalar_zero · point_G) in *.
  set (e := schnorr_challenge R P (frost_message digest)).
  destruct (aggregate_total c Hwf signers sid nonce Hnz (hkset_group_key ks) digest
              lN lS (share_value c f nonce cf b e) P)
    as (sig & Hagg' & Hver); try done.
  { intros R' b' E. rewrite HR in E. injection E as <- <-. unfold share_value.
    rewrite (share_sum c signers nonce cf f b e) by (by apply Hrec).
    by apply round_equation. }
  exists (share_value c f nonce cf b e), P, sig. split_and!; [|done..].
  by apply (sign_round c signers f sid nonce cf _ _ P (fun e => e)).
Qed.

(** C1: threshold signatures verify, in any order of messages.  Take a sharing of
    the group key's secret, a signer set that can reconstruct, and one non-zero
    nonce per signer whose sum is not zero.  Let the nonce packages and the shares
    arrive in any orders.  Then every signer's [htss_sign_share] succeeds, and
    [aggregate_htss_signature_shares] returns a signature that verifies under the
    group key. *)
Theorem htss_round_verifies t ps c ks signers sid nonce digest nonce_order share_order :
  HierarchicalThresholdConfig_new t ps = Ok c ->
  valid_key_set c ks -> can_reconstruct c signers ->
  (forall s, nonce s <> scalar_zero) -> lsum (nonce <$> signers) <> scalar_zero ->
  nonce_order ≡ₚ signers -> share_order ≡ₚ signers ->
  let nonces := nonce_package sid nonce <$> nonce_order in
  exists selected shares P sig,
    select_shares (hkset_shares ks) share_order = Ok selected /\
    mapM (fun '(share, n) =>
            htss_sign_share (hkset_group_key ks) digest share n nonces signers c)
      (zip selected (local_nonce sid nonce <$> share_order)) = Ok shares /\
    aggregate_htss_signature_shares (hkset_group_key ks) digest nonces shares signers c =
      Ok (mkAggregateSignature (signature_to_bytes sig)) /\
    point_from_xonly_bytes (gk_xonly_public_key (hkset_group_key ks)) = Some P /\
    schnorr_verify P (frost_message digest) sig = true.
Proof.
  intros Hwf%hierarchical_new_wf Hks Hcan Hnz HK HlN HlS nonces.
  destruct (signing_round c ks signers Hwf Hks Hcan) as (f & Hsh & _ & _ & Hrk & Hround).
  destruct (Hround sid nonce digest nonce_order share_order Hnz HlN HlS)
    as [[Hz _]|(z & P & sig & Hsigned & Hagg & HP & Hver)]; [done|].
  eexists _, _, P, sig. split_and!; [|exact Hsigned|exact Hagg|done|done].
  rewrite Hsh. apply (select_shares_dealt c Hwf f). intros s Hs. apply Hrk. by rewrite <- HlS.
Qed.

(** The local threshold signer is correct.  From a sharing of the group key's
    secret and a signer set that can reconstruct,
    [sign_digest_with_local_htss_threshold_shares] either returns a signature that
    verifies under the group key, or reports that the drawn nonces cancelled; it
    has no other failure. *)
Theorem local_threshold_sign_correct t ps c ks signers digest g :
  HierarchicalThresholdConfig_new t ps = Ok c ->
  valid_key_set c ks -> can_reconstruct c signers ->
  exists g',
    (exists P sig,
       sign_digest_with_local_htss_threshold_shares (hkset_group_key ks) digest
         (hkset_shares ks) signers c g =
         (g', Ok (mkAggregateSignature (signature_to_bytes sig))) /\
       point_from_xonly_bytes (gk_xonly_public_key (hkset_group_key ks)) = Some P /\
       schnorr_verify P (frost_message digest) sig = true) \/
    sign_digest_with_local_htss_threshold_shares (hkset_group_key ks) digest
      (hkset_shares ks) signers c g =
      (g', Err (Protocol "HTSS aggregate nonce cannot be zero")).
Proof.
  intros Hwf%hierarchical_new_wf Hks Hcan.
  destruct (signing_round c ks signers Hwf Hks Hcan) as (f & Hsh & HN & _ & Hrk & Hround).
  set (sid := mkSessionId "local-htss-threshold-signing").
  destruct (nonces_drawn c f sid signers g HN) as (nonce & g' & Hnz & Hm).
  exists g'. unfold sign_digest_with_local_htss_threshold_shares.
  rewrite st_lift_bind, Hsh, (select_shares_dealt c Hwf f) by done.
  rewrite st_lift_bind. change (SessionId_new _) with (Ok sid : Result SessionId). cbn beta iota.
  rewrite (st_bind_Ok _ _ _ _ _ Hm). cbv zeta. rewrite <- list_fmap_compose.
  change (hln_package ∘ local_nonce sid nonce) with (nonce_package sid nonce).
  rewrite st_lift_bind.
  destruct (Hround sid nonce digest signers signers Hnz) as
    [[_ Hsigned]|(z & P & sig & Hsigned & Hagg & HP & Hver)]; [done|done| |]; rewrite Hsigned.
  - by right.
  - left. exists P, sig. split_and!; [|done|done]. unfold st_lift. by rewrite Hagg.
Qed.

(** Signing for an output key that is a tweak of the group key. *)
Lemma local_output_sign t ps c ks signers digest output_xonly tweak
    (negate_key : bool) B g :
  HierarchicalThresholdConfig_new t ps = Ok c ->
  valid_key_set c ks -> can_reconstruct c signers ->
  scalar_from_bytes tweak = Some B ->
  forall P, point_from_xonly_bytes (gk_xonly_public_key (hkset_group_key ks)) = Some P ->
  let Q := (if negate_key then (- scalar_one) · P else P) ⊕ B · point_G in
  point_from_xonly_bytes output_xonly = Some Q ->
  exists g',
    (exists sig,
       sign_digest_with_local_htss_threshold_shares_for_output (hkset_group_key ks) digest
         output_xonly tweak negate_key (hkset_shares ks) signers c g =
         (g', Ok (mkAggregateSignature (signature_to_bytes sig))) /\
       schnorr_verify Q (frost_message digest) sig = true) \/
    sign_digest_with_local_htss_threshold_shares_for_output (hkset_group_key ks) digest
      output_xonly tweak negate_key (hkset_shares ks) signers c g =
      (g', Err (Protocol "HTSS aggregate nonce cannot be zero")).
Proof.
  intros Hwf%hierarchical_new_wf (f & Hf & Hsk & Hsh) Hcan HB P HP Q HQ.
  destruct (coefficient_function c Hwf signers Hcan) as (cf & Hco & Hok & Hrec).
  pose proof (signers_nonempty c Hwf signers Hok) as Hne.
  rewrite (group_key_decodes _ _ Hsk) in HP. injection HP as <-.
  assert (HQe : Q = (sign_of negate_key * poly_eval f scalar_zero + B) · point_G).
  { unfold Q, sign_of. destruct negate_key; by rewrite scale_add_l, scale_mul_l, ?scale_one_l. }
  clearbody Q. pose proof Hok as ((_ & HN & _) & Hrk & _).
  set (sid := mkSessionId "local-htss-threshold-output-signing").
  destruct (nonces_drawn c f sid signers g HN) as (nonce & g' & Hnz & Hm).
  exists g'. unfold sign_digest_with_local_htss_threshold_shares_for_output.
  rewrite st_lift_bind, Hsh, (select_shares_dealt c Hwf f) by done.
  rewrite st_lift_bind. change (SessionId_new _) with (Ok sid : Result SessionId). cbn beta iota.
  rewrite (st_bind_Ok _ _ _ _ _ Hm). cbv zeta. rewrite <- list_fmap_compose.
  change (hln_package ∘ local_nonce sid nonce) with (nonce_package sid nonce).
  rewrite st_lift_bind. unfold htss_sign_share_for_output.
  destruct (scalar_zero_dec (lsum (nonce <$> signers))) as [Hz|HK].
  { right. by rewrite (sign_round_zero c signers f sid nonce Hnz cf) by (done || reflexivity). }
  left. destruct (aggregate_nonce_total signers sid nonce Hnz signers HN Hne (Permutation_refl _) HK)
    as (R & b & Hagg & HR & HRk).
  rewrite (sign_round c signers f sid nonce cf _ _ Q (scalar_conditional_negate negate_key)
             digest signers signers R b) by done.
  set (e := schnorr_challenge R Q (frost_message digest)).
  destruct (aggregate_for_output_total c Hwf signers sid nonce Hnz digest output_xonly tweak
              signers signers
              (share_value c f nonce cf b (scalar_conditional_negate negate_key e)) Q B)
    as (sig & Hagg' & Hver); try done.
  { intros R' b' E. rewrite HR in E. injection E as <- <-. cbv zeta. unfold share_value.
    rewrite (share_sum c signers nonce cf f b _) by (by apply Hrec).
    rewrite cond_negate_sign. fold e.
    transitivity (R ⊕ e · ((sign_of negate_key * poly_eval f scalar_zero + B) · point_G)).
    - by apply tweaked_equation.
    - by rewrite <- HQe. }
  exists sig. split; [|done]. unfold st_lift. by rewrite Hagg'.
Qed.

(** The tweaked variant signs for the Taproot output key.  Let the output key
    be [Q = A·P + B·G], even, with [P] the group key, [A = -1] when [negate_key]
    is set and [A = 1] otherwise, and [B] the tweak.  Then
    [sign_digest_with_local_htss_threshold_shares_for_output] returns a signature
    that verifies under [Q], or reports that the drawn nonces cancelled. *)
Theorem local_output_sign_correct t ps c ks signers digest output_xonly tweak
    (negate_key : bool) B g :
  HierarchicalThresholdConfig_new t ps = Ok c ->
  valid_key_set c ks -> can_reconstruct c signers ->
  scalar_from_bytes tweak = Some B ->
  forall P, point_from_xonly_bytes (gk_xonly_public_key (hkset_group_key ks)) = Some P ->
  let Q := (if negate_key then (- scalar_one) · P else P) ⊕ B · point_G in
  point_from_xonly_bytes output_xonly = Some Q ->
  exists g',
    (exists sig,
       sign_digest_with_local_htss_threshold_shares_for_output (hkset_group_key ks) digest
         output_xonly tweak negate_key (hkset_shares ks) signers c g =
         (g', Ok (mkAggregateSignature (signature_to_bytes sig))) /\
       schnorr_verify Q (frost_message digest) sig = true) \/
    sign_digest_with_local_htss_threshold_shares_for_output (hkset_group_key ks) digest
      output_xonly tweak negate_key (hkset_shares ks) signers c g =
      (g', Err (Protocol "HTSS aggregate nonce cannot be zero")).
Proof. apply local_output_sign. Qed.

(** Aggregation is safe.  Whatever nonce and share packages it is given, a
    signature that [aggregate_htss_signature_shares] returns verifies under the
    group key, and one that the output variant returns verifies under the output
    key. *)
Theorem aggregate_never_invalid group_key digest output_xonly tweak nonces shares signers c out :
  (aggregate_htss_signature_shares group_key digest nonces shares signers c = Ok out ->
   exists P sig, point_from_xonly_bytes (gk_xonly_public_key group_key) = Some P /\
     out = mkAggregateSignature (signature_to_bytes sig) /\
     schnorr_verify P (frost_message digest) sig = true) /\
  (aggregate_htss_signature_shares_for_output digest output_xonly tweak nonces shares signers c
     = Ok out ->
   exists Q sig, point_from_xonly_bytes output_xonly = Some Q /\
     out = mkAggregateSignature (signature_to_bytes sig) /\
     schnorr_verify Q (frost_message digest) sig = true).
Proof.
  split.
  - unfold aggregate_htss_signature_shares. intros Ha.
    repeat (apply bind_Ok in Ha as (? & ? & Ha)).
    rename select (ok_or (point_from_xonly_bytes _) _ = Ok _) into HP.
    rename select (reject_if (negb _) _ = Ok _) into Hv.
    apply ok_or_Ok in HP. apply reject_if_Ok, negb_false_iff in Hv. simplify_eq. eauto.
  - unfold aggregate_htss_signature_shares_for_output. intros Ha.
    repeat (apply bind_Ok in Ha as (? & ? & Ha)).
    rename select (ok_or (point_from_xonly_bytes _) _ = Ok _) into HP.
    rename select (reject_if (negb _) _ = Ok _) into Hv.
    apply ok_or_Ok in HP. apply reject_if_Ok, negb_false_iff in Hv. simplify_eq. eauto.
Qed.
End claims.

(** ** Concrete runs *)

Section witnesses.
Local Existing Instances small_group small_group_laws.

Definition demo_keys : HtssLocalKeySet :=
  match run_local_htss_keygen demo_config demo_rng with
  | (_, Ok ks) => ks
  | _ => mkHtssLocalKeySet (mkGroupKey [] []) []
  end.

Definition demo_digest : bytes := replicate 32 Byte.x05.

Lemma demo_keys_valid : valid_key_set demo_config demo_keys.
Proof.
  destruct (keygen_valid demo_config demo_rng (hierarchical_new_wf _ _ _ demo_config_new))
    as (g & ks & E & Hv).
  unfold demo_keys. rewrite E. exact Hv.
Qed.

Definition demo_sid : SessionId := mkSessionId "demo".

Definition demo_nonce (_ : ParticipantId) : scalar := f_of 3.

Definition demo_tweak : scalar := f_of 1.

(** Shares in the reverse order of the nonces. *)
Lemma htss_round_verifies_witness :
  let nonces := nonce_package demo_sid demo_nonce <$> demo_signers in
  exists shares P sig,
    aggregate_htss_signature_shares (hkset_group_key demo_keys) demo_digest nonces shares
      demo_signers demo_config = Ok (mkAggregateSignature (signature_to_bytes sig)) /\
    schnorr_verify P (frost_message demo_digest) sig = true.
Proof.
  intros nonces.
  destruct (htss_round_verifies 2 demo_participants demo_config demo_keys demo_signers demo_sid
              demo_nonce demo_digest demo_signers (rev demo_signers) demo_config_new
              demo_keys_valid demo_can_reconstruct)
    as (selected & shares & P & sig & _ & _ & Ha & _ & Hv).
  - intros s. vm_compute. discriminate.
  - vm_compute. discriminate.
  - reflexivity.
  - vm_compute. apply perm_swap.
  - exists shares, P, sig. split; [exact Ha|exact Hv].
Defined.

Lemma local_threshold_sign_correct_witness :
  exists g' P sig,
    sign_digest_with_local_htss_threshold_shares (hkset_group_key demo_keys) demo_digest
      (hkset_shares demo_keys) demo_signers demo_config demo_rng =
      (g', Ok (mkAggregateSignature (signature_to_bytes sig))) /\
    schnorr_verify P (frost_message demo_digest) sig = true.
Proof.
  destruct (local_threshold_sign_correct 2 demo_participants demo_config demo_keys demo_signers
              demo_digest demo_rng demo_config_new demo_keys_valid demo_can_reconstruct)
    as [g' [(P & sig & E & _ & Hv)|E]].
  - exists g', P, sig. split; [exact E|exact Hv].
  - exfalso.
    assert (Hok : is_ok (sign_digest_with_local_htss_threshold_shares (hkset_group_key demo_keys)
      demo_digest (hkset_shares demo_keys) demo_signers demo_config demo_rng).2 = true)
      by (vm_compute; reflexivity).
    rewrite E in Hok. discriminate Hok.
Defined.

(** The group key as a point, tweaked by one. *)
Definition demo_group_point : point :=
  default point_G (point_from_xonly_bytes (gk_xonly_public_key (hkset_group_key demo_keys))).

Definition demo_output : point := point_add demo_group_point (point_scale demo_tweak point_G).

Lemma local_output_sign_correct_witness :
  exists g' sig,
    sign_digest_with_local_htss_threshold_shares_for_output (hkset_group_key demo_keys)
      demo_digest (point_to_xonly_bytes demo_output) (scalar_to_bytes demo_tweak) false
      (hkset_shares demo_keys) demo_signers demo_config demo_rng =
      (g', Ok (mkAggregateSignature (signature_to_bytes sig))) /\
    schnorr_verify demo_output (frost_message demo_digest) sig = true.
Proof.
  destruct (local_output_sign_correct 2 demo_participants demo_config demo_keys demo_signers
              demo_digest (point_to_xonly_bytes demo_output) (scalar_to_bytes demo_tweak) false
              demo_tweak demo_rng demo_config_new demo_keys_valid demo_can_reconstruct
              ltac:(vm_compute; reflexivity) demo_group_point ltac:(vm_compute; reflexivity)
              ltac:(vm_compute; reflexivity))
    as [g' [(sig & E & Hv)|E]].
  - exists g', sig. split; [exact E|exact Hv].
  - exfalso.
    assert (Hok : is_ok (sign_digest_with_local_htss_threshold_shares_for_output
      (hkset_group_key demo_keys) demo_digest (point_to_xonly_bytes demo_output)
      (scalar_to_bytes demo_tweak) false (hkset_shares demo_keys) demo_signers demo_config
      demo_rng).2 = true) by (vm_compute; reflexivity).
    rewrite E in Hok. discriminate Hok.
Defined.

Definition demo_nonces : list HtssNoncePackage :=
  nonce_package demo_sid demo_nonce <$> demo_signers.

Definition demo_shares : list HtssSignatureSharePackage :=
  match select_shares (hkset_shares demo_keys) demo_signers with
  | Ok selected =>
      match mapM (fun '(share, n) => htss_sign_share (hkset_group_key demo_keys) demo_digest
                    share n demo_nonces demo_signers demo_config)
              (zip selected (local_nonce demo_sid demo_nonce <$> demo_signers)) with
      | Ok shares => shares
      | _ => []
      end
  | _ => []
  end.

Lemma aggregate_never_invalid_witness :
  exists out P sig,
    aggregate_htss_signature_shares (hkset_group_key demo_keys) demo_digest demo_nonces
      demo_shares demo_signers demo_config = Ok out /\
    out = mkAggregateSignature (signature_to_bytes sig) /\
    schnorr_verify P (frost_message demo_digest) sig = true.
Proof.
  assert (Hok : is_ok (aggregate_htss_signature_shares (hkset_group_key demo_keys) demo_digest
    demo_nonces demo_shares demo_signers demo_config) = true) by (vm_compute; reflexivity).
  destruct (aggregate_htss_signature_shares (hkset_group_key demo_keys) demo_digest
    demo_nonces demo_shares demo_signers demo_config) as [out| |] eqn:Ha;
    [|discriminate Hok..].
  destruct (aggregate_never_invalid (hkset_group_key demo_keys) demo_digest [] [] demo_nonces
              demo_shares demo_signers demo_config out) as [H _].
  destruct (H Ha) as (P & sig & _ & Hs & Hv). exists out, P, sig.
  split; [reflexivity|]. split; [exact Hs|exact Hv].
Defined.
End witnesses.
