(* ===== verification/FrostSession.v ===== *)
(** The base FROST sessions of [crates/dkgkit-frost/src/lib.rs]:
    [FrostDkgSession] and [FrostSigningSession] with their interior state, and
    the validation helpers around them.

    The protocol engine is the third-party crate [schnorr_fun]; the class
    [FrostLib] lists the types and functions the sessions call.  The sessions'
    own logic is modelled: the state kept between calls (which a failing call may
    already have changed), the order of the checks, the single use of a nonce and
    the conversions between participant identifiers and share indices.

    A [BTreeMap] keyed by share index that is only handed on is the list of its
    entries. *)

From Stdlib Require Import Ascii String Strings.Byte.
From stdpp Require Import base numbers countable gmap strings list sorting.
From S2P Require Import Prelude Core Codec Secp SmallGroup Packages SignerPolicy.

(** ** The engine's interface *)

Class FrostLib `{Secp} := {
  Contributor : Type;
  KeygenInput : Type;
  Coordinator : Type;
  AggKeygenInput : Type;
  SecretShare : Type;
  PairedShare : Type;          (** [PairedSecretShare<Normal, Zero>] *)
  EvenPairedShare : Type;      (** [PairedSecretShare<EvenY>] *)
  SharedKeyZero : Type;        (** [SharedKey<Normal, Zero>] *)
  EvenSharedKey : Type;        (** [SharedKey<EvenY>] *)
  Nonce : Type;
  NonceKeyPair : Type;
  CoordSession : Type;

  (** [Contributor::gen_keygen_input] *)
  gen_keygen_input : N -> list scalar -> N -> rng ->
    (Contributor * KeygenInput * list (scalar * scalar)) * rng;
  coordinator_new : N -> N -> Coordinator;
  coordinator_add_input : Coordinator -> N -> KeygenInput -> string + Coordinator;
  coordinator_finish : Coordinator -> option AggKeygenInput;
  collect_secret_inputs : scalar -> list scalar -> SecretShare;
  receive_secret_share : AggKeygenInput -> SecretShare -> string + PairedShare;
  agg_shared_key : AggKeygenInput -> SharedKeyZero;
  (** [.non_zero().map(into_xonly)] on both kinds of share *)
  paired_into_even : PairedShare -> option EvenPairedShare;
  shared_into_even : SharedKeyZero -> option EvenSharedKey;
  even_shared_public_key : EvenSharedKey -> point;
  (** [frost.gen_nonce(&mut frost.seed_nonce_rng(share, session_bytes))] *)
  gen_nonce : EvenPairedShare -> bytes -> rng -> NonceKeyPair * rng;
  nonce_public : NonceKeyPair -> Nonce;
  (** [coordinator_sign_session], and [party_sign_session] with the session's
      parties and aggregate nonce *)
  coordinator_sign_session : EvenSharedKey -> list (scalar * Nonce) -> bytes -> CoordSession;
  party_sign : point -> CoordSession -> bytes -> EvenPairedShare -> NonceKeyPair -> scalar;
  verify_and_combine : CoordSession -> EvenSharedKey -> list (scalar * scalar) ->
    string + (point * scalar);
}.

(** ** Identifiers and share indices *)

(** [bytes[28..32]] of a 32-byte array as a big-endian [u32]. *)
Definition participant_id_from_scalar_bytes (bs : bytes) : Result ParticipantId :=
  let value := be_value (take 4 (drop 28 bs)) in
  value ← ok_or (u16_try_from value) (InvalidParticipantId u16_max);
  ParticipantId_new value.

Definition participant_share_index `{Secp} (participant_id : ParticipantId) : Result scalar :=
  expect (scalar_non_zero (scalar_from (pid_0 participant_id))).

(** ** DKG sessions *)

Section dkg.
Context `{FrostLib}.
Context `{Bincode KeygenInput, !Bincode scalar, !Bincode EvenPairedShare, !Bincode EvenSharedKey}.

Record PendingSecretShare := mkPendingSecretShare {
  pss_recipient : ParticipantId;
  pss_bytes : bytes;
}.

Record DkgRuntime := mkDkgRuntime {
  rt_contributor : Contributor;
  rt_pending_secret_shares : list PendingSecretShare;
  rt_round1_packages : gmap ParticipantId Round1Package;
}.

Record FrostDkgSession := mkFrostDkgSession {
  fds_config : DkgSessionConfig;
  fds_runtime : option DkgRuntime;
}.

Definition FrostDkgSession_new (config : DkgSessionConfig) : FrostDkgSession :=
  mkFrostDkgSession config None.

(** [*self.runtime.borrow_mut() = Some(runtime)] *)
Definition set_runtime (runtime : DkgRuntime) (self : FrostDkgSession) : FrostDkgSession :=
  mkFrostDkgSession (fds_config self) (Some runtime).

Definition pending_share (item : scalar * scalar) : Result PendingSecretShare :=
  let '(index, share) := item in
  recipient ← participant_id_from_scalar_bytes (scalar_to_bytes index);
  bs ← encode_binary share;
  Ok (mkPendingSecretShare recipient bs).

(** The session and the generator are threaded; the runtime is stored only at
    the end. *)
Definition FrostDkgSession_round1 :
  ST (FrostDkgSession * rng) DkgKitError Round1Package :=
  fun '(self, g) =>
    let config := fds_config self in
    let id := dsc_participant_id config in
    match (share_indices ← mapM (fun i => participant_share_index (mkParticipantId (N.of_nat i)))
                                (seq 1 (N.to_nat (tc_participants (dsc_threshold config))));
           index ← unsigned_sub (pid_0 id) 1;
           Ok (share_indices, index)) with
    | Err e => ((self, g), Err e)
    | Panic => ((self, g), Panic)
    | Ok (share_indices, index) =>
        let '((contributor, keygen_input, secret_shares), g) :=
          gen_keygen_input (tc_threshold (dsc_threshold config)) share_indices index g in
        match (bs ← encode_binary keygen_input;
               pending ← mapM pending_share secret_shares;
               Ok (mkRound1Package id bs, pending)) with
        | Err e => ((self, g), Err e)
        | Panic => ((self, g), Panic)
        | Ok (package, pending) =>
            let runtime := mkDkgRuntime contributor pending {[ id := package ]} in
            ((set_runtime runtime self, g), Ok package)
        end
    end.

Definition frost_round1_step (participants : N) (seen : gset ParticipantId)
    (package : Round1Package) : Result (gset ParticipantId) :=
  let id := r1_participant_id package in
  reject_if (participants <? pid_0 id)%N (ParticipantOutOfRange (pid_0 id) participants);;
  if decide (id ∈ seen) then Err (DuplicateParticipantId (pid_0 id)) else Ok ({[id]} ∪ seen).

Definition validate_round1_set (self : FrostDkgSession)
    (round1_packages : list Round1Package) : Result unit :=
  let participants := tc_participants (dsc_threshold (fds_config self)) in
  reject_if (negb (length round1_packages =? N.to_nat participants))
    (ParticipantCountMismatch participants (length round1_packages));;
  foldlM (frost_round1_step participants) ∅ round1_packages;;
  Ok tt.

Definition add_input_step (coordinator : Coordinator) (package : Round1Package) :
  Result Coordinator :=
  keygen_input ← decode_binary (r1_bytes package);
  index ← unsigned_sub (pid_0 (r1_participant_id package)) 1;
  match coordinator_add_input coordinator index keygen_input with
  | inl err => Err (Protocol ("invalid round1 input: " +:+ err))
  | inr coordinator => Ok coordinator
  end.

Definition aggregate_keygen_inputs (self : FrostDkgSession)
    (round1_packages : list Round1Package) : Result AggKeygenInput :=
  let threshold := dsc_threshold (fds_config self) in
  coordinator ← foldlM add_input_step
                  (coordinator_new (tc_threshold threshold) (tc_participants threshold))
                  round1_packages;
  ok_or (coordinator_finish coordinator) (Protocol "coordinator missing round1 inputs").

(** The received packages are stored before they are aggregated: a failing
    aggregation leaves them behind. *)
Definition FrostDkgSession_round2 (round1_packages : list Round1Package) :
  ST FrostDkgSession DkgKitError (list Round2Package) :=
  fun self =>
    match validate_round1_set self round1_packages with
    | Err e => (self, Err e)
    | Panic => (self, Panic)
    | Ok _ =>
        match fds_runtime self with
        | None => (self, Err (Protocol "round1 must be called before round2"))
        | Some runtime =>
            let runtime := mkDkgRuntime (rt_contributor runtime)
                             (rt_pending_secret_shares runtime)
                             (collect_map r1_participant_id round1_packages) in
            let self := set_runtime runtime self in
            (self,
             aggregate_keygen_inputs self round1_packages;;
             Ok ((fun share => mkRound2Package (dsc_participant_id (fds_config self))
                                 (pss_recipient share) (pss_bytes share))
                   <$> rt_pending_secret_shares runtime))
        end
    end.

Definition collect_share_step (state : gset ParticipantId * list scalar)
    (package : Round2Package) : Result (gset ParticipantId * list scalar) :=
  let '(seen_senders, shares_for_me) := state in
  if decide (r2_sender package ∈ seen_senders)
  then Err (DuplicateParticipantId (pid_0 (r2_sender package)))
  else
    share ← decode_binary (r2_bytes package);
    Ok ({[r2_sender package]} ∪ seen_senders, shares_for_me ++ [share]).

Definition FrostDkgSession_finalize (self : FrostDkgSession)
    (round2_packages : list Round2Package) : Result LocalKeyShare :=
  let config := fds_config self in
  let id := dsc_participant_id config in
  let participants := tc_participants (dsc_threshold config) in
  runtime ← ok_or (fds_runtime self)
              (Protocol "round1 and round2 must be called before finalize");
  let have := size (rt_round1_packages runtime) in
  reject_if (negb (have =? N.to_nat participants))
    (Protocol ("missing round1 packages: have " +:+ dec_nat have +:+ ", need "
               +:+ dec participants));;
  '(_, shares_for_me) ←
    foldlM collect_share_step (∅, [])
      (filter (fun package => r2_recipient package = id) round2_packages);
  reject_if (negb (length shares_for_me =? N.to_nat participants))
    (Protocol ("missing round2 shares for participant " +:+ dec (pid_0 id) +:+ ": have "
               +:+ dec_nat (length shares_for_me) +:+ ", need " +:+ dec participants));;
  agg_input ← aggregate_keygen_inputs self (btree_values (rt_round1_packages runtime));
  my_share_index ← participant_share_index id;
  let secret_share := collect_secret_inputs my_share_index shares_for_me in
  paired_share ← match receive_secret_share agg_input secret_share with
                 | inl err => Err (Protocol ("share verification failed: " +:+ err))
                 | inr share => Ok share
                 end;
  xonly_paired_share ← ok_or (paired_into_even paired_share) (Protocol "paired share is zero");
  xonly_shared_key ← ok_or (shared_into_even (agg_shared_key agg_input))
                           (Protocol "shared key is zero");
  verification_key_bytes ← encode_binary xonly_shared_key;
  secret_share_bytes ← encode_binary xonly_paired_share;
  Ok (mkLocalKeyShare id
        (mkGroupKey (point_to_xonly_bytes (even_shared_public_key xonly_shared_key))
           verification_key_bytes)
        secret_share_bytes).

End dkg.

(** ** Signing sessions *)

Section signing.
Context `{FrostLib}.
Context `{Bincode Nonce, !Bincode scalar, !Bincode EvenPairedShare, !Bincode EvenSharedKey,
          !Bincode (point * scalar)}.

Definition nonce_map_step (request : SigningRequest)
    (state : gset ParticipantId * list (scalar * Nonce)) (nonce : NoncePackage) :
  Result (gset ParticipantId * list (scalar * Nonce)) :=
  let '(keys, map) := state in
  let id := np_participant_id nonce in
  reject_if (bool_decide (np_signing_session_id nonce <> sr_session_id request))
    (Protocol "nonce session mismatch");;
  reject_if (negb (bool_decide (id ∈ sr_signer_set request)))
    (Protocol ("nonce participant " +:+ dec (pid_0 id) +:+ " is not in signer set"));;
  public_nonce ← decode_binary (np_public_nonce_bytes nonce);
  index ← participant_share_index id;
  if decide (id ∈ keys) then Err (DuplicateParticipantId (pid_0 id))
  else Ok ({[id]} ∪ keys, map ++ [(index, public_nonce)]).

(** The share index is an injective function of the identifier, so a repeated
    key of the map is a repeated identifier. *)
Definition nonces_to_map (nonces : list NoncePackage) (request : SigningRequest) :
  Result (list (scalar * Nonce)) :=
  '(_, map) ← foldlM (nonce_map_step request) (∅, []) nonces;
  reject_if (negb (length map =? length (sr_signer_set request)))
    (Protocol ("nonce set mismatch: have " +:+ dec_nat (length map) +:+ ", need "
               +:+ dec_nat (length (sr_signer_set request))));;
  Ok map.

Definition share_set_step (request : SigningRequest) (seen : gset ParticipantId)
    (share : SignatureSharePackage) : Result (gset ParticipantId) :=
  let id := ssp_participant_id share in
  reject_if (bool_decide (ssp_signing_session_id share <> sr_session_id request))
    (Protocol "signature share session mismatch");;
  reject_if (negb (bool_decide (id ∈ sr_signer_set request)))
    (Protocol ("signature share participant " +:+ dec (pid_0 id) +:+ " is not in signer set"));;
  if decide (id ∈ seen) then Err (DuplicateParticipantId (pid_0 id)) else Ok ({[id]} ∪ seen).

Definition validate_signature_share_set (shares : list SignatureSharePackage)
    (request : SigningRequest) : Result unit :=
  seen ← foldlM (share_set_step request) ∅ shares;
  reject_if (negb (size seen =? length (sr_signer_set request)))
    (Protocol ("signature share set mismatch: have " +:+ dec_nat (size seen) +:+ ", need "
               +:+ dec_nat (length (sr_signer_set request)))).

Record FrostSigningSession := mkFrostSigningSession {
  fss_request : SigningRequest;
  fss_nonce_runtime : option NonceKeyPair;
}.

Definition FrostSigningSession_new (request : SigningRequest) : FrostSigningSession :=
  mkFrostSigningSession request None.

Definition group_key_mismatch : DkgKitError :=
  Protocol "local share group key does not match signing request".

Definition FrostSigningSession_nonce (local_share : LocalKeyShare) :
  ST (FrostSigningSession * rng) DkgKitError NoncePackage :=
  fun '(self, g) =>
    let request := fss_request self in
    match (reject_if (bool_decide (lks_group_key local_share <> sr_group_key request))
             group_key_mismatch;;
           decode_binary (lks_secret_share_bytes local_share)) with
    | Err e => ((self, g), Err e)
    | Panic => ((self, g), Panic)
    | Ok paired_share =>
        let '(nonce, g) := gen_nonce paired_share (as_bytes (sid_0 (sr_session_id request))) g in
        match encode_binary (nonce_public nonce) with
        | Err e => ((self, g), Err e)
        | Panic => ((self, g), Panic)
        | Ok bs =>
            ((mkFrostSigningSession request (Some nonce), g),
             Ok (mkNoncePackage (lks_participant_id local_share) (sr_session_id request) bs))
        end
    end.

(** [take()] empties the nonce before any later check can fail. *)
Definition FrostSigningSession_sign_share (local_share : LocalKeyShare)
    (nonces : list NoncePackage) : ST FrostSigningSession DkgKitError SignatureSharePackage :=
  fun self =>
    let request := fss_request self in
    let id := lks_participant_id local_share in
    match (reject_if (bool_decide (lks_group_key local_share <> sr_group_key request))
             group_key_mismatch;;
           reject_if (negb (bool_decide (id ∈ sr_signer_set request)))
             (Protocol ("participant " +:+ dec (pid_0 id) +:+ " is not in signer set"))) with
    | Err e => (self, Err e)
    | Panic => (self, Panic)
    | Ok _ =>
        match fss_nonce_runtime self with
        | None => (self, Err (Protocol "nonce must be generated before sign_share"))
        | Some nonce =>
            (mkFrostSigningSession request None,
             own ← ok_or (List.find (fun package => bool_decide (np_participant_id package = id))
                                    nonces)
                         (Protocol "missing local public nonce");
             paired_share ← decode_binary (lks_secret_share_bytes local_share);
             shared_key ← decode_binary (gk_verification_key_bytes (sr_group_key request));
             nonces_map ← nonces_to_map nonces request;
             let message := frost_message (sr_message_digest request) in
             let coord_session := coordinator_sign_session shared_key nonces_map message in
             let sig_share := party_sign (even_shared_public_key shared_key) coord_session message
                                paired_share nonce in
             sig_share_bytes ← encode_binary sig_share;
             Ok (mkSignatureSharePackage id (sr_session_id request)
                   (np_public_nonce_bytes own) sig_share_bytes))
        end
    end.

Definition FrostSigningSession_aggregate (self : FrostSigningSession)
    (shares : list SignatureSharePackage) : Result AggregateSignature :=
  let request := fss_request self in
  validate_signature_share_set shares request;;
  shared_key ← decode_binary (gk_verification_key_bytes (sr_group_key request));
  let nonces := (fun share => mkNoncePackage (ssp_participant_id share)
                                (ssp_signing_session_id share) (ssp_public_nonce_bytes share))
                  <$> shares in
  nonces_map ← nonces_to_map nonces request;
  let message := frost_message (sr_message_digest request) in
  let coord_session := coordinator_sign_session shared_key nonces_map message in
  sig_shares ← mapM (fun share =>
                 sig_share ← decode_binary (ssp_signature_share_bytes share);
                 index ← participant_share_index (ssp_participant_id share);
                 Ok (index, sig_share)) shares;
  signature ← match verify_and_combine coord_session shared_key sig_shares with
              | inl err => Err (Protocol ("signature share verification failed: " +:+ err))
              | inr signature => Ok signature
              end;
  bs ← encode_binary signature;
  AggregateSignature_new bs.

End signing.

(** ** Identifiers *)

Section identifiers.
Context `{SecpLaws}.

Lemma participant_share_index_Ok id :
  (1 <= pid_0 id <= u16_max)%N -> participant_share_index id = Ok (scalar_from (pid_0 id)).
Proof.
  intros Hid. unfold participant_share_index, scalar_non_zero.
  rewrite (proj2 (scalar_is_zero_false _)); [done|].
  apply scalar_from_u32_nonzero. unfold u16_max, u32_max in *. lia.
Qed.

Lemma participant_id_of_index id :
  (1 <= pid_0 id <= u16_max)%N ->
  participant_id_from_scalar_bytes (scalar_to_bytes (scalar_from (pid_0 id))) = Ok id.
Proof.
  intros Hid. assert (Hr : (pid_0 id <= u32_max)%N) by (unfold u16_max, u32_max in *; lia).
  unfold participant_id_from_scalar_bytes.
  rewrite scalar_from_to_bytes_small by done.
  rewrite drop_app_length' by done.
  rewrite firstn_all2 by (by rewrite length_be_bytes).
  rewrite be_value_bytes by (unfold u32_max in Hr; simpl; lia). cbv zeta.
  unfold u16_try_from. rewrite (proj2 (N.leb_le _ _)) by lia. cbn [ok_or]. rewrite ok_bind.
  unfold ParticipantId_new. rewrite (proj2 (N.eqb_neq _ _)) by lia. by destruct id.
Qed.

(** Identifiers survive the conversion to share indices.  Every valid
    participant identifier has a share index, distinct identifiers have distinct
    indices, and reading the identifier back from the index's bytes returns it. *)
Theorem participant_index_round_trip id id' :
  (1 <= pid_0 id <= u16_max)%N -> (1 <= pid_0 id' <= u16_max)%N ->
  exists x x', participant_share_index id = Ok x /\ participant_share_index id' = Ok x' /\
    participant_id_from_scalar_bytes (scalar_to_bytes x) = Ok id /\ (x = x' -> id = id').
Proof.
  intros Hid Hid'. exists (scalar_from (pid_0 id)), (scalar_from (pid_0 id')).
  rewrite !participant_share_index_Ok by done. split_and!; [done|done| |].
  - by apply participant_id_of_index.
  - intros E. apply scalar_from_inj in E; [by apply pid_0_inj|unfold u16_max, u32_max in *; lia..].
Qed.
End identifiers.

(** ** Single use of nonces *)

Section nonces.
Context `{FrostLib}.
Context `{Bincode Nonce, !Bincode scalar, !Bincode EvenPairedShare, !Bincode EvenSharedKey}.

(** Calls on a signing session, and what each did. *)
Inductive signing_call : Type :=
  | CallNonce (local_share : LocalKeyShare)
  | CallSign (local_share : LocalKeyShare) (nonces : list NoncePackage).

Inductive signing_event : Type :=
  | Generated (package : NoncePackage)
  | Signed (package : SignatureSharePackage)
  | Failed_.

Definition signing_step (st : FrostSigningSession * rng) (call : signing_call) :
  (FrostSigningSession * rng) * signing_event :=
  match call with
  | CallNonce share =>
      let '(st, r) := FrostSigningSession_nonce share st in
      (st, match r with Ok p => Generated p | _ => Failed_ end)
  | CallSign share nonces =>
      let '(self, g) := st in
      let '(self, r) := FrostSigningSession_sign_share share nonces self in
      ((self, g), match r with Ok p => Signed p | _ => Failed_ end)
  end.

Fixpoint signing_run (st : FrostSigningSession * rng) (calls : list signing_call) :
  list signing_event :=
  match calls with
  | [] => []
  | call :: calls => let '(st, e) := signing_step st call in e :: signing_run st calls
  end.

Definition is_signed (e : signing_event) : Prop := exists p, e = Signed p.
Definition is_generated (e : signing_event) : Prop := exists p, e = Generated p.

Lemma sign_share_without_nonce share nonces self :
  fss_nonce_runtime self = None ->
  exists e, FrostSigningSession_sign_share share nonces self = (self, Err e).
Proof.
  intros Hn. unfold FrostSigningSession_sign_share. rewrite Hn.
  destruct (bool_decide (lks_group_key share <> _)); cbn [reject_if]; [by eexists|].
  rewrite ok_bind. destruct (bool_decide (_ ∈ _)); by eexists.
Qed.

Lemma sign_share_consumes share nonces self self' p :
  FrostSigningSession_sign_share share nonces self = (self', Ok p) ->
  fss_nonce_runtime self' = None.
Proof.
  unfold FrostSigningSession_sign_share. intros Hs.
  destruct (_ ≫= _) as [[]| |]; [|discriminate Hs..].
  destruct (fss_nonce_runtime self); [|discriminate Hs]. by injection Hs as <- _.
Qed.

(** Without a nonce in the session, the first signature share comes after a
    generated nonce. *)
Lemma signed_after_generated calls : forall st j e,
  fss_nonce_runtime st.1 = None -> signing_run st calls !! j = Some e -> is_signed e ->
  exists k e', (k < j)%nat /\ signing_run st calls !! k = Some e' /\ is_generated e'.
Proof.
  induction calls as [|call calls IH]; intros [self g] j e Hn Hj Hs; [done|].
  cbn [signing_run] in *. destruct (signing_step (self, g) call) as [[self' g'] e0] eqn:E.
  assert (Hcase : is_generated e0 \/ fss_nonce_runtime self' = None /\ ~ is_signed e0).
  { destruct call as [share|share nonces]; cbn [signing_step] in E.
    - destruct (FrostSigningSession_nonce share (self, g)) as [st' r] eqn:En.
      injection E as -> <-. unfold FrostSigningSession_nonce in En.
      destruct (_ ≫= _); [|injection En as <- <- <-; right; split; [done|by intros [? ?]]..].
      destruct (gen_nonce _ _ _) as [n g1].
      destruct (encode_binary _); [|injection En as <- <- <-; right; split; [done|by intros [? ?]]..].
      injection En as <- <- <-. left. by eexists.
    - destruct (sign_share_without_nonce share nonces self Hn) as [err Herr].
      rewrite Herr in E. injection E as <- <- <-. right. split; [done|]. by intros [? ?]. }
  destruct j as [|j]; cbn in Hj.
  - injection Hj as <-. destruct Hcase as [[p ->]|[_ Hns]]; [|done]. by destruct Hs.
  - destruct Hcase as [Hg|[Hn' _]]; [exists 0, e0; split_and!; [lia|done|done]|].
    destruct (IH (self', g') j e Hn' Hj Hs) as (k & e' & Hk & Hke & Hg).
    exists (S k), e'. split_and!; [lia|done|done].
Qed.

Lemma generated_between calls : forall st i j e e',
  (i < j)%nat -> signing_run st calls !! i = Some e -> is_signed e ->
  signing_run st calls !! j = Some e' -> is_signed e' ->
  exists k e'', (i < k < j)%nat /\ signing_run st calls !! k = Some e'' /\ is_generated e''.
Proof.
  induction calls as [|call calls IH]; intros [self g] i j e e' Hij Hi Hs Hj Hs'; [done|].
  cbn [signing_run] in *. destruct (signing_step (self, g) call) as [[self' g'] e0] eqn:E.
  destruct j as [|j]; [lia|]. cbn in Hj. destruct i as [|i]; cbn in Hi.
  - injection Hi as <-. destruct Hs as [p ->].
    assert (Hn : fss_nonce_runtime self' = None).
    { destruct call as [share|share nonces]; cbn [signing_step] in E.
      - destruct (FrostSigningSession_nonce share (self, g)) as [st' [?| |]]; discriminate E.
      - destruct (FrostSigningSession_sign_share share nonces self) as [self1 [q| |]] eqn:Esh;
          [|discriminate E..]. injection E as <- <- _. by eapply sign_share_consumes. }
    destruct (signed_after_generated calls (self', g') j e' Hn Hj Hs') as (k & e'' & Hk & Hke & Hg).
    exists (S k), e''. split_and!; [lia|lia|done|done].
  - destruct (IH (self', g') i j e e' ltac:(lia) Hi Hs Hj Hs') as (k & e'' & Hk & Hke & Hg).
    exists (S k), e''. split_and!; [lia|lia|done|done].
Qed.

(** C23: a nonce is never used twice.  In every sequence of calls on a fresh
    signing session, before each signature share a nonce was generated, and
    between two signature shares another nonce was generated: a share consumes
    the nonce that the session holds. *)
Theorem signing_nonce_single_use request g calls :
  let events := signing_run (FrostSigningSession_new request, g) calls in
  forall j e, events !! j = Some e -> is_signed e ->
    (exists k e', (k < j)%nat /\ events !! k = Some e' /\ is_generated e') /\
    forall i ei, (i < j)%nat -> events !! i = Some ei -> is_signed ei ->
      exists k e', (i < k < j)%nat /\ events !! k = Some e' /\ is_generated e'.
Proof.
  intros events j e Hj Hs. split.
  - by apply (signed_after_generated calls (FrostSigningSession_new request, g) j e).
  - intros i ei Hij Hi Hsi.
    by apply (generated_between calls (FrostSigningSession_new request, g) i j ei e).
Qed.
End nonces.

(** ** DKG sessions: order of the calls and completeness of the inputs *)

Section dkg_properties.
Context `{FrostLib}.
Context `{Bincode KeygenInput, !Bincode scalar, !Bincode EvenPairedShare, !Bincode EvenSharedKey}.

Lemma collect_share_loop l : forall seen acc seen' acc',
  foldlM collect_share_step (seen, acc) l = Ok (seen', acc') ->
  NoDup (r2_sender <$> l) /\ (forall p, p ∈ l -> r2_sender p ∉ seen) /\
  length acc' = (length acc + length l)%nat.
Proof.
  induction l as [|p l IH]; intros seen acc seen' acc' Hf; cbn [foldlM] in Hf.
  - simplify_eq. split_and!; [constructor|set_solver|simpl; lia].
  - apply bind_Ok in Hf as ([seen1 acc1] & Hs & Hf). unfold collect_share_step in Hs.
    case_decide as Hin; [discriminate Hs|]. apply bind_Ok in Hs as (v & _ & Hs).
    injection Hs as <- <-. destruct (IH _ _ _ _ Hf) as (HN & Hd & Hl).
    rewrite length_app in Hl. cbn in Hl. split_and!; [|set_solver|simpl; lia].
    rewrite fmap_cons. apply NoDup_cons. split; [|done].
    intros (q & E & Hq)%list_elem_of_fmap. specialize (Hd q Hq). set_solver.
Qed.

(** The identifiers of [n] participants. *)
Definition participant_ids (n : N) : list ParticipantId :=
  (fun i => mkParticipantId (N.of_nat i)) <$> seq 1 (N.to_nat n).

Lemma ids_permutation (ids : list ParticipantId) n :
  NoDup ids -> length ids = N.to_nat n ->
  (forall id, id ∈ ids -> 1 <= pid_0 id <= n)%N -> ids ≡ₚ participant_ids n.
Proof.
  intros HN Hl Hin. apply submseteq_length_Permutation.
  - apply NoDup_submseteq; [done|]. intros [i] Hi. specialize (Hin _ Hi). cbn in Hin.
    apply list_elem_of_fmap. exists (N.to_nat i). rewrite N2Nat.id. split; [done|].
    apply elem_of_seq. lia.
  - unfold participant_ids. rewrite length_fmap, length_seq. lia.
Qed.

Lemma frost_round1_loop n l : forall seen seen',
  foldlM (frost_round1_step n) seen l = Ok seen' ->
  NoDup (r1_participant_id <$> l) /\
  forall p, p ∈ l -> (r1_participant_id p ∉ seen) /\ (pid_0 (r1_participant_id p) <= n)%N.
Proof.
  induction l as [|p l IH]; intros seen seen' Hf; cbn [foldlM] in Hf.
  - split; [constructor|]. by intros p Hp%not_elem_of_nil.
  - apply bind_Ok in Hf as (seen1 & Hs & Hf). unfold frost_round1_step in Hs.
    apply bind_Ok in Hs as (u & Hle%reject_if_Ok%N.ltb_ge & Hs).
    case_decide as Hin; [discriminate Hs|]. injection Hs as <-.
    destruct (IH _ _ Hf) as [HN Hl]. split.
    + rewrite fmap_cons. apply NoDup_cons. split; [|done].
      intros (q & E & Hq)%list_elem_of_fmap. destruct (Hl q Hq) as [Hq' _]. set_solver.
    + intros q [->|Hq]%elem_of_cons; [done|]. destruct (Hl q Hq). set_solver.
Qed.

Lemma add_input_loop_ids l : forall coordinator coordinator',
  foldlM add_input_step coordinator l = Ok coordinator' ->
  forall p, p ∈ l -> (1 <= pid_0 (r1_participant_id p))%N.
Proof.
  induction l as [|p l IH]; intros co co' Hf q Hq; [by apply not_elem_of_nil in Hq|].
  cbn [foldlM] in Hf. apply bind_Ok in Hf as (co1 & Hs & Hf).
  apply elem_of_cons in Hq as [->|Hq]; [|by apply (IH _ _ Hf)].
  unfold add_input_step in Hs. apply bind_Ok in Hs as (input & _ & Hs).
  apply bind_Ok in Hs as (index & Hsub & _). unfold unsigned_sub in Hsub.
  destruct (N.leb_spec 1 (pid_0 (r1_participant_id p))); [done|discriminate Hsub].
Qed.

Lemma aggregate_ids self l agg p :
  aggregate_keygen_inputs self l = Ok agg -> p ∈ l -> (1 <= pid_0 (r1_participant_id p))%N.
Proof.
  unfold aggregate_keygen_inputs. intros (co & Hf & _)%bind_Ok. by eapply add_input_loop_ids.
Qed.

(** The calls of a session: round one and round two, in any order, failing calls
    included. *)
Inductive dkg_step : FrostDkgSession -> FrostDkgSession -> Prop :=
  | dkg_round1 self g : dkg_step self (FrostDkgSession_round1 (self, g)).1.1
  | dkg_round2 self round1 : dkg_step self (FrostDkgSession_round2 round1 self).1.

(** What a session has stored: packages with distinct identifiers in range, each
    under its own. *)
Definition stored_ok (config : DkgSessionConfig) (self : FrostDkgSession) : Prop :=
  fds_config self = config /\
  forall rt, fds_runtime self = Some rt ->
    exists l, rt_round1_packages rt = collect_map r1_participant_id l /\
      NoDup (r1_participant_id <$> l) /\
      forall p, p ∈ l -> (pid_0 (r1_participant_id p) <= tc_participants (dsc_threshold config))%N.

Lemma validate_round1_set_Ok self round1 :
  validate_round1_set self round1 = Ok tt ->
  let n := tc_participants (dsc_threshold (fds_config self)) in
  length round1 = N.to_nat n /\ NoDup (r1_participant_id <$> round1) /\
  forall p, p ∈ round1 -> (pid_0 (r1_participant_id p) <= n)%N.
Proof.
  unfold validate_round1_set. intros (u & Hl & Hv)%bind_Ok.
  apply reject_if_Ok, negb_false_iff, Nat.eqb_eq in Hl.
  apply bind_Ok in Hv as (seen & Hf & _). apply frost_round1_loop in Hf as [HN Hin].
  split_and!; [done|done|]. intros p Hp. by apply Hin.
Qed.

Lemma dkg_step_stored config self self' :
  (pid_0 (dsc_participant_id config) <= tc_participants (dsc_threshold config))%N ->
  dkg_step self self' -> stored_ok config self -> stored_ok config self'.
Proof.
  intros Hown Hstep [Hc Hst]. destruct Hstep as [self g|self round1].
  - unfold FrostDkgSession_round1. repeat case_match; cbn [fst]; try by split.
    match goal with E : (_ ≫= _) = Ok _ |- _ => apply bind_Ok in E as (bs & _ & E);
      apply bind_Ok in E as (pending & _ & [= <- <-]) end.
    split; [done|]. intros rt [= <-]. cbn. rewrite Hc.
    exists [mkRound1Package (dsc_participant_id config) bs]. split_and!; [done|apply NoDup_singleton|].
    by intros q ->%list_elem_of_singleton.
  - unfold FrostDkgSession_round2.
    destruct (validate_round1_set self round1) as [[]| |] eqn:Ev; [|by split..].
    destruct (fds_runtime self) as [rt|] eqn:Ert; [|split; [exact Hc|by cbn; rewrite Ert]].
    apply validate_round1_set_Ok in Ev as (_ & HN & Hin). rewrite Hc in Hin.
    split; [done|]. intros rt' [= <-]. by exists round1.
Qed.

Lemma dkg_run_stored config self :
  (pid_0 (dsc_participant_id config) <= tc_participants (dsc_threshold config))%N ->
  rtc dkg_step (FrostDkgSession_new config) self -> stored_ok config self.
Proof.
  intros Hown Hrun. assert (Hnew : stored_ok config (FrostDkgSession_new config)) by done.
  revert Hnew. induction Hrun as [|x y z Hxy _ IH]; [done|]. intros Hx.
  apply IH. by eapply dkg_step_stored.
Qed.

(** A complete stored set that aggregates has every participant once. *)
Lemma stored_complete config self rt agg :
  stored_ok config self -> fds_runtime self = Some rt ->
  size (rt_round1_packages rt) = N.to_nat (tc_participants (dsc_threshold config)) ->
  aggregate_keygen_inputs self (btree_values (rt_round1_packages rt)) = Ok agg ->
  (r1_participant_id <$> btree_values (rt_round1_packages rt)) ≡ₚ
    participant_ids (tc_participants (dsc_threshold config)).
Proof.
  intros [_ Hst] Hrt Hsize Hagg. destruct (Hst rt Hrt) as (l & E & HN & Hin). rewrite E in *.
  pose proof (btree_values_collect r1_participant_id l HN) as Hperm.
  apply ids_permutation.
  - by rewrite Hperm.
  - rewrite length_fmap, Hperm, <- Hsize, <- length_map_to_list, collect_map_to_list by done.
    by rewrite length_fmap.
  - intros id (p & -> & Hp)%list_elem_of_fmap. split; [by eapply aggregate_ids|].
    apply Hin. by rewrite <- Hperm.
Qed.

(** C26: a DKG session runs in order and with complete inputs.  On a fresh session
    round two and finalization fail and leave it as it was.  A successful round
    two was given one package of each participant, the identifiers being [1] to
    the number of participants, each once; it keeps the configuration, sends only
    from the session's own participant and stores exactly these packages.  Take
    any calls of rounds one and two on a session whose own identifier is in range,
    failing ones included: when it then finalizes, it holds one round-one package
    of each participant, and it was given one share from each of as many distinct
    senders, all addressed to this participant (the senders' identifiers are not
    compared with the participants), and it returns this participant's share. *)
Theorem dkg_session_order config round1 round2 :
  let n := tc_participants (dsc_threshold config) in
  let own := dsc_participant_id config in
  is_err (FrostDkgSession_round2 round1 (FrostDkgSession_new config)).2 = true /\
  (FrostDkgSession_round2 round1 (FrostDkgSession_new config)).1 = FrostDkgSession_new config /\
  is_err (FrostDkgSession_finalize (FrostDkgSession_new config) round2) = true /\
  (forall self self' out,
     fds_config self = config -> FrostDkgSession_round2 round1 self = (self', Ok out) ->
     fds_config self' = config /\
     (r1_participant_id <$> round1) ≡ₚ participant_ids n /\
     (forall p, p ∈ out -> r2_sender p = own) /\
     rt_round1_packages <$> fds_runtime self' = Some (collect_map r1_participant_id round1)) /\
  (forall self share,
     (pid_0 own <= n)%N -> rtc dkg_step (FrostDkgSession_new config) self ->
     FrostDkgSession_finalize self round2 = Ok share ->
     let mine := filter (fun package => r2_recipient package = own) round2 in
     (exists rt, fds_runtime self = Some rt /\
        (r1_participant_id <$> btree_values (rt_round1_packages rt)) ≡ₚ participant_ids n) /\
     NoDup (r2_sender <$> mine) /\ length mine = N.to_nat n /\ lks_participant_id share = own).
Proof.
  intros n own. split_and!.
  - unfold FrostDkgSession_round2. destruct (validate_round1_set _ _) eqn:E; [done|done|].
    exfalso. revert E. unfold validate_round1_set. cbv zeta. apply bind_returns.
    { apply reject_if_returns. } intros _ _. apply bind_returns; [|done].
    apply (foldlM_returns _ (fun _ => True)); [|done]. intros s p _ _.
    unfold frost_round1_step. cbv zeta. destruct (_ <? _)%N; [done|]. cbn. by case_decide.
  - unfold FrostDkgSession_round2. by destruct (validate_round1_set _ _).
  - done.
  - intros self self' out Hc Hr. unfold FrostDkgSession_round2 in Hr.
    destruct (validate_round1_set self round1) as [[]| |] eqn:Ev; [|discriminate Hr..].
    apply validate_round1_set_Ok in Ev as (Hl & HN & Hin). rewrite Hc in Hl, Hin.
    destruct (fds_runtime self) as [rt|]; [|discriminate Hr]. cbv zeta in Hr.
    injection Hr as <- Hr. apply bind_Ok in Hr as (agg & Hagg & Hr). injection Hr as <-.
    split_and!; [done| | |done].
    + apply ids_permutation; [done|by rewrite length_fmap|].
      intros id (p & -> & Hp)%list_elem_of_fmap. split; [by eapply aggregate_ids|by apply Hin].
    + intros p (s & -> & _)%list_elem_of_fmap. cbn. by rewrite Hc.
  - intros self share Hown Hrun Hf mine. pose proof (dkg_run_stored config self Hown Hrun) as Hst.
    pose proof (proj1 Hst) as Hc. unfold FrostDkgSession_finalize in Hf. cbv zeta in Hf.
    rewrite Hc in Hf. fold n own in Hf. apply bind_Ok in Hf as (rt & Hrt & Hf). apply ok_or_Ok in Hrt.
    apply bind_Ok in Hf as (u & Hsz & Hf). apply reject_if_Ok, negb_false_iff, Nat.eqb_eq in Hsz.
    apply bind_Ok in Hf as ([seen shares] & Hcol & Hf). apply collect_share_loop in Hcol as (HN & _ & Hl).
    apply bind_Ok in Hf as (u' & Hlen & Hf).
    apply reject_if_Ok, negb_false_iff, Nat.eqb_eq in Hlen. cbn in Hl.
    apply bind_Ok in Hf as (agg & Hagg & Hf).
    split_and!; [|done|unfold mine; lia|].
    + exists rt. split; [done|]. by apply (stored_complete config self rt agg).
    + repeat (apply bind_Ok in Hf as (? & _ & Hf)). by injection Hf as <-.
Qed.

Lemma add_input_loop_returns l : forall coordinator,
  (forall p, p ∈ l -> 1 <= pid_0 (r1_participant_id p))%N ->
  returns (foldlM add_input_step coordinator l).
Proof.
  intros coordinator Hl. apply (foldlM_returns _ (fun _ => True)); [|done].
  intros co p Hp _. unfold add_input_step, decode_binary, serialization.
  destruct (bincode_deserialize _); [done|]. rewrite ok_bind. unfold unsigned_sub.
  rewrite (proj2 (N.leb_le _ _)) by (by apply Hl). rewrite ok_bind.
  by destruct (coordinator_add_input _ _ _).
Qed.

(** A zero identifier is not caught before the index arithmetic.  With
    non-zero identifiers aggregating the round-one inputs cannot panic; but a
    package set whose only participant carries the identifier zero (which
    [ParticipantId::new] refuses and deserialization does not) passes
    [validate_round1_set] and then underflows [participant_id - 1]. *)
Theorem zero_identifier_underflows :
  (forall self round1,
     (forall p, p ∈ round1 -> 1 <= pid_0 (r1_participant_id p))%N ->
     returns (aggregate_keygen_inputs self round1)) /\
  (forall config bs (input : KeygenInput),
     tc_participants (dsc_threshold config) = 1%N -> decode_binary bs = Ok input ->
     let self := FrostDkgSession_new config in
     let round1 := [mkRound1Package (mkParticipantId 0) bs] in
     validate_round1_set self round1 = Ok tt /\ aggregate_keygen_inputs self round1 = Panic).
Proof.
  split.
  - intros self round1 Hl. unfold aggregate_keygen_inputs. cbv zeta. apply bind_returns.
    + by apply add_input_loop_returns.
    + intros co _. by destruct (coordinator_finish co).
  - intros config bs input Hn Hd self round1. split.
    + unfold validate_round1_set, self, FrostDkgSession_new. cbn [fds_config]. rewrite Hn. done.
    + assert (Hs : forall co, add_input_step co (mkRound1Package (mkParticipantId 0) bs) = Panic).
      { intros co. unfold add_input_step. cbn [r1_bytes]. by rewrite Hd. }
      unfold aggregate_keygen_inputs, round1. cbn [foldlM]. by rewrite Hs.
Qed.
End dkg_properties.

(** ** A small engine *)

(** An engine whose shares and keys are integers and whose checks always pass:
    it lets the sessions run. *)
Definition unit_engine : @FrostLib small_group := {|
  Contributor := N;
  KeygenInput := N;
  Coordinator := list N;
  AggKeygenInput := list N;
  SecretShare := nat;
  PairedShare := N;
  EvenPairedShare := N;
  SharedKeyZero := N;
  EvenSharedKey := N;
  Nonce := N;
  NonceKeyPair := N;
  CoordSession := nat;
  gen_keygen_input t indices i g := ((i, t, (fun x => (x, x)) <$> indices), g);
  coordinator_new _ _ := [];
  coordinator_add_input l i _ := inr (i :: l);
  coordinator_finish := Some;
  collect_secret_inputs _ l := length l;
  receive_secret_share _ l := inr (N.of_nat l);
  agg_shared_key l := N.of_nat (length l);
  paired_into_even := Some;
  shared_into_even := Some;
  even_shared_public_key (n : N) := (@scalar_from small_group n : @point small_group);
  gen_nonce share _ g := (share, g);
  nonce_public n := n;
  coordinator_sign_session _ nonces _ := length nonces;
  party_sign _ _ _ _ n := @scalar_from small_group n;
  verify_and_combine _ _ l := match l with
                              | (R, s) :: _ => inr (R, s)
                              | [] => inl "no shares"
                              end;
|}.

Definition scalar_bincode : Bincode (@scalar small_group) := {|
  bincode_serialize s := inr (f_to_bytes s);
  bincode_deserialize bs := match f_from_bytes bs with Some s => inr s | None => inl "scalar" end;
|}.

Section witnesses.
Local Existing Instances small_group small_group_laws unit_engine scalar_bincode digits_bincode.

Lemma participant_index_round_trip_witness :
  exists x, participant_share_index (mkParticipantId 7) = Ok x /\
    participant_id_from_scalar_bytes (scalar_to_bytes x) = Ok (mkParticipantId 7).
Proof.
  destruct (participant_index_round_trip (mkParticipantId 7) (mkParticipantId 8)
              ltac:(vm_compute; split; discriminate) ltac:(vm_compute; split; discriminate))
    as (x & x' & Hx & _ & Hid & _).
  exists x. split; [exact Hx|exact Hid].
Defined.

Definition engine_n_bincode : Bincode N := digits_bincode.

Definition demo_group_key : GroupKey := mkGroupKey [x01] (digits_of_pos (encode 5%N)).
Definition demo_local_share : LocalKeyShare :=
  mkLocalKeyShare (mkParticipantId 1) demo_group_key (digits_of_pos (encode 9%N)).
Definition demo_request : SigningRequest :=
  mkSigningRequest (mkSessionId "s") demo_group_key [x02] [mkParticipantId 1].
Definition demo_nonce_package : NoncePackage :=
  mkNoncePackage (mkParticipantId 1) (mkSessionId "s") (digits_of_pos (encode 9%N)).
Definition demo_calls : list signing_call :=
  [CallNonce demo_local_share; CallSign demo_local_share [demo_nonce_package];
   CallSign demo_local_share [demo_nonce_package];
   CallNonce demo_local_share; CallSign demo_local_share [demo_nonce_package]].

Definition demo_events : list signing_event :=
  @signing_run small_group unit_engine engine_n_bincode scalar_bincode engine_n_bincode
    engine_n_bincode (FrostSigningSession_new demo_request, 0%Z) demo_calls.

(** Nonce, share, refused share, nonce, share. *)
Lemma signing_nonce_single_use_witness :
  exists k e, (1 < k < 4)%nat /\ demo_events !! k = Some e /\ is_generated e.
Proof.
  assert (H1 : exists p, demo_events !! 1 = Some (Signed p)) by (vm_compute; eauto).
  assert (H4 : exists p, demo_events !! 4 = Some (Signed p)) by (vm_compute; eauto).
  destruct H1 as [p1 H1], H4 as [p4 H4].
  destruct (@signing_nonce_single_use small_group unit_engine engine_n_bincode scalar_bincode
              engine_n_bincode engine_n_bincode demo_request 0%Z demo_calls 4 (Signed p4) H4
              ltac:(by exists p4)) as [_ Hb].
  exact (Hb 1 (Signed p1) ltac:(lia) H1 ltac:(by exists p1)).
Defined.

Definition demo_dkg_config : DkgSessionConfig :=
  mkDkgSessionConfig (mkSessionId "s") (mkThresholdConfig 1 1) (mkParticipantId 1).

Lemma zero_identifier_underflows_witness :
  @aggregate_keygen_inputs small_group unit_engine engine_n_bincode
    (FrostDkgSession_new demo_dkg_config)
    [mkRound1Package (mkParticipantId 0) (digits_of_pos (encode 3%N))] = Panic.
Proof.
  apply (proj2 (@zero_identifier_underflows small_group unit_engine engine_n_bincode)
           demo_dkg_config _ 3%N); vm_compute; reflexivity.
Defined.

Definition demo_session_after_round1 : FrostDkgSession :=
  (@FrostDkgSession_round1 small_group unit_engine engine_n_bincode scalar_bincode
     (FrostDkgSession_new demo_dkg_config, 0%Z)).1.1.

(** A one-participant session that runs to the end. *)
Lemma dkg_session_order_witness :
  exists share rt, @FrostDkgSession_finalize small_group unit_engine engine_n_bincode scalar_bincode
    engine_n_bincode engine_n_bincode demo_session_after_round1
    [mkRound2Package (mkParticipantId 1) (mkParticipantId 1) (f_to_bytes (f_of 1))] = Ok share /\
    lks_participant_id share = mkParticipantId 1 /\
    fds_runtime demo_session_after_round1 = Some rt /\
    (r1_participant_id <$> btree_values (rt_round1_packages rt)) ≡ₚ [mkParticipantId 1].
Proof.
  destruct (@dkg_session_order small_group unit_engine engine_n_bincode scalar_bincode
    engine_n_bincode engine_n_bincode demo_dkg_config []
    [mkRound2Package (mkParticipantId 1) (mkParticipantId 1) (f_to_bytes (f_of 1))])
    as (_ & _ & _ & _ & Hf).
  destruct (@FrostDkgSession_finalize small_group unit_engine engine_n_bincode scalar_bincode
    engine_n_bincode engine_n_bincode demo_session_after_round1
    [mkRound2Package (mkParticipantId 1) (mkParticipantId 1) (f_to_bytes (f_of 1))])
    as [share| |] eqn:E; [|vm_compute in E; discriminate E..].
  destruct (Hf demo_session_after_round1 share) as ((rt & Hrt & Hids) & _ & _ & Hid);
    [vm_compute; discriminate| |exact E|].
  - apply rtc_once. exact (dkg_round1 (FrostDkgSession_new demo_dkg_config) 0%Z).
  - exists share, rt. split_and!; [reflexivity|exact Hid|exact Hrt|exact Hids].
Defined.
End witnesses.
