(* ===== verification/Sdk.v ===== *)
(** [crates/dkgkit-sdk/src/lib.rs]: the session builder, the HTSS service and the
    coordinator that exchanges packages over any [Transport].  (The local
    ceremonies of the same file are in [Ceremony].)

    The coordinator's theorems are proved against the contract
    [QueueTransport], so that they hold for every transport that keeps it. *)

From Stdlib Require Import Ascii String Strings.Byte.
From stdpp Require Import base numbers countable gmap strings list sorting.
From S2P Require Import Prelude Core Codec Transport Secp SmallGroup Packages SignerPolicy.
From S2P Require Import Birkhoff HtssKeygen HtssDkg FrostSession.

(** ** The session builder *)

Record DkgKitSessionBuilder := mkDkgKitSessionBuilder {
  sb_session_id : option string;
  sb_threshold : option N;
  sb_participant_count : option N;
  sb_participants : list Participant;
  sb_local_participant_id : option N;
}.

Definition DkgKitSessionBuilder_new : DkgKitSessionBuilder :=
  mkDkgKitSessionBuilder None None None [] None.

Definition DkgKitSessionBuilder_session_id (self : DkgKitSessionBuilder) (value : string) :
  DkgKitSessionBuilder :=
  mkDkgKitSessionBuilder (Some value) (sb_threshold self) (sb_participant_count self)
    (sb_participants self) (sb_local_participant_id self).

Definition DkgKitSessionBuilder_threshold (self : DkgKitSessionBuilder)
    (threshold participant_count : N) : DkgKitSessionBuilder :=
  mkDkgKitSessionBuilder (sb_session_id self) (Some threshold) (Some participant_count)
    (sb_participants self) (sb_local_participant_id self).

Definition DkgKitSessionBuilder_participant (self : DkgKitSessionBuilder) (id : N)
    (label : option string) : Result DkgKitSessionBuilder :=
  participant ← Participant_new id label;
  Ok (mkDkgKitSessionBuilder (sb_session_id self) (sb_threshold self)
        (sb_participant_count self) (sb_participants self ++ [participant])
        (sb_local_participant_id self)).

Definition DkgKitSessionBuilder_local_participant (self : DkgKitSessionBuilder) (id : N) :
  DkgKitSessionBuilder :=
  mkDkgKitSessionBuilder (sb_session_id self) (sb_threshold self) (sb_participant_count self)
    (sb_participants self) (Some id).

Definition DkgKitSessionBuilder_build_manifest (self : DkgKitSessionBuilder) :
  Result SessionManifest :=
  config ← SessionConfig_new (default "default" (sb_session_id self))
             (default 0%N (sb_threshold self)) (default 0%N (sb_participant_count self))
             (sb_participants self);
  Ok (SessionManifest_frost_v1 config).

Definition DkgKitSessionBuilder_build_frost_session `{FrostLib} (self : DkgKitSessionBuilder) :
  Result FrostDkgSession :=
  local_participant_id ← ParticipantId_new (default 0%N (sb_local_participant_id self));
  manifest ← DkgKitSessionBuilder_build_manifest self;
  Ok (FrostDkgSession_new
        (mkDkgSessionConfig (sc_session_id (sm_config manifest))
           (sc_threshold (sm_config manifest)) local_participant_id)).

Definition create_frost_session `{FrostLib} (session_id : string)
    (threshold participants participant_id : N) : Result FrostDkgSession :=
  session_id ← SessionId_new session_id;
  threshold ← ThresholdConfig_new threshold participants;
  participant_id ← ParticipantId_new participant_id;
  Ok (FrostDkgSession_new (mkDkgSessionConfig session_id threshold participant_id)).

(** ** The HTSS service *)

Record HtssDkgService := mkHtssDkgService {
  hds_session_id : SessionId;
  hds_config : HierarchicalThresholdConfig;
}.

Definition HtssDkgService_new (session_id : string) (config : HierarchicalThresholdConfig) :
  Result HtssDkgService :=
  session_id ← SessionId_new session_id;
  Ok (mkHtssDkgService session_id config).

Section htss_service.
Context `{Secp} `{SerdeJson HtssDkgRound1Package, SerdeJson HtssDkgRound2Package}.

Definition HtssDkgService_begin_round1 (self : HtssDkgService) (participant_id : ParticipantId) :
  ST rng DkgKitError HtssDkgRound1State :=
  htss_dkg_round1 participant_id (hds_config self).

Definition HtssDkgService_round1_message (self : HtssDkgService)
    (package : HtssDkgRound1Package) : Result ProtocolMessage :=
  HtssDkgRound1Package_to_protocol_message package (hds_session_id self).

Definition HtssDkgService_create_round2_packages (self : HtssDkgService)
    (state : HtssDkgRound1State) (round1_packages : list HtssDkgRound1Package) :
  Result (list HtssDkgRound2Package) :=
  htss_dkg_round2 state round1_packages (hds_config self).

Definition HtssDkgService_round2_message (self : HtssDkgService)
    (package : HtssDkgRound2Package) : Result ProtocolMessage :=
  HtssDkgRound2Package_to_protocol_message package (hds_session_id self).

Definition HtssDkgService_finalize_participant (self : HtssDkgService)
    (participant_id : ParticipantId) (round1_packages : list HtssDkgRound1Package)
    (round2_packages : list HtssDkgRound2Package) : Result (GroupKey * HtssLocalKeyShare) :=
  finalize_htss_dkg participant_id round1_packages round2_packages (hds_config self).

Definition HtssDkgService_run_local_rehearsal (self : HtssDkgService) :
  ST rng DkgKitError HtssLocalKeySet :=
  run_distributed_htss_keygen (hds_config self).
End htss_service.

(** ** The coordinator *)

Record FrostCoordinator (T : Type) := mkFrostCoordinator { fc_transport : T }.
Arguments mkFrostCoordinator {T} _.
Arguments fc_transport {T} _.

Definition FrostCoordinator_new {T} (transport : T) : FrostCoordinator T :=
  mkFrostCoordinator transport.

Definition FrostCoordinator_transport {T} (self : FrostCoordinator T) : T := fc_transport self.

Section coordinator.
Context `{Transport T}.
Context `{SerdeJson Round1Package, SerdeJson Round2Package, SerdeJson NoncePackage,
          SerdeJson SignatureSharePackage, SerdeJson HtssDkgRound1Package,
          SerdeJson HtssDkgRound2Package, SerdeJson HtssNoncePackage,
          SerdeJson HtssSignatureSharePackage}.

(** A method call on the field [self.transport]. *)
Definition on_transport {A} (op : ST T DkgKitError A) : ST (FrostCoordinator T) DkgKitError A :=
  fun self => let '(t, r) := op (fc_transport self) in (mkFrostCoordinator t, r).

Definition FrostCoordinator_connect : ST (FrostCoordinator T) DkgKitError unit :=
  on_transport connect.

Definition FrostCoordinator_disconnect : ST (FrostCoordinator T) DkgKitError unit :=
  on_transport disconnect.

(** [self.transport.publish(message?)] *)
Definition publish_message (message : Result ProtocolMessage) :
  ST (FrostCoordinator T) DkgKitError unit :=
  message ← st_lift message;
  on_transport (publish message).

Definition publish_round1 (session_id : SessionId) (package : Round1Package) :=
  publish_message (Round1Package_to_protocol_message package session_id).

Definition publish_round2 (session_id : SessionId) (package : Round2Package) :=
  publish_message (Round2Package_to_protocol_message package session_id).

Definition publish_htss_dkg_round1 (session_id : SessionId) (package : HtssDkgRound1Package) :=
  publish_message (HtssDkgRound1Package_to_protocol_message package session_id).

Definition publish_htss_dkg_round2 (session_id : SessionId) (package : HtssDkgRound2Package) :=
  publish_message (HtssDkgRound2Package_to_protocol_message package session_id).

Definition publish_nonce (package : NoncePackage) :=
  publish_message (NoncePackage_to_protocol_message package).

Definition publish_signature_share (package : SignatureSharePackage) :=
  publish_message (SignatureSharePackage_to_protocol_message package).

Definition publish_htss_nonce (package : HtssNoncePackage) :=
  publish_message (HtssNoncePackage_to_protocol_message package).

Definition publish_htss_signature_share (package : HtssSignatureSharePackage) :=
  publish_message (HtssSignatureSharePackage_to_protocol_message package).

(** The two closures the drains pass, and the body they share: drain, then
    convert every message, stopping at the first that fails. *)
Definition only_kind (kind : ProtocolMessageKind) (message : ProtocolMessage) : bool :=
  bool_decide (pm_kind message = kind).

Definition only_target (kind : ProtocolMessageKind) (recipient : ParticipantId)
    (message : ProtocolMessage) : bool :=
  bool_decide (pm_kind message = kind) && ProtocolMessage_is_for message recipient.

Definition drain_packages {X} (session_id : SessionId) (predicate : ProtocolMessage -> bool)
    (from_protocol_message : ProtocolMessage -> Result X) :
  ST (FrostCoordinator T) DkgKitError (list X) :=
  messages ← on_transport (drain_pure session_id predicate);
  st_lift (mapM from_protocol_message messages).

Definition drain_round1 (session_id : SessionId) :=
  drain_packages session_id (only_kind FrostDkgRound1) Round1Package_from_protocol_message.

Definition drain_round2_for (session_id : SessionId) (recipient : ParticipantId) :=
  drain_packages session_id (only_target FrostDkgRound2 recipient)
    Round2Package_from_protocol_message.

Definition drain_htss_dkg_round1 (session_id : SessionId) :=
  drain_packages session_id (only_kind HtssDkgRound1) HtssDkgRound1Package_from_protocol_message.

Definition drain_htss_dkg_round2_for (session_id : SessionId) (recipient : ParticipantId) :=
  drain_packages session_id (only_target HtssDkgRound2 recipient)
    HtssDkgRound2Package_from_protocol_message.

Definition drain_nonces (signing_session_id : SessionId) :=
  drain_packages signing_session_id (only_kind FrostSigningNonce)
    NoncePackage_from_protocol_message.

Definition drain_signature_shares (signing_session_id : SessionId) :=
  drain_packages signing_session_id (only_kind FrostSignatureShare)
    SignatureSharePackage_from_protocol_message.

Definition drain_htss_nonces (signing_session_id : SessionId) :=
  drain_packages signing_session_id (only_kind HtssSigningNonce)
    HtssNoncePackage_from_protocol_message.

Definition drain_htss_signature_shares (signing_session_id : SessionId) :=
  drain_packages signing_session_id (only_kind HtssSignatureShare)
    HtssSignatureSharePackage_from_protocol_message.
End coordinator.

(** ** Delivery *)

Section delivery.
Context `{QueueTransport T}.

Definition coordinator_pending (c : FrostCoordinator T) : list ProtocolMessage :=
  pending (fc_transport c).

Definition coordinator_ok (c : FrostCoordinator T) : Prop := transport_ok (fc_transport c).

Lemma drain_packages_spec {X} c sid f (from : ProtocolMessage -> Result X) :
  coordinator_ok c ->
  exists c', drain_packages sid f from c =
               (c', mapM from (filter (selected sid f) (coordinator_pending c))) /\
             coordinator_ok c' /\
             coordinator_pending c' = filter (fun m => ~ selected sid f m) (coordinator_pending c).
Proof.
  intros Hok. destruct (drain_pure_spec (fc_transport c) sid f Hok) as (t' & Ht & Hok' & Hp).
  exists (mkFrostCoordinator t'). unfold drain_packages. split; [|done].
  erewrite st_bind_Ok; [reflexivity|]. unfold on_transport. by rewrite Ht.
Qed.

Lemma publish_message_spec {X} (to : X -> Result ProtocolMessage) x m c :
  to x = Ok m -> accepts m -> coordinator_ok c ->
  exists c', publish_message (to x) c = (c', Ok tt) /\
             coordinator_ok c' /\ coordinator_pending c' = coordinator_pending c ++ [m].
Proof.
  intros Hx Hm Hok.
  destruct (publish_appends (fc_transport c) m Hok Hm) as (t1 & Ht1 & Hok1 & Hp1).
  exists (mkFrostCoordinator t1). split_and!; [|done|done].
  unfold publish_message. rewrite Hx. erewrite st_bind_Ok; [|done].
  unfold on_transport. by rewrite Ht1.
Qed.

Lemma publish_messages_spec {X} (to : X -> Result ProtocolMessage) xs ms :
  Forall2 (fun x m => to x = Ok m) xs ms -> Forall accepts ms ->
  forall c, coordinator_ok c ->
  exists c', mapM (fun x => publish_message (to x)) xs c = (c', Ok (replicate (length xs) tt)) /\
             coordinator_ok c' /\ coordinator_pending c' = coordinator_pending c ++ ms.
Proof.
  intros HF. induction HF as [|x m xs ms Hx HF IH]; intros Hacc c Hok.
  - exists c. by rewrite app_nil_r.
  - apply Forall_cons in Hacc as [Hm Hacc].
    destruct (publish_message_spec to x m c Hx Hm Hok) as (c1 & Hc1 & Hok1 & Hp1).
    destruct (IH Hacc c1 Hok1) as (c2 & Hc2 & Hok2 & Hp2).
    exists c2. split_and!; [|done|].
    + rewrite st_mapM_cons, (st_bind_Ok _ _ _ _ _ Hc1). by rewrite (st_bind_Ok _ _ _ _ _ Hc2).
    + by rewrite Hp2, Hp1, <- app_assoc.
Qed.

(** Draining a queue that holds the messages of the packages [xs], in this order,
    besides messages the drain does not select. *)
Lemma drain_packages_of {X} c sid f (from : ProtocolMessage -> Result X) xs :
  coordinator_ok c ->
  Forall2 (fun x m => from m = Ok x) xs (filter (selected sid f) (coordinator_pending c)) ->
  exists c', drain_packages sid f from c = (c', Ok xs) /\ coordinator_ok c' /\
    coordinator_pending c' = filter (fun m => ~ selected sid f m) (coordinator_pending c).
Proof.
  intros Hok HF. destruct (drain_packages_spec c sid f from Hok) as (c' & Hd & Hok' & Hp).
  exists c'. split_and!; [|done|done]. rewrite Hd. f_equal.
  by apply mapM_Ok, Forall2_flip.
Qed.

(** Publishing the packages [xs] and then draining returns the [wanted] ones
    among them, in order, after what was drainable before, and leaves the
    messages of the others in the queue. *)
Definition delivers {X} (valid wanted : X -> Prop) `{!forall x, Decision (wanted x)}
    (to : X -> Result ProtocolMessage) (pub : X -> ST (FrostCoordinator T) DkgKitError unit)
    (drain : ST (FrostCoordinator T) DkgKitError (list X)) : Prop :=
  forall c c0 old xs,
    coordinator_ok c -> drain c = (c0, Ok old) ->
    Forall (fun x => valid x /\ forall m, to x = Ok m -> accepts m) xs ->
    exists c1 c2 ms,
      mapM pub xs c = (c1, Ok (replicate (length xs) tt)) /\
      drain c1 = (c2, Ok (old ++ filter wanted xs)) /\ coordinator_ok c2 /\
      mapM to (filter (fun x => ~ wanted x) xs) = Ok ms /\
      coordinator_pending c2 = coordinator_pending c0 ++ ms.

Lemma delivers_intro {X} (valid wanted : X -> Prop) `{!forall x, Decision (wanted x)} to
    (from : ProtocolMessage -> Result X) sid f :
  (forall x, valid x -> exists m, to x = Ok m /\ from m = Ok x /\ (selected sid f m <-> wanted x)) ->
  delivers valid wanted to (fun x => publish_message (to x)) (drain_packages sid f from).
Proof.
  intros Hto c c0 old xs Hok Hold Hxs.
  assert (Hms : exists ms, Forall2 (fun x m => to x = Ok m) xs ms /\ Forall accepts ms /\
            mapM from (filter (selected sid f) ms) = Ok (filter wanted xs) /\
            mapM to (filter (fun x => ~ wanted x) xs) = Ok (filter (fun m => ~ selected sid f m) ms)).
  { clear Hold. induction Hxs as [|x xs [Hv Hacc] Hxs (ms & HF & HA & Hsel & Hrest)];
      [exists []; by split_and!|].
    destruct (Hto x Hv) as (m & Hm & Hfrom & Hw). exists (m :: ms). split_and!.
    - by constructor.
    - constructor; [by apply Hacc|done].
    - rewrite !filter_cons. repeat case_decide; try (exfalso; tauto); [|done].
      apply mapM_Ok. constructor; [done|]. by apply mapM_Ok.
    - rewrite !filter_cons. repeat case_decide; try (exfalso; tauto); [|done].
      apply mapM_Ok. constructor; [done|]. by apply mapM_Ok. }
  destruct Hms as (ms & HF & HA & Hsel & Hrest).
  destruct (publish_messages_spec to xs ms HF HA c Hok) as (c1 & Hc1 & Hok1 & Hp1).
  destruct (drain_packages_spec c sid f from Hok) as (c0' & Hd0 & _ & Hp0).
  rewrite Hd0 in Hold. injection Hold as -> Hold.
  destruct (drain_packages_spec c1 sid f from Hok1) as (c2 & Hd2 & Hok2 & Hp2).
  exists c1, c2, (filter (fun m => ~ selected sid f m) ms). split_and!; [done| |done|done|].
  - rewrite Hd2, Hp1, filter_app. f_equal. apply mapM_Ok.
    apply Forall2_app; by apply mapM_Ok.
  - by rewrite Hp2, Hp1, filter_app, Hp0.
Qed.

Context `{SerdeJson Round1Package, SerdeJson Round2Package, SerdeJson NoncePackage,
          SerdeJson SignatureSharePackage, SerdeJson HtssDkgRound1Package,
          SerdeJson HtssDkgRound2Package, SerdeJson HtssNoncePackage,
          SerdeJson HtssSignatureSharePackage}.
Context `{!SerdeJsonLaws Round1Package, !SerdeJsonLaws Round2Package,
          !SerdeJsonLaws NoncePackage, !SerdeJsonLaws SignatureSharePackage,
          !SerdeJsonLaws HtssDkgRound1Package, !SerdeJsonLaws HtssDkgRound2Package,
          !SerdeJsonLaws HtssNoncePackage, !SerdeJsonLaws HtssSignatureSharePackage}.

(** The message a package type is converted to: the envelope names the
    package's sender and recipient. *)
Definition converts_to {X} `{SerdeJson X} (kind : ProtocolMessageKind)
    (sender_of : X -> ParticipantId) (recipient_of : X -> option ParticipantId)
    (session_of : X -> SessionId) (to : X -> Result ProtocolMessage) : Prop :=
  forall x, to x = (payload ← encode_payload x;
                    Ok (mkProtocolMessage DKGKIT_PROTOCOL_VERSION (session_of x) (sender_of x)
                          (recipient_of x) kind payload)).

(** The message of a package: reading it gives the package back, and its envelope
    is known. *)
Lemma converted {X} `{SerdeJsonLaws X} from kind sender_of recipient_of session_ok session_of
    (to : X -> Result ProtocolMessage) x :
  accepts_exactly from kind sender_of recipient_of session_ok ->
  converts_to kind sender_of recipient_of session_of to ->
  session_ok (session_of x) x ->
  exists m, to x = Ok m /\ from m = Ok x /\ pm_session_id m = session_of x /\ pm_kind m = kind /\
            pm_sender m = sender_of x /\ pm_recipient m = recipient_of x.
Proof.
  intros Hacc Hto Hs. destruct (encode_payload_total x) as (bs & Henc & Hdec & _).
  rewrite Hto, Henc. eexists. split; [reflexivity|]. split_and!; [|done..]. by apply Hacc.
Qed.

Lemma broadcast_delivers {X} `{SerdeJsonLaws X} from kind sender_of session_ok session_of
    (to : X -> Result ProtocolMessage) (valid : X -> Prop) sid :
  accepts_exactly from kind sender_of (fun _ => None) session_ok ->
  converts_to kind sender_of (fun _ => None) session_of to ->
  (forall x, valid x -> session_ok (session_of x) x) ->
  delivers valid (fun x => session_of x = sid) to (fun x => publish_message (to x))
    (drain_packages sid (only_kind kind) from).
Proof.
  intros Hacc Hto Hs. apply delivers_intro. intros x Hv. rewrite Hto.
  destruct (encode_payload_total x) as (bs & Henc & Hdec & _). rewrite Henc.
  eexists. split; [reflexivity|]. split; [apply Hacc; split_and!; [done..|by apply Hs]|].
  split; [by intros [? _]|]. intros Hx. split; [done|]. by apply bool_decide_eq_true_2.
Qed.

Lemma direct_delivers {X} `{SerdeJsonLaws X} from kind sender_of recipient_of
    (to : X -> Result ProtocolMessage) sid' sid r :
  accepts_exactly from kind sender_of (fun x => Some (recipient_of x)) (fun _ _ => True) ->
  converts_to kind sender_of (fun x => Some (recipient_of x)) (fun _ => sid') to ->
  delivers (fun _ => True) (fun x => sid' = sid /\ recipient_of x = r) to
    (fun x => publish_message (to x)) (drain_packages sid (only_target kind r) from).
Proof.
  intros Hacc Hto. apply delivers_intro. intros x _. rewrite Hto.
  destruct (encode_payload_total x) as (bs & Henc & Hdec & _). rewrite Henc.
  eexists. split; [reflexivity|]. split; [by apply Hacc|].
  unfold selected, only_target, ProtocolMessage_is_for. cbn [pm_session_id pm_kind pm_recipient].
  rewrite andb_true_iff, !bool_decide_eq_true. tauto.
Qed.

(** A drain of a session and a kind does not see a message of another session or
    kind, or one that is not addressed: with it in the queue the drain returns
    what it returned without, and leaves it there. *)
Definition passes_over {X} (sid : SessionId) (kind : ProtocolMessageKind)
    (addressed : ProtocolMessage -> Prop)
    (drain : ST (FrostCoordinator T) DkgKitError (list X)) : Prop :=
  forall c c0 out m,
    coordinator_ok c -> drain c = (c0, out) -> accepts m ->
    ~ (pm_session_id m = sid /\ pm_kind m = kind /\ addressed m) ->
    exists c1 c2,
      on_transport (publish m) c = (c1, Ok tt) /\ drain c1 = (c2, out) /\ coordinator_ok c2 /\
      coordinator_pending c2 = coordinator_pending c0 ++ [m].

(** The packages travel in messages of this kind, to this drain and no other. *)
Definition owns_kind {X} (kind : ProtocolMessageKind) (sid : SessionId)
    (addressed : ProtocolMessage -> Prop) (valid wanted : X -> Prop)
    `{!forall x, Decision (wanted x)} (to : X -> Result ProtocolMessage)
    (pub : X -> ST (FrostCoordinator T) DkgKitError unit)
    (drain : ST (FrostCoordinator T) DkgKitError (list X)) : Prop :=
  delivers valid wanted to pub drain /\
  (forall x m, to x = Ok m -> pm_kind m = kind) /\
  passes_over sid kind addressed drain.

Lemma drain_passes_over {X} sid kind (addressed : ProtocolMessage -> Prop) f
    (from : ProtocolMessage -> Result X) :
  (forall m, f m = true <-> pm_kind m = kind /\ addressed m) ->
  passes_over sid kind addressed (drain_packages sid f from).
Proof.
  intros Hf c c0 out m Hok Hd Hacc Hm.
  assert (Hsel : ~ selected sid f m) by (unfold selected; rewrite Hf; tauto).
  destruct (publish_appends (fc_transport c) m Hok Hacc) as (t1 & Ht1 & Hok1 & Hp1).
  destruct (drain_packages_spec c sid f from Hok) as (c0' & Hd0 & _ & Hp0).
  rewrite Hd0 in Hd. injection Hd as -> <-.
  destruct (drain_packages_spec (mkFrostCoordinator t1) sid f from Hok1) as (c2 & Hd2 & Hok2 & Hp2).
  unfold coordinator_pending in *. cbn [fc_transport] in *. rewrite Hp1 in Hd2, Hp2.
  rewrite filter_app, filter_cons_False, filter_nil, app_nil_r in Hd2 by done.
  rewrite filter_app, filter_cons_True, filter_nil in Hp2 by done.
  exists (mkFrostCoordinator t1), c2. split_and!; [unfold on_transport; by rewrite Ht1|done|done|].
  by rewrite Hp2, Hp0.
Qed.

Lemma converts_kind {X} `{SerdeJson X} kind sender_of recipient_of session_of
    (to : X -> Result ProtocolMessage) x m :
  converts_to kind sender_of recipient_of session_of to -> to x = Ok m -> pm_kind m = kind.
Proof. intros Hto. rewrite Hto. by intros (bs & _ & [= <-])%bind_Ok. Qed.

Lemma broadcast_owns {X} `{SerdeJsonLaws X} from kind sender_of session_ok session_of
    (to : X -> Result ProtocolMessage) (valid : X -> Prop) sid :
  accepts_exactly from kind sender_of (fun _ => None) session_ok ->
  converts_to kind sender_of (fun _ => None) session_of to ->
  (forall x, valid x -> session_ok (session_of x) x) ->
  owns_kind kind sid (fun _ => True) valid (fun x => session_of x = sid) to
    (fun x => publish_message (to x)) (drain_packages sid (only_kind kind) from).
Proof.
  intros Hacc Hto Hs. split_and!; [by eapply broadcast_delivers|by intros x m; eapply converts_kind|].
  apply drain_passes_over. intros m. unfold only_kind. rewrite bool_decide_eq_true. tauto.
Qed.

Lemma direct_owns {X} `{SerdeJsonLaws X} from kind sender_of recipient_of
    (to : X -> Result ProtocolMessage) sid' sid r :
  accepts_exactly from kind sender_of (fun x => Some (recipient_of x)) (fun _ _ => True) ->
  converts_to kind sender_of (fun x => Some (recipient_of x)) (fun _ => sid') to ->
  owns_kind kind sid (fun m => ProtocolMessage_is_for m r = true) (fun _ => True)
    (fun x => sid' = sid /\ recipient_of x = r) to
    (fun x => publish_message (to x)) (drain_packages sid (only_target kind r) from).
Proof.
  intros Hacc Hto. split_and!; [by eapply direct_delivers|by intros x m; eapply converts_kind|].
  apply drain_passes_over. intros m. unfold only_target.
  by rewrite andb_true_iff, bool_decide_eq_true.
Qed.

(** C27: the coordinator delivers every package to the drain of its kind, and
    only to it.  Over any transport that keeps the queue contract, for each of
    the eight package types: publishing any packages succeeds, and the next
    drain of a session returns, after what it would have returned before, the
    published packages of that session (for a round-two drain: those addressed
    to the recipient) in the order of publication, leaving the messages of all
    others in the queue.  The packages travel in messages of the kind named
    here, different for each type, and the drain passes over every accepted
    message of another kind or session (for a round-two drain: or for another
    recipient): it returns what it returned without it and leaves it in the
    queue. *)
Theorem coordinator_delivers sid' sid r :
  let anyone := fun _ : ProtocolMessage => True in
  let for_recipient := fun m => ProtocolMessage_is_for m r = true in
  owns_kind FrostDkgRound1 sid anyone (fun _ => True) (fun _ => sid' = sid)
    (fun x => Round1Package_to_protocol_message x sid') (publish_round1 sid') (drain_round1 sid) /\
  owns_kind FrostDkgRound2 sid for_recipient (fun _ => True)
    (fun x => sid' = sid /\ r2_recipient x = r)
    (fun x => Round2Package_to_protocol_message x sid') (publish_round2 sid')
    (drain_round2_for sid r) /\
  owns_kind HtssDkgRound1 sid anyone (fun _ => True) (fun _ => sid' = sid)
    (fun x => HtssDkgRound1Package_to_protocol_message x sid') (publish_htss_dkg_round1 sid')
    (drain_htss_dkg_round1 sid) /\
  owns_kind HtssDkgRound2 sid for_recipient (fun _ => True)
    (fun x => sid' = sid /\ h2_recipient x = r)
    (fun x => HtssDkgRound2Package_to_protocol_message x sid') (publish_htss_dkg_round2 sid')
    (drain_htss_dkg_round2_for sid r) /\
  owns_kind FrostSigningNonce sid anyone (fun _ => True) (fun x => np_signing_session_id x = sid)
    NoncePackage_to_protocol_message publish_nonce (drain_nonces sid) /\
  owns_kind FrostSignatureShare sid anyone (fun _ => True)
    (fun x => ssp_signing_session_id x = sid)
    SignatureSharePackage_to_protocol_message publish_signature_share
    (drain_signature_shares sid) /\
  owns_kind HtssSigningNonce sid anyone (fun x => length (hnp_public_nonce_bytes x) = 33)
    (fun x => hnp_signing_session_id x = sid)
    HtssNoncePackage_to_protocol_message publish_htss_nonce (drain_htss_nonces sid) /\
  owns_kind HtssSignatureShare sid anyone (fun _ => True)
    (fun x => hsp_signing_session_id x = sid)
    HtssSignatureSharePackage_to_protocol_message publish_htss_signature_share
    (drain_htss_signature_shares sid).
Proof.
  intros anyone for_recipient. split_and!.
  1, 3, 5, 6, 7, 8: eapply broadcast_owns; [eauto with accepts|done|done].
  all: eapply direct_owns; [eauto with accepts|done].
Qed.

(** A conversion with a guard on the recipient fails on a broadcast, and does
    so with an error. *)
Lemma round2_broadcast_rejected m :
  pm_kind m = FrostDkgRound2 -> pm_recipient m = None ->
  exists e, Round2Package_from_protocol_message m = Err e.
Proof.
  intros Hk Hr. unfold Round2Package_from_protocol_message, require_kind.
  rewrite Hk, bool_decide_eq_false_2 by auto. cbn [reject_if]. rewrite ok_bind.
  unfold decode_payload, serialization. destruct (json_from_slice _) as [err|x]; [by eexists|].
  rewrite ok_bind. unfold require_sender. case_bool_decide; [by eexists|].
  cbn [reject_if]. rewrite ok_bind. unfold require_recipient. rewrite Hr.
  rewrite bool_decide_eq_true_2 by done. by eexists.
Qed.

Lemma round2_from_returns m : returns (Round2Package_from_protocol_message m).
Proof.
  unfold Round2Package_from_protocol_message, require_kind, require_sender, require_recipient.
  repeat (apply bind_returns; [first [apply reject_if_returns|unfold decode_payload, serialization;
    by destruct (json_from_slice _)]|intros ? _]). done.
Qed.

(** One message that no conversion accepts costs a whole batch.  A message
    of kind round two that is broadcast instead of addressed passes the filter
    of every recipient and is refused by [from_protocol_message]; the next
    [drain_round2_for], for any recipient, returns an error although it has
    already removed every round-two message that was waiting for this
    recipient. *)
Theorem round2_broadcast_loses_batch c sid r m :
  coordinator_ok c -> m ∈ coordinator_pending c -> pm_session_id m = sid ->
  pm_kind m = FrostDkgRound2 -> pm_recipient m = None ->
  exists c' e,
    drain_round2_for sid r c = (c', Err e) /\
    forall m', m' ∈ coordinator_pending c' <->
      m' ∈ coordinator_pending c /\
      ~ (pm_session_id m' = sid /\ pm_kind m' = FrostDkgRound2 /\
         ProtocolMessage_is_for m' r = true).
Proof.
  intros Hok Hm Hs Hk Hr.
  destruct (drain_packages_spec c sid (only_target FrostDkgRound2 r)
              Round2Package_from_protocol_message Hok) as (c' & Hd & _ & Hp).
  destruct (round2_broadcast_rejected m Hk Hr) as [e He].
  assert (Hsel : forall m', selected sid (only_target FrostDkgRound2 r) m' <->
    pm_session_id m' = sid /\ pm_kind m' = FrostDkgRound2 /\ ProtocolMessage_is_for m' r = true).
  { intros m'. unfold selected, only_target. by rewrite andb_true_iff, bool_decide_eq_true. }
  destruct (mapM_Err Round2Package_from_protocol_message
              (filter (selected sid (only_target FrostDkgRound2 r)) (coordinator_pending c)) m e)
    as [e' He'].
  - intros x _. apply round2_from_returns.
  - apply list_elem_of_filter. split; [|done]. apply Hsel. split_and!; [done|done|].
    unfold ProtocolMessage_is_for. by rewrite Hr.
  - done.
  - exists c', e'. unfold drain_round2_for. rewrite Hd, He', Hp. split; [done|].
    intros m'. rewrite list_elem_of_filter, Hsel. tauto.
Qed.
End delivery.

(** ** The builder *)

Section builder.
Context `{FrostLib}.

(** [builder.participant(id, None)?] for each identifier, then the local one. *)
Definition build_session (sid : string) (t n : N) (ids : list N) (local : N) :
  Result FrostDkgSession :=
  builder ← foldlM (fun builder id => DkgKitSessionBuilder_participant builder id None)
              (DkgKitSessionBuilder_threshold
                 (DkgKitSessionBuilder_session_id DkgKitSessionBuilder_new sid) t n) ids;
  DkgKitSessionBuilder_build_frost_session (DkgKitSessionBuilder_local_participant builder local).

Lemma add_participants ids : forall b,
  (forall i, i ∈ ids -> 1 <= i)%N ->
  foldlM (fun builder id => DkgKitSessionBuilder_participant builder id None) b ids =
  Ok (mkDkgKitSessionBuilder (sb_session_id b) (sb_threshold b) (sb_participant_count b)
        (sb_participants b ++ ((fun i => mkParticipant (mkParticipantId i) None) <$> ids))
        (sb_local_participant_id b)).
Proof.
  induction ids as [|i ids IH]; intros b Hi; cbn [foldlM].
  - rewrite app_nil_r. by destruct b.
  - assert (E : DkgKitSessionBuilder_participant b i None =
      Ok (mkDkgKitSessionBuilder (sb_session_id b) (sb_threshold b) (sb_participant_count b)
            (sb_participants b ++ [mkParticipant (mkParticipantId i) None])
            (sb_local_participant_id b))).
    { unfold DkgKitSessionBuilder_participant, Participant_new, ParticipantId_new.
      by rewrite (proj2 (N.eqb_neq i 0)) by (specialize (Hi i ltac:(left)); lia). }
    rewrite E, ok_bind, IH by (intros j Hj; apply Hi; by right).
    cbn [sb_participants sb_session_id sb_threshold sb_participant_count sb_local_participant_id].
    by rewrite <- app_assoc.
Qed.

(** The builder and the one-call constructor agree.  When all [n]
    participants are added, in any order, building the session succeeds exactly
    when [create_frost_session] does and gives the same session; in particular
    both refuse a blank session name, an impossible threshold and a zero local
    identifier, although they check them in different orders. *)
Theorem builder_agrees_with_create sid t n ids local session :
  NoDup ids -> N.of_nat (length ids) = n -> (forall i, i ∈ ids -> 1 <= i <= n)%N ->
  build_session sid t n ids local = Ok session <->
  create_frost_session sid t n local = Ok session.
Proof.
  intros HN Hlen Hids. unfold build_session.
  rewrite add_participants by (intros i Hi; by apply Hids). rewrite ok_bind. cbn [app].
  unfold DkgKitSessionBuilder_build_frost_session, DkgKitSessionBuilder_build_manifest,
    create_frost_session, SessionId_new.
  cbn [sb_participants sb_session_id sb_threshold sb_participant_count sb_local_participant_id
       app from_option Datatypes.id DkgKitSessionBuilder_local_participant DkgKitSessionBuilder_session_id
       DkgKitSessionBuilder_threshold DkgKitSessionBuilder_new].
  split.
  - intros Hb. apply bind_Ok in Hb as (id & Hid & Hb). apply bind_Ok in Hb as (m & Hm & Hb).
    apply bind_Ok in Hm as (c & Hc & Hm). injection Hm as <-. injection Hb as <-.
    apply SessionConfig_new_Ok in Hc as (-> & Ht & _ & Hs & _). rewrite Hs.
    cbn [reject_if]. rewrite !ok_bind, (proj2 (ThresholdConfig_new_Ok t n _)) by done.
    by rewrite ok_bind, Hid.
  - intros Hc. apply bind_Ok in Hc as (s & Hs & Hc). apply bind_Ok in Hc as (tc & Ht & Hc).
    apply bind_Ok in Hc as (id & Hid & Hc). injection Hc as <-. rewrite Hid, ok_bind.
    apply bind_Ok in Hs as ([] & Hs%reject_if_Ok & [= <-]).
    apply ThresholdConfig_new_Ok in Ht as [Ht ->].
    rewrite SessionConfig_new_complete; [done|done| |done| |].
    + by rewrite length_fmap.
    + intros p (i & -> & Hi)%list_elem_of_fmap. by apply Hids.
    + by rewrite <- list_fmap_compose, list_fmap_id.
Qed.
End builder.

(** ** The theorems at concrete inputs *)

Section witnesses.
Local Existing Instances digits_json digits_json_laws.

(** Two round-two packages, drained for one recipient; the drain of nonces
    passes over a round-one message. *)
Lemma coordinator_delivers_witness :
  let c := mkFrostCoordinator MemoryTransport_default in
  let sid := mkSessionId "s" in
  let x1 := mkRound2Package (mkParticipantId 1) (mkParticipantId 2) [x07] in
  let x2 := mkRound2Package (mkParticipantId 1) (mkParticipantId 3) [x08] in
  let y := ProtocolMessage_broadcast sid (mkParticipantId 1) FrostDkgRound1 [x09] in
  (exists c1 c2,
    mapM (publish_round2 sid) [x1; x2] c = (c1, Ok [tt; tt]) /\
    drain_round2_for sid (mkParticipantId 3) c1 = (c2, Ok [x2])) /\
  exists c1 c2, on_transport (publish y) c = (c1, Ok tt) /\ drain_nonces sid c1 = (c2, Ok []) /\
    coordinator_pending c2 = [y].
Proof.
  intros c sid x1 x2 y.
  destruct (coordinator_delivers (T := MemoryTransport) sid sid (mkParticipantId 3))
    as (_ & (Hround2 & _) & _ & _ & (_ & _ & Hnonces) & _). split.
  - destruct (Hround2 c c [] [x1; x2]) as (c1 & c2 & ms & K1 & K2 & _).
    + exact I.
    + reflexivity.
    + repeat constructor.
    + exists c1, c2. split; [exact K1|exact K2].
  - destruct (Hnonces c c (Ok []) y) as (c1 & c2 & K1 & K2 & _ & K3).
    + exact I.
    + reflexivity.
    + exact I.
    + intros (_ & Hkind & _). discriminate Hkind.
    + exists c1, c2. split_and!; [exact K1|exact K2|exact K3].
Defined.

Definition stray_message : ProtocolMessage :=
  ProtocolMessage_broadcast (mkSessionId "s") (mkParticipantId 9) FrostDkgRound2 [].

Lemma round2_broadcast_loses_batch_witness :
  let c := mkFrostCoordinator (mkMemoryTransport true [stray_message]) in
  exists c' e, drain_round2_for (mkSessionId "s") (mkParticipantId 2) c = (c', Err e).
Proof.
  intros c.
  destruct (round2_broadcast_loses_batch c (mkSessionId "s") (mkParticipantId 2) stray_message)
    as (c' & e & Hd & _).
  - exact I.
  - apply list_elem_of_singleton. reflexivity.
  - reflexivity.
  - reflexivity.
  - reflexivity.
  - exists c', e. exact Hd.
Defined.

Local Existing Instances small_group unit_engine.

Lemma builder_agrees_with_create_witness :
  exists session,
    @create_frost_session small_group unit_engine "s" 2 3 1 = Ok session /\
    build_session "s" 2 3 [3; 1; 2]%N 1 = Ok session.
Proof.
  eexists. split; [reflexivity|].
  apply (builder_agrees_with_create "s" 2 3 [3; 1; 2]%N 1).
  - apply (bool_decide_unpack _). vm_compute. exact I.
  - reflexivity.
  - intros i Hi. repeat (apply elem_of_cons in Hi as [->|Hi]; [lia|]).
    by apply not_elem_of_nil in Hi.
  - reflexivity.
Defined.
End witnesses.
