(* ===== verification/Ceremony.v ===== *)
(** The local FROST ceremonies of [crates/dkgkit-sdk/src/lib.rs]: a complete key
    generation and complete signatures in one process, built from the sessions
    of [FrostSession].

    What the ceremonies need of the protocol engine is the class [KeygenLaws]:
    honestly generated inputs are accepted and honestly dealt shares verify. *)

From Stdlib Require Import Ascii String Strings.Byte.
From stdpp Require Import base numbers countable gmap strings list sorting.
From S2P Require Import Prelude Core Codec Secp SmallGroup Packages SignerPolicy.
From S2P Require Import FrostSession Sdk.

(** ** Local ceremonies *)

Section ceremonies.
Context `{FrostLib}.
Context `{Bincode KeygenInput, !Bincode scalar, !Bincode EvenPairedShare, !Bincode EvenSharedKey}.

(** [session.round1()] and [session.round2(..)] on a session that the caller
    owns: the session with its new runtime, and the result. *)
Definition session_round1 (session : FrostDkgSession) :
  ST rng DkgKitError (FrostDkgSession * Round1Package) :=
  fun g => let '((session, g), r) := FrostDkgSession_round1 (session, g) in
           (g, pair session <$> r).

Definition session_round2 (round1 : list Round1Package) (session : FrostDkgSession) :
  Result (FrostDkgSession * list Round2Package) :=
  let '(session, r) := FrostDkgSession_round2 round1 session in pair session <$> r.

Definition run_local_frost_dkg (session_id : string) (threshold participants : N) :
  ST rng DkgKitError (list LocalKeyShare) :=
  sessions ← st_lift (mapM (fun participant_id =>
                              create_frost_session session_id threshold participants
                                (N.of_nat participant_id))
                           (seq 1 (N.to_nat participants)));
  round1 ← mapM session_round1 sessions;
  round2 ← st_lift (mapM (session_round2 round1.*2) round1.*1);
  st_lift (mapM (fun session => FrostDkgSession_finalize session (concat round2.*2)) round2.*1).
End ceremonies.

Section local_signing.
Context `{FrostLib}.
Context `{Bincode Nonce, !Bincode scalar, !Bincode EvenPairedShare, !Bincode EvenSharedKey,
          !Bincode (point * scalar)}.

Definition session_nonce (item : FrostSigningSession * LocalKeyShare) :
  ST rng DkgKitError (FrostSigningSession * LocalKeyShare * NoncePackage) :=
  fun g => let '((session, g), r) := FrostSigningSession_nonce item.2 (item.1, g) in
           (g, pair (session, item.2) <$> r).

Definition session_sign_share (nonces : list NoncePackage)
    (item : FrostSigningSession * LocalKeyShare) : Result SignatureSharePackage :=
  (FrostSigningSession_sign_share item.2 nonces item.1).2.

Definition select_local_shares (local_shares : list LocalKeyShare)
    (signer_set : list ParticipantId) : Result (list LocalKeyShare) :=
  mapM (fun participant_id =>
          ok_or (List.find (fun share => bool_decide (lks_participant_id share = participant_id))
                           local_shares)
            (Protocol ("missing local share for signer " +:+ dec (pid_0 participant_id))))
       signer_set.

(** The part both signing helpers share: one session per selected share, the
    nonces, the signature shares, the aggregation. *)
Definition sign_request_with_shares (request : SigningRequest)
    (local_shares : list LocalKeyShare) (signer_set : list ParticipantId) :
  ST rng DkgKitError AggregateSignature :=
  selected_shares ← st_lift (select_local_shares local_shares signer_set);
  sessions ← mapM session_nonce (pair (FrostSigningSession_new request) <$> selected_shares);
  signature_shares ← st_lift (mapM (session_sign_share sessions.*2) sessions.*1);
  st_lift (FrostSigningSession_aggregate (FrostSigningSession_new request) signature_shares).

Definition sign_digest_with_shares (signing_session_id : string) (threshold : ThresholdConfig)
    (group_key : GroupKey) (digest : bytes) (local_shares : list LocalKeyShare)
    (signer_set : list ParticipantId) : ST rng DkgKitError AggregateSignature :=
  st_lift (validate_signer_set signer_set threshold);;
  signing_session_id ← st_lift (SessionId_new signing_session_id);
  request ← st_lift (SigningRequest_new signing_session_id group_key digest signer_set threshold);
  sign_request_with_shares request local_shares signer_set.

Definition sign_digest_with_shares_and_policy (signing_session_id : string)
    (policy : SigningPolicy) (group_key : GroupKey) (digest : bytes)
    (local_shares : list LocalKeyShare) (signer_set : list ParticipantId) :
  ST rng DkgKitError AggregateSignature :=
  st_lift (validate_signer_set_with_policy signer_set policy);;
  signing_session_id ← st_lift (SessionId_new signing_session_id);
  request ← st_lift (SigningRequest_new_with_policy signing_session_id group_key digest
                       signer_set policy);
  sign_request_with_shares request local_shares signer_set.
End local_signing.

(** ** What the ceremony needs of the engine *)

(** Adding the inputs of the contributors to a coordinator, in order. *)
Fixpoint add_inputs `{FrostLib} (coordinator : Coordinator) (inputs : list (N * KeygenInput)) :
  option Coordinator :=
  match inputs with
  | [] => Some coordinator
  | (index, input) :: inputs =>
      match coordinator_add_input coordinator index input with
      | inl _ => None
      | inr coordinator => add_inputs coordinator inputs
      end
  end.

Section honest.
Context `{FrostLib} (t n : N).

(** The share indices [1, .., n]. *)
Definition share_indices : list scalar := (fun i => scalar_from (N.of_nat i)) <$> seq 1 (N.to_nat n).

(** An honest contributor is its position, from one, and the state of the
    generator when its turn comes. *)
Definition honest : Type := nat * rng.

Definition honest_output (k : honest) : (Contributor * KeygenInput * list (scalar * scalar)) * rng :=
  gen_keygen_input t share_indices (N.of_nat k.1 - 1) k.2.

Definition honest_input (k : honest) : KeygenInput := (honest_output k).1.1.2.

(** The share the contributor deals to the participant at position [j]. *)
Definition honest_share (j : nat) (k : honest) : scalar :=
  default scalar_zero (snd <$> (honest_output k).1.2 !! (j - 1)%nat).
End honest.

Class KeygenLaws `{FrostLib} : Prop := {
  (** [gen_keygen_input] deals one share per share index. *)
  keygen_shares_indexed t indices i g :
    (gen_keygen_input t indices i g).1.2.*1 = indices;
  (** The coordinator accepts the inputs of [n] honest contributors, and every
      participant's collected shares verify against the aggregate. *)
  honest_keygen_verifies t n K :
    (1 <= t <= n)%N -> K.*1 = seq 1 (N.to_nat n) ->
    exists coordinator agg,
      add_inputs (coordinator_new t n)
        ((fun k => (N.of_nat k.1 - 1, honest_input t n k)%N) <$> K) = Some coordinator /\
      coordinator_finish coordinator = Some agg /\
      forall j, (1 <= j <= N.to_nat n)%nat ->
        exists share,
          receive_secret_share agg
            (collect_secret_inputs (scalar_from (N.of_nat j)) (honest_share t n j <$> K)) = inr share;
}.

(** What a ceremony needs in addition when packages may arrive in any order. *)
Class ArrivalLaws `{FrostLib} : Prop := {
  honest_any_order t n K L :
    (1 <= t <= n)%N -> K.*1 = seq 1 (N.to_nat n) -> L ≡ₚ K ->
    exists coordinator agg,
      add_inputs (coordinator_new t n)
        ((fun k => (N.of_nat k.1 - 1, honest_input t n k)%N) <$> L) = Some coordinator /\
      coordinator_finish coordinator = Some agg;
  collect_any_order index (shares shares' : list scalar) :
    shares ≡ₚ shares' ->
    collect_secret_inputs index shares = collect_secret_inputs index shares';
}.

(** ** The local key generation, round by round *)

Section local_dkg.
Context `{KeygenLaws} `{!SecpLaws}.
Context `{BincodeLaws KeygenInput, !Bincode scalar, !BincodeLaws scalar,
          !Bincode EvenPairedShare, !BincodeLaws EvenPairedShare,
          !Bincode EvenSharedKey, !BincodeLaws EvenSharedKey}.
Context (sid : string) (t n : N).
Hypothesis sid_ok : blank sid = false.
Hypothesis t_ok : (1 <= t <= n)%N.
Hypothesis n_ok : (n <= u16_max)%N.

Local Abbreviation id i := (mkParticipantId (N.of_nat i)).
Local Abbreviation positions := (seq 1 (N.to_nat n)).

Definition local_config (i : nat) : DkgSessionConfig :=
  mkDkgSessionConfig (mkSessionId sid) (mkThresholdConfig t n) (id i).

Lemma position_range i : i ∈ positions -> (1 <= N.of_nat i <= n)%N.
Proof. rewrite elem_of_seq. lia. Qed.

Lemma local_sessions :
  mapM (fun i => create_frost_session sid t n (N.of_nat i)) positions =
  Ok ((fun i => FrostDkgSession_new (local_config i)) <$> positions).
Proof.
  apply mapM_pure. intros i Hi%position_range. unfold create_frost_session, SessionId_new.
  rewrite sid_ok. cbn [reject_if]. rewrite !ok_bind. unfold ThresholdConfig_new.
  rewrite (proj2 (N.eqb_neq t 0)), (proj2 (N.eqb_neq n 0)), (proj2 (N.ltb_ge n t)) by lia.
  cbn [orb reject_if]. rewrite !ok_bind. unfold ParticipantId_new.
  by rewrite (proj2 (N.eqb_neq _ _)) by lia.
Qed.

(** The bytes of a value whose encoding succeeds. *)
Definition encoded {X} `{Bincode X} (x : X) : bytes :=
  match encode_binary x with Ok bs => bs | _ => [] end.

Lemma encode_binary_encoded {X} `{BincodeLaws X} (x : X) : encode_binary x = Ok (encoded x).
Proof. destruct (encode_binary_total x) as [bs Hbs]. unfold encoded. by rewrite Hbs. Qed.

Lemma decode_encoded {X} `{BincodeLaws X} (x : X) : decode_binary (encoded x) = Ok x.
Proof. apply decode_encode_binary, encode_binary_encoded. Qed.

Definition honest_round1 (k : honest) : Round1Package :=
  mkRound1Package (id k.1) (encoded (honest_input t n k)).

Definition honest_pending (k : honest) : list PendingSecretShare :=
  (fun j => mkPendingSecretShare (id j) (encoded (honest_share t n j k))) <$> positions.

Definition session_after_round1 (k : honest) : FrostDkgSession :=
  mkFrostDkgSession (local_config k.1)
    (Some (mkDkgRuntime (honest_output t n k).1.1.1 (honest_pending k)
             {[ id k.1 := honest_round1 k ]})).

Lemma share_index_position j :
  j ∈ positions -> participant_share_index (id j) = Ok (scalar_from (N.of_nat j)).
Proof. intros Hj%position_range. apply participant_share_index_Ok. cbn. lia. Qed.

Lemma share_indices_local :
  mapM (fun i => participant_share_index (mkParticipantId (N.of_nat i))) positions =
  Ok (share_indices n).
Proof. apply mapM_pure, share_index_position. Qed.

Lemma pending_shares k : mapM pending_share (honest_output t n k).1.2 = Ok (honest_pending k).
Proof.
  pose proof (keygen_shares_indexed t (share_indices n) (N.of_nat k.1 - 1) k.2) as Hidx.
  change ((honest_output t n k).1.2.*1 = share_indices n) in Hidx.
  assert (Hlen : length (honest_output t n k).1.2 = N.to_nat n).
  { apply (f_equal length) in Hidx. unfold share_indices in Hidx.
    by rewrite !length_fmap, length_seq in Hidx. }
  apply mapM_Ok, Forall2_same_length_lookup_2.
  { unfold honest_pending. by rewrite length_fmap, length_seq. }
  intros m [x sh] y Hx Hy.
  unfold honest_pending in Hy. apply list_lookup_fmap_Some in Hy as (j & -> & Hj).
  pose proof Hj as Hj'. apply lookup_seq in Hj' as [-> Hm].
  assert (Hxi : x = scalar_from (N.of_nat (1 + m))).
  { assert (E : share_indices n !! m = Some x) by (rewrite <- Hidx; by rewrite list_lookup_fmap, Hx).
    unfold share_indices in E. by rewrite list_lookup_fmap, Hj in E; injection E. }
  assert (Hr : (1 <= N.of_nat (1 + m) <= u16_max)%N) by (apply list_elem_of_lookup_2, position_range in Hj; lia).
  unfold pending_share. rewrite Hxi.
  rewrite (participant_id_of_index (id (1 + m)) Hr), ok_bind, encode_binary_encoded, ok_bind.
  do 2 f_equal. unfold honest_share. replace (1 + m - 1)%nat with m by lia. by rewrite Hx.
Qed.

Lemma local_round1 k :
  k.1 ∈ positions ->
  session_round1 (FrostDkgSession_new (local_config k.1)) k.2 =
  ((honest_output t n k).2, Ok (session_after_round1 k, honest_round1 k)).
Proof.
  intros Hk%position_range. unfold session_round1, FrostDkgSession_round1. cbv zeta.
  cbn [fds_config FrostDkgSession_new local_config dsc_threshold dsc_participant_id
       tc_participants tc_threshold pid_0].
  rewrite share_indices_local, ok_bind. unfold unsigned_sub at 1.
  rewrite (proj2 (N.leb_le _ _)) by lia. rewrite ok_bind.
  pose proof (pending_shares k) as Hp. unfold session_after_round1, honest_round1, honest_input.
  unfold honest_output in *.
  destruct (gen_keygen_input t (share_indices n) (N.of_nat k.1 - 1) k.2) as [[[c input] shares] g'].
  cbn [fst snd] in *. rewrite encode_binary_encoded, ok_bind, Hp, ok_bind. done.
Qed.

Lemma local_round1_all l : forall g,
  l ⊆ positions ->
  exists K g', K.*1 = l /\
    mapM session_round1 ((fun i => FrostDkgSession_new (local_config i)) <$> l) g =
    (g', Ok ((fun k => (session_after_round1 k, honest_round1 k)) <$> K)).
Proof.
  induction l as [|i l IH]; intros g Hl; [by exists [], g|].
  destruct (IH (honest_output t n (i, g)).2) as (K & g' & HK & Hm); [set_solver|].
  exists ((i, g) :: K), g'. split; [by rewrite fmap_cons, HK|].
  rewrite fmap_cons, st_mapM_cons.
  erewrite st_bind_Ok; [|apply (local_round1 (i, g)); set_solver].
  erewrite st_bind_Ok; [|exact Hm]. done.
Qed.

(** From here on all contributors have run round one. *)
Context (K : list honest) (K_positions : K.*1 = positions).

Definition honest_packages : list Round1Package := honest_round1 <$> K.

Lemma honest_position k : k ∈ K -> k.1 ∈ positions.
Proof. intros Hk. rewrite <- K_positions. by apply list_elem_of_fmap_2. Qed.

Lemma length_honest : length K = N.to_nat n.
Proof.
  transitivity (length K.*1); [by rewrite length_fmap|by rewrite K_positions, length_seq].
Qed.

Lemma length_honest_packages : length honest_packages = N.to_nat n.
Proof. unfold honest_packages. by rewrite length_fmap, length_honest. Qed.

Lemma honest_ids : r1_participant_id <$> honest_packages = (fun i => id i) <$> positions.
Proof.
  unfold honest_packages. rewrite <- K_positions, <- !list_fmap_compose. done.
Qed.

Lemma positions_ids_NoDup : NoDup ((fun i => id i) <$> positions).
Proof.
  apply NoDup_fmap_2; [|apply NoDup_seq]. intros i j [= E]. lia.
Qed.

(** In whatever order they arrive. *)
Lemma arrived_round1_valid self L :
  dsc_threshold (fds_config self) = mkThresholdConfig t n -> L ≡ₚ K ->
  validate_round1_set self (honest_round1 <$> L) = Ok tt.
Proof.
  intros Hc HL. unfold validate_round1_set. rewrite Hc. cbn [tc_participants].
  rewrite length_fmap, HL, length_honest, Nat.eqb_refl.
  cbn [negb reject_if]. rewrite ok_bind.
  assert (Hf : foldlM (frost_round1_step n) ∅ (honest_round1 <$> L) =
               Ok (list_to_set (r1_participant_id <$> (honest_round1 <$> L)) ∪ ∅)); [|by rewrite Hf].
  apply (seen_loop_Ok r1_participant_id (fun p => (pid_0 (r1_participant_id p) <= n)%N)).
  - intros seen x s'. unfold frost_round1_step. cbv zeta.
    destruct (N.ltb_spec n (pid_0 (r1_participant_id x))); cbn [reject_if].
    + split; [discriminate|lia].
    + rewrite ok_bind. case_decide; naive_solver.
  - split_and!; [| |set_solver|done].
    + apply Forall_forall. intros p (k & -> & Hk)%list_elem_of_fmap. rewrite HL in Hk.
      apply honest_position, position_range in Hk. cbn. lia.
    + assert (E : r1_participant_id <$> (honest_round1 <$> L) ≡ₚ r1_participant_id <$> honest_packages)
        by (unfold honest_packages; by rewrite HL).
      rewrite E, honest_ids. apply positions_ids_NoDup.
Qed.

Lemma honest_round1_valid self :
  dsc_threshold (fds_config self) = mkThresholdConfig t n ->
  validate_round1_set self honest_packages = Ok tt.
Proof. intros Hc. by apply arrived_round1_valid. Qed.

Lemma add_honest_inputs L : forall co co',
  (forall k, k ∈ L -> k.1 ∈ positions) ->
  add_inputs co ((fun k => (N.of_nat k.1 - 1, honest_input t n k)%N) <$> L) = Some co' ->
  foldlM add_input_step co (honest_round1 <$> L) = Ok co'.
Proof.
  induction L as [|k L IH]; intros co co' HL Ha.
  - by injection Ha as ->.
  - cbn [fmap list_fmap add_inputs] in Ha. cbn [fmap list_fmap foldlM].
    destruct (coordinator_add_input co _ _) as [|co1] eqn:E; [discriminate|].
    assert (Hs : add_input_step co (honest_round1 k) = Ok co1).
    { unfold add_input_step, honest_round1. cbn [r1_bytes r1_participant_id pid_0].
      rewrite decode_encoded, ok_bind. unfold unsigned_sub.
      rewrite (proj2 (N.leb_le _ _)) by (apply position_range, HL; left).
      rewrite ok_bind. by rewrite E. }
    rewrite Hs, ok_bind. apply IH; [|done]. intros k' Hk'. apply HL. by right.
Qed.

Definition session_after_round2 (k : honest) : FrostDkgSession :=
  mkFrostDkgSession (local_config k.1)
    (Some (mkDkgRuntime (honest_output t n k).1.1.1 (honest_pending k)
             (collect_map r1_participant_id honest_packages))).

Definition honest_round2 (k : honest) : list Round2Package :=
  (fun j => mkRound2Package (id k.1) (id j) (encoded (honest_share t n j k))) <$> positions.

(** Round two works with the packages in any order. *)
Lemma arrived_round2 `{!ArrivalLaws} k L :
  L ≡ₚ K ->
  session_round2 (honest_round1 <$> L) (session_after_round1 k) =
  Ok (session_after_round2 k, honest_round2 k).
Proof.
  intros HL. destruct (honest_any_order t n K L t_ok K_positions HL) as (co & agg & Hco & Hagg).
  unfold session_round2, FrostDkgSession_round2. rewrite arrived_round1_valid by done.
  cbn [fds_runtime session_after_round1]. cbv zeta.
  assert (Ha : forall self, dsc_threshold (fds_config self) = mkThresholdConfig t n ->
             aggregate_keygen_inputs self (honest_round1 <$> L) = Ok agg).
  { intros self Hc. unfold aggregate_keygen_inputs. rewrite Hc. cbn [tc_threshold tc_participants].
    rewrite (add_honest_inputs L _ co); [rewrite ok_bind; by rewrite Hagg| |done].
    intros j Hj. rewrite HL in Hj. by apply honest_position. }
  rewrite Ha, ok_bind by done. cbn [rt_pending_secret_shares]. unfold honest_pending, honest_round2.
  rewrite <- list_fmap_compose. unfold session_after_round2, honest_pending.
  rewrite <- (collect_map_Permutation r1_participant_id (honest_round1 <$> L) honest_packages); [done| |].
  - rewrite honest_ids. apply positions_ids_NoDup.
  - unfold honest_packages. by rewrite HL.
Qed.

Section aggregate.
Context (co : Coordinator) (agg : AggKeygenInput).
Hypothesis co_ok : add_inputs (coordinator_new t n)
  ((fun k => (N.of_nat k.1 - 1, honest_input t n k)%N) <$> K) = Some co.
Hypothesis agg_ok : coordinator_finish co = Some agg.

Lemma local_aggregate self :
  dsc_threshold (fds_config self) = mkThresholdConfig t n ->
  aggregate_keygen_inputs self honest_packages = Ok agg.
Proof.
  intros Hc. unfold aggregate_keygen_inputs. rewrite Hc. cbn [tc_threshold tc_participants].
  unfold honest_packages. rewrite (add_honest_inputs K _ co) by (done || apply honest_position).
  rewrite ok_bind. by rewrite agg_ok.
Qed.

Lemma local_round2 k :
  session_round2 honest_packages (session_after_round1 k) =
  Ok (session_after_round2 k, honest_round2 k).
Proof.
  unfold session_round2, FrostDkgSession_round2. rewrite honest_round1_valid by done.
  cbn [fds_runtime session_after_round1]. cbv zeta. rewrite local_aggregate by done.
  rewrite ok_bind. cbn [rt_pending_secret_shares]. unfold honest_pending, honest_round2.
  rewrite <- list_fmap_compose. done.
Qed.

Lemma filter_one_id i l :
  NoDup l -> i ∈ l -> filter (fun j => id j = id i) l = [i].
Proof.
  induction l as [|j l IH]; intros HN Hi; [by apply not_elem_of_nil in Hi|].
  apply NoDup_cons in HN as [Hj HN]. rewrite filter_cons. case_decide as E.
  - injection E as ->%Nat2N.inj. f_equal. apply filter_none.
    intros j' Hj' [= ->%Nat2N.inj]. done.
  - apply IH; [done|]. apply elem_of_cons in Hi as [->|Hi]; [done|done].
Qed.

Definition package_to (i : nat) (k : honest) : Round2Package :=
  mkRound2Package (id k.1) (id i) (encoded (honest_share t n i k)).

Lemma local_packages_for i L :
  i ∈ positions ->
  filter (fun package => r2_recipient package = id i) (concat (honest_round2 <$> L)) =
  package_to i <$> L.
Proof.
  intros Hi. induction L as [|k L IH]; [done|]. cbn [fmap list_fmap concat].
  rewrite filter_app, IH. unfold honest_round2 at 1.
  rewrite filter_fmap. cbn [r2_recipient].
  rewrite (filter_one_id i) by (apply NoDup_seq || done). done.
Qed.

Lemma collect_honest_shares i L : forall seen acc,
  NoDup L.*1 -> (forall k, k ∈ L -> id k.1 ∉ seen) ->
  exists seen', foldlM collect_share_step (seen, acc) (package_to i <$> L) =
                Ok (seen', acc ++ (honest_share t n i <$> L)).
Proof.
  induction L as [|k L IH]; intros seen acc HN Hs; cbn [fmap list_fmap foldlM].
  - exists seen. by rewrite app_nil_r.
  - rewrite fmap_cons in HN. apply NoDup_cons in HN as [Hk HN].
    assert (E : collect_share_step (seen, acc) (package_to i k) =
                Ok ({[id k.1]} ∪ seen, acc ++ [honest_share t n i k])).
    { unfold collect_share_step, package_to. cbn [r2_sender r2_bytes].
      rewrite decide_False by (apply Hs; left). by rewrite decode_encoded. }
    rewrite E, ok_bind. destruct (IH ({[id k.1]} ∪ seen) (acc ++ [honest_share t n i k]) HN)
      as [seen' Hf].
    + intros k' Hk'. apply not_elem_of_union. split; [|apply Hs; by right].
      intros [= E'%Nat2N.inj]%elem_of_singleton. apply Hk. rewrite <- E'.
      by apply list_elem_of_fmap_2.
    + exists seen'. rewrite Hf. by rewrite <- app_assoc.
Qed.

Lemma seq_Sorted a m : Sorted lt (seq a m).
Proof.
  revert a; induction m as [|m IH]; intros a; [constructor|]. cbn. constructor; [apply IH|].
  destruct m; constructor. lia.
Qed.

Lemma sorted_honest_packages :
  btree_values (collect_map r1_participant_id honest_packages) = honest_packages.
Proof.
  pose (pairs := (fun v => (r1_participant_id v, v)) <$> honest_packages).
  assert (HN : NoDup (r1_participant_id <$> honest_packages)).
  { rewrite honest_ids. apply positions_ids_NoDup. }
  assert (Hkeys : pairs.*1 = r1_participant_id <$> honest_packages).
  { unfold pairs. rewrite <- list_fmap_compose. by apply list_fmap_ext. }
  assert (E : merge_sort key_le (map_to_list (collect_map r1_participant_id honest_packages)) =
              pairs).
  { apply (StronglySorted_unique_strong key_le).
    - intros x y Hx Hy Hxy Hyx. rewrite merge_sort_Permutation in Hx.
      rewrite (collect_map_to_list _ _ HN) in Hx. fold pairs in Hx.
      assert (E : x.1 = y.1) by (apply pid_0_inj; unfold key_le in *; lia).
      apply list_elem_of_fmap in Hx as (v & -> & Hv).
      apply list_elem_of_fmap in Hy as (w & -> & Hw). cbn in E.
      pose proof (collect_map_elem _ _ v HN Hv) as E1.
      pose proof (collect_map_elem _ _ w HN Hw) as E2. congruence.
    - apply Sorted_StronglySorted; [intros x y z; unfold key_le; lia|].
      apply Sorted_merge_sort. intros x y. unfold key_le. lia.
    - assert (Hs : forall l, Sorted lt l.*1 -> StronglySorted key_le
               ((fun k : honest => (r1_participant_id (honest_round1 k), honest_round1 k)) <$> l)).
      { intros l Hl%(Sorted_StronglySorted _). induction l as [|k l IH]; [constructor|].
        cbn [fmap list_fmap] in Hl |- *. inversion Hl as [|? ? Hl' Hk]; subst.
        constructor; [by apply IH|]. apply Forall_forall.
        intros y (k' & -> & Hk')%list_elem_of_fmap. rewrite Forall_forall in Hk.
        specialize (Hk k'.1 (list_elem_of_fmap_2 fst _ _ Hk')). unfold key_le. cbn. lia. }
      unfold pairs, honest_packages. rewrite <- list_fmap_compose. apply Hs.
      rewrite K_positions. apply seq_Sorted.
    - rewrite merge_sort_Permutation. by apply collect_map_to_list. }
  unfold btree_values. rewrite E. unfold pairs. rewrite <- list_fmap_compose.
  apply list_fmap_id.
Qed.

(** The two errors that remain: a key or a share that is the zero element. *)
Definition zero_error (e : DkgKitError) : Prop :=
  e = Protocol "paired share is zero" \/ e = Protocol "shared key is zero".

Definition group_key_of (key : EvenSharedKey) : GroupKey :=
  mkGroupKey (point_to_xonly_bytes (even_shared_public_key key)) (encoded key).

Hypothesis shares_ok : forall j, (1 <= j <= N.to_nat n)%nat ->
  exists share, receive_secret_share agg
    (collect_secret_inputs (scalar_from (N.of_nat j)) (honest_share t n j <$> K)) = inr share.

(** What participant [i] stores at the end: the group key and the encoding of
    the share that the engine accepted. *)
Definition dealt_share (i : nat) (share : LocalKeyShare) : Prop :=
  lks_participant_id share = id i /\
  (exists key, shared_into_even (agg_shared_key agg) = Some key /\
               lks_group_key share = group_key_of key) /\
  exists paired even,
    receive_secret_share agg
      (collect_secret_inputs (scalar_from (N.of_nat i)) (honest_share t n i <$> K)) = inr paired /\
    paired_into_even paired = Some even /\ lks_secret_share_bytes share = encoded even.

(** Finalizing with any list of packages whose part for this participant is what
    the contributors dealt it, in an order [L] that does not matter. *)
Lemma arrived_finalize k L packages :
  k ∈ K -> L ≡ₚ K ->
  filter (fun package => r2_recipient package = id k.1) packages = package_to k.1 <$> L ->
  collect_secret_inputs (scalar_from (N.of_nat k.1)) (honest_share t n k.1 <$> L) =
    collect_secret_inputs (scalar_from (N.of_nat k.1)) (honest_share t n k.1 <$> K) ->
  let r := FrostDkgSession_finalize (session_after_round2 k) packages in
  (exists share, r = Ok share /\ dealt_share k.1 share) \/ (exists e, r = Err e /\ zero_error e).
Proof.
  intros Hk HL Hpackages Hcol r. pose proof (honest_position k Hk) as Hpos.
  assert (Hsize : size (collect_map r1_participant_id honest_packages) = N.to_nat n).
  { rewrite <- length_map_to_list.
    rewrite collect_map_to_list by (rewrite honest_ids; apply positions_ids_NoDup).
    by rewrite length_fmap, length_honest_packages. }
  destruct (collect_honest_shares k.1 L ∅ []) as [seen Hcollect].
  { rewrite HL, K_positions. apply NoDup_seq. }
  { intros. apply not_elem_of_empty. }
  unfold r, FrostDkgSession_finalize. cbv zeta.
  cbn [fds_config fds_runtime session_after_round2 local_config dsc_participant_id dsc_threshold
       tc_participants ok_or].
  rewrite ok_bind. cbn [rt_round1_packages]. rewrite Hsize, Nat.eqb_refl. cbn [negb reject_if].
  rewrite ok_bind, Hpackages, Hcollect, ok_bind.
  cbn [app]. rewrite length_fmap, (Permutation_length HL), length_honest, Nat.eqb_refl.
  cbn [negb reject_if]. rewrite ok_bind, sorted_honest_packages, local_aggregate, ok_bind by done.
  rewrite (share_index_position k.1 Hpos), ok_bind, Hcol.
  apply elem_of_seq in Hpos. destruct (shares_ok k.1) as [share Hshare]; [lia|].
  rewrite Hshare, ok_bind.
  destruct (paired_into_even share) as [even|] eqn:Heven; cbn [ok_or];
    [|right; eexists; split; [done|by left]].
  rewrite ok_bind.
  destruct (shared_into_even (agg_shared_key agg)) as [key|] eqn:Hkey; cbn [ok_or];
    [|right; eexists; split; [done|by right]].
  rewrite ok_bind, !encode_binary_encoded, !ok_bind. left. eexists. split; [done|].
  split_and!; [done|by exists key|by exists share, even].
Qed.

Lemma local_finalize k packages :
  k ∈ K ->
  filter (fun package => r2_recipient package = id k.1) packages = package_to k.1 <$> K ->
  let r := FrostDkgSession_finalize (session_after_round2 k) packages in
  (exists share, r = Ok share /\ dealt_share k.1 share) \/ (exists e, r = Err e /\ zero_error e).
Proof. intros Hk Hp. by apply (arrived_finalize k K). Qed.

Lemma local_round2_all :
  mapM (session_round2 honest_packages) (session_after_round1 <$> K) =
  Ok ((fun k => (session_after_round2 k, honest_round2 k)) <$> K).
Proof.
  apply mapM_Ok, Forall2_fmap, Forall_Forall2_diag, Forall_forall. intros k _. apply local_round2.
Qed.

(** Every participant finalizes, each with its own packages. *)
Lemma finalize_dealt (packages : honest -> list Round2Package) :
  (forall k, k ∈ K ->
     filter (fun package => r2_recipient package = id k.1) (packages k) = package_to k.1 <$> K) ->
  let r := mapM (fun k => FrostDkgSession_finalize (session_after_round2 k) (packages k)) K in
  (exists shares, r = Ok shares /\ Forall2 dealt_share positions shares) \/
  (exists e, r = Err e /\ zero_error e).
Proof.
  intros Hpackages r. destruct (mapM_Ok_or_Err
    (fun k => FrostDkgSession_finalize (session_after_round2 k) (packages k))
    (fun k share => dealt_share k.1 share) zero_error K) as [(shares & Hr & HF)|?]; [|left|by right].
  - intros k Hk. exact (local_finalize k (packages k) Hk (Hpackages k Hk)).
  - exists shares. split; [done|]. rewrite <- K_positions. by apply Forall2_fmap_l.
Qed.

(** They all get the same group key. *)
Lemma dealt_shares_agree L shares :
  Forall2 dealt_share L shares ->
  exists group_key, lks_participant_id <$> shares = (fun i => id i) <$> L /\
                    Forall (fun share => lks_group_key share = group_key) shares.
Proof.
  intros HF.
  exists (match shared_into_even (agg_shared_key agg) with
          | Some key => group_key_of key | None => mkGroupKey [] [] end).
  induction HF as [|i share L l (Hid & (key & Hkey & Hgk) & _) HF [IHi IHk]]; [done|]. split.
  - by rewrite !fmap_cons, IHi, Hid.
  - constructor; [|done]. by rewrite Hkey.
Qed.

Lemma finalize_each (packages : honest -> list Round2Package) :
  (forall k, k ∈ K ->
     filter (fun package => r2_recipient package = id k.1) (packages k) = package_to k.1 <$> K) ->
  let r := mapM (fun k => FrostDkgSession_finalize (session_after_round2 k) (packages k)) K in
  (exists shares group_key,
     r = Ok shares /\ lks_participant_id <$> shares = (fun i => id i) <$> positions /\
     Forall (fun share => lks_group_key share = group_key) shares) \/
  (exists e, r = Err e /\ zero_error e).
Proof.
  intros Hpackages r. destruct (finalize_dealt packages Hpackages) as [(shares & Hr & HF)|?]; [left|by right].
  destruct (dealt_shares_agree _ _ HF) as (group_key & ?). by exists shares, group_key.
Qed.

Lemma local_finalize_all :
  let r := mapM (fun session => FrostDkgSession_finalize session (concat (honest_round2 <$> K)))
             (session_after_round2 <$> K) in
  (exists shares, r = Ok shares /\ Forall2 dealt_share positions shares) \/
  (exists e, r = Err e /\ zero_error e).
Proof.
  cbv zeta. rewrite mapM_fmap. apply (finalize_dealt (fun _ => concat (honest_round2 <$> K))).
  intros k Hk. by apply local_packages_for, honest_position.
Qed.
End aggregate.
End local_dkg.

Section local_dkg_theorem.
Context `{KeygenLaws} `{!SecpLaws}.
Context `{BincodeLaws KeygenInput, !Bincode scalar, !BincodeLaws scalar,
          !Bincode EvenPairedShare, !BincodeLaws EvenPairedShare,
          !Bincode EvenSharedKey, !BincodeLaws EvenSharedKey}.

(** A run of the local key generation and what the participants end with. *)
Lemma local_dkg_runs sid t n g :
  blank sid = false -> (1 <= t <= n)%N -> (n <= u16_max)%N ->
  exists K co agg g' r, K.*1 = seq 1 (N.to_nat n) /\
    add_inputs (coordinator_new t n)
      ((fun k => (N.of_nat k.1 - 1, honest_input t n k)%N) <$> K) = Some co /\
    coordinator_finish co = Some agg /\
    run_local_frost_dkg sid t n g = (g', r) /\
    ((exists shares, r = Ok shares /\ Forall2 (dealt_share t n K agg) (seq 1 (N.to_nat n)) shares) \/
     (exists e, r = Err e /\ zero_error e)).
Proof.
  intros Hsid Ht Hn.
  destruct (local_round1_all sid t n Hsid Ht Hn (seq 1 (N.to_nat n)) g) as (K & g' & HK & Hr1); [done|].
  destruct (honest_keygen_verifies t n K Ht HK) as (co & agg & Hco & Hagg & Hshares).
  exists K, co, agg, g', (mapM (fun session => FrostDkgSession_finalize session
                       (concat (honest_round2 t n <$> K))) (session_after_round2 sid t n K <$> K)).
  split_and!; [done|done|done| |by eapply local_finalize_all].
  unfold run_local_frost_dkg. erewrite st_bind_Ok; [|unfold st_lift; by rewrite local_sessions].
  erewrite st_bind_Ok; [|exact Hr1]. rewrite <- !list_fmap_compose. unfold compose. cbn [fst snd].
  erewrite st_bind_Ok; [|unfold st_lift; f_equal; by eapply local_round2_all].
  unfold st_lift. by rewrite <- !list_fmap_compose.
Qed.

(** The local key generation completes.  For a non-blank session name and
    [1 <= t <= n], over an engine that accepts honest inputs,
    [run_local_frost_dkg] never panics: unless the engine reports a zero key or
    a zero share it returns one key share for each of the participants
    [1, .., n], in this order, all with the same group key. *)
Theorem local_frost_dkg_completes sid t n g :
  blank sid = false -> (1 <= t <= n)%N -> (n <= u16_max)%N ->
  exists g' r, run_local_frost_dkg sid t n g = (g', r) /\
    ((exists shares group_key,
        r = Ok shares /\
        lks_participant_id <$> shares =
          (fun i => mkParticipantId (N.of_nat i)) <$> seq 1 (N.to_nat n) /\
        Forall (fun share => lks_group_key share = group_key) shares) \/
     (exists e, r = Err e /\ zero_error e)).
Proof.
  intros Hsid Ht Hn.
  destruct (local_dkg_runs sid t n g Hsid Ht Hn) as (K & co & agg & g' & r & _ & _ & _ & Hrun & Hr).
  exists g', r. split; [done|]. destruct Hr as [(shares & Hr & HF)|?]; [left|by right].
  destruct (dealt_shares_agree _ _ _ _ _ _ HF) as (group_key & ?). by exists shares, group_key.
Qed.
End local_dkg_theorem.

(** ** What signing needs of the engine *)

(** [valid_share key index share]: the share at this index is a share of the
    key.  [enough key m]: [m] signers reach the key's threshold. *)
Class SigningLaws `{FrostLib} := {
  valid_share : EvenSharedKey -> scalar -> EvenPairedShare -> Prop;
  enough : EvenSharedKey -> nat -> Prop;
  honest_signing_combines key message (signers : list (scalar * EvenPairedShare * NonceKeyPair)) :
    NoDup signers.*1.*1 -> enough key (length signers) ->
    Forall (fun s => valid_share key s.1.1 s.1.2) signers ->
    let session := coordinator_sign_session key
                     ((fun s => (s.1.1, nonce_public s.2)) <$> signers) message in
    exists signature,
      verify_and_combine session key
        ((fun s => (s.1.1, party_sign (even_shared_public_key key) session message s.1.2 s.2))
           <$> signers) = inr signature;
}.

(** ** Local signing, step by step *)

Section local_sign.
Context `{SigningLaws} `{!SecpLaws}.
Context `{BincodeLaws Nonce, !Bincode scalar, !BincodeLaws scalar,
          !Bincode EvenPairedShare, !Bincode EvenSharedKey,
          !Bincode (point * scalar), !BincodeLaws (point * scalar)}.
Context (request : SigningRequest) (key : EvenSharedKey).
Hypothesis key_ok : decode_binary (gk_verification_key_bytes (sr_group_key request)) = Ok key.

Local Abbreviation signers := (sr_signer_set request).
Local Abbreviation session_bytes := (as_bytes (sid_0 (sr_session_id request))).

(** A signer with its stored share, the share decoded, and the state of the
    generator when its turn comes. *)
Record party := mkParty {
  party_share : LocalKeyShare;
  party_paired : EvenPairedShare;
  party_rng : rng;
}.

Definition party_id (p : party) : ParticipantId := lks_participant_id (party_share p).
Definition party_index (p : party) : scalar := scalar_from (pid_0 (party_id p)).
Definition party_nonce (p : party) : NonceKeyPair :=
  (gen_nonce (party_paired p) session_bytes (party_rng p)).1.

(** A stored share of the request's group that decodes. *)
Definition usable_share (s : LocalKeyShare) (paired : EvenPairedShare) : Prop :=
  lks_group_key s = sr_group_key request /\
  decode_binary (lks_secret_share_bytes s) = Ok paired /\
  (1 <= pid_0 (lks_participant_id s) <= u16_max)%N.

Definition usable (p : party) : Prop := usable_share (party_share p) (party_paired p).

Definition party_nonce_package (p : party) : NoncePackage :=
  mkNoncePackage (party_id p) (sr_session_id request) (encoded (nonce_public (party_nonce p))).

Definition session_with_nonce (p : party) : FrostSigningSession :=
  mkFrostSigningSession request (Some (party_nonce p)).

Lemma local_nonce_step p :
  usable p ->
  session_nonce (FrostSigningSession_new request, party_share p) (party_rng p) =
  ((gen_nonce (party_paired p) session_bytes (party_rng p)).2,
   Ok (session_with_nonce p, party_share p, party_nonce_package p)).
Proof.
  intros (Hgk & Hdec & _). unfold session_nonce, FrostSigningSession_nonce. cbn [fst snd].
  cbn [fss_request FrostSigningSession_new]. rewrite (bool_decide_eq_false_2 (_ <> _)) by auto.
  cbn [reject_if]. rewrite ok_bind, Hdec.
  unfold session_with_nonce, party_nonce_package, party_nonce.
  destruct (gen_nonce _ _ _) as [nonce g']. cbn [fst snd].
  by rewrite encode_binary_encoded.
Qed.

Lemma local_nonces shares : forall paireds g,
  Forall2 usable_share shares paireds ->
  exists P g', party_share <$> P = shares /\ party_paired <$> P = paireds /\ Forall usable P /\
    mapM session_nonce (pair (FrostSigningSession_new request) <$> shares) g =
    (g', Ok ((fun p => (session_with_nonce p, party_share p, party_nonce_package p)) <$> P)).
Proof.
  induction shares as [|s shares IH]; intros paireds g HF.
  - apply Forall2_nil_inv_l in HF as ->. exists [], g. by split_and!.
  - apply Forall2_cons_inv_l in HF as (x & paireds' & Hx & HF & ->).
    destruct (IH paireds' (gen_nonce x session_bytes g).2 HF) as (P & g' & HP & HX & HU & Hm).
    exists (mkParty s x g :: P), g'. split_and!; [by cbn; rewrite HP|by cbn; rewrite HX|by constructor|].
    rewrite fmap_cons, st_mapM_cons.
    erewrite st_bind_Ok; [|by apply (local_nonce_step (mkParty s x g))].
    erewrite st_bind_Ok; [|exact Hm]. done.
Qed.

Section parties.
Context (P : list party).
Hypothesis P_usable : Forall usable P.
Hypothesis P_signers : party_id <$> P = signers.
Hypothesis signers_distinct : NoDup signers.

Definition party_nonces : list NoncePackage := party_nonce_package <$> P.
Definition nonce_map : list (scalar * Nonce) :=
  (fun p => (party_index p, nonce_public (party_nonce p))) <$> P.

Lemma nonce_map_loop L : forall keys acc,
  Forall usable L -> party_id <$> L ⊆ signers -> NoDup (party_id <$> L) ->
  (forall p, p ∈ L -> party_id p ∉ keys) ->
  exists keys', foldlM (nonce_map_step request) (keys, acc) (party_nonce_package <$> L) =
    Ok (keys', acc ++ ((fun p => (party_index p, nonce_public (party_nonce p))) <$> L)).
Proof.
  induction L as [|p L IH]; intros keys acc HU Hin HN Hk; cbn [fmap list_fmap foldlM].
  - exists keys. by rewrite app_nil_r.
  - apply Forall_cons in HU as [Hp HU]. rewrite fmap_cons in Hin, HN. apply NoDup_cons in HN as [Hnp HN].
    assert (E : nonce_map_step request (keys, acc) (party_nonce_package p) =
                Ok ({[party_id p]} ∪ keys,
                    acc ++ [(party_index p, nonce_public (party_nonce p))])).
    { unfold nonce_map_step, party_nonce_package. cbv zeta.
      cbn [np_participant_id np_signing_session_id np_public_nonce_bytes].
      rewrite (bool_decide_eq_false_2 (_ <> _)) by auto. rewrite (bool_decide_eq_true_2 (_ ∈ _)) by set_solver.
      cbn [reject_if negb]. rewrite !ok_bind, decode_encoded, ok_bind.
      rewrite participant_share_index_Ok, ok_bind by apply Hp.
      by rewrite decide_False by (apply Hk; left). }
    rewrite E, ok_bind.
    destruct (IH ({[party_id p]} ∪ keys)
                (acc ++ [(party_index p, nonce_public (party_nonce p))]) HU) as [keys' Hf].
    + set_solver.
    + done.
    + intros q Hq. apply not_elem_of_union. split; [|apply Hk; by right].
      intros E'%elem_of_singleton. apply Hnp. rewrite <- E'. by apply list_elem_of_fmap_2.
    + exists keys'. rewrite Hf. by rewrite <- app_assoc.
Qed.

Lemma length_parties : length P = length signers.
Proof. by rewrite <- P_signers, length_fmap. Qed.

Lemma local_nonce_map : nonces_to_map party_nonces request = Ok nonce_map.
Proof.
  unfold nonces_to_map, party_nonces.
  destruct (nonce_map_loop P ∅ []) as [keys ->];
    [done|by rewrite P_signers|by rewrite P_signers|intros; apply not_elem_of_empty|].
  rewrite ok_bind. cbn [app]. rewrite length_fmap, length_parties, Nat.eqb_refl. done.
Qed.

Local Abbreviation message := (frost_message (sr_message_digest request)).
Local Abbreviation coord_session := (coordinator_sign_session key nonce_map message).

Definition party_signature (p : party) : scalar :=
  party_sign (even_shared_public_key key) coord_session message (party_paired p) (party_nonce p).

Definition party_signature_package (p : party) : SignatureSharePackage :=
  mkSignatureSharePackage (party_id p) (sr_session_id request)
    (encoded (nonce_public (party_nonce p))) (encoded (party_signature p)).

Lemma own_nonce L p :
  p ∈ L -> NoDup (party_id <$> L) ->
  List.find (fun package => bool_decide (np_participant_id package = party_id p))
    (party_nonce_package <$> L) = Some (party_nonce_package p).
Proof.
  induction L as [|q L IH]; intros Hp HN; [by apply not_elem_of_nil in Hp|].
  rewrite fmap_cons in HN. apply NoDup_cons in HN as [Hq HN]. cbn [fmap list_fmap List.find].
  cbn [np_participant_id party_nonce_package]. apply elem_of_cons in Hp as [->|Hp].
  - by rewrite bool_decide_eq_true_2.
  - rewrite bool_decide_eq_false_2; [by apply IH|].
    intros E. apply Hq. rewrite E. by apply list_elem_of_fmap_2.
Qed.

Lemma local_sign_step p :
  p ∈ P -> session_sign_share party_nonces (session_with_nonce p, party_share p) =
           Ok (party_signature_package p).
Proof.
  intros Hp. destruct (proj1 (Forall_forall _ _) P_usable p Hp) as (Hgk & Hdec & _).
  unfold session_sign_share, FrostSigningSession_sign_share. cbn [fst snd]. cbv zeta.
  cbn [fss_request session_with_nonce fss_nonce_runtime].
  rewrite (bool_decide_eq_false_2 (_ <> _)) by auto.
  rewrite (bool_decide_eq_true_2 (_ ∈ _)) by (rewrite <- P_signers; apply (list_elem_of_fmap_2 party_id _ _ Hp)).
  cbn [reject_if negb]. rewrite !ok_bind. cbn [snd].
  pose proof (own_nonce P p Hp ltac:(by rewrite P_signers)) as Hown.
  change (party_nonce_package <$> P) with party_nonces in Hown. unfold party_id in Hown.
  rewrite Hown. cbn [ok_or].
  rewrite ok_bind, Hdec, ok_bind, key_ok, ok_bind, local_nonce_map, ok_bind.
  rewrite encode_binary_encoded, ok_bind. done.
Qed.

Lemma local_sign_all :
  mapM (session_sign_share party_nonces) ((fun p => (session_with_nonce p, party_share p)) <$> P) =
  Ok (party_signature_package <$> P).
Proof.
  apply mapM_Ok, Forall2_fmap, Forall_Forall2_diag, Forall_forall. apply local_sign_step.
Qed.

Lemma local_share_set : validate_signature_share_set (party_signature_package <$> P) request = Ok tt.
Proof.
  unfold validate_signature_share_set.
  assert (Hids : ssp_participant_id <$> (party_signature_package <$> P) = signers).
  { rewrite <- P_signers, <- list_fmap_compose. by apply list_fmap_ext. }
  assert (Hf : foldlM (share_set_step request) ∅ (party_signature_package <$> P) =
    Ok (list_to_set (ssp_participant_id <$> (party_signature_package <$> P)) ∪ ∅)).
  { apply (seen_loop_Ok ssp_participant_id
             (fun s => ssp_signing_session_id s = sr_session_id request /\
                       ssp_participant_id s ∈ signers)).
    - intros seen x s'. unfold share_set_step. cbv zeta.
      destruct (decide (ssp_signing_session_id x = sr_session_id request)) as [E|E];
        [rewrite (bool_decide_eq_false_2 (_ <> _)) by auto|
         rewrite (bool_decide_eq_true_2 (_ <> _)) by done; split; [done|by intros [[? ?] _]]].
      cbn [reject_if]. rewrite ok_bind. case_bool_decide; cbn [reject_if negb];
        [|split; [done|by intros [[? ?] _]]].
      rewrite ok_bind. case_decide; [split; [discriminate|by intros (_ & ? & _)]|].
      split; [by intros [= <-]|by intros (_ & _ & ->)].
    - rewrite Hids. split_and!; [|done|set_solver|done]. apply Forall_forall.
      intros s Hs. split; [by apply list_elem_of_fmap in Hs as (p & -> & _)|].
      rewrite <- Hids. by apply list_elem_of_fmap_2. }
  rewrite Hf, ok_bind, seen_size by (by rewrite Hids).
  rewrite length_fmap, length_parties, Nat.eqb_refl. done.
Qed.

Hypothesis P_valid : Forall (fun p => valid_share key (party_index p) (party_paired p)) P.
Hypothesis P_enough : enough key (length P).
Hypothesis signature_bytes : forall nonces shares sig,
  verify_and_combine (coordinator_sign_session key nonces message) key shares = inr sig ->
  encoded sig <> [].

Lemma local_aggregate_signature :
  exists sig, FrostSigningSession_aggregate (FrostSigningSession_new request)
                (party_signature_package <$> P) = Ok (mkAggregateSignature (encoded sig)) /\
    exists nonces shares,
      verify_and_combine (coordinator_sign_session key nonces message) key shares = inr sig.
Proof.
  destruct (honest_signing_combines key message
    ((fun p => (party_index p, party_paired p, party_nonce p)) <$> P)) as [sig Hsig].
  - rewrite <- !list_fmap_compose. unfold compose. cbn.
    assert (E : (fun p => party_index p) <$> P = (fun s => scalar_from (pid_0 s)) <$> signers).
    { rewrite <- P_signers, <- list_fmap_compose. done. }
    rewrite E. apply NoDup_fmap_2_strong; [|done].
    rewrite <- P_signers. intros x y (p & -> & Hp)%list_elem_of_fmap (q & -> & Hq)%list_elem_of_fmap Hxy.
    rewrite Forall_forall in P_usable.
    destruct (P_usable p Hp) as (_ & _ & Hrp), (P_usable q Hq) as (_ & _ & Hrq).
    apply pid_0_inj. apply scalar_from_inj in Hxy; [done|unfold party_id, u16_max, u32_max in *; lia..].
  - by rewrite length_fmap.
  - by apply Forall_fmap.
  - rewrite <- !list_fmap_compose in Hsig. unfold compose in Hsig. cbn [fst snd] in Hsig.
    exists sig. split; [|by eexists _, _]. unfold FrostSigningSession_aggregate. cbv zeta.
    cbn [fss_request FrostSigningSession_new]. rewrite local_share_set, ok_bind, key_ok, ok_bind.
    rewrite <- list_fmap_compose.
    change ((fun share => mkNoncePackage (ssp_participant_id share)
               (ssp_signing_session_id share) (ssp_public_nonce_bytes share)) ∘
              party_signature_package <$> P) with party_nonces.
    rewrite local_nonce_map, ok_bind.
    erewrite (proj2 (mapM_Ok _ _ ((fun p => (party_index p, party_signature p)) <$> P))).
    + rewrite ok_bind. unfold party_signature, nonce_map. rewrite Hsig, ok_bind.
      rewrite encode_binary_encoded, ok_bind. unfold AggregateSignature_new.
      by rewrite bool_decide_eq_false_2 by (by eapply signature_bytes).
    + apply Forall2_fmap, Forall_Forall2_diag, Forall_forall. intros p Hp.
      cbn [ssp_signature_share_bytes party_signature_package ssp_participant_id].
      rewrite decode_encoded, ok_bind, participant_share_index_Ok, ok_bind; [done|].
      by apply (proj1 (Forall_forall _ _) P_usable p Hp).
Qed.
End parties.
End local_sign.

Section local_sign_theorem.
Context `{SigningLaws} `{!SecpLaws}.
Context `{BincodeLaws Nonce, !Bincode scalar, !BincodeLaws scalar,
          !Bincode EvenPairedShare, !Bincode EvenSharedKey,
          !Bincode (point * scalar), !BincodeLaws (point * scalar)}.

Lemma policy_signers_distinct signers policy :
  validate_signer_set_with_policy signers policy = Ok tt -> NoDup signers.
Proof.
  intros Hv.
  assert (exists t, validate_signer_set signers t = Ok tt) as [t Ht].
  { destruct policy as [c|c|c]; cbn in Hv; [by exists c|..].
    - unfold validate_hierarchical_signer_set in Hv. apply bind_Ok in Hv as (t & _ & Hv).
      apply bind_Ok in Hv as ([] & Hv & _). by exists t.
    - unfold validate_grouped_threshold_signer_set in Hv. apply bind_Ok in Hv as (t & _ & Hv).
      apply bind_Ok in Hv as ([] & Hv & _). by exists t. }
  by apply validate_signer_set_Ok in Ht as (_ & HN & _).
Qed.

(** The signer's stored share is a usable share of the key. *)
Definition signer_ready (group_key : GroupKey) (key : EvenSharedKey)
    (local_shares : list LocalKeyShare) (s : ParticipantId) (paired : EvenPairedShare) : Prop :=
  exists share,
    List.find (fun share => bool_decide (lks_participant_id share = s)) local_shares = Some share /\
    lks_group_key share = group_key /\
    decode_binary (lks_secret_share_bytes share) = Ok paired /\
    (1 <= pid_0 s <= u16_max)%N /\ valid_share key (scalar_from (pid_0 s)) paired.

Lemma select_ready_shares request key local_shares signers paireds :
  Forall2 (signer_ready (sr_group_key request) key local_shares) signers paireds ->
  exists shares, select_local_shares local_shares signers = Ok shares /\
    lks_participant_id <$> shares = signers /\
    Forall2 (usable_share request) shares paireds /\
    Forall2 (fun share paired => valid_share key (scalar_from (pid_0 (lks_participant_id share))) paired)
      shares paireds.
Proof.
  intros HF. induction HF as [|s x signers paireds Hs HF (shares & Hsel & Hids & HU & HV)].
  - exists []. by split_and!.
  - destruct Hs as (share & Hfind & Hgk & Hdec & Hr & Hv).
    assert (Hid : lks_participant_id share = s).
    { apply List.find_some in Hfind as [_ Hid]. by apply bool_decide_eq_true in Hid. }
    exists (share :: shares). split_and!.
    + apply mapM_Ok. constructor; [by rewrite Hfind|by apply mapM_Ok].
    + by rewrite fmap_cons, Hids, Hid.
    + constructor; [|done]. unfold usable_share. by rewrite Hid.
    + constructor; [by rewrite Hid|done].
Qed.

(** A signing run: the signature is one that the engine combined. *)
Lemma local_signing_runs sid policy group_key digest local_shares signers key paireds g :
  blank sid = false -> validate_signer_set_with_policy signers policy = Ok tt ->
  decode_binary (gk_verification_key_bytes group_key) = Ok key ->
  Forall2 (signer_ready group_key key local_shares) signers paireds ->
  enough key (length signers) ->
  (forall nonces shares sig,
     verify_and_combine (coordinator_sign_session key nonces (frost_message digest)) key shares =
       inr sig -> encoded sig <> []) ->
  exists g' sig,
    sign_digest_with_shares_and_policy sid policy group_key digest local_shares signers g =
      (g', Ok (mkAggregateSignature (encoded sig))) /\
    exists nonces shares,
      verify_and_combine (coordinator_sign_session key nonces (frost_message digest)) key shares =
        inr sig.
Proof.
  intros Hsid Hpol Hkey HF Hen Hbytes.
  pose (request := mkSigningRequest (mkSessionId sid) group_key digest signers).
  destruct (select_ready_shares request key local_shares signers paireds HF)
    as (shares & Hsel & Hids & HU & HV).
  destruct (local_nonces request shares paireds g HU) as (P & g' & Hsh & Hpa & HP & Hn).
  assert (HPs : party_id <$> P = sr_signer_set request).
  { cbn [sr_signer_set request]. rewrite <- Hids, <- Hsh, <- list_fmap_compose. done. }
  assert (HN : NoDup (sr_signer_set request)) by (by eapply policy_signers_distinct).
  destruct (local_aggregate_signature request key Hkey P HP HPs HN) as (sig & Hsig & Hcomb).
  - subst shares paireds. rewrite Forall2_fmap in HV. apply Forall_forall.
    intros p [i Hi]%list_elem_of_lookup. exact (Forall2_lookup_lr _ _ _ _ _ _ HV Hi Hi).
  - rewrite <- (length_fmap party_id), HPs. done.
  - done.
  - exists g', sig. split; [|exact Hcomb].
    unfold sign_digest_with_shares_and_policy, SessionId_new, SigningRequest_new_with_policy.
    rewrite Hpol, Hsid. unfold sign_request_with_shares. fold request.
    erewrite st_bind_Ok; [|done]. erewrite st_bind_Ok; [|done].
    erewrite st_bind_Ok; [|reflexivity]. cbn [reject_if].
    erewrite st_bind_Ok; [|unfold st_lift; by rewrite Hsel].
    erewrite st_bind_Ok; [|exact Hn]. rewrite <- !list_fmap_compose. unfold compose. cbn [fst snd].
    erewrite st_bind_Ok; [|unfold st_lift; f_equal; by apply (local_sign_all request key)].
    unfold st_lift. f_equal. exact Hsig.
Qed.

(** Local signing completes.  When the signer set satisfies the policy, the
    session name is not blank, the group's verification key decodes, every
    signer has a stored share of this group that decodes to a valid share of
    the key, and the engine considers the number of signers enough, signing
    returns a non-empty signature; and signing under a plain threshold is
    signing under the policy that consists of this threshold. *)
Theorem local_signing_completes sid policy group_key digest local_shares signers key paireds g :
  blank sid = false -> validate_signer_set_with_policy signers policy = Ok tt ->
  decode_binary (gk_verification_key_bytes group_key) = Ok key ->
  Forall2 (signer_ready group_key key local_shares) signers paireds ->
  enough key (length signers) ->
  (forall sig : point * scalar, encoded sig <> []) ->
  (exists g' signature,
     sign_digest_with_shares_and_policy sid policy group_key digest local_shares signers g =
       (g', Ok signature) /\ as_signature_bytes signature <> []) /\
  forall threshold,
    sign_digest_with_shares sid threshold group_key digest local_shares signers =
    sign_digest_with_shares_and_policy sid (Threshold threshold) group_key digest local_shares
      signers.
Proof.
  intros Hsid Hpol Hkey HF Hen Hbytes. split; [|done].
  destruct (local_signing_runs sid policy group_key digest local_shares signers key paireds g)
    as (g' & sig & Hrun & _); [done..|intros; apply Hbytes|].
  exists g', (mkAggregateSignature (encoded sig)). split; [done|apply Hbytes].
Qed.
End local_sign_theorem.

(** ** The laws hold of the small engine *)

Section witnesses.
Local Existing Instances small_group small_group_laws unit_engine scalar_bincode digits_bincode.

Lemma scalar_bincode_laws : @BincodeLaws (@scalar small_group) scalar_bincode.
Proof.
  split.
  - intros x. by eexists.
  - intros x bs Hbs. unfold scalar_bincode, bincode_serialize, bincode_deserialize in *.
    injection Hbs as <-. by rewrite f_from_bytes_to_bytes.
Qed.

Lemma unit_engine_keygen : @KeygenLaws small_group unit_engine.
Proof.
  split.
  - intros t indices i g. cbn. rewrite <- list_fmap_compose. apply list_fmap_id.
  - intros t n K _ _.
    assert (Hadd : forall l co, exists co', @add_inputs small_group unit_engine co l = Some co').
    { induction l as [|[i x] l IH]; intros co; [by exists co|]. apply (IH (i :: co)). }
    destruct (Hadd ((fun k => (N.of_nat k.1 - 1, honest_input t n k)%N) <$> K)
                (coordinator_new t n)) as [co Hco].
    exists co, co. split_and!; [exact Hco|done|]. intros j _. by eexists.
Qed.


Lemma local_frost_dkg_completes_witness :
  exists g' r, @run_local_frost_dkg small_group unit_engine engine_n_bincode scalar_bincode
                 engine_n_bincode engine_n_bincode "demo" 2 3 0%Z = (g', r) /\
    ((exists shares group_key,
        r = Ok shares /\
        lks_participant_id <$> shares = [mkParticipantId 1; mkParticipantId 2; mkParticipantId 3] /\
        Forall (fun share => lks_group_key share = group_key) shares) \/
     (exists e, r = Err e /\ zero_error e)).
Proof.
  apply (@local_frost_dkg_completes small_group unit_engine unit_engine_keygen small_group_laws
    engine_n_bincode digits_bincode_laws scalar_bincode scalar_bincode_laws
    engine_n_bincode digits_bincode_laws engine_n_bincode digits_bincode_laws "demo" 2 3 0%Z).
  - reflexivity.
  - split; discriminate.
  - discriminate.
Defined.

Definition pair_bincode : Bincode (@point small_group * @scalar small_group) := {|
  bincode_serialize sig := inr (f_to_bytes sig.1 ++ f_to_bytes sig.2);
  bincode_deserialize bs :=
    match f_from_bytes (take 32 bs), f_from_bytes (drop 32 bs) with
    | Some R, Some s => inr (R, s)
    | _, _ => inl "signature"
    end;
|}.

Lemma pair_bincode_laws : @BincodeLaws _ pair_bincode.
Proof.
  split.
  - intros x. by eexists.
  - intros [R s] bs Hbs. unfold pair_bincode, bincode_serialize, bincode_deserialize in *.
    assert (E : bs = f_to_bytes R ++ f_to_bytes s) by (cbn [fst snd] in Hbs; congruence).
    rewrite E, take_app_length', drop_app_length' by (symmetry; apply length_be_bytes).
    by rewrite !f_from_bytes_to_bytes.
Qed.

Definition unit_engine_signing : @SigningLaws small_group unit_engine.
Proof.
  refine {| valid_share := fun _ _ _ => True; enough := fun _ m => (0 < m)%nat |}.
  intros key message [|s l] _ Hm _ session; [by apply Nat.lt_irrefl in Hm|]. by eexists.
Defined.

(** The demo share of the small engine, at the identifier one. *)
Lemma local_signing_completes_witness :
  exists g' signature,
    @sign_digest_with_shares_and_policy small_group unit_engine engine_n_bincode scalar_bincode
      engine_n_bincode engine_n_bincode pair_bincode "s" (Threshold (mkThresholdConfig 1 1))
      demo_group_key [x02] [demo_local_share] [mkParticipantId 1] 0%Z = (g', Ok signature) /\
    as_signature_bytes signature <> [].
Proof.
  refine (proj1 (@local_signing_completes small_group unit_engine unit_engine_signing
    small_group_laws engine_n_bincode digits_bincode_laws scalar_bincode scalar_bincode_laws
    engine_n_bincode engine_n_bincode pair_bincode pair_bincode_laws "s"
    (Threshold (mkThresholdConfig 1 1)) demo_group_key [x02] [demo_local_share]
    [mkParticipantId 1] 5%N [9%N] 0%Z _ _ _ _ _ _)).
  - reflexivity.
  - reflexivity.
  - reflexivity.
  - constructor; [|constructor]. exists demo_local_share. split_and!; try reflexivity; discriminate.
  - apply Nat.lt_0_1.
  - intros [R s]. discriminate.
Defined.
End witnesses.
