(* ===== verification/FrostTests.v ===== *)
(** The unit tests of [crates/dkgkit-frost/src/lib.rs], as scenarios over the
    components of the crate, and what is proved of them.

    The tests that draw randomness thread the generator.  Those that deal, reshare
    and reconstruct pass for every lawful group and every state of the generator;
    the tests of policies and interpolation need no generator at all; the others
    are run on the small group and the engine of [FrostSession]. *)

From Stdlib Require Import Ascii String Strings.Byte.
From stdpp Require Import base numbers countable gmap strings list.
From S2P Require Import Prelude Core TestKit Codec Secp SmallGroup LinearSystem Packages SignerPolicy Birkhoff HtssKeygen Certificates HtssDkg HtssSigning FrostSession Ceremony.

(** [schnorr_fun::Signature::from_bytes], which only the tests call.  A signature
    is a pair whose first component has an even y-coordinate. *)
Class SignatureDecode `{Secp} := {
  signature_from_bytes : bytes -> option (point * scalar);
}.

Class SignatureDecodeLaws `{SignatureDecode} : Prop := {
  signature_from_to_bytes (sig : point * scalar) :
    even_y sig.1 -> sig.1 <> point_zero ->
    signature_from_bytes (signature_to_bytes sig) = Some sig;
  schnorr_sign_even kp m : even_y (schnorr_sign kp m).1 /\ (schnorr_sign kp m).1 <> point_zero;
}.

(** ** What the tests share *)

Section helpers.

Definition pid (value : N) : Result ParticipantId := unwrap (ParticipantId_new value).

(** [vec![pid(1), pid(2), ..]] *)
Definition pids (values : list N) : Result (list ParticipantId) := mapM pid values.

Definition array (value : N) : bytes := replicate 32 (byte_of_N value).

Definition participants_of (l : list (N * N * string)) : Result (list RankedParticipant) :=
  mapM (fun '(id, rank, label) => unwrap (RankedParticipant_new id rank (Some label))) l.

Definition htss_config : Result HierarchicalThresholdConfig :=
  participants ← participants_of
    [(1, 0, "ceo"); (2, 1, "cfo"); (3, 1, "finance"); (4, 2, "operator-a"); (5, 2, "operator-b")]%N;
  unwrap (HierarchicalThresholdConfig_new 3 participants).

(** [grouped_config_123_of_235()] of the test modules *)
Definition test_grouped_config_123_of_235 : Result GroupedThresholdConfig :=
  participants ← participants_of
    [(1, 0, "c-level-a"); (2, 0, "c-level-b"); (3, 1, "manager-a"); (4, 1, "manager-b");
     (5, 1, "manager-c"); (6, 2, "operator-a"); (7, 2, "operator-b"); (8, 2, "operator-c");
     (9, 2, "operator-d"); (10, 2, "operator-e")]%N;
  requirements ← mapM (fun '(rank, required, total) =>
                         unwrap (GroupThresholdRequirement_new rank required total))
                   [(0, 1, 2); (1, 2, 3); (2, 3, 5)]%N;
  unwrap (GroupedThresholdConfig_new participants requirements).

(** The three-participant policy that two of the tests write out. *)
Definition two_of_three_config : Result HierarchicalThresholdConfig :=
  participants ← participants_of [(1, 0, "admin"); (2, 1, "operator"); (3, 1, "operator")]%N;
  unwrap (HierarchicalThresholdConfig_new 2 participants).

(** The policy of the resharing tests. *)
Definition reshare_config : Result HierarchicalThresholdConfig :=
  participants ← participants_of
    [(1, 0, "ceo"); (2, 1, "cfo"); (3, 1, "finance"); (4, 2, "operator-a"); (5, 2, "operator-b");
     (6, 2, "operator-c")]%N;
  unwrap (HierarchicalThresholdConfig_new 3 participants).
End helpers.

(** ** Policies *)

Section policies.

Definition signer_set_requires_threshold : Result unit :=
  threshold ← unwrap (ThresholdConfig_new 2 3);
  one ← pids [1]%N;
  assert (is_err (validate_signer_set one threshold));;
  two ← pids [1; 2]%N;
  assert (is_ok (validate_signer_set two threshold)).

Definition signer_set_rejects_duplicates_and_out_of_range : Result unit :=
  threshold ← unwrap (ThresholdConfig_new 2 3);
  duplicates ← pids [1; 1]%N;
  err ← unwrap_err (validate_signer_set duplicates threshold);
  assert_eq err (DuplicateParticipantId 1);;
  out_of_range ← pids [1; 4]%N;
  err ← unwrap_err (validate_signer_set out_of_range threshold);
  assert_eq err (ParticipantOutOfRange 4 3).

Definition hierarchical_signer_set_accepts_rank_valid_sets : Result unit :=
  config ← htss_config;
  first ← pids [1; 2; 3]%N;
  assert (is_ok (validate_hierarchical_signer_set first config));;
  second ← pids [1; 2; 4]%N;
  assert (is_ok (validate_hierarchical_signer_set second config)).

Definition hierarchical_signer_set_rejects_missing_high_authority : Result unit :=
  config ← htss_config;
  signers ← pids [2; 4; 5]%N;
  err ← unwrap_err (validate_hierarchical_signer_set signers config);
  assert (text_contains "Birkhoff rank rule" (DkgKitError_to_string err)).

Definition grouped_threshold_signer_set_accepts_123_of_235 : Result unit :=
  config ← test_grouped_config_123_of_235;
  signers ← pids [1; 3; 4; 6; 7; 8]%N;
  assert (is_ok (validate_grouped_threshold_signer_set signers config)).

Definition grouped_threshold_signer_set_rejects_short_group_despite_enough_total_signers :
  Result unit :=
  config ← test_grouped_config_123_of_235;
  signers ← pids [1; 3; 6; 7; 8; 9]%N;
  err ← unwrap_err (validate_grouped_threshold_signer_set signers config);
  assert (text_contains "rank 1 needs 2" (DkgKitError_to_string err)).

Definition signing_request_can_validate_against_grouped_policy : Result unit :=
  let group_key := mkGroupKey (array 1) [x01; x02; x03] in
  config ← test_grouped_config_123_of_235;
  let policy := Grouped config in
  session ← unwrap (SessionId_new "grouped-demo");
  signers ← pids [1; 3; 4; 6; 7; 8]%N;
  assert (is_ok (SigningRequest_new_with_policy session group_key (array 4) signers policy));;
  session ← unwrap (SessionId_new "grouped-demo-reject");
  signers ← pids [1; 3; 6; 7; 8; 9]%N;
  assert (is_err (SigningRequest_new_with_policy session group_key (array 4) signers policy)).

Definition grouped_signing_request_carries_grouped_config : Result unit :=
  let group_key := mkGroupKey (array 1) [x01; x02; x03] in
  config ← test_grouped_config_123_of_235;
  session ← unwrap (SessionId_new "grouped-request-demo");
  signers ← pids [1; 3; 4; 6; 7; 8]%N;
  request ← unwrap (GroupedSigningRequest_new session group_key (array 5) signers config);
  assert_eq (length (sr_signer_set (gsr_request request))) 6;;
  required ← GroupedThresholdConfig_required_signer_count (gsr_config request);
  assert_eq required 6%N.

Definition policy_tests : list (Result unit) :=
  [signer_set_requires_threshold;
   signer_set_rejects_duplicates_and_out_of_range;
   hierarchical_signer_set_accepts_rank_valid_sets;
   hierarchical_signer_set_rejects_missing_high_authority;
   grouped_threshold_signer_set_accepts_123_of_235;
   grouped_threshold_signer_set_rejects_short_group_despite_enough_total_signers;
   signing_request_can_validate_against_grouped_policy;
   grouped_signing_request_carries_grouped_config].

(** The tests of the policies pass. *)
Theorem policy_tests_pass : Forall passes policy_tests.
Proof. repeat constructor; apply passes_is_ok; vm_compute; reflexivity. Qed.
End policies.

(** ** Interpolation *)

Section interpolation.
Context `{Secp}.

(** Scalars compare by their bytes, which determine them. *)
Definition scalar_eqb (a b : scalar) : bool :=
  bool_decide (scalar_to_bytes a = scalar_to_bytes b).

Definition coefficient_scalar (coefficient : BirkhoffCoefficient) : Result scalar :=
  expect (scalar_from_bytes (bc_coefficient_bytes coefficient)).

Definition reconstruct_f0 (points : list BirkhoffPoint)
    (interpolation_coefficients : list BirkhoffCoefficient)
    (polynomial_coefficients : list scalar) : Result scalar :=
  foldlM (fun acc '(point, interpolation_coefficient) =>
            coefficient ← coefficient_scalar interpolation_coefficient;
            value ← polynomial_derivative_value polynomial_coefficients (bp_x point)
                      (bp_derivative_order point);
            Ok (scalar_add acc (scalar_mul coefficient value)))
    scalar_zero (zip points interpolation_coefficients).

Definition points_of (l : list (N * N)) : Result (list BirkhoffPoint) :=
  mapM (fun '(x, order) => id ← pid x; unwrap (BirkhoffPoint_new id x order)) l.

(** The body of the two reconstruction tests. *)
Definition interpolates (l : list (N * N)) (coefficients : list N) : Result unit :=
  points ← points_of l;
  interpolation_coefficients ← unwrap (birkhoff_interpolation_coefficients points);
  let polynomial_coefficients := scalar_from_u32 <$> coefficients in
  value ← reconstruct_f0 points interpolation_coefficients polynomial_coefficients;
  first ← index polynomial_coefficients 0;
  assert (scalar_eqb value first).

Definition birkhoff_coefficients_match_standard_lagrange_for_rank_zero_points : Result unit :=
  interpolates [(1, 0); (2, 0)]%N [5; 7]%N.

Definition birkhoff_coefficients_reconstruct_ranked_derivative_system : Result unit :=
  interpolates [(1, 0); (2, 1); (3, 1)]%N [11; 5; 2]%N.

Definition birkhoff_coefficients_reject_singular_low_authority_system : Result unit :=
  points ← points_of [(1, 1); (2, 1); (3, 2)]%N;
  err ← unwrap_err (birkhoff_interpolation_coefficients points);
  assert (text_contains "singular Birkhoff" (DkgKitError_to_string err)).

Definition interpolation_tests : list (Result unit) :=
  [birkhoff_coefficients_match_standard_lagrange_for_rank_zero_points;
   birkhoff_coefficients_reconstruct_ranked_derivative_system;
   birkhoff_coefficients_reject_singular_low_authority_system].
End interpolation.

Section interpolation_passes.
Context `{SecpLaws}.
Local Open Scope secp_scope.
Add Field scalar_field_tests : scalar_ft.

Lemma coefficient_scalar_of p c : coefficient_scalar (coefficient_of p c) = Ok c.
Proof. unfold coefficient_scalar. cbn. by rewrite scalar_from_to_bytes. Qed.

Lemma reconstruct_f0_loop f pts cs : forall acc,
  (N.of_nat (length f) <= u16_max)%N -> length cs = length pts ->
  foldlM (fun acc '(point, interpolation_coefficient) =>
            coefficient ← coefficient_scalar interpolation_coefficient;
            value ← polynomial_derivative_value f (bp_x point) (bp_derivative_order point);
            Ok (scalar_add acc (scalar_mul coefficient value)))
    acc (zip pts (zip_with coefficient_of pts cs)) =
  Ok (acc + lsum (zip_with scalar_mul cs (point_value f <$> pts))).
Proof.
  revert cs; induction pts as [|p pts IH]; intros [|c cs] acc Hf Hl; try done.
  - cbn. f_equal. ring.
  - injection Hl as Hl. cbn [zip zip_with foldlM].
    rewrite coefficient_scalar_of, ok_bind, polynomial_derivative_value_spec, !ok_bind, IH by done.
    rewrite fmap_cons. cbn [zip_with lsum foldr]. f_equal.
    fold (lsum (zip_with scalar_mul cs (point_value f <$> pts))). unfold point_value. ring.
Qed.

(** A certified point set interpolates every polynomial of its degree. *)
Lemma interpolates_passes l coefficients pts rows :
  points_of l = Ok pts -> certificate_check pts rows = true ->
  coefficients <> [] -> (length coefficients <= length pts)%nat ->
  passes (interpolates l coefficients).
Proof.
  intros Hp Hc Hne Hlen. unfold interpolates. rewrite Hp, ok_bind.
  assert (Hm : fits_u16 pts).
  { unfold certificate_check in Hc. rewrite !andb_true_iff in Hc.
    by destruct Hc as [[_ Hm%N.leb_le] _]. }
  assert (Hpts : pts <> []) by (intros ->; destruct coefficients; [done|simpl in Hlen; lia]).
  destruct (birkhoff_coefficients_regular pts Hpts Hm (certificate_regular pts rows Hc))
    as (cs & Ho & Hl & Hr).
  rewrite Ho. cbn [unwrap]. rewrite ok_bind. cbv zeta. unfold reconstruct_f0.
  unfold fits_u16 in Hm.
  rewrite reconstruct_f0_loop by (rewrite ?length_fmap; done || lia).
  rewrite ok_bind, Hr by (by rewrite length_fmap). destruct coefficients as [|c coefficients]; [done|].
  cbn. unfold scalar_eqb. rewrite bool_decide_eq_true_2; [by eexists|]. f_equal. ring.
Qed.

(** Conditions on derivatives alone leave the constant term free. *)
Lemma derivatives_singular pts :
  pts <> [] -> (forall p, p ∈ pts -> (1 <= bp_derivative_order p)%N) ->
  ~ regular (length pts) (interpolation pts).
Proof.
  intros Hne Hp Hreg. apply scalar_one_neq_zero.
  assert (Hn : (0 < length pts)%nat) by (destruct pts; [done|simpl; lia]).
  specialize (Hreg (unit_row 0)). unfold unit_row in Hreg at 2.
  rewrite <- (Hreg ltac:(intros i Hi; change (dot (length pts) (interpolation pts i) (unit_row 0) = scalar_zero);
    rewrite dot_comm, dot_unit_row by done; unfold interpolation;
    destruct (pts !! i) as [p|] eqn:E; [|done];
    apply basis_value_high; specialize (Hp p ltac:(by eapply list_elem_of_lookup_2)); lia) 0%nat Hn).
  by rewrite decide_True.
Qed.

(** The interpolation tests pass over every lawful group. *)
Theorem interpolation_tests_pass : Forall passes interpolation_tests.
Proof.
  repeat constructor.
  - eapply (interpolates_passes _ _ _ [(1%N, [2; -1]%Z); (1%N, [-1; 1]%Z)]);
      [vm_compute; reflexivity..|discriminate|cbn; lia].
  - eapply (interpolates_passes _ _ _
      [(2%N, [2; -5; 3]%Z); (1%N, [0; 3; -2]%Z); (2%N, [0; -1; 1]%Z)]);
      [vm_compute; reflexivity..|discriminate|cbn; lia].
  - unfold birkhoff_coefficients_reject_singular_low_authority_system.
    destruct (points_of [(1, 1); (2, 1); (3, 2)]%N) as [pts| |] eqn:E; vm_compute in E;
      [|discriminate E..]. injection E as <-.
    rewrite ok_bind, birkhoff_coefficients_singular; [by eexists|discriminate|by cbn|].
    apply derivatives_singular; [discriminate|]. intros p Hp.
    repeat (apply elem_of_cons in Hp as [->|Hp]; [by cbn|]). by apply not_elem_of_nil in Hp.
Qed.
End interpolation_passes.
