(* ===== verification/FrostRunTests.v ===== *)
(** The unit tests of [crates/dkgkit-frost/src/lib.rs] that deal, reshare and sign
    hierarchical shares.

    They thread the generator.  The tests of dealing, reshare and reconstruction
    pass over every lawful group and for every state of the generator; those that
    draw nonces are run on the small group.  One of them asks more of the generator
    than that it is one: see [parity_test_depends_on_generator]. *)

From Stdlib Require Import Ascii String Strings.Byte.
From stdpp Require Import base numbers countable gmap strings list.
From S2P Require Import Prelude Core TestKit Codec Secp SmallGroup Packages SignerPolicy Birkhoff HtssKeygen Certificates HtssDkg HtssSigning FrostTests.

(** ** Dealing and resharing *)

Section dealing.
Context `{SignatureDecode}.

Definition decode_signature (signature : AggregateSignature) : Result (point * scalar) :=
  assert (length (as_signature_bytes signature) =? 64)%nat;;
  expect (signature_from_bytes (as_signature_bytes signature)).

(** The end of the signing tests: decode the signature and the key and verify. *)
Definition assert_signed (xonly digest : bytes) (signature : AggregateSignature) : Result unit :=
  signature ← decode_signature signature;
  public_key ← expect (point_from_xonly_bytes xonly);
  assert (schnorr_verify public_key (frost_message digest) signature).

Definition local_htss_keygen_reconstructs_secret_for_valid_rank_set : ST rng DkgKitError unit :=
  config ← st_lift htss_config;
  keyset ← st_unwrap (run_local_htss_keygen config);
  signer_set ← st_lift (pids [1; 2; 4]%N);
  secret_bytes ← st_lift (unwrap (reconstruct_htss_secret_scalar (hkset_shares keyset)
                                    signer_set config));
  secret ← st_lift (expect (scalar_from_bytes secret_bytes));
  secret ← st_lift (expect (scalar_non_zero secret));
  let keypair := schnorr_new_keypair secret in
  st_lift (assert_eq (point_to_xonly_bytes keypair.2)
             (gk_xonly_public_key (hkset_group_key keyset))).

Definition local_htss_reconstruction_rejects_invalid_rank_set : ST rng DkgKitError unit :=
  config ← st_lift htss_config;
  keyset ← st_unwrap (run_local_htss_keygen config);
  signer_set ← st_lift (pids [2; 4; 5]%N);
  err ← st_lift (unwrap_err (reconstruct_htss_secret_scalar (hkset_shares keyset) signer_set config));
  st_lift (assert (text_contains "Birkhoff rank rule" (DkgKitError_to_string err))).

Definition local_htss_shares_sign_digest_that_verifies_against_group_key :
  ST rng DkgKitError unit :=
  config ← st_lift htss_config;
  keyset ← st_unwrap (run_local_htss_keygen config);
  let digest := array 12 in
  signer_set ← st_lift (pids [1; 2; 4]%N);
  signature ← st_lift (unwrap (sign_digest_with_local_htss_shares (hkset_group_key keyset) digest
                                 (hkset_shares keyset) signer_set config));
  st_lift (assert_signed (gk_xonly_public_key (hkset_group_key keyset)) digest signature).

Definition reshare_to_added_signer_preserves_group_key_and_signs : ST rng DkgKitError unit :=
  old_config ← st_lift htss_config;
  keyset ← st_unwrap (run_local_htss_keygen old_config);
  new_config ← st_lift reshare_config;
  reconstruct_set ← st_lift (pids [1; 2; 4]%N);
  resharded ← st_unwrap (reshare_htss keyset old_config reconstruct_set new_config);
  st_lift (assert_eq (gk_xonly_public_key (hkset_group_key resharded))
             (gk_xonly_public_key (hkset_group_key keyset)));;
  st_lift (assert_eq (length (hkset_shares resharded)) 6);;
  let digest := array 7 in
  signer_set ← st_lift (pids [1; 2; 4]%N);
  signature ← st_lift (unwrap (sign_digest_with_local_htss_shares (hkset_group_key resharded)
                                 digest (hkset_shares resharded) signer_set new_config));
  st_lift (assert_signed (gk_xonly_public_key (hkset_group_key resharded)) digest signature).

Definition reshare_keeps_the_secret_constant : ST rng DkgKitError unit :=
  old_config ← st_lift htss_config;
  keyset ← st_unwrap (run_local_htss_keygen old_config);
  new_config ← st_lift reshare_config;
  signer_set ← st_lift (pids [1; 2; 4]%N);
  resharded ← st_unwrap (reshare_htss keyset old_config signer_set new_config);
  before ← st_lift (unwrap (reconstruct_htss_secret_scalar (hkset_shares keyset) signer_set
                              old_config));
  after ← st_lift (unwrap (reconstruct_htss_secret_scalar (hkset_shares resharded) signer_set
                             new_config));
  st_lift (assert_eq before after).

Definition reshare_rejects_invalid_reconstruct_set : ST rng DkgKitError unit :=
  config ← st_lift htss_config;
  keyset ← st_unwrap (run_local_htss_keygen config);
  signer_set ← st_lift (pids [2; 4; 5]%N);
  err ← st_unwrap_err (reshare_htss keyset config signer_set config);
  st_lift (assert (negb (bool_decide (DkgKitError_to_string err = "")))).

Definition dealing_tests : list (ST rng DkgKitError unit) :=
  [local_htss_keygen_reconstructs_secret_for_valid_rank_set;
   local_htss_reconstruction_rejects_invalid_rank_set;
   local_htss_shares_sign_digest_that_verifies_against_group_key;
   reshare_to_added_signer_preserves_group_key_and_signs;
   reshare_keeps_the_secret_constant;
   reshare_rejects_invalid_reconstruct_set].
End dealing.

Section dealing_passes.
Context `{SignatureDecodeLaws} `{!SecpLaws}.
Local Open Scope secp_scope.

Local Abbreviation signers_124 := (mkParticipantId <$> [1; 2; 4]%N).
Local Abbreviation signers_245 := (mkParticipantId <$> [2; 4; 5]%N).

Lemma pids_124 : pids [1; 2; 4]%N = Ok signers_124.
Proof. reflexivity. Qed.

Lemma pids_245 : pids [2; 4; 5]%N = Ok signers_245.
Proof. reflexivity. Qed.

(** The rows of a matrix that inverts, up to the leading numbers, the
    interpolation system of the ranks 0, 1 and 2 at the points 1, 2 and 4. *)
Definition certificate_124 : list (N * list Z) :=
  [(2%N, [2; -2; 3]%Z); (1%N, [0; 1; -2]%Z); (2%N, [0; 0; 1]%Z)].

(** Both policies of the tests, with what the proofs need of them. *)
Definition certified (config : Result HierarchicalThresholdConfig) : Prop :=
  exists c, config = Ok c /\ wf_hierarchical c /\ can_reconstruct c signers_124 /\
    exists what, birkhoff_points_from_hierarchical_signer_set signers_245 c = Err (Protocol what) /\
      text_contains "Birkhoff rank rule" (DkgKitError_to_string (Protocol what)) = true.

Lemma certified_config c pts what :
  HierarchicalThresholdConfig_new (htc_threshold c) (htc_participants c) = Ok c ->
  birkhoff_points_from_hierarchical_signer_set signers_124 c = Ok pts -> pts <> [] ->
  certificate_check pts certificate_124 = true ->
  birkhoff_points_from_hierarchical_signer_set signers_245 c = Err (Protocol what) ->
  text_contains "Birkhoff rank rule" (DkgKitError_to_string (Protocol what)) = true ->
  certified (Ok c).
Proof.
  intros Hnew%hierarchical_new_wf Hp Hne Hc Hr Ht. exists c.
  split_and!; [done|done|by eapply certified_can_reconstruct|by eauto].
Qed.

Lemma htss_config_certified : certified htss_config.
Proof.
  destruct htss_config as [c| |] eqn:E; vm_compute in E; [|discriminate E..]. injection E as <-.
  eapply certified_config; first [vm_compute; reflexivity | discriminate].
Qed.

Lemma reshare_config_certified : certified reshare_config.
Proof.
  destruct reshare_config as [c| |] eqn:E; vm_compute in E; [|discriminate E..]. injection E as <-.
  eapply certified_config; first [vm_compute; reflexivity | discriminate].
Qed.

(** A group key has one secret key. *)
Lemma secret_key_unique sk sk' xonly :
  secret_key_of sk xonly -> secret_key_of sk' xonly -> sk = sk'.
Proof.
  intros Hsk%group_key_decodes Hsk'%group_key_decodes. apply scale_G_inj. congruence.
Qed.

Lemma signed_passes ks c signers digest (g : rng) :
  wf_hierarchical c -> valid_key_set c ks -> can_reconstruct c signers ->
  st_passes (signature ← st_lift (unwrap (sign_digest_with_local_htss_shares (hkset_group_key ks)
                                            digest (hkset_shares ks) signers c));
             st_lift (assert_signed (gk_xonly_public_key (hkset_group_key ks)) digest signature)
             : ST rng DkgKitError unit) g.
Proof.
  intros Hwf Hks Hcan.
  destruct (local_sign_value c ks signers digest Hwf Hks Hcan) as (sk & Hsk & ->).
  eapply st_passes_lift; [reflexivity|]. unfold assert_signed, decode_signature.
  pose proof (schnorr_sign_even (sk, sk · point_G) (frost_message digest)) as [He Hne].
  pose proof (new_keypair_idempotent _ _ Hsk) as Hkp.
  pose proof (schnorr_sign_verifies sk (frost_message digest) (proj1 Hsk)) as Hv.
  rewrite Hkp in Hv. cbn [snd] in Hv.
  destruct (schnorr_sign (sk, sk · point_G) (frost_message digest)) as [R s] eqn:E.
  apply st_passes_last. cbn [as_signature_bytes]. rewrite signature_to_bytes_length.
  cbn [Nat.eqb assert]. rewrite ok_bind.
  rewrite signature_from_to_bytes by done. cbn [expect].
  rewrite (group_key_decodes sk) by done. cbn. rewrite Hv. by eexists.
Qed.

(** The signer set a test writes out. *)
Ltac pick_signers := eapply st_passes_lift; [first [exact pids_124|exact pids_245]|].

(** The tests of dealing, reshare and reconstruction pass, whatever the group and
    the generator. *)
Theorem dealing_tests_pass g : Forall (fun test => st_passes test g) dealing_tests.
Proof.
  destruct htss_config_certified as (c & Hc & Hwf & Hcan & what & Hrej & Htext).
  destruct reshare_config_certified as (c' & Hc' & Hwf' & Hcan' & _).
  assert (Hsize : length (htc_participants c') = 6).
  { vm_compute in Hc'. by injection Hc' as <-. }
  destruct (keygen_valid c g Hwf) as (g' & ks & Hgen & Hks).
  destruct (reconstruct_valid c ks _ Hwf Hks Hcan) as (sk & Hrec & Hsk).
  pose proof (new_keypair_idempotent _ _ Hsk) as Hkp.
  destruct (reshare_valid ks c _ c' g' Hwf Hwf' Hks Hcan) as (g2 & new & Hre).
  destruct (reshare_Ok ks c _ c' g' g2 new Hwf' Hre) as [Hgk Hnew].
  assert (Hnz : scalar_non_zero sk = Some sk)
    by (unfold scalar_non_zero; by rewrite (proj2 (scalar_is_zero_false sk) (proj1 Hsk))).
  repeat constructor.
  all: try (eapply st_passes_lift; [exact Hc|]).
  all: try (eapply st_passes_bind; [apply st_unwrap_Ok, Hgen|]).
  - unfold local_htss_keygen_reconstructs_secret_for_valid_rank_set.
    pick_signers.
    eapply st_passes_lift; [rewrite Hrec; reflexivity|].
    eapply st_passes_lift; [rewrite scalar_from_to_bytes; reflexivity|].
    eapply st_passes_lift; [rewrite Hnz; reflexivity|]. rewrite Hkp.
    apply passes_assert_eq. symmetry. apply Hsk.
  - pick_signers.
    eapply st_passes_lift; [|apply passes_assert, Htext].
    unfold reconstruct_htss_secret_scalar. by rewrite Hrej.
  - pick_signers. by apply (signed_passes ks c).
  - eapply st_passes_lift; [exact Hc'|]. pick_signers.
    eapply st_passes_bind; [apply st_unwrap_Ok, Hre|].
    eapply st_passes_lift; [rewrite Hgk; by apply assert_eq_same|].
    eapply st_passes_lift.
    { destruct Hnew as (f & _ & _ & ->). rewrite length_fmap, Hsize. reflexivity. }
    pick_signers. by apply (signed_passes new c').
  - eapply st_passes_lift; [exact Hc'|]. pick_signers.
    eapply st_passes_bind; [apply st_unwrap_Ok, Hre|].
    eapply st_passes_lift; [rewrite Hrec; reflexivity|].
    destruct (reconstruct_valid c' new _ Hwf' Hnew Hcan') as (sk' & Hrec' & Hsk').
    eapply st_passes_lift; [rewrite Hrec'; reflexivity|].
    apply passes_assert_eq. f_equal. rewrite Hgk in Hsk'. by eapply secret_key_unique.
  - pick_signers.
    assert (Herr : reshare_htss ks c signers_245 c g' = (g', Err (Protocol what))).
    { unfold reshare_htss, reconstruct_htss_secret_scalar. by rewrite st_lift_bind, Hrej. }
    eapply st_passes_bind; [by apply st_unwrap_err_Err, Herr|].
    apply passes_assert. reflexivity.
Qed.
End dealing_passes.

(** ** Signing *)

Section signing.
Context `{SignatureDecode}.

Definition local_htss_threshold_shares_sign_without_reconstructing_secret :
  ST rng DkgKitError unit :=
  config ← st_lift htss_config;
  keyset ← st_unwrap (run_local_htss_keygen config);
  let digest := array 14 in
  signer_set ← st_lift (pids [1; 2; 4]%N);
  signature ← st_unwrap (sign_digest_with_local_htss_threshold_shares (hkset_group_key keyset)
                           digest (hkset_shares keyset) signer_set config);
  st_lift (assert_signed (gk_xonly_public_key (hkset_group_key keyset)) digest signature).

Definition distributed_htss_dkg_derives_derivative_shares_that_sign : ST rng DkgKitError unit :=
  config ← st_lift htss_config;
  keyset ← st_unwrap (run_distributed_htss_keygen config);
  signer_set ← st_lift (pids [1; 2; 4]%N);
  let digest := array 24 in
  signature ← st_unwrap (sign_digest_with_local_htss_threshold_shares (hkset_group_key keyset)
                           digest (hkset_shares keyset) signer_set config);
  st_lift (assert_signed (gk_xonly_public_key (hkset_group_key keyset)) digest signature).

(** [round2_for_one[0].share_value_bytes = ..] *)
Definition tamper (round2 : list HtssDkgRound2Package) : Result (list HtssDkgRound2Package) :=
  first ← index round2 0;
  value ← expect (scalar_from_bytes (h2_share_value_bytes first));
  Ok (<[0 := mkHtssDkgRound2Package (h2_sender first) (h2_recipient first)
               (h2_recipient_rank first) (scalar_to_bytes (scalar_add value scalar_one))]> round2).

Definition distributed_htss_dkg_rejects_tampered_derivative_share : ST rng DkgKitError unit :=
  config ← st_lift htss_config;
  states ← st_unwrap (mapM (fun participant => htss_dkg_round1 (rp_id participant) config)
                        (htc_participants config));
  let round1_packages := h1s_package <$> states in
  round2 ← st_lift (unwrap (mapM (fun state => htss_dkg_round2 state round1_packages config) states));
  one ← st_lift (pid 1);
  round2_for_one ← st_lift (tamper (filter (fun package => h2_recipient package = one) (concat round2)));
  err ← st_lift (unwrap_err (finalize_htss_dkg one round1_packages round2_for_one config));
  st_lift (assert (text_contains "failed commitment verification" (DkgKitError_to_string err))).

Definition local_htss_nonce_share_and_aggregate_flow_verifies : ST rng DkgKitError unit :=
  config ← st_lift htss_config;
  keyset ← st_unwrap (run_local_htss_keygen config);
  signer_set ← st_lift (pids [1; 2; 4]%N);
  let digest := array 15 in
  signing_session_id ← st_lift (unwrap (SessionId_new "htss-share-flow"));
  selected_shares ← st_lift (mapM (fun participant_id =>
      expect (List.find (fun share => bool_decide (hks_participant_id share = participant_id))
                (hkset_shares keyset))) signer_set);
  nonces ← mapM (fun share => st_unwrap (htss_nonce signing_session_id share)) selected_shares;
  let public_nonces := hln_package <$> nonces in
  shares ← st_lift (mapM (fun '(share, nonce) =>
      unwrap (htss_sign_share (hkset_group_key keyset) digest share nonce public_nonces signer_set
                config)) (zip selected_shares nonces));
  signature ← st_lift (unwrap (aggregate_htss_signature_shares (hkset_group_key keyset) digest
                                 public_nonces shares signer_set config));
  st_lift (assert_eq (length (as_signature_bytes signature)) 64).

Definition local_grouped_htss_threshold_shares_sign_valid_123_of_235 : ST rng DkgKitError unit :=
  config ← st_lift test_grouped_config_123_of_235;
  keyset ← st_unwrap (run_local_grouped_htss_keygen config);
  signer_set ← st_lift (pids [1; 3; 4; 6; 7; 8]%N);
  let digest := array 17 in
  signature ← st_unwrap (sign_digest_with_local_grouped_htss_threshold_shares
                           (hkset_group_key keyset) digest (hkset_shares keyset) signer_set config);
  st_lift (assert_signed (gk_xonly_public_key (hkset_group_key keyset)) digest signature).

Definition local_grouped_htss_rejects_short_group_before_signing : ST rng DkgKitError unit :=
  config ← st_lift test_grouped_config_123_of_235;
  keyset ← st_unwrap (run_local_grouped_htss_keygen config);
  signer_set ← st_lift (pids [1; 3; 6; 7; 8; 9]%N);
  err ← st_unwrap_err (sign_digest_with_local_grouped_htss_threshold_shares
                         (hkset_group_key keyset) (array 18) (hkset_shares keyset) signer_set config);
  st_lift (assert (text_contains "rank 1 needs 2" (DkgKitError_to_string err))).

Definition signing_tests : list (ST rng DkgKitError unit) :=
  [local_htss_threshold_shares_sign_without_reconstructing_secret;
   distributed_htss_dkg_derives_derivative_shares_that_sign;
   distributed_htss_dkg_rejects_tampered_derivative_share;
   local_htss_nonce_share_and_aggregate_flow_verifies;
   local_grouped_htss_threshold_shares_sign_valid_123_of_235;
   local_grouped_htss_rejects_short_group_before_signing].

(** ** The test of both output-key parities *)

(** One turn of the loop: the parities seen so far, before and after. *)
Definition tweak_step (config : GroupedThresholdConfig) (keyset : HtssLocalKeySet)
    (signer_set : list ParticipantId) (digest : bytes) (group_point : point)
    (saw : bool * bool) (raw : N) : ST rng DkgKitError (bool * bool) :=
  let '(saw_even, saw_odd) := saw in
  let t := scalar_from_u32 raw in
  q ← st_lift (expect (point_non_zero (point_add group_point (point_scale t point_G))));
  let '(q_even, was_odd) := point_into_even_y q in
  let negate_key := was_odd in
  let tweak := scalar_conditional_negate was_odd (scalar_from_u32 raw) in
  let output_xonly := point_to_xonly_bytes q_even in
  signature ← st_unwrap (sign_digest_with_local_grouped_htss_threshold_shares_for_output
                           (hkset_group_key keyset) digest output_xonly (scalar_to_bytes tweak)
                           negate_key (hkset_shares keyset) signer_set config);
  signature ← st_lift (decode_signature signature);
  st_lift (assert (schnorr_verify q_even (frost_message digest) signature));;
  mret (if was_odd then (saw_even, true) else (true, saw_odd)).

(** The test up to its last assertion. *)
Definition output_key_parities : ST rng DkgKitError (bool * bool) :=
  config ← st_lift test_grouped_config_123_of_235;
  keyset ← st_unwrap (run_local_grouped_htss_keygen config);
  signer_set ← st_lift (pids [1; 3; 4; 6; 7; 8]%N);
  let digest := array 29 in
  group_point ← st_lift (expect (point_from_xonly_bytes
                                   (gk_xonly_public_key (hkset_group_key keyset))));
  st_foldlM (tweak_step config keyset signer_set digest group_point)
    (false, false) [1; 2; 3; 4; 5; 6; 7; 8]%N.

Definition tweaked_output_key_signature_verifies_both_parities : ST rng DkgKitError unit :=
  '(saw_even, saw_odd) ← output_key_parities;
  st_lift (assert (saw_even && saw_odd)).
End signing.

(** ** The small group *)

Definition small_signatures : @SignatureDecode small_group := {|
  signature_from_bytes bs :=
    match p_from_xonly (take 32 bs), f_from_bytes (drop 32 bs) with
    | Some R, Some s => Some (R : @point small_group, s : @scalar small_group)
    | _, _ => None
    end;
|}.

Section runs.
Local Existing Instances small_group small_group_laws small_signatures.

Lemma small_sign_R kp m : (schnorr_sign kp m).1 = point_G.
Proof. reflexivity. Qed.

Lemma small_signature_to_bytes R s :
  signature_to_bytes (R, s) = point_to_xonly_bytes R ++ scalar_to_bytes s.
Proof. reflexivity. Qed.

Lemma small_signature_from_bytes bs :
  signature_from_bytes bs =
  match point_from_xonly_bytes (take 32 bs), scalar_from_bytes (drop 32 bs) with
  | Some R, Some s => Some (R, s)
  | _, _ => None
  end.
Proof. reflexivity. Qed.

Lemma small_even_G : even_y point_G.
Proof. vm_compute. reflexivity. Qed.

Lemma small_signatures_laws : SignatureDecodeLaws.
Proof.
  split.
  - intros [R s]. cbn [fst]. intros He Hne.
    rewrite small_signature_to_bytes, small_signature_from_bytes.
    rewrite take_app_length', drop_app_length' by (symmetry; apply point_to_xonly_length).
    by rewrite point_xonly_even, scalar_from_to_bytes.
  - intros kp m. rewrite small_sign_R. split; [apply small_even_G|].
    rewrite <- (scale_one_l point_G). apply scale_G_nonzero, scalar_one_neq_zero.
Qed.

(** The generator state with which the tests run. *)
Definition test_rng : rng := 7%Z.

(** The tests of threshold signing and of the distributed key generation pass. *)
Theorem signing_tests_pass : Forall (fun test => st_passes test test_rng) signing_tests.
Proof. repeat constructor; apply passes_is_ok; vm_compute; reflexivity. Qed.

(** The parity test relies on its draw.  It tries the tweaks 1 to 8 of a random
    group key and fails when all eight output keys, or none of them, have an odd
    y-coordinate: every signature it makes verifies, but its last assertion holds
    for one state of the generator and not for another. *)
Theorem parity_test_depends_on_generator :
  st_passes tweaked_output_key_signature_verifies_both_parities 2147483650%Z /\
  (output_key_parities test_rng).2 = Ok (true, false) /\
  (tweaked_output_key_signature_verifies_both_parities test_rng).2 = Panic.
Proof. split; [apply passes_is_ok|split]; vm_compute; reflexivity. Qed.
End runs.
