(* ===== verification/FrostSessionTests.v ===== *)
(** The unit tests of [crates/dkgkit-frost/src/lib.rs] on protocol packages and on
    FROST sessions.

    The package tests pass for every serializer that keeps the laws of [SerdeJson];
    the session tests are run on the engine of [FrostSession]. *)

From Stdlib Require Import Ascii String Strings.Byte.
From stdpp Require Import base numbers countable gmap strings list.
From S2P Require Import Prelude Core TestKit Codec Secp SmallGroup Packages SignerPolicy Birkhoff FrostSession Ceremony FrostTests.

(** ** Packages *)

Section packages.
Context `{SerdeJson Round1Package, SerdeJson Round2Package, SerdeJson NoncePackage,
  SerdeJson SignatureSharePackage, SerdeJson HtssNoncePackage,
  SerdeJson HtssSignatureSharePackage}.

Definition round1_package_round_trips_through_protocol_message : Result unit :=
  session_id ← unwrap (SessionId_new "dkg-demo");
  one ← pid 1;
  let package := mkRound1Package one [x01; x02; x03] in
  message ← unwrap (Round1Package_to_protocol_message package session_id);
  assert_eq (pm_kind message) FrostDkgRound1;;
  decoded ← unwrap (Round1Package_from_protocol_message message);
  assert_eq decoded package.

Definition round2_package_round_trips_through_direct_protocol_message : Result unit :=
  session_id ← unwrap (SessionId_new "dkg-demo");
  one ← pid 1;
  two ← pid 2;
  let package := mkRound2Package one two [x04; x05; x06] in
  message ← unwrap (Round2Package_to_protocol_message package session_id);
  assert_eq (pm_kind message) FrostDkgRound2;;
  assert_eq (pm_recipient message) (Some two);;
  decoded ← unwrap (Round2Package_from_protocol_message message);
  assert_eq decoded package.

Definition package_decoder_rejects_wrong_kind : Result unit :=
  one ← pid 1;
  let package := mkRound1Package one [x01] in
  session_id ← unwrap (SessionId_new "dkg-demo");
  payload ← unwrap (encode_payload package);
  let message := ProtocolMessage_broadcast session_id one FrostSignatureShare payload in
  assert (is_err (Round1Package_from_protocol_message message)).

Definition signing_packages_round_trip_through_protocol_messages : Result unit :=
  one ← pid 1;
  session_id ← unwrap (SessionId_new "sign-demo");
  let nonce := mkNoncePackage one session_id [x07; x08] in
  nonce_message ← unwrap (NoncePackage_to_protocol_message nonce);
  decoded ← unwrap (NoncePackage_from_protocol_message nonce_message);
  assert_eq decoded nonce;;
  two ← pid 2;
  session_id ← unwrap (SessionId_new "sign-demo");
  let share := mkSignatureSharePackage two session_id [x07] [x09; x0a] in
  share_message ← unwrap (SignatureSharePackage_to_protocol_message share);
  decoded ← unwrap (SignatureSharePackage_from_protocol_message share_message);
  assert_eq decoded share.

Definition htss_signing_packages_round_trip_through_protocol_messages : Result unit :=
  one ← pid 1;
  session_id ← unwrap (SessionId_new "htss-sign-demo");
  let nonce := mkHtssNoncePackage one session_id (replicate 33 x02) in
  nonce_message ← unwrap (HtssNoncePackage_to_protocol_message nonce);
  assert_eq (pm_kind nonce_message) HtssSigningNonce;;
  decoded ← unwrap (HtssNoncePackage_from_protocol_message nonce_message);
  assert_eq decoded nonce;;
  two ← pid 2;
  session_id ← unwrap (SessionId_new "htss-sign-demo");
  let share := mkHtssSignatureSharePackage two session_id (replicate 32 x04) in
  share_message ← unwrap (HtssSignatureSharePackage_to_protocol_message share);
  assert_eq (pm_kind share_message) HtssSignatureShare;;
  decoded ← unwrap (HtssSignatureSharePackage_from_protocol_message share_message);
  assert_eq decoded share.

Definition package_tests : list (Result unit) :=
  [round1_package_round_trips_through_protocol_message;
   round2_package_round_trips_through_direct_protocol_message;
   package_decoder_rejects_wrong_kind;
   signing_packages_round_trip_through_protocol_messages;
   htss_signing_packages_round_trip_through_protocol_messages].
End packages.

Section packages_pass.
Context `{SerdeJsonLaws Round1Package, SerdeJsonLaws Round2Package, SerdeJsonLaws NoncePackage,
  SerdeJsonLaws SignatureSharePackage, SerdeJsonLaws HtssNoncePackage,
  SerdeJsonLaws HtssSignatureSharePackage}.

(** Run a test up to the serialization of [x], and past its deserialization. *)
Ltac through x :=
  let bs := fresh "bs" in let He := fresh "He" in let Hd := fresh "Hd" in
  destruct (encode_payload_total x) as (bs & He & Hd & _);
  lazy -[encode_payload decode_payload] in He, Hd |- *;
  rewrite He; lazy -[encode_payload decode_payload];
  try (rewrite Hd; lazy -[encode_payload decode_payload]).

(** The package tests pass, whatever the serializer. *)
Theorem package_tests_pass : Forall passes package_tests.
Proof.
  repeat constructor; unfold passes.
  - through (mkRound1Package (mkParticipantId 1) [x01; x02; x03]). by eexists.
  - through (mkRound2Package (mkParticipantId 1) (mkParticipantId 2) [x04; x05; x06]).
    by eexists.
  - through (mkRound1Package (mkParticipantId 1) [x01]). by eexists.
  - through (mkNoncePackage (mkParticipantId 1) (mkSessionId "sign-demo") [x07; x08]).
    through (mkSignatureSharePackage (mkParticipantId 2) (mkSessionId "sign-demo") [x07] [x09; x0a]).
    by eexists.
  - through (mkHtssNoncePackage (mkParticipantId 1) (mkSessionId "htss-sign-demo") (replicate 33 x02)).
    through (mkHtssSignatureSharePackage (mkParticipantId 2) (mkSessionId "htss-sign-demo")
               (replicate 32 x04)).
    by eexists.
Qed.
End packages_pass.

(** ** Sessions *)

Section sessions.
Context `{FrostLib}.
Context `{Bincode KeygenInput, !Bincode scalar, !Bincode EvenPairedShare, !Bincode EvenSharedKey,
          !Bincode Nonce, !Bincode (point * scalar)}.

Definition session (participant_id : N) : Result FrostDkgSession :=
  session_id ← unwrap (SessionId_new "dkg-demo");
  threshold ← unwrap (ThresholdConfig_new 2 3);
  participant_id ← pid participant_id;
  Ok (FrostDkgSession_new (mkDkgSessionConfig session_id threshold participant_id)).

Definition run_dkg : ST rng DkgKitError (list LocalKeyShare) :=
  sessions ← st_lift (mapM session [1; 2; 3]%N);
  round1 ← mapM (fun session => st_unwrap (session_round1 session)) sessions;
  round2 ← st_lift (mapM (fun session => unwrap (session_round2 round1.*2 session)) round1.*1);
  st_lift (mapM (fun session => unwrap (FrostDkgSession_finalize session (concat round2.*2)))
             round2.*1).

(** [shares[i].group_key.clone()] *)
Definition group_key_at (shares : list LocalKeyShare) (i : nat) : Result GroupKey :=
  lks_group_key <$> index shares i.

Definition signing_request_can_validate_against_hierarchical_policy : ST rng DkgKitError unit :=
  shares ← run_dkg;
  config ← st_lift two_of_three_config;
  let policy := Hierarchical config in
  session_id ← st_lift (unwrap (SessionId_new "sign-demo"));
  group_key ← st_lift (group_key_at shares 0);
  signers ← st_lift (pids [1; 2]%N);
  request ← st_lift (unwrap (SigningRequest_new_with_policy session_id group_key (array 2) signers
                               policy));
  st_lift (assert_eq (sr_signer_set request) signers);;
  session_id ← st_lift (unwrap (SessionId_new "sign-demo-2"));
  signers ← st_lift (pids [2; 3]%N);
  st_lift (assert (is_err (SigningRequest_new_with_policy session_id group_key (array 2) signers
                             policy))).

Definition hierarchical_signing_request_carries_birkhoff_coefficients : ST rng DkgKitError unit :=
  shares ← run_dkg;
  config ← st_lift two_of_three_config;
  session_id ← st_lift (unwrap (SessionId_new "htss-sign-demo"));
  group_key ← st_lift (group_key_at shares 0);
  signers ← st_lift (pids [1; 2]%N);
  request ← st_lift (unwrap (HierarchicalSigningRequest_new session_id group_key (array 3) signers
                               config));
  st_lift (assert_eq (sr_signer_set (hsr_request request)) signers);;
  st_lift (assert_eq (length (hsr_points request)) 2);;
  st_lift (assert_eq (length (hsr_coefficients request)) 2).

Definition signing_request_validates_signer_set : ST rng DkgKitError unit :=
  threshold ← st_lift (unwrap (ThresholdConfig_new 2 3));
  shares ← run_dkg;
  session_id ← st_lift (unwrap (SessionId_new "sign-demo"));
  group_key ← st_lift (group_key_at shares 0);
  signers ← st_lift (pids [1; 2]%N);
  request ← st_lift (unwrap (SigningRequest_new session_id group_key (array 1) signers threshold));
  st_lift (assert_eq (length (sr_signer_set request)) 2).

Definition frost_dkg_sessions_derive_same_group_key : ST rng DkgKitError unit :=
  local_shares ← run_dkg;
  st_lift (assert_eq (length local_shares) 3);;
  key_0 ← st_lift (group_key_at local_shares 0);
  key_1 ← st_lift (group_key_at local_shares 1);
  st_lift (assert_eq key_0 key_1);;
  key_2 ← st_lift (group_key_at local_shares 2);
  st_lift (assert_eq key_1 key_2);;
  st_lift (assert (forallb (fun share => negb (bool_decide (lks_secret_share_bytes share = [])))
                     local_shares)).

Definition frost_signing_sessions_aggregate_valid_signature : ST rng DkgKitError unit :=
  local_shares ← run_dkg;
  threshold ← st_lift (unwrap (ThresholdConfig_new 2 3));
  session_id ← st_lift (unwrap (SessionId_new "sign-demo"));
  group_key ← st_lift (group_key_at local_shares 0);
  signers ← st_lift (pids [1; 2]%N);
  request ← st_lift (unwrap (SigningRequest_new session_id group_key (array 42) signers threshold));
  share_1 ← st_lift (index local_shares 0);
  share_2 ← st_lift (index local_shares 1);
  '(signing_1, nonce_1) ← st_unwrap (session_nonce (FrostSigningSession_new request, share_1));
  '(signing_2, nonce_2) ← st_unwrap (session_nonce (FrostSigningSession_new request, share_2));
  let aggregator := FrostSigningSession_new request in
  let nonces := [nonce_1; nonce_2] in
  shares ← st_lift (mapM (fun signing => unwrap (session_sign_share nonces signing))
                      [signing_1; signing_2]);
  aggregate ← st_lift (unwrap (FrostSigningSession_aggregate aggregator shares));
  st_lift (assert (negb (bool_decide (as_signature_bytes aggregate = [])))).

Definition session_tests : list (ST rng DkgKitError unit) :=
  [signing_request_can_validate_against_hierarchical_policy;
   hierarchical_signing_request_carries_birkhoff_coefficients;
   signing_request_validates_signer_set;
   frost_dkg_sessions_derive_same_group_key;
   frost_signing_sessions_aggregate_valid_signature].
End sessions.

Section session_runs.
Local Existing Instances small_group small_group_laws unit_engine scalar_bincode digits_bincode
  pair_bincode.

(** The session tests pass on the small engine. *)
Theorem session_tests_pass :
  Forall (fun test => st_passes test 7%Z)
    (@session_tests small_group unit_engine engine_n_bincode scalar_bincode engine_n_bincode
       engine_n_bincode engine_n_bincode pair_bincode).
Proof. repeat constructor; apply passes_is_ok; vm_compute; reflexivity. Qed.
End session_runs.
