(* ===== verification/Nostr.v ===== *)
(** [crates/dkgkit-nostr/src/lib.rs]: the mapping between protocol messages and
    Nostr events, the in-process event transport, and the placeholder
    [NostrTransport].

    [LocalNostrEventTransport] discharges the contract [QueueTransport] for
    messages whose metadata is valid, so the coordinator's theorems apply to it;
    what happens with other messages is stated separately. *)

From Stdlib Require Import Ascii String Strings.Byte.
From stdpp Require Import base numbers countable gmap strings list.
From S2P Require Import Prelude Core Codec Transport.

Definition DKGKIT_NOSTR_EVENT_KIND : N := 30333.
Definition DKGKIT_NOSTR_APP_TAG : string := "dkgkit".

Record NostrEnvelopeEvent := mkNostrEnvelopeEvent {
  ne_kind : N;
  ne_app : string;
  ne_session_id : string;
  ne_sender : N;
  ne_recipient : option N;
  ne_message_kind : string;
  ne_content : string;
}.

(** The text of a [FromUtf8Error], which ends up inside an error value. *)
Class Utf8Error := utf8_error : bytes -> string.

Section envelope.
Context `{SerdeJson ProtocolMessage} `{Utf8Error}.

Definition NostrEnvelopeEvent_from_protocol_message (message : ProtocolMessage) :
  Result NostrEnvelopeEvent :=
  bs ← ProtocolMessage_encode_json message;
  content ← ok_or (from_utf8 bs) (Serialization (utf8_error bs));
  Ok (mkNostrEnvelopeEvent DKGKIT_NOSTR_EVENT_KIND DKGKIT_NOSTR_APP_TAG
        (sid_0 (pm_session_id message)) (pid_0 (pm_sender message))
        (pid_0 <$> pm_recipient message) (ProtocolMessageKind_as_str (pm_kind message)) content).

(** The [matches!] with its guard. *)
Definition is_blank_custom (kind : ProtocolMessageKind) : bool :=
  match kind with Custom value => blank value | _ => false end.

Definition NostrEnvelopeEvent_validate_metadata (self : NostrEnvelopeEvent) : Result unit :=
  reject_if (negb (ne_kind self =? DKGKIT_NOSTR_EVENT_KIND))%N
    (Protocol ("unexpected Nostr event kind: expected " +:+ dec DKGKIT_NOSTR_EVENT_KIND
               +:+ ", got " +:+ dec (ne_kind self)));;
  reject_if (bool_decide (ne_app self <> DKGKIT_NOSTR_APP_TAG))
    (Protocol ("unexpected Nostr app tag: expected " +:+ DKGKIT_NOSTR_APP_TAG
               +:+ ", got " +:+ ne_app self));;
  SessionId_new (ne_session_id self);;
  ParticipantId_new (ne_sender self);;
  match ne_recipient self with
  | Some recipient => ParticipantId_new recipient;; Ok tt
  | None => Ok tt
  end;;
  reject_if (is_blank_custom (ProtocolMessageKind_from (ne_message_kind self))) EmptyMessageKind.

Definition NostrEnvelopeEvent_to_protocol_message (self : NostrEnvelopeEvent) :
  Result ProtocolMessage :=
  NostrEnvelopeEvent_validate_metadata self;;
  message ← ProtocolMessage_decode_json (as_bytes (ne_content self));
  reject_if (bool_decide (sid_0 (pm_session_id message) <> ne_session_id self))
    (Protocol "Nostr event session tag does not match message content");;
  reject_if (bool_decide (pid_0 (pm_sender message) <> ne_sender self))
    (Protocol "Nostr event sender tag does not match message content");;
  reject_if (bool_decide (pid_0 <$> pm_recipient message <> ne_recipient self))
    (Protocol "Nostr event recipient tag does not match message content");;
  reject_if (bool_decide (ProtocolMessageKind_as_str (pm_kind message) <> ne_message_kind self))
    (Protocol "Nostr event kind tag does not match message content");;
  Ok message.

Definition NostrEnvelopeEvent_tags (self : NostrEnvelopeEvent) : list (list string) :=
  [["app"; ne_app self]; ["session"; ne_session_id self]; ["sender"; dec (ne_sender self)];
   ["message_kind"; ne_message_kind self]]
  ++ match ne_recipient self with
     | Some recipient => [["recipient"; dec recipient]]
     | None => []
     end.

(** ** The in-process event transport *)

Record LocalNostrEventTransport := mkLocalNostrEventTransport {
  lt_connected : bool;
  lt_events : list NostrEnvelopeEvent;
}.

Definition LocalNostrEventTransport_default : LocalNostrEventTransport :=
  mkLocalNostrEventTransport false [].

Definition LocalNostrEventTransport_pending_len (self : LocalNostrEventTransport) : nat :=
  length (lt_events self).

Definition LocalNostrEventTransport_connect : ST LocalNostrEventTransport DkgKitError unit :=
  fun self => (mkLocalNostrEventTransport true (lt_events self), Ok tt).

Definition LocalNostrEventTransport_disconnect : ST LocalNostrEventTransport DkgKitError unit :=
  fun self => (mkLocalNostrEventTransport false (lt_events self), Ok tt).

Definition LocalNostrEventTransport_publish (message : ProtocolMessage) :
  ST LocalNostrEventTransport DkgKitError unit :=
  fun self =>
    match NostrEnvelopeEvent_from_protocol_message message with
    | Ok event =>
        (mkLocalNostrEventTransport (lt_connected self) (lt_events self ++ [event]), Ok tt)
    | Err e => (self, Err e)
    | Panic => (self, Panic)
    end.

(** The loop over [self.events.drain(..)]: the events to keep and the messages
    drained, or the first error. *)
Fixpoint event_loop {P} (session_id : SessionId)
    (predicate : P -> ProtocolMessage -> bool * P) (p : P) (events : list NostrEnvelopeEvent) :
  P * Result (list NostrEnvelopeEvent * list ProtocolMessage) :=
  match events with
  | [] => (p, Ok ([], []))
  | event :: events =>
      match NostrEnvelopeEvent_to_protocol_message event with
      | Err e => (p, Err e)
      | Panic => (p, Panic)
      | Ok message =>
          let '(take, p) :=
            if decide (pm_session_id message = session_id) then predicate p message
            else (false, p) in
          let '(p, r) := event_loop session_id predicate p events in
          (p, (fun '(kept, drained) =>
                 if (take : bool) then (kept, message :: drained) else (event :: kept, drained)) <$> r)
      end
  end.

(** An early return drops the [Drain] iterator, which empties the vector. *)
Definition LocalNostrEventTransport_drain_matching {P} (session_id : SessionId)
    (predicate : P -> ProtocolMessage -> bool * P) :
  ST (LocalNostrEventTransport * P) DkgKitError (list ProtocolMessage) :=
  fun '(self, p) =>
    match event_loop session_id predicate p (lt_events self) with
    | (p, Ok (kept, drained)) =>
        ((mkLocalNostrEventTransport (lt_connected self) kept, p), Ok drained)
    | (p, Err e) => ((mkLocalNostrEventTransport (lt_connected self) [], p), Err e)
    | (p, Panic) => ((mkLocalNostrEventTransport (lt_connected self) [], p), Panic)
    end.

#[export] Instance local_nostr_transport : Transport LocalNostrEventTransport := {|
  connect := LocalNostrEventTransport_connect;
  disconnect := LocalNostrEventTransport_disconnect;
  publish := LocalNostrEventTransport_publish;
  drain_matching P := LocalNostrEventTransport_drain_matching (P := P);
|}.
End envelope.

(** ** The placeholder transport *)

Record NostrTransportConfig := mkNostrTransportConfig { ntc_relays : list string }.
Record NostrTransport := mkNostrTransport { nt_config : NostrTransportConfig }.

Definition NostrTransport_new (config : NostrTransportConfig) : NostrTransport :=
  mkNostrTransport config.

#[export] Instance nostr_transport : Transport NostrTransport := {|
  connect := st_lift (Err (NotImplemented "Nostr relay transport migration"));
  disconnect := st_lift (Ok tt);
  publish _ := st_lift (Err (NotImplemented "Nostr publish migration"));
  drain_matching P _ _ := st_lift (Err (NotImplemented "Nostr subscribe/drain migration"));
|}.

(** ** What an event says about its message *)

Section envelope_properties.
Context `{SerdeJson ProtocolMessage} `{!SerdeJsonLaws ProtocolMessage} `{Utf8Error}.

(** The metadata that [validate_metadata] accepts, read off the message. *)
Definition sendable (m : ProtocolMessage) : Prop :=
  blank (sid_0 (pm_session_id m)) = false /\ pid_0 (pm_sender m) <> 0%N /\
  (forall r, pm_recipient m = Some r -> pid_0 r <> 0%N) /\
  blank (ProtocolMessageKind_as_str (pm_kind m)) = false.

Lemma blank_custom_from s : is_blank_custom (ProtocolMessageKind_from s) = blank s.
Proof.
  unfold ProtocolMessageKind_from.
  repeat (let E := fresh "E" in case_decide as E; [cbn [is_blank_custom]; symmetry;
                             first [subst; reflexivity|destruct E; subst; reflexivity]|]).
  done.
Qed.

(** Guards in front of a continuation. *)
Lemma reject_guard {A} c (e : DkgKitError) (next : Result A) x :
  (reject_if c e;; next) = Ok x <-> c = false /\ next = Ok x.
Proof. destruct c; cbn [reject_if]; [split; [done|by intros [? _]]|]. rewrite ok_bind. tauto. Qed.

Lemma participant_guard {A} n (next : Result A) x :
  (ParticipantId_new n;; next) = Ok x <-> n <> 0%N /\ next = Ok x.
Proof.
  unfold ParticipantId_new. destruct (N.eqb_spec n 0); cbn [reject_if];
    [split; [done|tauto]|rewrite !ok_bind; tauto].
Qed.

Lemma session_guard {A} s (next : Result A) x :
  (SessionId_new s;; next) = Ok x <-> blank s = false /\ next = Ok x.
Proof.
  unfold SessionId_new. destruct (blank s); cbn [reject_if];
    [split; [done|by intros [? _]]|rewrite !ok_bind; tauto].
Qed.

Definition metadata_ok (e : NostrEnvelopeEvent) : Prop :=
  ne_kind e = DKGKIT_NOSTR_EVENT_KIND /\ ne_app e = DKGKIT_NOSTR_APP_TAG /\
  blank (ne_session_id e) = false /\ ne_sender e <> 0%N /\
  (forall r, ne_recipient e = Some r -> r <> 0%N) /\ blank (ne_message_kind e) = false.

Lemma validate_metadata_Ok e u :
  NostrEnvelopeEvent_validate_metadata e = Ok u <-> metadata_ok e.
Proof.
  unfold NostrEnvelopeEvent_validate_metadata, metadata_ok. rewrite blank_custom_from.
  rewrite !reject_guard, session_guard, participant_guard.
  rewrite negb_false_iff, N.eqb_eq, bool_decide_eq_false.
  assert (Happ : ~ ne_app e <> DKGKIT_NOSTR_APP_TAG <-> ne_app e = DKGKIT_NOSTR_APP_TAG).
  { destruct (decide (ne_app e = DKGKIT_NOSTR_APP_TAG)); tauto. }
  assert (Hrec : (match ne_recipient e with
                  | Some recipient => ParticipantId_new recipient;; Ok tt
                  | None => Ok tt end) = Ok tt <-> forall r, ne_recipient e = Some r -> r <> 0%N).
  { destruct (ne_recipient e) as [r|]; [rewrite participant_guard|done].
    split; [by intros [? _] ? [= <-]|intros Hr; split; [by apply Hr|done]]. }
  rewrite Happ, bind_Ok. setoid_rewrite reject_if_Ok. rewrite <- Hrec. split.
  - intros (? & ? & ? & ? & [] & ? & ?). by split_and!.
  - intros (? & ? & ? & ? & ? & ?). split_and!; try done. by exists tt.
Qed.

(** The tags of the envelope are those of the message. *)
Definition tags_match (e : NostrEnvelopeEvent) (m : ProtocolMessage) : Prop :=
  ne_kind e = DKGKIT_NOSTR_EVENT_KIND /\ ne_app e = DKGKIT_NOSTR_APP_TAG /\
  ne_session_id e = sid_0 (pm_session_id m) /\ ne_sender e = pid_0 (pm_sender m) /\
  ne_recipient e = pid_0 <$> pm_recipient m /\
  ne_message_kind e = ProtocolMessageKind_as_str (pm_kind m).

Lemma metadata_of_tags e m : tags_match e m -> metadata_ok e <-> sendable m.
Proof.
  intros (Hk & Ha & Hs & Hf & Hr & Hm). unfold metadata_ok, sendable. rewrite Hs, Hf, Hr, Hm.
  assert (Hiff : (forall r, pid_0 <$> pm_recipient m = Some r -> r <> 0%N) <->
                 (forall r, pm_recipient m = Some r -> pid_0 r <> 0%N)); [|rewrite Hiff; tauto].
  destruct (pm_recipient m) as [r|]; [|done]. cbn. split; intros Hi r' [= <-]; by apply Hi.
Qed.

Lemma to_protocol_message_Ok e m :
  NostrEnvelopeEvent_to_protocol_message e = Ok m <->
  ProtocolMessage_decode_json (as_bytes (ne_content e)) = Ok m /\ tags_match e m /\ sendable m.
Proof.
  unfold NostrEnvelopeEvent_to_protocol_message. split.
  - intros He. apply bind_Ok in He as ([] & Hv%validate_metadata_Ok & He).
    apply bind_Ok in He as (m' & Hd & He). rewrite !reject_guard, !bool_decide_eq_false in He.
    destruct He as (Hs & Hf & Hr & Hk & [= ->]). apply dec_stable in Hs, Hf, Hr, Hk.
    assert (tags_match e m) by (destruct Hv as (? & ? & _); unfold tags_match; split_and!; auto).
    split_and!; [done|done|]. by apply (metadata_of_tags e).
  - intros (Hd & Ht & Hm). pose proof (proj2 (metadata_of_tags e m Ht) Hm) as Hv.
    rewrite (proj2 (validate_metadata_Ok e tt) Hv), ok_bind, Hd, ok_bind.
    destruct Ht as (_ & _ & Hs & Hf & Hr & Hk). rewrite !reject_guard, !bool_decide_eq_false.
    split_and!; auto.
Qed.

Lemma from_protocol_message_Ok m :
  exists e, NostrEnvelopeEvent_from_protocol_message m = Ok e /\ tags_match e m /\
            ProtocolMessage_decode_json (as_bytes (ne_content e)) = Ok m.
Proof.
  unfold NostrEnvelopeEvent_from_protocol_message, ProtocolMessage_encode_json,
    ProtocolMessage_decode_json.
  destruct (json_total m) as [bs Hbs]. rewrite Hbs. cbn [serialization]. rewrite ok_bind.
  pose proof (json_utf8 m bs Hbs) as Hu. pose proof (json_round_trip m bs Hbs) as Hd.
  destruct (from_utf8 bs) as [c|] eqn:Hc; [|unfold from_utf8 in Hc; by rewrite Hu in Hc].
  cbn [ok_or]. rewrite ok_bind. eexists. split; [done|]. split; [done|]. cbn [ne_content].
  by rewrite (as_bytes_from_utf8 bs c Hc), Hd.
Qed.

Lemma to_protocol_message_returns e : returns (NostrEnvelopeEvent_to_protocol_message e).
Proof.
  unfold NostrEnvelopeEvent_to_protocol_message, NostrEnvelopeEvent_validate_metadata,
    SessionId_new, ParticipantId_new, ProtocolMessage_decode_json.
  repeat first [apply bind_returns; [|intros ? _]|apply reject_if_returns|done
               |by destruct (json_from_slice _)|destruct (ne_recipient e)].
Qed.

(** C31: an event decodes exactly when its tags tell the truth.
    [to_protocol_message] returns a message if and only if the content decodes
    to it, the kind, the application tag and the session, sender, recipient and
    message-kind tags are those of the decoded message, and the metadata is
    valid (non-blank session and kind, non-zero participants).  Wrapping a
    message always succeeds; unwrapping the result returns the same message when
    its metadata is valid and an error otherwise. *)
Theorem nostr_envelope_faithful :
  (forall e m,
     NostrEnvelopeEvent_to_protocol_message e = Ok m <->
     ProtocolMessage_decode_json (as_bytes (ne_content e)) = Ok m /\ tags_match e m /\ sendable m) /\
  (forall m, exists e,
     NostrEnvelopeEvent_from_protocol_message m = Ok e /\
     (sendable m -> NostrEnvelopeEvent_to_protocol_message e = Ok m) /\
     (~ sendable m -> is_err (NostrEnvelopeEvent_to_protocol_message e) = true)).
Proof.
  split; [apply to_protocol_message_Ok|]. intros m.
  destruct (from_protocol_message_Ok m) as (e & He & Ht & Hd). exists e. split_and!; [done| |].
  - intros Hm. by apply to_protocol_message_Ok.
  - intros Hm. pose proof (to_protocol_message_returns e) as Hr.
    destruct (NostrEnvelopeEvent_to_protocol_message e) as [m'| |] eqn:E; [|done|done].
    apply to_protocol_message_Ok in E as (Hd' & _ & Hm'). congruence.
Qed.
End envelope_properties.

(** ** The event transport keeps the queue contract *)

Section transport_properties.
Context `{SerdeJson ProtocolMessage} `{!SerdeJsonLaws ProtocolMessage} `{Utf8Error}.

Definition event_message (e : NostrEnvelopeEvent) : option ProtocolMessage :=
  match NostrEnvelopeEvent_to_protocol_message e with Ok m => Some m | _ => None end.

Definition readable (e : NostrEnvelopeEvent) : Prop :=
  exists m, NostrEnvelopeEvent_to_protocol_message e = Ok m.

Lemma event_loop_readable {P} sid (pred : P -> ProtocolMessage -> bool * P) events : forall p,
  Forall readable events ->
  exists kept, let '(p', kept_messages, matched) :=
                 drain_loop sid pred p (omap event_message events) in
    event_loop sid pred p events = (p', Ok (kept, matched)) /\ Forall readable kept /\
    omap event_message kept = kept_messages.
Proof.
  induction events as [|e events IH]; intros p HF; [by exists []|].
  apply Forall_cons in HF as [[m Hm] HF].
  assert (Hem : event_message e = Some m) by (unfold event_message; by rewrite Hm).
  cbn [omap list_omap event_loop]. rewrite Hem, Hm. cbn [drain_loop].
  destruct (if decide _ then _ else _) as [take p1].
  destruct (IH p1 HF) as [kept Hk]. destruct (drain_loop sid pred p1 _) as [[p2 km] matched].
  destruct Hk as (Hl & Hr & Ho).
  destruct take; [exists kept|exists (e :: kept)]; split_and!; try (by rewrite Hl); try done.
  - constructor; [by exists m|done].
  - cbn. by rewrite Hem, <- Ho.
Qed.

#[export, refine] Instance local_nostr_queue : QueueTransport LocalNostrEventTransport := {|
  pending t := omap event_message (lt_events t);
  transport_ok t := Forall readable (lt_events t);
  accepts := sendable;
|}.
Proof.
  - intros t Ht. by eexists.
  - intros t Ht. by eexists.
  - intros t m Ht Hm. destruct (from_protocol_message_Ok m) as (e & He & Htags & Hd).
    assert (Hto : NostrEnvelopeEvent_to_protocol_message e = Ok m)
      by (by apply to_protocol_message_Ok).
    exists (mkLocalNostrEventTransport (lt_connected t) (lt_events t ++ [e])).
    cbn [publish local_nostr_transport]. unfold LocalNostrEventTransport_publish. rewrite He.
    split_and!; [done| |].
    + cbn. apply Forall_app. split; [done|]. constructor; [by exists m|done].
    + cbn. rewrite omap_app. cbn. unfold event_message at 2. by rewrite Hto.
  - intros P t sid pred p Ht.
    destruct (event_loop_readable sid pred (lt_events t) p Ht) as [kept Hk].
    exists (mkLocalNostrEventTransport (lt_connected t) kept).
    cbn [drain_matching local_nostr_transport]. unfold LocalNostrEventTransport_drain_matching.
    destruct (drain_loop _ _ _ _) as [[p' km] matched]. destruct Hk as (-> & Hr & Ho). done.
Defined.

(** The events that wait are as many as the messages they hold. *)
Lemma pending_len_ok (t : LocalNostrEventTransport) :
  transport_ok t -> LocalNostrEventTransport_pending_len t = length (pending t).
Proof.
  unfold LocalNostrEventTransport_pending_len. cbn [transport_ok pending local_nostr_queue].
  induction 1 as [|e events [m Hm] HF IH]; [done|].
  cbn [omap list_omap]. unfold event_message at 1. rewrite Hm. cbn. by rewrite IH.
Qed.

(** C29: for messages with valid metadata the event transport is a transport like
    the in-memory one.  Started empty, every sequence of connects, disconnects,
    publishes of such messages and drains returns exactly what the in-memory
    transport returns, although it stores the messages as encoded events. *)
Theorem nostr_agrees_with_memory ops :
  (forall m, OpPublish m ∈ ops -> sendable m) ->
  (transport_run LocalNostrEventTransport_default ops).2 =
  (transport_run MemoryTransport_default ops).2.
Proof.
  intros Hops. transitivity (queues_run (fun _ => []) ops).2.
  - apply (transport_run_simulates ops LocalNostrEventTransport_default).
    + by split; [constructor|].
    + apply Forall_forall. intros [| |m|] Hin; [done|done|by apply Hops|done].
  - symmetry. apply (transport_run_simulates ops MemoryTransport_default); [done|].
    apply Forall_forall. by intros [] _.
Qed.

Lemma event_loop_unreadable {P} sid (pred : P -> ProtocolMessage -> bool * P) events : forall p,
  Exists (fun e => ~ readable e) events ->
  exists p' err, event_loop sid pred p events = (p', Err err).
Proof.
  induction events as [|e events IH]; intros p HE; [by inversion HE|]. cbn [event_loop].
  pose proof (to_protocol_message_returns e) as Hret.
  destruct (NostrEnvelopeEvent_to_protocol_message e) as [m|err|] eqn:Hm; [|by eexists _, _|done].
  destruct (if decide _ then _ else _) as [take p1].
  destruct (IH p1) as (p2 & err & ->); [|by eexists _, _].
  inversion HE as [? ? Hn|? ? HE']; subst; [|done]. destruct Hn. by exists m.
Qed.

(** C40: one message with invalid metadata empties the queue.  Publishing a
    message with, for example, a zero sender (which deserialization lets
    through) succeeds; the next drain, for any session and any predicate,
    returns an error and drops every queued event, those of other sessions
    included. *)
Theorem nostr_invalid_metadata_loses_queue {P} t m sid (pred : P -> ProtocolMessage -> bool * P) p :
  ~ sendable m ->
  exists t1 t2 p' err,
    publish m t = (t1, Ok tt) /\
    LocalNostrEventTransport_pending_len t1 = S (LocalNostrEventTransport_pending_len t) /\
    drain_matching sid pred (t1, p) = ((t2, p'), Err err) /\ lt_events t2 = [].
Proof.
  intros Hm. destruct (from_protocol_message_Ok m) as (e & He & _ & Hd).
  pose (t1 := mkLocalNostrEventTransport (lt_connected t) (lt_events t ++ [e])).
  destruct (event_loop_unreadable sid pred (lt_events t1) p) as (p' & err & Hl).
  { apply Exists_app. right. constructor. intros [m' Hm'].
    apply to_protocol_message_Ok in Hm' as (Hd' & _ & Hs). congruence. }
  exists t1, (mkLocalNostrEventTransport (lt_connected t) []), p', err. split_and!.
  - cbn [publish local_nostr_transport]. unfold LocalNostrEventTransport_publish. by rewrite He.
  - unfold LocalNostrEventTransport_pending_len. cbn. rewrite length_app. cbn. lia.
  - cbn [drain_matching local_nostr_transport]. unfold LocalNostrEventTransport_drain_matching.
    by rewrite Hl.
  - done.
Qed.
End transport_properties.

(** ** The theorems at concrete inputs *)

Section witnesses.
Local Existing Instances digits_json digits_json_laws.
#[local] Instance demo_utf8_error : Utf8Error := fun _ => "invalid utf-8".

Definition demo_message : ProtocolMessage :=
  ProtocolMessage_direct (mkSessionId "room-1") (mkParticipantId 1) (mkParticipantId 2)
    FrostDkgRound2 [x01; x02; x03].

Lemma demo_message_sendable : sendable demo_message.
Proof.
  split; [reflexivity|]. split; [discriminate|]. split; [|reflexivity].
  intros r [= <-]. discriminate.
Qed.

Lemma nostr_envelope_faithful_witness :
  exists e, NostrEnvelopeEvent_from_protocol_message demo_message = Ok e /\
            NostrEnvelopeEvent_to_protocol_message e = Ok demo_message.
Proof.
  destruct (proj2 nostr_envelope_faithful demo_message) as (e & He & Hto & _).
  exists e. split; [exact He|]. exact (Hto demo_message_sendable).
Defined.

Lemma nostr_agrees_with_memory_witness :
  let ops := [OpConnect; OpPublish demo_message; OpDrain (mkSessionId "room-1") (fun _ => true)] in
  (transport_run LocalNostrEventTransport_default ops).2 =
  (transport_run MemoryTransport_default ops).2.
Proof.
  intros ops. apply (nostr_agrees_with_memory ops). intros m Hm.
  repeat (apply elem_of_cons in Hm as [Hm|Hm]; [try discriminate Hm|]).
  - injection Hm as ->. exact demo_message_sendable.
  - by apply not_elem_of_nil in Hm.
Defined.

Lemma nostr_invalid_metadata_loses_queue_witness :
  let m := ProtocolMessage_broadcast (mkSessionId "room-2") (mkParticipantId 0) FrostDkgRound1 [] in
  let t := (publish demo_message LocalNostrEventTransport_default).1 in
  exists t1 t2 err,
    publish m t = (t1, Ok tt) /\
    drain_matching (mkSessionId "room-1") (pure_predicate (fun _ => true)) (t1, tt) =
      ((t2, tt), Err err) /\ lt_events t2 = [].
Proof.
  intros m t.
  destruct (nostr_invalid_metadata_loses_queue t m (mkSessionId "room-1")
              (pure_predicate (fun _ => true)) tt) as (t1 & t2 & [] & err & H1 & _ & H2 & H3).
  - intros (_ & Hs & _). by apply Hs.
  - exists t1, t2, err. split; [exact H1|]. split; [exact H2|exact H3].
Defined.
End witnesses.
