(* ===== verification/LiveNostr.v ===== *)
(** [crates/dkgkit-nostr/src/live.rs]: the relay-backed transport.

    The [nostr_sdk] crate and the relay are outside: the class [NostrSdk] lists
    the functions of the crate that are called, and what the background thread
    reports back to a blocked caller (a result, a dropped channel or a timeout)
    is an argument of [connect] and [publish].  Modelled are the state of the
    transport, the mapping between messages and event tags, the encryption
    decision, the handler of inbound events with its duplicate filter, and the
    draining of the inbound buffer. *)

From Stdlib Require Import Ascii String Strings.Byte.
From stdpp Require Import base numbers countable gmap strings list.
From S2P Require Import Prelude Core Codec Transport Nostr.

Definition ENCRYPTED_TAG_KEY : string := "encrypted".
Definition ENCRYPTED_TAG_VALUE : string := "nip44".

(** A tag is the vector of strings that [as_slice] shows.  The first argument of
    [nip44_encrypt] is the randomness it draws. *)
Class NostrSdk := {
  Keys : Type;
  PublicKey : Type;
  EventId : Type;
  event_id_eq_dec :: EqDecision EventId;
  event_id_countable :: Countable EventId;
  keys_public_key : Keys -> PublicKey;
  nip44_encrypt : N -> Keys -> PublicKey -> string -> string + string;
  nip44_decrypt : Keys -> PublicKey -> string -> string + string;
  tag_parse : list string -> string + list string;
  tag_hashtag : string -> list string;
  tag_public_key : PublicKey -> list string;
  (** the text of a [ParseIntError] for this input *)
  parse_int_error : string -> string;
}.

(** Documented behaviour: decryption undoes encryption, a non-empty vector
    parses to itself, and the two standard tags have their NIP-01 names. *)
Class NostrSdkLaws `{NostrSdk} : Prop := {
  nip44_round_trip nonce sender receiver plaintext ciphertext :
    nip44_encrypt nonce sender (keys_public_key receiver) plaintext = inr ciphertext ->
    nip44_decrypt receiver (keys_public_key sender) ciphertext = inr plaintext;
  tag_parse_nonempty values : values <> [] -> tag_parse values = inr values;
  tag_hashtag_name s : exists v, tag_hashtag s = ["t"; v];
  tag_public_key_name pk : exists v, tag_public_key pk = ["p"; v];
}.

Section live.
Context `{NostrSdk} `{SerdeJson ProtocolMessage} `{Utf8Error}.

Record Event := mkEvent {
  ev_id : EventId;
  ev_pubkey : PublicKey;
  ev_tags : list (list string);
  ev_content : string;
}.

Definition encrypt_for (nonce : N) (sender : Keys) (recipient : PublicKey) (plaintext : string) :
  Result string :=
  match nip44_encrypt nonce sender recipient plaintext with
  | inl err => Err (Protocol ("nip44 encrypt failed: " +:+ err))
  | inr ciphertext => Ok ciphertext
  end.

Definition decrypt_from (receiver : Keys) (sender : PublicKey) (ciphertext : string) :
  Result string :=
  match nip44_decrypt receiver sender ciphertext with
  | inl err => Err (Protocol ("nip44 decrypt failed: " +:+ err))
  | inr plaintext => Ok plaintext
  end.

Definition vault_hashtag (vault_tag : string) : string := "dkgkit:" +:+ vault_tag.

(** [Tag::parse(values).expect(..)] *)
Definition parse_tag (values : list string) : Result (list string) :=
  match tag_parse values with inl _ => Panic | inr tag => Ok tag end.

Definition build_event_tags (envelope : NostrEnvelopeEvent) (vault_tag : string)
    (encrypted_recipient : option PublicKey) : Result (list (list string)) :=
  tags ← mapM parse_tag (NostrEnvelopeEvent_tags envelope);
  let tags := tags ++ [tag_hashtag (vault_hashtag vault_tag)] in
  match encrypted_recipient with
  | Some recipient =>
      marker ← parse_tag [ENCRYPTED_TAG_KEY; ENCRYPTED_TAG_VALUE];
      Ok (tags ++ [tag_public_key recipient; marker])
  | None => Ok tags
  end.

Fixpoint find_tag (key : string) (tags : list (list string)) : option string :=
  match tags with
  | [] => None
  | (k :: v :: _) :: tags => if decide (k = key) then Some v else find_tag key tags
  | _ :: tags => find_tag key tags
  end.

Definition tag_value (event : Event) (key : string) : option string :=
  find_tag key (ev_tags event).

Definition has_encrypted_marker (event : Event) : bool :=
  bool_decide (tag_value event ENCRYPTED_TAG_KEY = Some ENCRYPTED_TAG_VALUE).

(** [value.parse::<u16>().map_err(..)] *)
Definition parse_u16_tag (what value : string) : Result N :=
  ok_or (parse_u16 value) (Protocol ("bad " +:+ what +:+ " tag: " +:+ parse_int_error value)).

Definition envelope_from_event (content : string) (event : Event) : Result NostrEnvelopeEvent :=
  session_id ← ok_or (tag_value event "session") (Protocol "missing session tag");
  sender ← ok_or (tag_value event "sender") (Protocol "missing sender tag");
  sender ← parse_u16_tag "sender" sender;
  recipient ← match tag_value event "recipient" with
              | Some value => recipient ← parse_u16_tag "recipient" value; Ok (Some recipient)
              | None => Ok None
              end;
  message_kind ← ok_or (tag_value event "message_kind") (Protocol "missing message_kind tag");
  Ok (mkNostrEnvelopeEvent DKGKIT_NOSTR_EVENT_KIND
        (default DKGKIT_NOSTR_APP_TAG (tag_value event "app"))
        session_id sender recipient message_kind content).

(** ** Directory and configuration *)

Record ParticipantDirectory := mkParticipantDirectory {
  by_participant : gmap ParticipantId PublicKey;
}.

Definition ParticipantDirectory_new : ParticipantDirectory := mkParticipantDirectory ∅.

Definition ParticipantDirectory_insert (self : ParticipantDirectory) (id : ParticipantId)
    (pubkey : PublicKey) : ParticipantDirectory :=
  mkParticipantDirectory (<[id := pubkey]> (by_participant self)).

Definition ParticipantDirectory_get (self : ParticipantDirectory) (id : ParticipantId) :
  option PublicKey := by_participant self !! id.

(** The relay addresses and the two timeouts only reach the outside. *)
Record LiveNostrTransportConfig := mkLiveNostrTransportConfig {
  lc_relays : list string;
  lc_vault_tag : string;
  lc_self_id : ParticipantId;
  lc_keys : Keys;
  lc_directory : ParticipantDirectory;
}.

Definition is_secret_kind (kind : ProtocolMessageKind) : bool :=
  match kind with FrostDkgRound2 | HtssDkgRound2 => true | _ => false end.

(** ** The transport *)

(** [lnt_cmd_tx] and [lnt_handle]: whether the options hold a value;
    [lnt_seen]: the duplicate filter of the running background thread. *)
Record LiveNostrTransport := mkLiveNostrTransport {
  lnt_cfg : LiveNostrTransportConfig;
  lnt_cmd_tx : bool;
  lnt_inbound : list ProtocolMessage;
  lnt_handle : bool;
  lnt_connected : bool;
  lnt_seen : gset EventId;
}.

Definition LiveNostrTransport_new (cfg : LiveNostrTransportConfig) : LiveNostrTransport :=
  mkLiveNostrTransport cfg false [] false false ∅.

Definition LiveNostrTransport_pending_len (self : LiveNostrTransport) : nat :=
  length (lnt_inbound self).

(** What the caller of a blocking operation hears from the thread. *)
Inductive ThreadReply : Type :=
  | Replied (r : DkgKitError + unit)
  | ThreadGone
  | TimedOut.

Definition handle_inbound_event (keys : Keys) (self_id : ParticipantId)
    (state : gset EventId * list ProtocolMessage) (event : Event) :
  gset EventId * list ProtocolMessage :=
  let '(seen, inbound) := state in
  if decide (ev_id event ∈ seen) then (seen, inbound)
  else
    let seen := {[ev_id event]} ∪ seen in
    if decide (tag_value event "app" <> Some DKGKIT_NOSTR_APP_TAG) then (seen, inbound)
    else
      let for_someone_else :=
        match tag_value event "recipient" with
        | Some recipient => bool_decide (parse_u16 recipient <> Some (pid_0 self_id))
        | None => false
        end in
      if for_someone_else then (seen, inbound)
      else
        let content :=
          if has_encrypted_marker event
          then decrypt_from keys (ev_pubkey event) (ev_content event)
          else Ok (ev_content event) in
        match content with
        | Ok content =>
            match (envelope ← envelope_from_event content event;
                   NostrEnvelopeEvent_to_protocol_message envelope) with
            | Ok message => (seen, inbound ++ [message])
            | _ => (seen, inbound)
            end
        | _ => (seen, inbound)
        end.

(** A notification of the relay reaches the thread. *)
Definition LiveNostrTransport_receive (event : Event) (self : LiveNostrTransport) :
  LiveNostrTransport :=
  let '(seen, inbound) :=
    handle_inbound_event (lc_keys (lnt_cfg self)) (lc_self_id (lnt_cfg self))
      (lnt_seen self, lnt_inbound self) event in
  mkLiveNostrTransport (lnt_cfg self) (lnt_cmd_tx self) inbound (lnt_handle self)
    (lnt_connected self) seen.

Definition LiveNostrTransport_connect (reply : ThreadReply) :
  ST LiveNostrTransport DkgKitError unit :=
  fun self =>
    if lnt_connected self then (self, Ok tt)
    else
      match reply with
      | Replied (inr _) =>
          (mkLiveNostrTransport (lnt_cfg self) true (lnt_inbound self) true true ∅, Ok tt)
      | Replied (inl err) => (self, Err err)
      | ThreadGone | TimedOut => (self, Err (Transport_ "relay connect timed out"))
      end.

Definition LiveNostrTransport_disconnect : ST LiveNostrTransport DkgKitError unit :=
  fun self =>
    (mkLiveNostrTransport (lnt_cfg self) false (lnt_inbound self) false false (lnt_seen self), Ok tt).

(** [Drop::drop] *)
Definition LiveNostrTransport_drop (self : LiveNostrTransport) : LiveNostrTransport :=
  (LiveNostrTransport_disconnect self).1.

(** What [publish] hands to the thread: the content and the tags. *)
Definition prepare_publish (cfg : LiveNostrTransportConfig) (nonce : N)
    (message : ProtocolMessage) : Result (string * list (list string)) :=
  envelope ← NostrEnvelopeEvent_from_protocol_message message;
  match (if is_secret_kind (pm_kind message) then pm_recipient message else None) with
  | Some recipient_id =>
      recipient_pk ← ok_or (ParticipantDirectory_get (lc_directory cfg) recipient_id)
                       (Transport_ ("no directory pubkey for participant "
                                    +:+ dec (pid_0 recipient_id)));
      ciphertext ← encrypt_for nonce (lc_keys cfg) recipient_pk (ne_content envelope);
      tags ← build_event_tags envelope (lc_vault_tag cfg) (Some recipient_pk);
      Ok (ciphertext, tags)
  | None =>
      tags ← build_event_tags envelope (lc_vault_tag cfg) None;
      Ok (ne_content envelope, tags)
  end.

Definition LiveNostrTransport_publish (nonce : N) (reply : ThreadReply)
    (message : ProtocolMessage) : ST LiveNostrTransport DkgKitError unit :=
  fun self =>
    match (reject_if (negb (lnt_cmd_tx self)) (Transport_ "transport not connected");;
           prepare_publish (lnt_cfg self) nonce message) with
    | Err e => (self, Err e)
    | Panic => (self, Panic)
    | Ok _ =>
        match reply with
        | ThreadGone => (self, Err (Transport_ "relay thread is gone"))
        | TimedOut => (self, Err (Transport_ "relay publish timed out"))
        | Replied (inl err) => (self, Err err)
        | Replied (inr _) =>
            if ProtocolMessage_is_for message (lc_self_id (lnt_cfg self))
            then (mkLiveNostrTransport (lnt_cfg self) (lnt_cmd_tx self)
                    (lnt_inbound self ++ [message]) (lnt_handle self) (lnt_connected self)
                    (lnt_seen self), Ok tt)
            else (self, Ok tt)
        end
    end.

Definition LiveNostrTransport_drain_matching {P} (session_id : SessionId)
    (predicate : P -> ProtocolMessage -> bool * P) :
  ST (LiveNostrTransport * P) DkgKitError (list ProtocolMessage) :=
  fun '(self, p) =>
    let '(p, kept, matched) := drain_loop session_id predicate p (lnt_inbound self) in
    ((mkLiveNostrTransport (lnt_cfg self) (lnt_cmd_tx self) kept (lnt_handle self)
        (lnt_connected self) (lnt_seen self), p), Ok matched).
End live.

(** ** From a published message to the inbound buffers *)

Section live_properties.
Context `{NostrSdkLaws} `{SerdeJson ProtocolMessage} `{!SerdeJsonLaws ProtocolMessage} `{Utf8Error}.

(** The identifiers are [u16] values. *)
Definition u16_ids (m : ProtocolMessage) : Prop :=
  is_u16 (pid_0 (pm_sender m)) /\ forall r, pm_recipient m = Some r -> is_u16 (pid_0 r).

Lemma parse_tags_id l : Forall (fun values => values <> []) l -> mapM parse_tag l = Ok l.
Proof.
  intros HF. apply mapM_Ok, Forall_Forall2_diag. eapply Forall_impl; [exact HF|].
  intros values Hv. unfold parse_tag. cbn. by rewrite tag_parse_nonempty.
Qed.

Lemma build_event_tags_Ok envelope vault_tag recipient :
  exists rest,
    build_event_tags envelope vault_tag recipient = Ok (NostrEnvelopeEvent_tags envelope ++ rest) /\
    (forall key, key <> "t" -> key <> "p" -> key <> ENCRYPTED_TAG_KEY -> find_tag key rest = None) /\
    find_tag ENCRYPTED_TAG_KEY rest = (fun _ => ENCRYPTED_TAG_VALUE) <$> recipient.
Proof.
  destruct (tag_hashtag_name (vault_hashtag vault_tag)) as [h Hh].
  unfold build_event_tags. rewrite parse_tags_id, ok_bind, Hh.
  2: { unfold NostrEnvelopeEvent_tags. destruct (ne_recipient envelope); by repeat constructor. }
  destruct recipient as [pk|].
  - destruct (tag_public_key_name pk) as [v Hv]. unfold parse_tag.
    rewrite tag_parse_nonempty, ok_bind, Hv by done. cbv zeta.
    exists [["t"; h]; ["p"; v]; [ENCRYPTED_TAG_KEY; ENCRYPTED_TAG_VALUE]].
    split; [by rewrite <- app_assoc|]. split; [|reflexivity].
    intros key Ht Hp He. cbn [find_tag]. by rewrite !decide_False by congruence.
  - exists [["t"; h]]. split; [done|]. split; [|reflexivity].
    intros key Ht Hp He. cbn [find_tag]. by rewrite !decide_False by congruence.
Qed.

(** The tags of an envelope, followed by tags with other names, give the
    envelope back. *)
Lemma envelope_tags_read e rest :
  find_tag "recipient" rest = None -> find_tag ENCRYPTED_TAG_KEY (NostrEnvelopeEvent_tags e ++ rest) =
    find_tag ENCRYPTED_TAG_KEY rest /\
  find_tag "app" (NostrEnvelopeEvent_tags e ++ rest) = Some (ne_app e) /\
  find_tag "session" (NostrEnvelopeEvent_tags e ++ rest) = Some (ne_session_id e) /\
  find_tag "sender" (NostrEnvelopeEvent_tags e ++ rest) = Some (dec (ne_sender e)) /\
  find_tag "message_kind" (NostrEnvelopeEvent_tags e ++ rest) = Some (ne_message_kind e) /\
  find_tag "recipient" (NostrEnvelopeEvent_tags e ++ rest) = dec <$> ne_recipient e.
Proof.
  intros Hr. unfold NostrEnvelopeEvent_tags.
  destruct (ne_recipient e) as [r|]; cbn [app find_tag]; split_and!; cbn; done.
Qed.

Lemma envelope_from_event_Ok e event content :
  is_u16 (ne_sender e) -> (forall r, ne_recipient e = Some r -> is_u16 r) ->
  ne_kind e = DKGKIT_NOSTR_EVENT_KIND ->
  (exists rest, ev_tags event = NostrEnvelopeEvent_tags e ++ rest /\
                find_tag "recipient" rest = None) ->
  envelope_from_event content event =
  Ok (mkNostrEnvelopeEvent (ne_kind e) (ne_app e) (ne_session_id e) (ne_sender e) (ne_recipient e)
        (ne_message_kind e) content).
Proof.
  intros Hs Hr Hk (rest & Htags & Hrest).
  destruct (envelope_tags_read e rest Hrest) as (_ & Happ & Hses & Hsen & Hmk & Hrec).
  unfold envelope_from_event, tag_value, parse_u16_tag. rewrite Htags, Happ, Hses, Hsen, Hmk, Hrec.
  cbn [ok_or]. rewrite !ok_bind, parse_u16_dec by done. cbn [ok_or]. rewrite !ok_bind, Hk.
  destruct (ne_recipient e) as [r|]; cbn [fmap option_fmap option_map]; [|done].
  rewrite parse_u16_dec by (by apply Hr). done.
Qed.

(** Whether [publish] encrypts the message, and for whom. *)
Definition secret_recipient (m : ProtocolMessage) : option ParticipantId :=
  if is_secret_kind (pm_kind m) then pm_recipient m else None.

(** What is handed to the relay thread. *)
Lemma prepare_publish_Ok cfg nonce m content tags :
  prepare_publish cfg nonce m = Ok (content, tags) ->
  exists e rest,
    NostrEnvelopeEvent_from_protocol_message m = Ok e /\
    tags = NostrEnvelopeEvent_tags e ++ rest /\ find_tag "recipient" rest = None /\
    match secret_recipient m with
    | Some r => exists pk, ParticipantDirectory_get (lc_directory cfg) r = Some pk /\
                  nip44_encrypt nonce (lc_keys cfg) pk (ne_content e) = inr content /\
                  find_tag ENCRYPTED_TAG_KEY rest = Some ENCRYPTED_TAG_VALUE
    | None => content = ne_content e /\ find_tag ENCRYPTED_TAG_KEY rest = None
    end.
Proof.
  unfold prepare_publish. fold (secret_recipient m). intros Hp.
  apply bind_Ok in Hp as (e & He & Hp). exists e.
  destruct (secret_recipient m) as [r|].
  - apply bind_Ok in Hp as (pk & Hpk%ok_or_Ok & Hp). apply bind_Ok in Hp as (c & Hc & Hp).
    destruct (build_event_tags_Ok e (lc_vault_tag cfg) (Some pk)) as (rest & Hb & Hrest & Henc).
    rewrite Hb, ok_bind in Hp. injection Hp as <- <-. exists rest. split_and!; [done|done|by apply Hrest|].
    exists pk. unfold encrypt_for in Hc. destruct (nip44_encrypt _ _ _ _); [done|].
    injection Hc as <-. done.
  - destruct (build_event_tags_Ok e (lc_vault_tag cfg) None) as (rest & Hb & Hrest & Henc).
    rewrite Hb, ok_bind in Hp. injection Hp as <- <-. exists rest. split_and!; try done. by apply Hrest.
Qed.

(** The content the receiver works with is that of the envelope. *)
Definition opened (keys : Keys) (event : Event) : Result string :=
  if has_encrypted_marker event then decrypt_from keys (ev_pubkey event) (ev_content event)
  else Ok (ev_content event).

(** Every event that is handled has been seen. *)
Lemma handle_seen keys self_id seen inbound event :
  (handle_inbound_event keys self_id (seen, inbound) event).1 = {[ev_id event]} ∪ seen.
Proof.
  unfold handle_inbound_event. destruct (decide (ev_id event ∈ seen)); [cbn; set_solver|].
  cbv zeta. repeat case_match; done.
Qed.

(** An event with the tags of the envelope of [m], of whatever origin: if it
    opens to the envelope's content when [m] is for the receiver, the receiver
    takes [m] exactly then. *)
Lemma handle_carried_event event e rest m keys self_id seen inbound :
  sendable m -> u16_ids m ->
  NostrEnvelopeEvent_from_protocol_message m = Ok e ->
  ev_tags event = NostrEnvelopeEvent_tags e ++ rest -> find_tag "recipient" rest = None ->
  (ProtocolMessage_is_for m self_id = true -> opened keys event = Ok (ne_content e)) ->
  ev_id event ∉ seen ->
  handle_inbound_event keys self_id (seen, inbound) event =
  ({[ev_id event]} ∪ seen, inbound ++ if ProtocolMessage_is_for m self_id then [m] else []).
Proof.
  intros Hm [Hs Hr] He Htags Hrest Hopen Hid.
  unfold handle_inbound_event. rewrite decide_False by done.
  destruct (from_protocol_message_Ok m) as (e' & He' & Hmatch & Hdec).
  assert (e' = e) as -> by congruence.
  pose proof (envelope_tags_read e rest Hrest) as (_ & Happ & _ & _ & _ & Hrec).
  destruct Hmatch as (Hk & Ha & Hse & Hsn & Hre & Hmk).
  assert (Happ' : tag_value event "app" = Some DKGKIT_NOSTR_APP_TAG)
    by (unfold tag_value; by rewrite Htags, Happ, Ha).
  assert (Hrec' : tag_value event "recipient" = (fun r => dec (pid_0 r)) <$> pm_recipient m)
    by (unfold tag_value; rewrite Htags, Hrec, Hre; by destruct (pm_recipient m)).
  rewrite Happ', Hrec', decide_False by (intros Hn; by apply Hn).
  assert (Helse : match (fun r => dec (pid_0 r)) <$> pm_recipient m with
                  | Some recipient => bool_decide (parse_u16 recipient <> Some (pid_0 self_id))
                  | None => false end = negb (ProtocolMessage_is_for m self_id)).
  { unfold ProtocolMessage_is_for. destruct (pm_recipient m) as [r|]; [|done].
    cbn [fmap option_fmap option_map]. rewrite parse_u16_dec by (by apply Hr).
    rewrite <- bool_decide_not. apply bool_decide_ext. split; [intros Hn ->; by apply Hn|].
    intros Hn [= E]. apply Hn. by apply pid_0_inj. }
  cbv zeta. rewrite Helse. fold (opened keys event).
  destruct (ProtocolMessage_is_for m self_id) eqn:Hfor; cbn [negb]; [|by rewrite app_nil_r].
  assert (Hee : envelope_from_event (ne_content e) event = Ok e).
  { rewrite (envelope_from_event_Ok e event (ne_content e)); 
      [by destruct e|by rewrite Hsn| |done|by exists rest].
    rewrite Hre. intros r. destruct (pm_recipient m) as [r'|]; [|done]. intros [= <-]. by apply Hr. }
  assert (Hto : NostrEnvelopeEvent_to_protocol_message e = Ok m) by (by apply to_protocol_message_Ok).
  by rewrite (Hopen eq_refl), Hee, ok_bind, Hto.
Qed.

(** The event of a published message opens for its recipient. *)
Lemma handle_fresh_event cfg nonce m content tags id keys self_id seen inbound :
  sendable m -> u16_ids m -> prepare_publish cfg nonce m = Ok (content, tags) ->
  (forall r, pm_recipient m = Some r -> r = self_id ->
     ParticipantDirectory_get (lc_directory cfg) r = Some (keys_public_key keys)) ->
  id ∉ seen ->
  handle_inbound_event keys self_id (seen, inbound)
    (mkEvent id (keys_public_key (lc_keys cfg)) tags content) =
  ({[id]} ∪ seen, inbound ++ if ProtocolMessage_is_for m self_id then [m] else []).
Proof.
  intros Hm Hids Hp Hlisted Hid.
  destruct (prepare_publish_Ok _ _ _ _ _ Hp) as (e & rest & He & Htags & Hrest & Hcase).
  apply (handle_carried_event (mkEvent id (keys_public_key (lc_keys cfg)) tags content) e rest m);
    try done.
  intros Hfor. unfold opened, has_encrypted_marker, tag_value. cbn [ev_tags ev_pubkey ev_content].
  rewrite Htags, (proj1 (envelope_tags_read e rest Hrest)).
  unfold secret_recipient in Hcase. destruct (if is_secret_kind (pm_kind m) then _ else _)
    as [r|] eqn:Hsec.
  - destruct Hcase as (pk & Hpk & Hct & ->). rewrite bool_decide_eq_true_2 by done.
    assert (Hr : pm_recipient m = Some r) by (by destruct (is_secret_kind (pm_kind m))).
    unfold ProtocolMessage_is_for in Hfor. rewrite Hr in Hfor. apply bool_decide_eq_true in Hfor.
    rewrite (Hlisted r Hr Hfor) in Hpk. injection Hpk as <-.
    unfold decrypt_from. by rewrite (nip44_round_trip _ _ _ _ _ Hct).
  - destruct Hcase as [-> ->]. by rewrite bool_decide_eq_false_2.
Qed.

(** C30: a published message reaches exactly the participants it is for, once.
    When a participant publishes a message with valid metadata and the relay
    hands the resulting event to another participant (whose key is the one the
    publisher's directory lists for the recipient), the receiver's buffer gains
    exactly this message if the message is a broadcast or addressed to the
    receiver, and nothing otherwise; round-two packages arrive decrypted.
    Receiving the same event again changes nothing. *)
Theorem live_delivery cfg nonce m content tags id b :
  sendable m -> u16_ids m ->
  prepare_publish cfg nonce m = Ok (content, tags) ->
  (forall r, pm_recipient m = Some r -> r = lc_self_id (lnt_cfg b) ->
     ParticipantDirectory_get (lc_directory cfg) r =
       Some (keys_public_key (lc_keys (lnt_cfg b)))) ->
  id ∉ lnt_seen b ->
  let event := mkEvent id (keys_public_key (lc_keys cfg)) tags content in
  let b' := LiveNostrTransport_receive event b in
  lnt_inbound b' = lnt_inbound b ++
    (if ProtocolMessage_is_for m (lc_self_id (lnt_cfg b)) then [m] else []) /\
  LiveNostrTransport_receive event b' = b'.
Proof.
  intros Hm Hids Hp Hdir Hid event b'.
  assert (Hb : b' = mkLiveNostrTransport (lnt_cfg b) (lnt_cmd_tx b)
    (lnt_inbound b ++ if ProtocolMessage_is_for m (lc_self_id (lnt_cfg b)) then [m] else [])
    (lnt_handle b) (lnt_connected b) ({[id]} ∪ lnt_seen b)).
  { unfold b', LiveNostrTransport_receive.
    by rewrite (handle_fresh_event cfg nonce m content tags id). }
  rewrite Hb. split; [done|].
  unfold LiveNostrTransport_receive, handle_inbound_event. cbn [lnt_seen lnt_cfg ev_id event].
  by rewrite decide_True by set_solver.
Qed.

(** Round-two packages leave the device encrypted or not at all, and a
    failed publish has no local effect.  For a direct message of a secret kind:
    without a directory entry for the recipient [publish] fails whatever the
    relay does; and what is handed to the relay is the NIP-44 encryption of the
    envelope's content under the recipient's listed key, marked as such.  A
    publish of any message that returns an error leaves the transport as it was,
    and one that succeeds was acknowledged and loops the message back exactly
    when it is for this participant. *)
Theorem live_publish_safe cfg nonce m :
  (forall r, is_secret_kind (pm_kind m) = true -> pm_recipient m = Some r ->
     (ParticipantDirectory_get (lc_directory cfg) r = None ->
        is_err (prepare_publish cfg nonce m) = true) /\
     (forall content tags, prepare_publish cfg nonce m = Ok (content, tags) ->
        exists pk e, ParticipantDirectory_get (lc_directory cfg) r = Some pk /\
          NostrEnvelopeEvent_from_protocol_message m = Ok e /\
          nip44_encrypt nonce (lc_keys cfg) pk (ne_content e) = inr content /\
          find_tag ENCRYPTED_TAG_KEY tags = Some ENCRYPTED_TAG_VALUE)) /\
  (forall self self' reply out,
     LiveNostrTransport_publish nonce reply m self = (self', out) ->
     (out <> Ok tt -> self' = self) /\
     (out = Ok tt ->
        lnt_cmd_tx self = true /\ is_ok (prepare_publish (lnt_cfg self) nonce m) = true /\
        (exists u, reply = Replied (inr u)) /\ lnt_cfg self' = lnt_cfg self /\
        lnt_inbound self' = lnt_inbound self ++
          (if ProtocolMessage_is_for m (lc_self_id (lnt_cfg self)) then [m] else []))).
Proof.
  split.
  - intros r Hk Hr. assert (Hsec : secret_recipient m = Some r).
    { unfold secret_recipient. by rewrite Hk. }
    split.
    + intros Hn. unfold prepare_publish. fold (secret_recipient m). rewrite Hsec.
      destruct (from_protocol_message_Ok m) as (e & -> & _). by rewrite ok_bind, Hn.
    + intros content tags Hp.
      destruct (prepare_publish_Ok _ _ _ _ _ Hp) as (e & rest & He & -> & Hrest & Hcase).
      rewrite Hsec in Hcase. destruct Hcase as (pk & Hpk & Hct & Hm). exists pk, e.
      split_and!; [done..|]. by rewrite (proj1 (envelope_tags_read e rest Hrest)).
  - intros self self' reply out Hpub. unfold LiveNostrTransport_publish in Hpub.
    destruct (lnt_cmd_tx self); cbn [negb reject_if] in Hpub; [|by injection Hpub as <- <-].
    rewrite ok_bind in Hpub.
    destruct (prepare_publish (lnt_cfg self) nonce m) as [pt|err|];
      [|by injection Hpub as <- <-..].
    destruct reply as [[err|u]| |]; [by injection Hpub as <- <-| |by injection Hpub as <- <-..].
    destruct (ProtocolMessage_is_for m _); injection Hpub as <- <-;
      (split; [by intros []|]); intros _; split_and!; eauto. cbn. by rewrite app_nil_r.
Qed.

(** C35: the transport authenticates neither the sender nor the vault.  An event
    of any key, of a stranger as well as of a participant, that carries the tags
    and the plain content of the envelope of a message is received as that
    message: as a message of whatever sender the tags name, of a secret kind
    without encryption, and from an event that names no vault.  The directory is
    not asked for the sender and the vault hashtag is left to the relay. *)
Theorem stranger_event_received (stranger : PublicKey) id m b :
  sendable m -> u16_ids m -> ProtocolMessage_is_for m (lc_self_id (lnt_cfg b)) = true ->
  id ∉ lnt_seen b ->
  exists e, NostrEnvelopeEvent_from_protocol_message m = Ok e /\
    find_tag "t" (NostrEnvelopeEvent_tags e) = None /\
    lnt_inbound (LiveNostrTransport_receive
                   (mkEvent id stranger (NostrEnvelopeEvent_tags e) (ne_content e)) b) =
      lnt_inbound b ++ [m].
Proof.
  intros Hm Hids Hfor Hid. destruct (from_protocol_message_Ok m) as (e & He & _).
  exists e. split_and!; [done|by unfold NostrEnvelopeEvent_tags; destruct (ne_recipient e)|].
  unfold LiveNostrTransport_receive.
  rewrite (handle_carried_event _ e [] m); [by rewrite Hfor| |..]; try done.
  - by rewrite app_nil_r.
  - intros _. unfold opened, has_encrypted_marker, tag_value. cbn [ev_tags ev_content].
    rewrite bool_decide_eq_false_2; [done|].
    unfold NostrEnvelopeEvent_tags. by destruct (ne_recipient e).
Qed.
End live_properties.

(** ** The theorems at concrete inputs *)

Section witnesses.
Local Existing Instances digits_json digits_json_laws.
Definition live_utf8_error : Utf8Error := fun _ => "invalid utf-8".
Local Existing Instance live_utf8_error.

(** Keys are their own public keys and a ciphertext is the marked plaintext. *)
Definition toy_sdk : NostrSdk := {|
  Keys := N;
  PublicKey := N;
  EventId := N;
  keys_public_key k := k;
  nip44_encrypt _ _ _ plaintext := inr (String "#" plaintext);
  nip44_decrypt _ _ ciphertext := match ciphertext with
                                  | String _ plaintext => inr plaintext
                                  | EmptyString => inl "empty"
                                  end;
  tag_parse values := match values with [] => inl "empty tag" | _ => inr values end;
  tag_hashtag s := ["t"; s];
  tag_public_key pk := ["p"; dec pk];
  parse_int_error _ := "invalid digit";
|}.

Local Existing Instance toy_sdk.

Lemma toy_sdk_laws : NostrSdkLaws.
Proof.
  split.
  - by intros nonce sender receiver plaintext ciphertext [= <-].
  - by intros [] ?.
  - intros s. by exists s.
  - intros pk. by exists (dec pk).
Qed.

Definition sender_config : LiveNostrTransportConfig :=
  mkLiveNostrTransportConfig [] "vault" (mkParticipantId 1) (11%N : Keys)
    (ParticipantDirectory_insert ParticipantDirectory_new (mkParticipantId 2) (22%N : PublicKey)).

Definition receiver : LiveNostrTransport :=
  LiveNostrTransport_new
    (mkLiveNostrTransportConfig [] "vault" (mkParticipantId 2) (22%N : Keys)
       ParticipantDirectory_new).

Definition round2_message : ProtocolMessage :=
  ProtocolMessage_direct (mkSessionId "vault-1-dkg") (mkParticipantId 1) (mkParticipantId 2)
    HtssDkgRound2 [x09; x08; x07].

Lemma live_delivery_witness :
  exists content tags,
    prepare_publish sender_config 0 round2_message = Ok (content, tags) /\
    lnt_inbound (LiveNostrTransport_receive (mkEvent (5%N : EventId) (11%N : PublicKey) tags content)
                   receiver) = [round2_message].
Proof.
  destruct (prepare_publish sender_config 0 round2_message) as [[content tags]| |] eqn:E;
    [|vm_compute in E; discriminate E..].
  exists content, tags. split; [reflexivity|].
  refine (proj1 (@live_delivery _ toy_sdk_laws _ _ _ sender_config 0 round2_message content tags
                   (5%N : EventId) receiver _ _ E _ _)).
  - split; [reflexivity|]. split; [discriminate|]. split; [|reflexivity].
    intros r [= <-]. discriminate.
  - split; [discriminate|]. intros r [= <-]. discriminate.
  - intros r [= <-] _. reflexivity.
  - apply not_elem_of_empty.
Defined.

Lemma live_publish_safe_witness :
  is_err (prepare_publish (lnt_cfg receiver) 0 round2_message) = true.
Proof.
  apply (proj1 (@live_publish_safe _ toy_sdk_laws _ _ _ (lnt_cfg receiver) 0 round2_message)
           (mkParticipantId 2)); reflexivity.
Defined.

(** The key 99 belongs to nobody and speaks for participant 1. *)
Lemma stranger_event_received_witness :
  exists e, NostrEnvelopeEvent_from_protocol_message round2_message = Ok e /\
    lnt_inbound (LiveNostrTransport_receive
                   (mkEvent (5%N : EventId) (99%N : PublicKey) (NostrEnvelopeEvent_tags e)
                      (ne_content e)) receiver) = [round2_message].
Proof.
  destruct (stranger_event_received (99%N : @PublicKey toy_sdk) (5%N : @EventId toy_sdk)
              round2_message receiver)
    as (e & He & _ & Hr).
  - split; [reflexivity|]. split; [discriminate|]. split; [|reflexivity].
    intros r [= <-]. discriminate.
  - split; [discriminate|]. intros r [= <-]. discriminate.
  - reflexivity.
  - apply not_elem_of_empty.
  - exists e. split; [exact He|exact Hr].
Defined.
End witnesses.
