(* ===== verification/LiveNostrTests.v ===== *)
(** The unit tests of [crates/dkgkit-nostr/src/live.rs].

    [Keys::generate()] is an argument of the tests that call it.  The tests of tags
    and of draining pass for all keys, over every lawful [NostrSdk] and serializer;
    those of the encryption need what NIP-44 promises beyond the round trip, the
    class [Nip44Privacy]. *)

From Stdlib Require Import Ascii String Strings.Byte.
From stdpp Require Import base numbers countable gmap strings list.
From S2P Require Import Prelude Core TestKit Codec Transport Nostr LiveNostr.

(** Encryption succeeds on short texts and hides the text, and only the addressee
    opens it.  The randomness is not that which gives the plaintext away. *)
Class Nip44Privacy `{NostrSdk} : Prop := {
  nip44_encrypts nonce sender receiver plaintext :
    plaintext <> "" -> exists ciphertext,
    nip44_encrypt nonce sender receiver plaintext = inr ciphertext /\ ciphertext <> plaintext;
  nip44_addressee nonce sender receiver other plaintext ciphertext :
    nip44_encrypt nonce sender receiver plaintext = inr ciphertext ->
    keys_public_key other <> receiver ->
    exists err, nip44_decrypt other (keys_public_key sender) ciphertext = inl err;
}.

Section tests.
Context `{NostrSdk} `{SerdeJson ProtocolMessage} `{Utf8Error}.

(** ** NIP-44 *)

Definition round_trips_between_two_keys (nonce : N) (alice bob : Keys) : Result unit :=
  ciphertext ← unwrap (encrypt_for nonce alice (keys_public_key bob) "secret-share");
  assert_ne ciphertext "secret-share";;
  plaintext ← unwrap (decrypt_from bob (keys_public_key alice) ciphertext);
  assert_eq plaintext "secret-share".

Definition third_party_cannot_decrypt (nonce : N) (alice bob eve : Keys) : Result unit :=
  ciphertext ← unwrap (encrypt_for nonce alice (keys_public_key bob) "secret-share");
  assert (is_err (decrypt_from eve (keys_public_key alice) ciphertext)).

(** ** Tags *)

Definition sample_message : Result ProtocolMessage :=
  session_id ← unwrap (SessionId_new "vault-1-dkg");
  sender ← unwrap (ParticipantId_new 1);
  recipient ← unwrap (ParticipantId_new 2);
  Ok (ProtocolMessage_direct session_id sender recipient HtssDkgRound2 [x09; x08; x07]).

(** [EventBuilder::new(..).tags(tags).sign_with_keys(&keys)]: the event carries the
    tags, the content and the public key; its identifier is some value. *)
Definition signed_event (id : EventId) (keys : Keys) (tags : list (list string))
    (content : string) : Event :=
  mkEvent id (keys_public_key keys) tags content.

Definition event_round_trips_to_protocol_message (id : EventId) (keys : Keys) : Result unit :=
  message ← sample_message;
  envelope ← unwrap (NostrEnvelopeEvent_from_protocol_message message);
  tags ← build_event_tags envelope "vault-1" None;
  let event := signed_event id keys tags (ne_content envelope) in
  assert_eq (tag_value event "app") (Some DKGKIT_NOSTR_APP_TAG);;
  assert_eq (tag_value event "session") (Some "vault-1-dkg");;
  assert (negb (has_encrypted_marker event));;
  rebuilt ← unwrap (envelope_from_event (ev_content event) event);
  decoded ← unwrap (NostrEnvelopeEvent_to_protocol_message rebuilt);
  assert_eq decoded message.

Definition encrypted_marker_round_trips (id : EventId) (keys recipient : Keys) : Result unit :=
  message ← sample_message;
  envelope ← unwrap (NostrEnvelopeEvent_from_protocol_message message);
  tags ← build_event_tags envelope "vault-1" (Some (keys_public_key recipient));
  let event := signed_event id keys tags "ciphertext" in
  assert (has_encrypted_marker event).

(** ** Draining *)

(** A transport that was never connected, with messages in its buffer. *)
Definition transport_with_buffer (keys : Keys) (messages : list ProtocolMessage) :
  Result LiveNostrTransport :=
  self_id ← unwrap (ParticipantId_new 1);
  let cfg := mkLiveNostrTransportConfig [] "vault-1" self_id keys ParticipantDirectory_new in
  let transport := LiveNostrTransport_new cfg in
  Ok (mkLiveNostrTransport (lnt_cfg transport) (lnt_cmd_tx transport)
        (lnt_inbound transport ++ messages) (lnt_handle transport) (lnt_connected transport)
        (lnt_seen transport)).

Definition buffered (session : SessionId) (sender : N) (kind : ProtocolMessageKind)
    (payload : bytes) : Result ProtocolMessage :=
  sender ← unwrap (ParticipantId_new sender);
  Ok (ProtocolMessage_new session sender kind payload).

Definition drains_only_matching_session_and_predicate (keys : Keys) : Result unit :=
  session ← unwrap (SessionId_new "s1");
  other ← unwrap (SessionId_new "s2");
  first ← buffered session 1 FrostDkgRound1 [x01];
  second ← buffered session 2 FrostSigningNonce [x02];
  third ← buffered other 3 FrostDkgRound1 [x03];
  transport ← transport_with_buffer keys [first; second; third];
  let only_round1 := fun message => bool_decide (pm_kind message = FrostDkgRound1) in
  let '((transport, _), drained) :=
    LiveNostrTransport_drain_matching session (pure_predicate only_round1) (transport, tt) in
  drained ← unwrap drained;
  assert_eq (length drained) 1;;
  assert_eq (LiveNostrTransport_pending_len transport) 2.
End tests.

(** ** They pass *)

Section passing.
Context `{NostrSdkLaws} `{SerdeJson ProtocolMessage} `{!SerdeJsonLaws ProtocolMessage} `{Utf8Error}.

Lemma sample_envelope :
  exists m e, sample_message = Ok m /\ NostrEnvelopeEvent_from_protocol_message m = Ok e /\
    NostrEnvelopeEvent_to_protocol_message e = Ok m /\ tags_match e m /\ u16_ids m /\
    pm_session_id m = mkSessionId "vault-1-dkg".
Proof.
  destruct sample_message as [m| |] eqn:E; [|discriminate E..].
  destruct (from_protocol_message_Ok m) as (e & He & Ht & Hd). injection E as E.
  assert (Hm : sendable m).
  { rewrite <- E. split_and!; try done. by intros r [= <-]. }
  exists m, e. split_and!; try done; [by apply to_protocol_message_Ok|..]; rewrite <- E; [|done].
  split; [done|]. by intros r [= <-].
Qed.

(** The tests of tags and of draining pass for all keys, whatever the lawful SDK and
    serializer. *)
Theorem live_transport_tests_pass id (keys recipient : Keys) :
  passes (event_round_trips_to_protocol_message id keys) /\
  passes (encrypted_marker_round_trips id keys recipient) /\
  passes (drains_only_matching_session_and_predicate keys).
Proof.
  destruct sample_envelope as (m & e & Hm & He & Hto & Ht & Hids & Hsid).
  pose proof Ht as (Hk & Ha & Hs & Hf & Hr & Hmk). split_and!.
  - destruct (build_event_tags_Ok e "vault-1" None) as (rest & Hb & Hrest & Henc).
    assert (Hrec : find_tag "recipient" rest = None) by (by apply Hrest).
    destruct (envelope_tags_read e rest Hrec) as (Hmark & Happ & Hses & _).
    unfold event_round_trips_to_protocol_message. rewrite Hm, ok_bind, He. cbn [unwrap].
    rewrite ok_bind, Hb, ok_bind. cbv zeta.
    set (event := signed_event id keys (NostrEnvelopeEvent_tags e ++ rest) (ne_content e)).
    assert (Hread : forall key, tag_value event key = find_tag key (NostrEnvelopeEvent_tags e ++ rest))
      by done.
    assert (Happ' : tag_value event "app" = Some DKGKIT_NOSTR_APP_TAG) by (by rewrite Hread, Happ, Ha).
    assert (Hses' : tag_value event "session" = Some "vault-1-dkg")
      by (by rewrite Hread, Hses, Hs, Hsid).
    rewrite Happ', assert_eq_same, ok_bind, Hses', assert_eq_same, ok_bind.
    assert (Hplain : has_encrypted_marker event = false)
      by (unfold has_encrypted_marker; by rewrite Hread, Hmark, Henc).
    rewrite Hplain. cbn [negb assert]. rewrite ok_bind.
    rewrite (envelope_from_event_Ok e event); [|rewrite Hf; apply (proj1 Hids)| |done|by exists rest].
    + cbn [unwrap]. rewrite ok_bind. change (ev_content event) with (ne_content e).
      replace (mkNostrEnvelopeEvent _ _ _ _ _ _ _) with e by (by destruct e).
      rewrite Hto. cbn [unwrap]. rewrite ok_bind. by apply passes_assert_eq.
    + rewrite Hr. intros r. destruct (pm_recipient m) as [r'|] eqn:Er; [|done]. intros [= <-].
      by apply (proj2 Hids).
  - destruct (build_event_tags_Ok e "vault-1" (Some (keys_public_key recipient)))
      as (rest & Hb & Hrest & Henc).
    assert (Hrec : find_tag "recipient" rest = None) by (by apply Hrest).
    destruct (envelope_tags_read e rest Hrec) as (Hmark & _).
    unfold encrypted_marker_round_trips. rewrite Hm, ok_bind, He. cbn [unwrap].
    rewrite ok_bind, Hb, ok_bind. apply passes_assert. unfold has_encrypted_marker, tag_value.
    cbn [ev_tags signed_event]. rewrite Hmark, Henc. by apply bool_decide_eq_true_2.
  - by eexists.
Qed.

(** The tests of the encryption pass under the promises of NIP-44. *)
Theorem nip44_tests_pass `{!Nip44Privacy} nonce (alice bob eve : Keys) :
  keys_public_key eve <> keys_public_key bob ->
  passes (round_trips_between_two_keys nonce alice bob) /\
  passes (third_party_cannot_decrypt nonce alice bob eve).
Proof.
  intros Heve.
  destruct (nip44_encrypts nonce alice (keys_public_key bob) "secret-share" ltac:(done))
    as (c & Hc & Hne).
  destruct (nip44_addressee _ _ _ _ _ _ Hc Heve) as (err & Herr).
  unfold round_trips_between_two_keys, third_party_cannot_decrypt, encrypt_for, decrypt_from.
  rewrite Hc. cbn [unwrap]. rewrite !ok_bind, (nip44_round_trip _ _ _ _ _ Hc), Herr.
  unfold assert_ne. rewrite bool_decide_eq_true_2 by done. split; by eexists.
Qed.
End passing.

(** A toy encryption that names the addressee. *)
Definition addressed_sdk : NostrSdk := {|
  Keys := bool;
  PublicKey := bool;
  EventId := N;
  keys_public_key k := k;
  nip44_encrypt _ _ receiver plaintext := inr (String (if receiver then "1" else "0") plaintext);
  nip44_decrypt keys _ ciphertext :=
    match ciphertext with
    | String c plaintext =>
        if decide (c = if keys then "1"%char else "0"%char) then inr plaintext
        else inl "not for this key"
    | EmptyString => inl "empty"
    end;
  tag_parse values := match values with [] => inl "empty tag" | _ => inr values end;
  tag_hashtag s := ["t"; s];
  tag_public_key pk := ["p"; if pk then "1" else "0"];
  parse_int_error _ := "invalid digit";
|}.

Lemma addressed_sdk_laws : @NostrSdkLaws addressed_sdk.
Proof.
  split.
  - intros nonce sender receiver plaintext ciphertext [= <-]. cbn. by rewrite decide_True.
  - by intros [] ?.
  - intros s. by exists s.
  - intros pk. by eexists.
Qed.

Lemma string_cons_ne c s : String c s <> s.
Proof. intros E%(f_equal String.length). cbn in E. lia. Qed.

Lemma addressed_sdk_privacy : @Nip44Privacy addressed_sdk.
Proof.
  split.
  - intros nonce sender receiver plaintext _. eexists. split; [reflexivity|]. apply string_cons_ne.
  - intros nonce sender receiver other plaintext ciphertext [= <-] Hne. cbn.
    rewrite decide_False; [by eexists|]. cbn in Hne. by destruct receiver, other.
Qed.

Lemma nip44_tests_pass_witness :
  passes (@round_trips_between_two_keys addressed_sdk 0 true false) /\
  passes (@third_party_cannot_decrypt addressed_sdk 0 true false true).
Proof.
  apply (@nip44_tests_pass addressed_sdk addressed_sdk_laws addressed_sdk_privacy). discriminate.
Defined.
