(* ===== verification/RelayThread.v ===== *)
(** [crates/dkgkit-nostr/src/live.rs]: the background relay thread and its
    interleavings with the caller.

    [LiveNostr] describes the operations of [LiveNostrTransport] as atomic
    functions of what the caller hears from the thread.  Here the thread is
    modelled: [connect] spawns it, commands reach it through an unbounded channel,
    it answers through the [ready] and [ack] channels, and it pushes decoded
    events into the buffer it shares with the caller.  Any number of threads can
    be alive at once, since a [connect] that gives up leaves its thread behind.

    The [tokio] runtime, the [nostr_sdk] client and the relay are outside: what
    they answer ([StartEnv], the result of a send, the events) is chosen by the
    steps.  An [.await] of the thread is taken to finish. *)

From Stdlib Require Import Ascii String Strings.Byte.
From stdpp Require Import base numbers countable gmap strings list relations.
From S2P Require Import Prelude Core Codec Transport Nostr LiveNostr.

Section thread.
Context `{NostrSdk} `{SerdeJson ProtocolMessage} `{Utf8Error}.

(** [ack] is the index of the acknowledgement channel. *)
Inductive Command : Type :=
  | Publish (content : string) (tags : list (list string)) (ack : nat)
  | Shutdown.

(** Where the thread is: before the loop, in it, after [break], returned. *)
Inductive ThreadPhase : Type := Starting | Running | Closing | Stopped.

(** [rt_commands]: the queue of the command channel; [rt_open]: whether the
    caller still holds its sender; [rt_ready]: the value in the [ready] channel. *)
Record RelayThread := mkRelayThread {
  rt_phase : ThreadPhase;
  rt_commands : list Command;
  rt_open : bool;
  rt_ready : option (DkgKitError + unit);
  rt_seen : gset EventId;
}.

(** An acknowledgement channel, with the call that created it. *)
Record AckChannel := mkAckChannel {
  ac_nonce : N;
  ac_message : ProtocolMessage;
  ac_reply : option (DkgKitError + unit);
}.

(** What a call waits for. *)
Inductive Caller : Type :=
  | Idle
  | Connecting (tid : nat)
  | Publishing (ack : nat)
  | Joining (tid : nat).

(** What was handed to the relay client, for which call, and its result. *)
Record Handed := mkHanded {
  hd_ack : nat;
  hd_content : string;
  hd_tags : list (list string);
  hd_result : DkgKitError + unit;
}.

(** The fields of [LiveNostrTransport], with the thread that the sender and the
    join handle belong to, and the threads and channels around it. *)
Record World := mkWorld {
  w_cfg : LiveNostrTransportConfig;
  w_cmd_tx : option nat;
  w_inbound : list ProtocolMessage;
  w_handle : option nat;
  w_connected : bool;
  w_caller : Caller;
  w_threads : list RelayThread;
  w_acks : list AckChannel;
  w_handed : list Handed;
}.

Definition world_new (cfg : LiveNostrTransportConfig) : World :=
  mkWorld cfg None [] None false Idle [] [] [].

Definition set_threads (threads : list RelayThread) (w : World) : World :=
  mkWorld (w_cfg w) (w_cmd_tx w) (w_inbound w) (w_handle w) (w_connected w) (w_caller w)
    threads (w_acks w) (w_handed w).

Definition set_caller (caller : Caller) (w : World) : World :=
  mkWorld (w_cfg w) (w_cmd_tx w) (w_inbound w) (w_handle w) (w_connected w) caller
    (w_threads w) (w_acks w) (w_handed w).

Definition set_inbound (inbound : list ProtocolMessage) (w : World) : World :=
  mkWorld (w_cfg w) (w_cmd_tx w) inbound (w_handle w) (w_connected w) (w_caller w)
    (w_threads w) (w_acks w) (w_handed w).

Definition set_connection (cmd_tx handle : option nat) (connected : bool) (w : World) : World :=
  mkWorld (w_cfg w) cmd_tx (w_inbound w) handle connected (w_caller w)
    (w_threads w) (w_acks w) (w_handed w).

Definition set_acks (acks : list AckChannel) (w : World) : World :=
  mkWorld (w_cfg w) (w_cmd_tx w) (w_inbound w) (w_handle w) (w_connected w) (w_caller w)
    (w_threads w) acks (w_handed w).

Definition add_handed (h : Handed) (w : World) : World :=
  mkWorld (w_cfg w) (w_cmd_tx w) (w_inbound w) (w_handle w) (w_connected w) (w_caller w)
    (w_threads w) (w_acks w) (w_handed w ++ [h]).

(** [cmd_tx] goes out of scope. *)
Definition close_thread (t : RelayThread) : RelayThread :=
  mkRelayThread (rt_phase t) (rt_commands t) false (rt_ready t) (rt_seen t).

(** ** The thread *)

(** What the runtime and the client answer while the thread starts; [None] is
    success. *)
Record StartEnv := mkStartEnv {
  se_runtime_build : option string;
  se_add_relay : string -> option string;
  se_subscribe : option string;
}.

(** [if let Err(err) = .. { .. return; }] *)
Definition unless_failed (failure : option string) (prefix : string) : DkgKitError + unit :=
  match failure with
  | Some err => inl (Transport_ (prefix +:+ err))
  | None => inr tt
  end.

Fixpoint add_relays (env : StartEnv) (relays : list string) : DkgKitError + unit :=
  match relays with
  | [] => inr tt
  | relay :: relays =>
      match unless_failed (se_add_relay env relay) ("add_relay " +:+ relay +:+ " failed: ") with
      | inl err => inl err
      | inr _ => add_relays env relays
      end
  end.

(** The value the thread sends through [ready_tx]. *)
Definition thread_startup (cfg : LiveNostrTransportConfig) (env : StartEnv) : DkgKitError + unit :=
  match unless_failed (se_runtime_build env) "tokio runtime build failed: " with
  | inl err => inl err
  | inr _ =>
      match add_relays env (lc_relays cfg) with
      | inl err => inl err
      | inr _ => unless_failed (se_subscribe env) "subscribe failed: "
      end
  end.

Definition thread_start (env : StartEnv) (tid : nat) (w : World) : option World :=
  t ← w_threads w !! tid;
  match rt_phase t with
  | Starting =>
      let ready := thread_startup (w_cfg w) env in
      let t := match ready with
               | inr _ => mkRelayThread Running (rt_commands t) (rt_open t) (Some ready) ∅
               | inl _ => mkRelayThread Stopped [] (rt_open t) (Some ready) ∅
               end in
      Some (set_threads (<[tid := t]> (w_threads w)) w)
  | _ => None
  end.

(** [let _ = ack.send(result);] *)
Definition send_ack (ack : nat) (result : DkgKitError + unit) (w : World) : World :=
  set_acks (alter (fun c => mkAckChannel (ac_nonce c) (ac_message c) (Some result)) ack (w_acks w)) w.

(** The branch [cmd_rx.recv()] of the loop; [sent] is the answer of
    [send_event_builder].  The receiver waits while the queue is empty and the
    sender alive. *)
Definition thread_command (sent : string + unit) (tid : nat) (w : World) : option World :=
  t ← w_threads w !! tid;
  match rt_phase t with
  | Running =>
      match rt_commands t with
      | Publish content tags ack :: commands =>
          let result := match sent with
                        | inl err => inl (Transport_ ("send_event failed: " +:+ err))
                        | inr _ => inr tt
                        end in
          let t := mkRelayThread Running commands (rt_open t) (rt_ready t) (rt_seen t) in
          Some (send_ack ack result
                  (add_handed (mkHanded ack content tags result)
                     (set_threads (<[tid := t]> (w_threads w)) w)))
      | Shutdown :: commands =>
          let t := mkRelayThread Closing commands (rt_open t) (rt_ready t) (rt_seen t) in
          Some (set_threads (<[tid := t]> (w_threads w)) w)
      | [] =>
          if rt_open t then None
          else
            let t := mkRelayThread Closing [] (rt_open t) (rt_ready t) (rt_seen t) in
            Some (set_threads (<[tid := t]> (w_threads w)) w)
      end
  | _ => None
  end.

(** The branch [notifications.recv()] for an event. *)
Definition thread_notification (event : Event) (tid : nat) (w : World) : option World :=
  t ← w_threads w !! tid;
  match rt_phase t with
  | Running =>
      let '(seen, inbound) :=
        handle_inbound_event (lc_keys (w_cfg w)) (lc_self_id (w_cfg w))
          (rt_seen t, w_inbound w) event in
      let t := mkRelayThread Running (rt_commands t) (rt_open t) (rt_ready t) seen in
      Some (set_inbound inbound (set_threads (<[tid := t]> (w_threads w)) w))
  | _ => None
  end.

(** [client.disconnect().await] and the return: the receiver is dropped. *)
Definition thread_stop (tid : nat) (w : World) : option World :=
  t ← w_threads w !! tid;
  match rt_phase t with
  | Closing =>
      let t := mkRelayThread Stopped [] (rt_open t) (rt_ready t) (rt_seen t) in
      Some (set_threads (<[tid := t]> (w_threads w)) w)
  | _ => None
  end.

(** ** The caller *)

(** [UnboundedSender::send]: fails when the receiver is gone. *)
Definition send_command (tid : nat) (command : Command) (w : World) : option World :=
  t ← w_threads w !! tid;
  match rt_phase t with
  | Stopped => None
  | phase =>
      let t := mkRelayThread phase (rt_commands t ++ [command]) (rt_open t) (rt_ready t)
                 (rt_seen t) in
      Some (set_threads (<[tid := t]> (w_threads w)) w)
  end.

Definition drop_sender (tid : nat) (w : World) : World :=
  set_threads (alter close_thread tid (w_threads w)) w.

(** Each operation runs up to the point where it blocks ([None]) or returns. *)
Definition call_connect (w : World) : World * option (Result unit) :=
  if w_connected w then (w, Some (Ok tt))
  else
    (set_caller (Connecting (length (w_threads w)))
       (set_threads (w_threads w ++ [mkRelayThread Starting [] true None ∅]) w), None).

Definition call_publish (nonce : N) (message : ProtocolMessage) (w : World) :
  World * option (Result unit) :=
  match (cmd_tx ← ok_or (w_cmd_tx w) (Transport_ "transport not connected");
         prepared ← prepare_publish (w_cfg w) nonce message;
         Ok (cmd_tx, prepared)) with
  | Err e => (w, Some (Err e))
  | Panic => (w, Some Panic)
  | Ok (cmd_tx, (content, tags)) =>
      let ack := length (w_acks w) in
      match send_command cmd_tx (Publish content tags ack) w with
      | None => (w, Some (Err (Transport_ "relay thread is gone")))
      | Some w =>
          (set_caller (Publishing ack)
             (set_acks (w_acks w ++ [mkAckChannel nonce message None]) w), None)
      end
  end.

(** [self.connected = false; Ok(())] *)
Definition finish_disconnect (w : World) : World * option (Result unit) :=
  (set_caller Idle (set_connection (w_cmd_tx w) (w_handle w) false w), Some (Ok tt)).

Definition call_disconnect (w : World) : World * option (Result unit) :=
  let w := match w_cmd_tx w with
           | Some tid =>
               let w := set_connection None (w_handle w) (w_connected w) w in
               drop_sender tid (default w (send_command tid Shutdown w))
           | None => w
           end in
  match w_handle w with
  | Some tid => (set_caller (Joining tid) (set_connection (w_cmd_tx w) None (w_connected w) w), None)
  | None => finish_disconnect w
  end.

Definition call_drain {P} (session_id : SessionId) (predicate : P -> ProtocolMessage -> bool * P)
    (p : P) (w : World) : World * P * list ProtocolMessage :=
  let '(p, kept, matched) := drain_loop session_id predicate p (w_inbound w) in
  (set_inbound kept w, p, matched).

(** [ready_rx.recv_timeout(..)] returned: the rest of [connect]. *)
Definition finish_connect (tid : nat) (reply : ThreadReply) (w : World) : World * Result unit :=
  let w := set_caller Idle w in
  match reply with
  | Replied (inr _) => (set_connection (Some tid) (Some tid) true w, Ok tt)
  | Replied (inl err) => (drop_sender tid w, Err err)
  | ThreadGone | TimedOut => (drop_sender tid w, Err (Transport_ "relay connect timed out"))
  end.

(** [ack_rx.recv_timeout(..)] returned: the rest of [publish]. *)
Definition finish_publish (message : ProtocolMessage) (reply : ThreadReply) (w : World) :
  World * Result unit :=
  let w := set_caller Idle w in
  match reply with
  | Replied (inr _) =>
      (if ProtocolMessage_is_for message (lc_self_id (w_cfg w))
       then set_inbound (w_inbound w ++ [message]) w else w, Ok tt)
  | Replied (inl err) => (w, Err err)
  | ThreadGone | TimedOut => (w, Err (Transport_ "relay publish timed out"))
  end.

(** What a receiver with a timeout returns: the value that has arrived, or,
    with none there, the timeout. *)
Definition hears (slot : option (DkgKitError + unit)) : ThreadReply :=
  match slot with Some r => Replied r | None => TimedOut end.

(** ** Interleavings *)

Inductive Operation : Type :=
  | OpConnect
  | OpPublish (nonce : N) (message : ProtocolMessage)
  | OpDisconnect.

(** What an observer of the transport sees of a step. *)
Inductive Label : Type :=
  | Silent
  | Delivered (event : Event)
  | Returned (op : Operation) (r : Result unit)
  | Drained (messages : list ProtocolMessage).

Definition call_label (op : Operation) (r : option (Result unit)) : Label :=
  match r with Some r => Returned op r | None => Silent end.

Inductive thread_step (w : World) : Label -> World -> Prop :=
  | step_start env tid w' : thread_start env tid w = Some w' -> thread_step w Silent w'
  | step_command sent tid w' : thread_command sent tid w = Some w' -> thread_step w Silent w'
  | step_event event tid w' :
      thread_notification event tid w = Some w' -> thread_step w (Delivered event) w'
  | step_stop tid w' : thread_stop tid w = Some w' -> thread_step w Silent w'.

(** The operations take [&mut self]: one call at a time. *)
Inductive caller_step (w : World) : Label -> World -> Prop :=
  | step_connect w' r :
      w_caller w = Idle -> call_connect w = (w', r) -> caller_step w (call_label OpConnect r) w'
  | step_publish nonce m w' r :
      w_caller w = Idle -> call_publish nonce m w = (w', r) ->
      caller_step w (call_label (OpPublish nonce m) r) w'
  | step_disconnect w' r :
      w_caller w = Idle -> call_disconnect w = (w', r) ->
      caller_step w (call_label OpDisconnect r) w'
  | step_drain P session_id (predicate : P -> ProtocolMessage -> bool * P) p w' p' messages :
      w_caller w = Idle -> call_drain session_id predicate p w = (w', p', messages) ->
      caller_step w (Drained messages) w'
  | step_connected tid t w' r :
      w_caller w = Connecting tid -> w_threads w !! tid = Some t ->
      finish_connect tid (hears (rt_ready t)) w = (w', r) ->
      caller_step w (Returned OpConnect r) w'
  | step_published ack c w' r :
      w_caller w = Publishing ack -> w_acks w !! ack = Some c ->
      finish_publish (ac_message c) (hears (ac_reply c)) w = (w', r) ->
      caller_step w (Returned (OpPublish (ac_nonce c) (ac_message c)) r) w'
  | step_joined tid t w' r :
      w_caller w = Joining tid -> w_threads w !! tid = Some t -> rt_phase t = Stopped ->
      finish_disconnect w = (w', r) -> caller_step w (call_label OpDisconnect r) w'.

Inductive relay_step (w : World) (l : Label) (w' : World) : Prop :=
  | step_thread : thread_step w l w' -> relay_step w l w'
  | step_caller : caller_step w l w' -> relay_step w l w'.

Inductive relay_run : World -> list Label -> World -> Prop :=
  | run_nil w : relay_run w [] w
  | run_cons w l w1 ls w' : relay_step w l w1 -> relay_run w1 ls w' -> relay_run w (l :: ls) w'.

Definition reachable (cfg : LiveNostrTransportConfig) (w : World) : Prop :=
  exists ls, relay_run (world_new cfg) ls w.
End thread.

(** ** Runs *)

(** One thread is replaced, the caller's fields are the same. *)
Ltac one_thread Ht :=
  split; [done|]; eexists _, _, _; split; [exact Ht|]; split; [reflexivity|].

Section runs.
Context `{NostrSdk} `{SerdeJson ProtocolMessage} `{Utf8Error}.

Lemma run_snoc w ls w1 l w' : relay_run w ls w1 -> relay_step w1 l w' -> relay_run w (ls ++ [l]) w'.
Proof.
  intros Hrun Hstep. induction Hrun as [w|w k w2 ls w1 Hk Hrun IH].
  - by eapply run_cons, run_nil.
  - cbn. eapply run_cons; [exact Hk|]. by apply IH.
Qed.

(** Induction over the runs from the start, for a predicate that may use the
    invariants already shown. *)
Lemma reachable_ind cfg (I : World -> Prop) :
  I (world_new cfg) ->
  (forall w l w', reachable cfg w -> I w -> relay_step w l w' -> I w') ->
  forall w, reachable cfg w -> I w.
Proof.
  intros Hinit Hstep w [ls Hrun].
  assert (Hgen : forall w0 ls w, relay_run w0 ls w -> reachable cfg w0 -> I w0 -> I w).
  { clear ls w Hrun. induction 1 as [|w0 l w1 ls w Hs Hrun IH]; [done|]. intros [ks Hr] HI.
    apply IH; [by eexists; eapply run_snoc|]. eapply Hstep; [by exists ks|done..]. }
  eapply Hgen; [done| |done]. exists []. constructor.
Qed.

(** What a step of a thread leaves alone: one thread moves, the caller's side
    stays. *)
Definition same_caller (w w' : World) : Prop :=
  w_cfg w' = w_cfg w /\ w_cmd_tx w' = w_cmd_tx w /\ w_handle w' = w_handle w /\
  w_connected w' = w_connected w /\ w_caller w' = w_caller w.

(** The transitions of one thread. *)
Inductive thread_moves : RelayThread -> RelayThread -> Prop :=
  | moves_running commands o ready seen ready' :
      thread_moves (mkRelayThread Starting commands o ready seen)
                   (mkRelayThread Running commands o (Some (inr ready')) ∅)
  | moves_failed commands o ready seen err :
      thread_moves (mkRelayThread Starting commands o ready seen)
                   (mkRelayThread Stopped [] o (Some (inl err)) ∅)
  | moves_publish content tags ack commands o ready seen :
      thread_moves (mkRelayThread Running (Publish content tags ack :: commands) o ready seen)
                   (mkRelayThread Running commands o ready seen)
  | moves_shutdown commands o ready seen :
      thread_moves (mkRelayThread Running (Shutdown :: commands) o ready seen)
                   (mkRelayThread Closing commands o ready seen)
  | moves_closed ready seen :
      thread_moves (mkRelayThread Running [] false ready seen)
                   (mkRelayThread Closing [] false ready seen)
  | moves_event commands o ready seen seen' :
      thread_moves (mkRelayThread Running commands o ready seen)
                   (mkRelayThread Running commands o ready seen')
  | moves_stop commands o ready seen :
      thread_moves (mkRelayThread Closing commands o ready seen)
                   (mkRelayThread Stopped [] o ready seen).

(** A thread loses commands, or takes one, hands it to the relay and answers. *)
Definition ledger (w w' : World) (t t' : RelayThread) : Prop :=
  (w_acks w' = w_acks w /\ w_handed w' = w_handed w /\ rt_commands t' ⊆+ rt_commands t) \/
  exists content tags ack r,
    rt_commands t = Publish content tags ack :: rt_commands t' /\
    w_acks w' = alter (fun c => mkAckChannel (ac_nonce c) (ac_message c) (Some r)) ack (w_acks w) /\
    w_handed w' = w_handed w ++ [mkHanded ack content tags r].

(** The steps left to a thread that gets no new commands. *)
Definition thread_work (t : RelayThread) : nat :=
  match rt_phase t with Starting => 3 | Running => 2 | Closing => 1 | Stopped => 0 end
  + length (rt_commands t).

(** A silent step brings the thread closer to its end and leaves the buffer
    alone; a delivery runs the handler with the filter of the thread. *)
Definition effect (w : World) (l : Label) (w' : World) (t t' : RelayThread) : Prop :=
  (l = Silent /\ w_inbound w' = w_inbound w /\ thread_work t' < thread_work t) \/
  exists event, l = Delivered event /\
    handle_inbound_event (lc_keys (w_cfg w)) (lc_self_id (w_cfg w)) (rt_seen t, w_inbound w) event =
      (rt_seen t', w_inbound w') /\
    thread_work t' = thread_work t.

Lemma thread_step_moves w l w' :
  thread_step w l w' ->
  same_caller w w' /\
  exists tid t t', w_threads w !! tid = Some t /\ w_threads w' = <[tid := t']> (w_threads w) /\
                   thread_moves t t' /\ ledger w w' t t' /\ effect w l w' t t'.
Proof.
  destruct 1 as [env tid w' Hs|sent tid w' Hs|event tid w' Hs|tid w' Hs];
    unfold thread_start, thread_command, thread_notification, thread_stop in Hs;
    apply bind_Some in Hs as ([ph cs o rd sn] & Ht & Hs);
    cbn [rt_phase rt_commands rt_open rt_ready rt_seen] in Hs.
  all: destruct ph; try discriminate Hs.
  - injection Hs as <-. one_thread Ht. unfold effect, thread_work.
    destruct (thread_startup (w_cfg w) env) as [err|[]]; (split; [constructor|]);
      (split; [left; split_and!; auto using submseteq_nil_l|left; split_and!; cbn; [done..|lia]]).
  - destruct cs as [|[content tags ack|] cs];
      [destruct o; [discriminate Hs|]|..]; injection Hs as <-; one_thread Ht; (split; [constructor|]);
      (split; [|left; unfold thread_work; split_and!; cbn; [done..|lia]]).
    + by left.
    + right. by eexists _, _, _, _.
    + left. split_and!; [done..|]. by apply submseteq_cons.
  - destruct (handle_inbound_event _ _ _ event) as [seen inbound] eqn:E. injection Hs as <-.
    one_thread Ht. split; [constructor|]. split; [by left|]. right. exists event. by split_and!.
  - injection Hs as <-. one_thread Ht. split; [constructor|].
    split; left; unfold thread_work; split_and!; cbn; auto using submseteq_nil_l. lia.
Qed.
End runs.

(** ** The connection

    The sender, the join handle and the flag agree, and they name a thread that
    serves; a thread whose channel is open is the one in use. *)

Section connection.
Context `{NostrSdk} `{SerdeJson ProtocolMessage} `{Utf8Error}.

Definition serving (t : RelayThread) : Prop :=
  rt_phase t = Running /\ rt_open t = true /\ Shutdown ∉ rt_commands t.

Definition starting_up (t : RelayThread) : Prop :=
  rt_open t = true /\ rt_commands t = [] /\
  match rt_phase t with
  | Starting => rt_ready t = None
  | Running => rt_ready t = Some (inr tt)
  | Closing => False
  | Stopped => exists e, rt_ready t = Some (inl e)
  end.

Definition winding_down (t : RelayThread) : Prop :=
  rt_open t = false /\ rt_phase t <> Starting.

Definition thread_at (w : World) (tid : nat) (Q : RelayThread -> Prop) : Prop :=
  exists t, w_threads w !! tid = Some t /\ Q t.

(** The thread whose command channel the caller holds. *)
Definition current (w : World) : option nat :=
  match w_caller w with Connecting tid => Some tid | _ => w_cmd_tx w end.

Definition link (w : World) : Prop :=
  match w_caller w with
  | Idle =>
      match w_cmd_tx w with
      | Some tid => w_handle w = Some tid /\ w_connected w = true /\ thread_at w tid serving
      | None => w_handle w = None /\ w_connected w = false
      end
  | Publishing _ =>
      exists tid, w_cmd_tx w = Some tid /\ w_handle w = Some tid /\ w_connected w = true /\
                  thread_at w tid serving
  | Connecting tid =>
      w_cmd_tx w = None /\ w_handle w = None /\ w_connected w = false /\
      thread_at w tid starting_up
  | Joining tid =>
      w_cmd_tx w = None /\ w_handle w = None /\ w_connected w = true /\
      thread_at w tid winding_down
  end.

Definition connection_ok (w : World) : Prop :=
  link w /\ forall tid t, w_threads w !! tid = Some t -> rt_open t = true -> current w = Some tid.

Lemma moves_keep t t' :
  thread_moves t t' ->
  rt_open t' = rt_open t /\ (serving t -> serving t') /\ (starting_up t -> starting_up t') /\
  (winding_down t -> winding_down t').
Proof.
  intros Hm.
  destruct Hm as [? ? ? ? []| | | | | |]; unfold serving, starting_up, winding_down; cbn;
    (split; [done|]); split_and!; try naive_solver.
  - intros (_ & Ho & Hin). split_and!; [done..|]. by intros ?; apply Hin; right.
  - intros (_ & _ & Hin). exfalso. apply Hin. left.
Qed.

Lemma thread_at_insert w w' tid t t' i (Q : RelayThread -> Prop) :
  w_threads w !! tid = Some t -> w_threads w' = <[tid := t']> (w_threads w) ->
  (Q t -> Q t') -> thread_at w i Q -> thread_at w' i Q.
Proof.
  intros Ht Hw HQ (u & Hu & HQu). unfold thread_at. rewrite Hw.
  destruct (decide (i = tid)) as [->|Hne].
  - exists t'. rewrite Ht in Hu. injection Hu as <-. split; [|by apply HQ].
    apply list_lookup_insert_eq. by eapply lookup_lt_Some.
  - exists u. by rewrite list_lookup_insert_ne.
Qed.

Lemma thread_step_connection w l w' : connection_ok w -> thread_step w l w' -> connection_ok w'.
Proof.
  intros [Hlink Hopen] Hs.
  destruct (thread_step_moves w l w' Hs) as ((_ & Htx & Hh & Hc & Hcall) & tid & t & t' & Ht & Hw & Hm & _).
  destruct (moves_keep t t' Hm) as (Ho & Hserve & Hstart & Hwind). split.
  - unfold link in *. rewrite Htx, Hh, Hc, Hcall.
    destruct (w_caller w) as [|i|ack|i]; [destruct (w_cmd_tx w)|..];
      naive_solver eauto using thread_at_insert.
  - intros i u Hu Hou. unfold current. rewrite Htx, Hcall. fold (current w).
    rewrite Hw in Hu. apply list_lookup_insert_Some in Hu as [(<- & <- & _)|[_ Hu]]; [|eauto].
    apply (Hopen tid t Ht). by rewrite <- Ho.
Qed.

Lemma link_transport w w' :
  same_caller w w' -> w_threads w' = w_threads w -> connection_ok w -> connection_ok w'.
Proof.
  intros (_ & Htx & Hh & Hc & Hcall) Hw [Hlink Hopen]. unfold connection_ok, link, current, thread_at in *.
  by rewrite Htx, Hh, Hc, Hcall, Hw.
Qed.

(** Only the thread in use has an open channel, so closing it closes all. *)
Lemma drop_current w tid i t :
  (forall tid t, w_threads w !! tid = Some t -> rt_open t = true -> current w = Some tid) ->
  current w = Some tid ->
  alter close_thread tid (w_threads w) !! i = Some t -> rt_open t = false.
Proof.
  intros Hopen Hcur Ht. destruct (decide (i = tid)) as [->|Hne].
  - rewrite list_lookup_alter_eq in Ht. destruct (w_threads w !! tid); [|discriminate Ht].
    by injection Ht as <-.
  - rewrite list_lookup_alter_ne in Ht by done. destruct (rt_open t) eqn:Ho; [|done].
    specialize (Hopen i t Ht Ho). congruence.
Qed.
End connection.

Section connection_calls.
Context `{NostrSdk} `{SerdeJson ProtocolMessage} `{Utf8Error}.

(** A command reaches a thread that serves. *)
Lemma send_command_serving w tid c :
  thread_at w tid serving ->
  exists t, w_threads w !! tid = Some t /\ serving t /\
    send_command tid c w =
      Some (set_threads (<[tid := mkRelayThread Running (rt_commands t ++ [c]) true (rt_ready t)
                                    (rt_seen t)]> (w_threads w)) w).
Proof.
  intros (t & Ht & Hphase & Hopen & Hin). exists t. split_and!; [done..|].
  unfold send_command. rewrite Ht. cbn. by rewrite Hphase, Hopen.
Qed.

Lemma connect_connection w w' r :
  connection_ok w -> w_caller w = Idle -> call_connect w = (w', r) -> connection_ok w'.
Proof.
  intros [Hlink Hopen] Hcall Hs. unfold call_connect in Hs.
  destruct (w_connected w) eqn:Hc; injection Hs as <- <-; [done|].
  unfold link in Hlink. rewrite Hcall in Hlink. unfold current in Hopen. rewrite Hcall in Hopen.
  destruct (w_cmd_tx w) as [tid|] eqn:Htx; [naive_solver congruence|]. destruct Hlink as [Hh _].
  split.
  - split_and!; [done..|]. eexists. split; [apply list_lookup_middle; reflexivity|]. by split_and!.
  - intros i t Hi Ho. cbn. f_equal. cbn in Hi. apply lookup_snoc_Some in Hi as [[_ Hi]|[<- _]]; [|done].
    discriminate (Hopen i t Hi Ho).
Qed.

Lemma publish_connection nonce m w w' r :
  connection_ok w -> w_caller w = Idle -> call_publish nonce m w = (w', r) -> connection_ok w'.
Proof.
  intros [Hlink Hopen] Hcall Hs. unfold call_publish in Hs.
  assert (Hlink' := Hlink). unfold link in Hlink'. rewrite Hcall in Hlink'.
  destruct (w_cmd_tx w) as [tid|] eqn:Htx; cbn [ok_or] in Hs; [|by injection Hs as <- <-].
  rewrite ok_bind in Hs.
  destruct (prepare_publish _ _ _) as [[content tags]|e|]; [|by injection Hs as <- <-..].
  rewrite ok_bind in Hs. destruct Hlink' as (Hh & Hc & Hserve).
  destruct (send_command_serving w tid (Publish content tags (length (w_acks w))) Hserve)
    as (t & Ht & (Hphase & Ho & Hin) & Hsend).
  rewrite Hsend in Hs. injection Hs as <- <-. split.
  - unfold link. cbn [w_caller set_caller w_cmd_tx set_acks set_threads w_handle w_connected].
    exists tid. split_and!; [done..|]. eexists.
    split; [apply list_lookup_insert_eq; by eapply lookup_lt_Some|]. split_and!; [done..|]. cbn.
    rewrite elem_of_app, list_elem_of_singleton. intros [?|?]; [done|discriminate].
  - intros i u Hi Hou. cbn. rewrite Htx. cbn in Hi. unfold current in Hopen. rewrite Hcall, Htx in Hopen.
    apply list_lookup_insert_Some in Hi as [(<- & _)|[_ Hi]]; [done|]. by apply (Hopen i u).
Qed.

Lemma disconnect_connection w w' r :
  connection_ok w -> w_caller w = Idle -> call_disconnect w = (w', r) -> connection_ok w'.
Proof.
  intros [Hlink Hopen] Hcall Hs. unfold call_disconnect in Hs. unfold link in Hlink.
  rewrite Hcall in Hlink. destruct (w_cmd_tx w) as [tid|] eqn:Htx.
  - destruct Hlink as (Hh & Hc & Hserve).
    destruct (send_command_serving (set_connection None (w_handle w) (w_connected w) w) tid Shutdown
                Hserve) as (t & Ht & (Hphase & Ho & Hin) & Hsend).
    cbv zeta in Hs. rewrite Hsend in Hs. cbn in Hs. rewrite Hh in Hs. injection Hs as <- <-.
    assert (Hcur : current w = Some tid) by (unfold current; by rewrite Hcall).
    split.
    + split_and!; [done..|]. eexists. cbn.
      rewrite list_lookup_alter_eq, list_lookup_insert_eq by (by eapply lookup_lt_Some).
      split; [reflexivity|]. by split.
    + intros i u Hi Hou. exfalso. cbn in Hi. destruct (decide (i = tid)) as [->|Hne].
      * rewrite list_lookup_alter_eq, list_lookup_insert_eq in Hi by (by eapply lookup_lt_Some).
        by injection Hi as <-.
      * rewrite list_lookup_alter_ne, list_lookup_insert_ne in Hi by done.
        specialize (Hopen i u Hi Hou). congruence.
  - destruct Hlink as [Hh Hc]. rewrite Hh in Hs. injection Hs as <- <-. unfold finish_disconnect.
    split; [unfold link; cbn; by rewrite Htx|]. intros i u Hi Hou. cbn in Hi |- *.
    unfold current in Hopen. rewrite Hcall in Hopen. by apply (Hopen i u).
Qed.

Lemma connected_connection tid t w w' r :
  connection_ok w -> w_caller w = Connecting tid -> w_threads w !! tid = Some t ->
  finish_connect tid (hears (rt_ready t)) w = (w', r) -> connection_ok w'.
Proof.
  intros [Hlink Hopen] Hcall Ht Hs. unfold link in Hlink. rewrite Hcall in Hlink.
  destruct Hlink as (Htx & Hh & Hc & u & Hu & Ho & Hcs & Hready).
  rewrite Ht in Hu. injection Hu as <-.
  assert (Hcur : current w = Some tid) by (unfold current; by rewrite Hcall).
  assert (Hdrop : connection_ok (drop_sender tid (set_caller Idle w))).
  { split; [unfold link; cbn; by rewrite Htx|]. intros i u Hi Hou.
    rewrite (drop_current w tid i u Hopen Hcur Hi) in Hou. discriminate Hou. }
  unfold finish_connect, hears in Hs.
  destruct (rt_ready t) as [[err|[]]|]; injection Hs as <- <-; [done| |done]. split.
  - split_and!; [done..|]. exists t. split; [done|]. split; [|split; [done|rewrite Hcs; apply not_elem_of_nil]].
    destruct (rt_phase t); naive_solver.
  - intros i u Hi Hou. cbn. rewrite <- Hcur. by apply (Hopen i u).
Qed.

Lemma caller_step_connection w l w' : connection_ok w -> caller_step w l w' -> connection_ok w'.
Proof.
  intros Hok Hs. destruct Hs as [w' r Hcall Hs|nonce m w' r Hcall Hs|w' r Hcall Hs
    |P sid pred p w' p' ms Hcall Hs|tid t w' r Hcall Ht Hs|ack c w' r Hcall Hc Hs
    |tid t w' r Hcall Ht Hphase Hs].
  - by eapply connect_connection.
  - by eapply publish_connection.
  - by eapply disconnect_connection.
  - unfold call_drain in Hs. destruct (drain_loop _ _ _ _) as [[q kept] matched].
    injection Hs as <- <- <-. by eapply link_transport.
  - by eapply connected_connection.
  - destruct Hok as [Hlink Hopen]. unfold link in Hlink. unfold current in Hopen. rewrite Hcall in Hlink, Hopen.
    destruct Hlink as (tid & Htx & Hlink). unfold finish_publish in Hs.
    destruct (hears (ac_reply c)) as [[err|[]]| |]; try destruct (ProtocolMessage_is_for _ _);
      injection Hs as <- <-; (split; [unfold link; cbn; by rewrite Htx|done]).
  - destruct Hok as [Hlink Hopen]. unfold link in Hlink. unfold current in Hopen. rewrite Hcall in Hlink, Hopen.
    destruct Hlink as (Htx & Hh & Hc & _). injection Hs as <- <-. split.
    + unfold link. cbn. by rewrite Htx.
    + intros i u Hi Hou. cbn. by apply (Hopen i u).
Qed.

Lemma connection_invariant cfg w : reachable cfg w -> connection_ok w.
Proof.
  apply reachable_ind.
  - split; [done|]. intros i t Hi. discriminate Hi.
  - intros w0 l w' _ Hok [Hs|Hs]; [by eapply thread_step_connection|by eapply caller_step_connection].
Qed.

(** The channel of the thread in use is never found closed: a [publish] that
    returns at once was refused before the channel. *)
Lemma publish_reaches_thread w nonce m w' r :
  connection_ok w -> w_caller w = Idle -> call_publish nonce m w = (w', Some r) ->
  w' = w /\ (w_cmd_tx w = None \/ is_ok (prepare_publish (w_cfg w) nonce m) = false).
Proof.
  intros [Hlink _] Hcall Hs. unfold link in Hlink. rewrite Hcall in Hlink. unfold call_publish in Hs.
  destruct (w_cmd_tx w) as [tid|]; cbn [ok_or] in Hs; [|injection Hs as <- <-; by auto].
  rewrite ok_bind in Hs.
  destruct (prepare_publish _ _ _) as [[content tags]|e|]; [|injection Hs as <- <-; by auto..].
  rewrite ok_bind in Hs. destruct Hlink as (_ & _ & Hserve).
  destruct (send_command_serving w tid (Publish content tags (length (w_acks w))) Hserve)
    as (t & _ & _ & Hsend). rewrite Hsend in Hs. discriminate Hs.
Qed.
End connection_calls.

(** ** Acknowledgements

    A queued command belongs to a call that has no answer yet; what was handed to
    the relay was prepared by the call it answers, once. *)

Section acknowledgements.
Context `{NostrSdk} `{SerdeJson ProtocolMessage} `{Utf8Error}.

Definition ack_of (c : Command) : option nat :=
  match c with Publish _ _ ack => Some ack | Shutdown => None end.

Definition queue (w : World) : list Command := concat (rt_commands <$> w_threads w).

(** The channel was created by a call that prepared this content. *)
Definition prepared_as (cfg : LiveNostrTransportConfig) (content : string)
    (tags : list (list string)) (c : AckChannel) : Prop :=
  prepare_publish cfg (ac_nonce c) (ac_message c) = Ok (content, tags).

Record acks_inv (cfg : LiveNostrTransportConfig) (q : list Command) (acks : list AckChannel)
    (handed : list Handed) : Prop := {
  acks_queued content tags ack :
    Publish content tags ack ∈ q ->
    exists c, acks !! ack = Some c /\ ac_reply c = None /\ prepared_as cfg content tags c;
  acks_handed h :
    h ∈ handed ->
    exists c, acks !! hd_ack h = Some c /\ ac_reply c = Some (hd_result h) /\
              prepared_as cfg (hd_content h) (hd_tags h) c;
  acks_replied ack c r :
    acks !! ack = Some c -> ac_reply c = Some r ->
    exists h, h ∈ handed /\ hd_ack h = ack /\ hd_result h = r;
  acks_prepared ack c :
    acks !! ack = Some c -> is_ok (prepare_publish cfg (ac_nonce c) (ac_message c)) = true;
  acks_queued_once : NoDup (omap ack_of q);
  acks_handed_once : NoDup (hd_ack <$> handed);
}.

Lemma acks_inv_sub cfg q q' acks handed :
  q' ⊆+ q -> acks_inv cfg q acks handed -> acks_inv cfg q' acks handed.
Proof.
  intros Hq [Hqd Hh Hr Hp Hn1 Hn2]. split; [|done|done|done| |done].
  - intros content tags ack Hin. apply Hqd. by eapply elem_of_submseteq.
  - apply submseteq_Permutation in Hq as [rest Hq]. rewrite Hq, omap_app in Hn1.
    by apply NoDup_app in Hn1 as [? _].
Qed.

(** The thread takes a command, hands it over and answers. *)
Lemma acks_inv_pop cfg content tags ack q acks handed r :
  acks_inv cfg (Publish content tags ack :: q) acks handed ->
  acks_inv cfg q
    (alter (fun c => mkAckChannel (ac_nonce c) (ac_message c) (Some r)) ack acks)
    (handed ++ [mkHanded ack content tags r]).
Proof.
  intros [Hqd Hh Hr Hp Hn1 Hn2].
  destruct (Hqd content tags ack) as (c & Hc & Hnone & Hprep); [left|].
  cbn in Hn1. apply NoDup_cons in Hn1 as [Hnot Hn1].
  assert (Hother : forall h, h ∈ handed -> hd_ack h <> ack).
  { intros h Hin E. destruct (Hh h Hin) as (c' & Hc' & Hsome & _). congruence. }
  split.
  - intros content' tags' ack' Hin.
    assert (Hne : ack' <> ack) by (intros ->; apply Hnot, list_elem_of_omap; by eexists _).
    rewrite list_lookup_alter_ne by done. apply Hqd. by right.
  - intros h Hin. apply elem_of_app in Hin as [Hin|Hin%list_elem_of_singleton].
    + rewrite list_lookup_alter_ne by (specialize (Hother h Hin); congruence). by apply Hh.
    + subst h. cbn. rewrite list_lookup_alter_eq, Hc. by eexists.
  - intros ack' c' r' Hc' Hr'. destruct (decide (ack' = ack)) as [->|Hne].
    + rewrite list_lookup_alter_eq, Hc in Hc'. injection Hc' as <-. cbn in Hr'. injection Hr' as <-.
      eexists. split; [apply elem_of_app; right; left|done].
    + rewrite list_lookup_alter_ne in Hc' by done. destruct (Hr _ _ _ Hc' Hr') as (h & Hin & ?).
      exists h. split; [apply elem_of_app; by left|done].
  - intros ack' c' Hc'. destruct (decide (ack' = ack)) as [->|Hne].
    + rewrite list_lookup_alter_eq, Hc in Hc'. injection Hc' as <-. exact (Hp ack c Hc).
    + rewrite list_lookup_alter_ne in Hc' by done. exact (Hp ack' c' Hc').
  - done.
  - rewrite fmap_app. apply NoDup_app. split_and!; [done| |apply NoDup_singleton].
    intros x Hx%list_elem_of_fmap Hx'%list_elem_of_singleton.
    destruct Hx as (h & -> & Hin). by apply (Hother h Hin).
Qed.

(** A call creates its channel and queues its command. *)
Lemma acks_inv_push cfg nonce m content tags q acks handed :
  prepare_publish cfg nonce m = Ok (content, tags) ->
  acks_inv cfg q acks handed ->
  acks_inv cfg (Publish content tags (length acks) :: q) (acks ++ [mkAckChannel nonce m None]) handed.
Proof.
  intros Hm [Hqd Hh Hr Hp Hn1 Hn2].
  assert (Hold : forall i c, acks !! i = Some c -> (acks ++ [mkAckChannel nonce m None]) !! i = Some c)
    by (intros; by apply lookup_app_l_Some).
  split.
  - intros content' tags' ack Hin. apply elem_of_cons in Hin as [[= -> -> ->]|Hin].
    + eexists. split; [by apply list_lookup_middle|]. by split.
    + destruct (Hqd _ _ _ Hin) as (c & Hc & ?). exists c. by eauto.
  - intros h Hin. destruct (Hh h Hin) as (c & Hc & ?). exists c. by eauto.
  - intros ack c r Hc Hrep. apply lookup_snoc_Some in Hc as [[_ Hc]|[_ <-]]; [by eapply Hr|done].
  - intros ack c Hc. apply lookup_snoc_Some in Hc as [[_ Hc]|[_ <-]]; [by eapply Hp|]. cbn. by rewrite Hm.
  - cbn. apply NoDup_cons. split; [|done]. intros Hin%list_elem_of_omap.
    destruct Hin as ([content' tags' ack|] & Hin & E); [|discriminate E]. injection E as ->.
    destruct (Hqd _ _ _ Hin) as (c & Hc%lookup_lt_Some & _). lia.
  - done.
Qed.

Definition acks_ok (w : World) : Prop := acks_inv (w_cfg w) (queue w) (w_acks w) (w_handed w).

Lemma queue_replace w w' tid t t' :
  w_threads w !! tid = Some t -> w_threads w' = <[tid := t']> (w_threads w) ->
  exists rest, queue w ≡ₚ rt_commands t ++ rest /\ queue w' ≡ₚ rt_commands t' ++ rest.
Proof. intros Ht Hw. unfold queue. rewrite Hw. by apply concat_insert. Qed.

Lemma thread_step_acks w l w' : acks_ok w -> thread_step w l w' -> acks_ok w'.
Proof.
  intros Hok Hs.
  destruct (thread_step_moves w l w' Hs) as ((Hcfg & _) & i & u & u' & Hu & Hw & _ & Hled & _).
  destruct (queue_replace w w' i u u' Hu Hw) as (rest & Hq & Hq'). unfold acks_ok. rewrite Hcfg.
  destruct Hled as [(-> & -> & Hsub)|(content & tags & ack & r & Hc & -> & ->)].
  - eapply acks_inv_sub; [|exact Hok]. rewrite Hq, Hq'. by apply submseteq_app.
  - apply acks_inv_pop. eapply acks_inv_sub; [|exact Hok]. by rewrite Hq, Hq', Hc.
Qed.

(** Steps of the caller that neither publish nor touch the queues. *)
Lemma acks_ok_same w w' :
  w_cfg w' = w_cfg w -> queue w' ⊆+ queue w -> w_acks w' = w_acks w -> w_handed w' = w_handed w ->
  acks_ok w -> acks_ok w'.
Proof. unfold acks_ok. intros -> Hq -> -> Hok. by eapply acks_inv_sub. Qed.

Lemma queue_drop tid w : queue (drop_sender tid w) = queue w.
Proof.
  unfold queue, drop_sender. cbn. f_equal. apply list_eq. intros i. rewrite !list_lookup_fmap.
  destruct (decide (i = tid)) as [->|Hne].
  - rewrite list_lookup_alter_eq. by destruct (w_threads w !! tid).
  - by rewrite list_lookup_alter_ne.
Qed.

(** Sending a command adds it to the queues and nothing else. *)
Lemma send_command_queue tid c w w' :
  send_command tid c w = Some w' ->
  queue w' ≡ₚ c :: queue w /\ w_cfg w' = w_cfg w /\ w_acks w' = w_acks w /\
  w_handed w' = w_handed w /\ w_inbound w' = w_inbound w.
Proof.
  unfold send_command. intros Hs. apply bind_Some in Hs as (t & Ht & Hs).
  assert (Hw : exists t', w_threads w' = <[tid := t']> (w_threads w) /\
                          rt_commands t' = rt_commands t ++ [c] /\
                          w_cfg w' = w_cfg w /\ w_acks w' = w_acks w /\ w_handed w' = w_handed w /\
                          w_inbound w' = w_inbound w).
  { destruct (rt_phase t); try discriminate Hs; injection Hs as <-; by eexists. }
  destruct Hw as (t' & Hw & Hc & ?). split; [|done].
  destruct (queue_replace w w' tid t t' Ht Hw) as (rest & Hq & Hq').
  rewrite Hq, Hq', Hc, <- app_assoc. cbn. by rewrite Permutation_middle.
Qed.

(** A [Shutdown] in the queue answers no call. *)
Lemma acks_inv_shutdown cfg q acks handed :
  acks_inv cfg q acks handed -> acks_inv cfg (Shutdown :: q) acks handed.
Proof.
  intros [Hqd Hh Hr Hp Hn1 Hn2]. split; [|done..]. intros content tags ack Hin.
  apply elem_of_cons in Hin as [E|Hin]; [discriminate E|by apply Hqd].
Qed.

Lemma publish_acks nonce m w w' r : acks_ok w -> call_publish nonce m w = (w', r) -> acks_ok w'.
Proof.
  unfold call_publish. intros Hok Hs.
  destruct (w_cmd_tx w) as [tid|]; cbn [ok_or] in Hs; [|by injection Hs as <- <-].
  rewrite ok_bind in Hs.
  destruct (prepare_publish _ _ _) as [[content tags]|e|] eqn:Hprep; [|by injection Hs as <- <-..].
  rewrite ok_bind in Hs. destruct (send_command _ _ _) as [w1|] eqn:Hsend; [|by injection Hs as <- <-].
  injection Hs as <- <-. destruct (send_command_queue _ _ _ _ Hsend) as (Hq & Hcfg & Ha & Hh & _).
  unfold acks_ok. cbn [w_cfg set_caller set_acks w_acks w_handed].
  change (queue (set_caller _ (set_acks _ w1))) with (queue w1). rewrite Hcfg, Ha, Hh.
  eapply acks_inv_sub; [by rewrite Hq|]. by apply acks_inv_push.
Qed.

Lemma disconnect_acks w w' r : acks_ok w -> call_disconnect w = (w', r) -> acks_ok w'.
Proof.
  unfold call_disconnect. intros Hok Hs.
  set (w1 := match w_cmd_tx w with Some _ => _ | None => _ end) in Hs.
  assert (Hw1 : acks_ok w1).
  { unfold w1. destruct (w_cmd_tx w) as [tid|]; [|done]. unfold acks_ok. rewrite queue_drop. cbn.
    destruct (send_command _ _ _) as [w2|] eqn:Hsend; [|done].
    destruct (send_command_queue _ _ _ _ Hsend) as (Hq & Hcfg & Ha & Hh & _). cbn. rewrite Hcfg, Ha, Hh.
    eapply acks_inv_sub; [by rewrite Hq|]. by apply acks_inv_shutdown. }
  destruct (w_handle w1); injection Hs as <- <-; exact Hw1.
Qed.

Lemma caller_step_acks w l w' : acks_ok w -> caller_step w l w' -> acks_ok w'.
Proof.
  intros Hok Hs. destruct Hs as [w' r Hcall Hs|nonce m w' r Hcall Hs|w' r Hcall Hs
    |P sid pred p w' p' ms Hcall Hs|tid t w' r Hcall Ht Hs|ack c w' r Hcall Hc Hs
    |tid t w' r Hcall Ht Hphase Hs].
  - unfold call_connect in Hs. destruct (w_connected w); injection Hs as <- <-; [done|].
    apply (acks_ok_same w); [done| |done..]. unfold queue. cbn.
    by rewrite fmap_app, concat_app, app_nil_r.
  - by eapply publish_acks.
  - by eapply disconnect_acks.
  - unfold call_drain in Hs. destruct (drain_loop _ _ _ _) as [[q kept] matched]. by injection Hs as <- <- <-.
  - unfold finish_connect in Hs.
    assert (Hdrop : acks_ok (drop_sender tid (set_caller Idle w))).
    { apply (acks_ok_same w); [done| |done..]. by rewrite queue_drop. }
    destruct (hears _) as [[err|u]| |]; by injection Hs as <- <-.
  - unfold finish_publish in Hs. destruct (hears _) as [[err|u]| |];
      try destruct (ProtocolMessage_is_for _ _); by injection Hs as <- <-.
  - by injection Hs as <- <-.
Qed.

Lemma acks_invariant cfg w : reachable cfg w -> acks_ok w.
Proof.
  apply reachable_ind.
  - split; [by intros ??? ?%not_elem_of_nil|by intros ? ?%not_elem_of_nil|discriminate|discriminate
      |constructor..].
  - intros w0 l w' _ Hok [Hs|Hs]; [by eapply thread_step_acks|by eapply caller_step_acks].
Qed.
End acknowledgements.

(** ** The operations as atomic calls

    [LiveNostr] gives each operation as one function of the state and of what the
    thread replies.  Every run of the threads and the caller is a run of these
    functions, interleaved with deliveries. *)

Section atomic.
Context `{NostrSdk} `{SerdeJson ProtocolMessage} `{Utf8Error}.

Inductive live_step (s : LiveNostrTransport) : Label -> LiveNostrTransport -> Prop :=
  | live_connect reply s' r :
      LiveNostrTransport_connect reply s = (s', r) -> live_step s (Returned OpConnect r) s'
  | live_publish nonce m reply s' r :
      LiveNostrTransport_publish nonce reply m s = (s', r) ->
      live_step s (Returned (OpPublish nonce m) r) s'
  | live_disconnect s' r :
      LiveNostrTransport_disconnect s = (s', r) -> live_step s (Returned OpDisconnect r) s'
  | live_drain P session_id (predicate : P -> ProtocolMessage -> bool * P) p s' p' messages :
      LiveNostrTransport_drain_matching session_id predicate (s, p) = ((s', p'), Ok messages) ->
      live_step s (Drained messages) s'
  | live_deliver event seen :
      live_step s (Delivered event)
        (mkLiveNostrTransport (lnt_cfg s) (lnt_cmd_tx s)
           (handle_inbound_event (lc_keys (lnt_cfg s)) (lc_self_id (lnt_cfg s))
              (seen, lnt_inbound s) event).2
           (lnt_handle s) (lnt_connected s) (lnt_seen s)).

Inductive live_run : LiveNostrTransport -> list Label -> LiveNostrTransport -> Prop :=
  | live_nil s : live_run s [] s
  | live_cons s l s1 ls s' : live_step s l s1 -> live_run s1 ls s' -> live_run s (l :: ls) s'.

(** The transport as its caller sees it.  A [disconnect] that waits for the
    thread has not happened yet; the duplicate filters belong to the threads. *)
Definition project (w : World) : LiveNostrTransport :=
  match w_caller w with
  | Joining _ => mkLiveNostrTransport (w_cfg w) true (w_inbound w) true (w_connected w) ∅
  | _ => mkLiveNostrTransport (w_cfg w) (bool_decide (is_Some (w_cmd_tx w))) (w_inbound w)
           (bool_decide (is_Some (w_handle w))) (w_connected w) ∅
  end.

Definition visible (l : Label) : bool := match l with Silent => false | _ => true end.

Definition simulates (w : World) (l : Label) (w' : World) : Prop :=
  if visible l then live_step (project w) l (project w') else project w' = project w.

Lemma thread_step_simulates w l w' : thread_step w l w' -> simulates w l w'.
Proof.
  intros Hs. destruct (thread_step_moves w l w' Hs) as ((Hcfg & Htx & Hh & Hc & Hcall) &
    tid & t & t' & _ & _ & _ & _ & Heff).
  assert (Hpr : project w' = mkLiveNostrTransport (lnt_cfg (project w)) (lnt_cmd_tx (project w))
     (w_inbound w') (lnt_handle (project w)) (lnt_connected (project w)) (lnt_seen (project w))).
  { unfold project. rewrite Hcfg, Htx, Hh, Hc, Hcall. by destruct (w_caller w). }
  assert (Hfields : lnt_inbound (project w) = w_inbound w /\ lnt_cfg (project w) = w_cfg w)
    by (unfold project; by destruct (w_caller w)).
  destruct Hfields as [Hin Hcf]. unfold simulates.
  destruct Heff as [(-> & Hi & _)|(event & -> & Hev & _)]; cbn [visible]; rewrite Hpr.
  - rewrite Hi, <- Hin. by destruct (project w).
  - replace (w_inbound w') with (handle_inbound_event (lc_keys (lnt_cfg (project w)))
       (lc_self_id (lnt_cfg (project w))) (rt_seen t, lnt_inbound (project w)) event).2
      by (by rewrite Hcf, Hin, Hev).
    constructor.
Qed.

Lemma publish_simulates w nonce m w' r :
  connection_ok w -> w_caller w = Idle -> call_publish nonce m w = (w', r) ->
  simulates w (call_label (OpPublish nonce m) r) w'.
Proof.
  intros Hok Hcall Hs. destruct r as [r|].
  - destruct (publish_reaches_thread _ _ _ _ _ Hok Hcall Hs) as [-> Hwhy].
    apply (live_publish _ nonce m TimedOut). unfold LiveNostrTransport_publish, project.
    rewrite Hcall. cbn [lnt_cmd_tx lnt_cfg]. unfold call_publish in Hs.
    destruct (w_cmd_tx w) as [tid|]; cbn [ok_or bool_decide negb reject_if] in Hs |- *.
    + rewrite ok_bind in Hs.
      destruct Hwhy as [Hwhy|Hwhy]; [discriminate Hwhy|].
      destruct (prepare_publish _ _ _) as [?|e|]; [discriminate Hwhy|..]; by injection Hs as <-.
    + by injection Hs as <-.
  - unfold simulates, call_publish in *. cbn [call_label visible].
    destruct (ok_or (w_cmd_tx w) _ ≫= _) as [[tid [content tags]]|e|]; [|discriminate Hs..].
    destruct (send_command _ _ _) as [w1|] eqn:Hsend; [|discriminate Hs]. injection Hs as <-.
    unfold send_command in Hsend. apply bind_Some in Hsend as (t & Ht & Hsend).
    unfold project. rewrite Hcall.
    destruct (rt_phase t); try discriminate Hsend; by injection Hsend as <-.
Qed.

Lemma disconnect_simulates w w' r :
  connection_ok w -> w_caller w = Idle -> call_disconnect w = (w', r) ->
  simulates w (call_label OpDisconnect r) w'.
Proof.
  intros [Hlink _] Hcall Hs. unfold link in Hlink. rewrite Hcall in Hlink. unfold call_disconnect in Hs.
  destruct (w_cmd_tx w) as [tid|] eqn:Htx.
  - destruct Hlink as (Hh & Hc & Hserve).
    destruct (send_command_serving (set_connection None (w_handle w) (w_connected w) w) tid Shutdown
                Hserve) as (t & _ & _ & Hsend).
    cbv zeta in Hs. rewrite Hsend in Hs. cbn in Hs. rewrite Hh in Hs. injection Hs as <- <-.
    unfold simulates, project. cbn. by rewrite Hcall, Htx, Hh.
  - destruct Hlink as [Hh Hc]. rewrite Hh in Hs. injection Hs as <- <-.
    apply live_disconnect. unfold project. by rewrite Hcall, Htx, Hh.
Qed.

Lemma caller_step_simulates w l w' :
  connection_ok w -> acks_ok w -> caller_step w l w' -> simulates w l w'.
Proof.
  intros Hok Hacks Hs. destruct Hs as [w' r Hcall Hs|nonce m w' r Hcall Hs|w' r Hcall Hs
    |P sid pred p w' p' ms Hcall Hs|tid t w' r Hcall Ht Hs|ack c w' r Hcall Hc Hs
    |tid t w' r Hcall Ht Hphase Hs].
  - unfold call_connect in Hs. destruct (w_connected w) eqn:Hc; injection Hs as <- <-.
    + apply (live_connect _ TimedOut). unfold LiveNostrTransport_connect, project.
      rewrite Hcall. cbn. by rewrite Hc.
    + unfold simulates, project. cbn. by rewrite Hcall, Hc.
  - by apply publish_simulates.
  - by apply disconnect_simulates.
  - unfold call_drain in Hs. destruct (drain_loop sid pred p (w_inbound w)) as [[q kept] matched] eqn:E.
    injection Hs as <- <- <-. apply (live_drain _ P sid pred p _ q).
    unfold LiveNostrTransport_drain_matching, project. rewrite Hcall. cbn. by rewrite Hcall, E.
  - apply (live_connect _ (hears (rt_ready t))). destruct Hok as [Hlink _]. unfold link in Hlink.
    rewrite Hcall in Hlink. destruct Hlink as (Htx & Hh & Hc & _).
    unfold LiveNostrTransport_connect, project, finish_connect in *. rewrite Hcall. cbn. rewrite Hc.
    destruct (hears _) as [[err|u]| |]; injection Hs as <- <-; cbn; by rewrite ?Htx, ?Hh, ?Hc.
  - apply (live_publish _ _ _ (hears (ac_reply c))). destruct Hok as [Hlink _]. unfold link in Hlink.
    rewrite Hcall in Hlink. destruct Hlink as (tid & Htx & Hh & Hconn & _).
    pose proof (acks_prepared _ _ _ _ Hacks ack c Hc) as Hprep.
    unfold LiveNostrTransport_publish, project, finish_publish in *. rewrite Hcall, Htx, Hh.
    cbn -[ProtocolMessage_is_for prepare_publish] in Hs |- *.
    destruct (prepare_publish _ _ _) as [[content tags]| |]; [|discriminate Hprep..].
    cbn -[ProtocolMessage_is_for]. unfold hears in *.
    destruct (ac_reply c) as [[err|u]|]; try destruct (ProtocolMessage_is_for _ _);
      injection Hs as <- <-; cbn; by rewrite ?Htx, ?Hh.
  - injection Hs as <- <-. apply live_disconnect. destruct Hok as [Hlink _]. unfold link in Hlink.
    rewrite Hcall in Hlink. destruct Hlink as (Htx & Hh & _ & _).
    unfold LiveNostrTransport_disconnect, project. rewrite Hcall. cbn. by rewrite Htx, Hh.
Qed.

(** Every run of threads and caller is a run of the atomic operations with the
    same visible events. *)
Lemma run_simulates cfg w ls w' :
  reachable cfg w -> relay_run w ls w' -> live_run (project w) (filter (fun l => visible l = true) ls) (project w').
Proof.
  intros Hr Hrun. induction Hrun as [w|w l w1 ls w' Hs Hrun IH]; [constructor|].
  assert (Hr1 : reachable cfg w1) by (destruct Hr as [ks Hks]; eexists; by eapply run_snoc).
  assert (Hsim : simulates w l w1).
  { destruct Hs as [Hs|Hs]; [by apply thread_step_simulates|].
    eapply caller_step_simulates; [by eapply connection_invariant|by eapply acks_invariant|done]. }
  unfold simulates in Hsim. rewrite filter_cons. destruct (visible l) eqn:Hv.
  - rewrite decide_True by done. eapply live_cons; [exact Hsim|]. by apply IH.
  - rewrite decide_False by done. rewrite <- Hsim. by apply IH.
Qed.
End atomic.

(** ** The buffer *)

Section buffer.
Context `{NostrSdk} `{SerdeJson ProtocolMessage} `{Utf8Error}.

Definition for_self (w : World) : Prop :=
  Forall (fun m => ProtocolMessage_is_for m (lc_self_id (w_cfg w)) = true) (w_inbound w).

(** An event, whoever sent it, adds at most one message, addressed to this
    participant or to all. *)
Lemma handle_inbound_for_self keys self_id seen inbound event :
  exists new, (handle_inbound_event keys self_id (seen, inbound) event).2 = inbound ++ new /\
              length new <= 1 /\ Forall (fun m => ProtocolMessage_is_for m self_id = true) new.
Proof.
  unfold handle_inbound_event.
  assert (Hnone : exists new : list ProtocolMessage, inbound = inbound ++ new /\ length new <= 1 /\
    Forall (fun m => ProtocolMessage_is_for m self_id = true) new).
  { exists []. rewrite app_nil_r. split_and!; [done|cbn; lia|constructor]. }
  case_decide; [done|]. case_decide; [done|].
  destruct (match tag_value event "recipient" with Some _ => _ | None => _ end) eqn:Hrec; [done|].
  destruct (if has_encrypted_marker event then _ else _) as [content| |]; [|done..].
  destruct (envelope_from_event content event) as [envelope| |] eqn:He; [|done..].
  rewrite ok_bind.
  destruct (NostrEnvelopeEvent_to_protocol_message envelope) as [m| |] eqn:Hm; [|done..].
  exists [m]. split_and!; [done|cbn; lia|]. constructor; [|constructor].
  apply to_protocol_message_Ok in Hm as (_ & (_ & _ & _ & _ & Hr & _) & _).
  assert (Hrecipient : ne_recipient envelope = None \/ ne_recipient envelope = Some (pid_0 self_id)).
  { unfold envelope_from_event, parse_u16_tag in He.
    apply bind_Ok in He as (session & _ & He). apply bind_Ok in He as (sender & _ & He).
    apply bind_Ok in He as (n & _ & He). apply bind_Ok in He as (recipient & Hrc & He).
    apply bind_Ok in He as (kind & _ & [= <-]). cbn [ne_recipient].
    destruct (tag_value event "recipient") as [v|]; [|left; congruence]. right.
    apply bool_decide_eq_false, dec_stable in Hrec. rewrite Hrec in Hrc. cbn in Hrc. congruence. }
  unfold ProtocolMessage_is_for. destruct (pm_recipient m) as [[r]|]; [|done].
  apply bool_decide_eq_true. rewrite Hr in Hrecipient. cbn in Hrecipient.
  destruct Hrecipient as [E|[= ->]]; [discriminate E|]. by destruct self_id.
Qed.

Lemma publish_inbound nonce m w w' r :
  call_publish nonce m w = (w', r) -> w_cfg w' = w_cfg w /\ w_inbound w' = w_inbound w.
Proof.
  unfold call_publish. intros Hs.
  destruct (ok_or (w_cmd_tx w) _ ≫= _) as [[tid [content tags]]|e|]; [|by injection Hs as <- <-..].
  destruct (send_command _ _ _) as [w1|] eqn:Hsend; injection Hs as <- <-; [|done].
  by destruct (send_command_queue _ _ _ _ Hsend) as (_ & ? & _ & _ & ?).
Qed.

Lemma disconnect_inbound w w' r :
  call_disconnect w = (w', r) -> w_cfg w' = w_cfg w /\ w_inbound w' = w_inbound w.
Proof.
  unfold call_disconnect. intros Hs. set (w1 := match w_cmd_tx w with Some _ => _ | None => _ end) in Hs.
  assert (Hw1 : w_cfg w1 = w_cfg w /\ w_inbound w1 = w_inbound w).
  { unfold w1. destruct (w_cmd_tx w) as [tid|]; [|done]. cbn.
    destruct (send_command _ _ _) as [w2|] eqn:Hsend; [|done].
    by destruct (send_command_queue _ _ _ _ Hsend) as (_ & ? & _ & _ & ?). }
  destruct (w_handle w1); injection Hs as <- <-; exact Hw1.
Qed.

Lemma relay_step_for_self w l w' :
  relay_step w l w' -> w_cfg w' = w_cfg w /\ (for_self w -> for_self w').
Proof.
  intros [Hs|Hs].
  - destruct (thread_step_moves w l w' Hs) as ((Hcfg & _) & tid & t & t' & _ & _ & _ & _ & Hv).
    split; [done|]. intros Hok. unfold for_self. rewrite Hcfg.
    destruct Hv as [(_ & -> & _)|(event & _ & Hev & _)]; [done|].
    destruct (handle_inbound_for_self (lc_keys (w_cfg w)) (lc_self_id (w_cfg w)) (rt_seen t)
                (w_inbound w) event) as (new & Hnew & _ & Hfor).
    rewrite Hev in Hnew. cbn in Hnew. rewrite Hnew. by apply Forall_app.
  - destruct Hs as [w' r Hcall Hs|nonce m w' r Hcall Hs|w' r Hcall Hs
      |P sid pred p w' p' ms Hcall Hs|tid t w' r Hcall Ht Hs|ack c w' r Hcall Hc Hs
      |tid t w' r Hcall Ht Hphase Hs].
    + unfold call_connect in Hs. destruct (w_connected w); by injection Hs as <- <-.
    + unfold for_self. by destruct (publish_inbound _ _ _ _ _ Hs) as [-> ->].
    + unfold for_self. by destruct (disconnect_inbound _ _ _ Hs) as [-> ->].
    + unfold call_drain in Hs. pose proof (drain_loop_Permutation sid pred p (w_inbound w)) as Hperm.
      destruct (drain_loop _ _ _ _) as [[q kept] matched]. injection Hs as <- <- <-.
      split; [done|]. intros Hok. unfold for_self in *. rewrite <- Hperm in Hok. by apply Forall_app in Hok as [_ Hok].
    + unfold finish_connect in Hs. destruct (hears _) as [[err|u]| |]; by injection Hs as <- <-.
    + unfold finish_publish in Hs. destruct (hears _) as [[err|u]| |];
        try destruct (ProtocolMessage_is_for _ _) eqn:Hf; injection Hs as <- <-; try done.
      split; [done|]. intros Hok. unfold for_self. cbn -[ProtocolMessage_is_for]. apply Forall_app. split; [done|].
      by constructor.
    + by injection Hs as <- <-.
Qed.

Lemma for_self_invariant cfg w : reachable cfg w -> w_cfg w = cfg /\ for_self w.
Proof.
  apply (reachable_ind cfg (fun w => w_cfg w = cfg /\ for_self w)); [split; [done|constructor]|].
  intros w0 l w' _ [Hcfg Hok] Hs.
  destruct (relay_step_for_self w0 l w' Hs) as [-> Hself]. by auto.
Qed.
End buffer.

(** ** Waiting for the thread *)

Section joining.
Context `{NostrSdk} `{SerdeJson ProtocolMessage} `{Utf8Error}.

Definition work (w : World) : nat := sum_list_with thread_work (w_threads w).

Definition is_delivery (l : Label) : bool := match l with Delivered _ => true | _ => false end.

Lemma thread_step_work w l w' :
  thread_step w l w' ->
  (l = Silent /\ work w' < work w) \/ (is_delivery l = true /\ work w' = work w).
Proof.
  intros Hs. destruct (thread_step_moves w l w' Hs) as (_ & tid & t & t' & Ht & Hw & _ & _ & Heff).
  pose proof (sum_insert thread_work (w_threads w) tid t t' Ht) as Hsum. unfold work. rewrite Hw.
  destruct Heff as [(-> & _ & Hlt)|(event & -> & _ & Heq)]; [left|right]; split; try done; lia.
Qed.

(** While [disconnect] waits, the threads run down or deliver, until it returns. *)
Lemma joining_step w l w' tid :
  w_caller w = Joining tid -> relay_step w l w' ->
  (w_caller w' = Joining tid /\
   ((l = Silent /\ work w' < work w) \/ (is_delivery l = true /\ work w' = work w))) \/
  (l = Returned OpDisconnect (Ok tt) /\ w_caller w' = Idle /\ w_connected w' = false /\
   thread_at w' tid (fun t => rt_phase t = Stopped)).
Proof.
  intros Hcall [Hs|Hs].
  - left. pose proof (thread_step_moves w l w' Hs) as ((_ & _ & _ & _ & ->) & _).
    split; [done|]. by apply thread_step_work.
  - right. destruct Hs; try congruence.
    match goal with E : finish_disconnect w = _ |- _ => injection E as <- <- end.
    split_and!; [done..|]. exists t. split; [cbn; congruence|done].
Qed.

Lemma joining_progress w tid :
  connection_ok w -> w_caller w = Joining tid ->
  exists l w', relay_step w l w' /\ is_delivery l = false.
Proof.
  intros [Hlink _] Hcall. unfold link in Hlink. rewrite Hcall in Hlink.
  destruct Hlink as (_ & _ & _ & t & Ht & Hopen & Hphase).
  destruct (rt_phase t) eqn:E; [done|..].
  - exists Silent.
    assert (Hc : is_Some (thread_command (inr tt) tid w)).
    { unfold thread_command. rewrite Ht. cbn. rewrite E, Hopen.
      destruct (rt_commands t) as [|[] ?]; by eexists. }
    destruct Hc as [w' Hc]. exists w'. split; [|done]. by eapply step_thread, step_command.
  - exists Silent. unfold thread_at. assert (Hc : is_Some (thread_stop tid w)).
    { unfold thread_stop. rewrite Ht. cbn. rewrite E. by eexists. }
    destruct Hc as [w' Hc]. exists w'. split; [|done]. by eapply step_thread, step_stop.
  - exists (Returned OpDisconnect (Ok tt)). eexists. split; [|done]. eapply step_caller.
    by eapply (step_joined w tid t _ (Some (Ok tt))).
Qed.

Lemma joining_run w ls w' tid :
  relay_run w ls w' -> w_caller w = Joining tid -> (forall op r, Returned op r ∉ ls) ->
  w_caller w' = Joining tid /\
  length (filter (fun l => is_delivery l = false) ls) + work w' <= work w.
Proof.
  intros Hrun. induction Hrun as [w|w l w1 ls w' Hs Hrun IH]; intros Hcall Hno; [split; [done|cbn; lia]|].
  destruct (joining_step w l w1 tid Hcall Hs) as [[Hcall1 Hl]|[-> _]].
  2: { exfalso. eapply Hno. left. }
  destruct IH as [IHc IHw]; [done|intros op r Hin; eapply Hno; right; exact Hin|]. split; [done|].
  rewrite filter_cons. destruct Hl as [[-> Hlt]|[Hd Heq]].
  - rewrite decide_True by done. cbn. lia.
  - rewrite decide_False by congruence. lia.
Qed.

Lemma joining_returns n : forall w tid,
  connection_ok w -> w_caller w = Joining tid -> work w <= n ->
  exists ls w', relay_run w (ls ++ [Returned OpDisconnect (Ok tt)]) w' /\ length ls <= n.
Proof.
  induction n as [|n IH]; intros w tid Hok Hcall Hn;
    destruct (joining_progress w tid Hok Hcall) as (l & w1 & Hs & Hl);
    destruct (joining_step w l w1 tid Hcall Hs) as [[Hcall1 [[-> Hlt]|[Hd _]]]|[-> _]];
    try congruence; try lia.
  - exists [], w1. split; [|done]. by eapply run_cons, run_nil.
  - assert (Hok1 : connection_ok w1)
      by (destruct Hs; [by eapply thread_step_connection|by eapply caller_step_connection]).
    destruct (IH w1 tid Hok1 Hcall1) as (ls & w' & Hrun & Hlen); [lia|].
    exists (Silent :: ls), w'. split; [by eapply run_cons|cbn; lia].
  - exists [], w1. split; [|cbn; lia]. by eapply run_cons, run_nil.
Qed.
End joining.

(** ** The properties *)

Section relay_properties.
Context `{NostrSdkLaws} `{SerdeJson ProtocolMessage} `{!SerdeJsonLaws ProtocolMessage} `{Utf8Error}.

(** Only an acknowledgement makes [publish] return [Ok]. *)
Lemma published_ok w nonce m w' :
  caller_step w (Returned (OpPublish nonce m) (Ok tt)) w' ->
  exists ack c, w_acks w !! ack = Some c /\ ac_nonce c = nonce /\ ac_message c = m /\
                ac_reply c = Some (inr tt).
Proof.
  intros Hs. remember (Returned _ _) as l eqn:Hl. destruct Hs as [w' r Hcall Hs|n m0 w' r Hcall Hs
    |w' r Hcall Hs| |tid t w' r Hcall Ht Hs|ack c w' r Hcall Hc Hs|tid t w' r Hcall Ht Hphase Hs];
    try discriminate Hl; try (destruct r; discriminate Hl).
  - destruct r as [r|]; [|discriminate Hl]. injection Hl as -> -> ->. exfalso.
    unfold call_publish in Hs. destruct (ok_or (w_cmd_tx w) _ ≫= _) as [[tid [content tags]]|e|];
      [destruct (send_command _ _ _)|..]; discriminate Hs.
  - injection Hl as <- <- ->. exists ack, c. split_and!; [done..|]. unfold finish_publish, hears in Hs.
    destruct (ac_reply c) as [[err|[]]|]; [discriminate Hs|done|discriminate Hs].
Qed.

(** C10: the transport with its background threads implements the atomic
    operations.  In every interleaving of the caller with any number of relay
    threads, whatever the relay answers and whenever the waits time out, the
    returned results, the drained messages and the deliveries form a run of
    [connect], [publish], [disconnect], [drain_matching] and the event handler of
    the single-threaded description, ending in the same state. *)
Theorem relay_refines_atomic cfg ls w :
  relay_run (world_new cfg) ls w ->
  live_run (LiveNostrTransport_new cfg) (filter (fun l => visible l = true) ls) (project w).
Proof.
  intros Hrun. apply (run_simulates cfg (world_new cfg)); [|done]. exists []. constructor.
Qed.

(** C12: whatever the interleaving, the relay client is handed only what a call of
    [publish] prepared, at most once per call, and a round-two message only as the
    NIP-44 encryption of its envelope under the recipient's listed key; a
    [publish] that returns [Ok] was handed over and accepted. *)
Theorem relay_hands_over_prepared cfg w :
  reachable cfg w ->
  NoDup (hd_ack <$> w_handed w) /\
  (forall h, h ∈ w_handed w ->
     exists nonce m, prepare_publish cfg nonce m = Ok (hd_content h, hd_tags h) /\
       forall r, is_secret_kind (pm_kind m) = true -> pm_recipient m = Some r ->
         exists pk e, ParticipantDirectory_get (lc_directory cfg) r = Some pk /\
           NostrEnvelopeEvent_from_protocol_message m = Ok e /\
           nip44_encrypt nonce (lc_keys cfg) pk (ne_content e) = inr (hd_content h)) /\
  (forall nonce m w', relay_step w (Returned (OpPublish nonce m) (Ok tt)) w' ->
     exists h, h ∈ w_handed w /\ hd_result h = inr tt /\
       prepare_publish cfg nonce m = Ok (hd_content h, hd_tags h)).
Proof.
  intros Hr. pose proof (acks_invariant cfg w Hr) as Hacks. unfold acks_ok in Hacks.
  destruct (for_self_invariant cfg w Hr) as [Hcfg _]. rewrite Hcfg in Hacks.
  split_and!; [apply Hacks| |].
  - intros h Hin. destruct (acks_handed _ _ _ _ Hacks h Hin) as (c & _ & _ & Hprep).
    exists (ac_nonce c), (ac_message c). split; [done|]. intros r Hk Hrec.
    destruct (prepare_publish_Ok _ _ _ _ _ Hprep) as (e & rest & He & _ & _ & Hcase).
    unfold secret_recipient in Hcase. rewrite Hk, Hrec in Hcase.
    destruct Hcase as (pk & Hpk & Hct & _). by exists pk, e.
  - intros nonce m w' [Hs|Hs].
    { destruct (thread_step_moves _ _ _ Hs) as (_ & ? & ? & ? & _ & _ & _ & _ & [(E & _)|(? & E & _)]);
        discriminate E. }
    destruct (published_ok _ _ _ _ Hs) as (ack & c & Hc & <- & <- & Hrep).
    destruct (acks_replied _ _ _ _ Hacks _ _ _ Hc Hrep) as (h & Hin & <- & Hres).
    destruct (acks_handed _ _ _ _ Hacks h Hin) as (c' & Hc' & _ & Hprep).
    rewrite Hc in Hc'. injection Hc' as <-. by exists h.
Qed.

(** C11: [disconnect] returns.  While it waits for the thread, some thread can
    always step or the wait is over; a run in which it has not returned has at
    most [work w] steps other than deliveries of events, so it returns as soon as
    the thread's loop takes its commands; and when it returns, with [Ok], the
    thread has stopped. *)
Theorem relay_disconnect_returns cfg w tid :
  reachable cfg w -> w_caller w = Joining tid ->
  (exists l w', relay_step w l w' /\ is_delivery l = false) /\
  (exists ls w', relay_run w (ls ++ [Returned OpDisconnect (Ok tt)]) w' /\ length ls <= work w) /\
  (forall ls w', relay_run w ls w' -> (forall op r, Returned op r ∉ ls) ->
     length (filter (fun l => is_delivery l = false) ls) <= work w) /\
  (forall op r w', relay_step w (Returned op r) w' ->
     op = OpDisconnect /\ r = Ok tt /\ w_caller w' = Idle /\ w_connected w' = false /\
     thread_at w' tid (fun t => rt_phase t = Stopped)).
Proof.
  intros Hr Hcall. pose proof (connection_invariant cfg w Hr) as Hok. split_and!.
  - by eapply joining_progress.
  - by eapply joining_returns.
  - intros ls w' Hrun Hno. destruct (joining_run w ls w' tid Hrun Hcall Hno). lia.
  - intros op r w' Hs. destruct (joining_step w _ w' tid Hcall Hs) as [[_ [[E _]|[E _]]]|[E Hend]];
      [discriminate E..|]. injection E as -> ->. split_and!; apply Hend || done.
Qed.

(** In every reachable state the buffer holds only messages for this
    participant or for all, whoever sent the events; at most one thread has an
    open command channel; between calls the flag, the sender and the join handle
    agree, and a [publish] that is not refused reaches its thread. *)
Theorem relay_state_invariant cfg w :
  reachable cfg w ->
  Forall (fun m => ProtocolMessage_is_for m (lc_self_id cfg) = true) (w_inbound w) /\
  (forall i j t u, w_threads w !! i = Some t -> rt_open t = true ->
     w_threads w !! j = Some u -> rt_open u = true -> i = j) /\
  (w_caller w = Idle ->
     w_handle w = w_cmd_tx w /\ w_connected w = bool_decide (is_Some (w_cmd_tx w)) /\
     forall nonce m w' r, call_publish nonce m w = (w', Some r) ->
       w' = w /\ (w_connected w = false \/ is_ok (prepare_publish cfg nonce m) = false)).
Proof.
  intros Hr. destruct (for_self_invariant cfg w Hr) as [Hcfg Hself].
  pose proof (connection_invariant cfg w Hr) as Hok. pose proof Hok as [Hlink Hopen].
  split_and!; [by rewrite <- Hcfg| |].
  - intros i j t u Hi Hti Hj Huj. pose proof (Hopen i t Hi Hti). pose proof (Hopen j u Hj Huj). congruence.
  - intros Hcall. unfold link in Hlink. rewrite Hcall in Hlink.
    assert (Hagree : w_handle w = w_cmd_tx w /\ w_connected w = bool_decide (is_Some (w_cmd_tx w))).
    { destruct (w_cmd_tx w); [destruct Hlink as (? & ? & _)|destruct Hlink]; by split. }
    destruct Hagree as [Hh Hc]. split_and!; [done..|]. intros nonce m w' r Hs.
    destruct (publish_reaches_thread _ _ _ _ _ Hok Hcall Hs) as [-> Hwhy]. rewrite Hcfg in Hwhy.
    split; [done|]. destruct Hwhy as [Hn|?]; [|by right]. left. by rewrite Hc, Hn.
Qed.
End relay_properties.

(** ** A concrete session *)

Section witnesses.
Local Existing Instances digits_json digits_json_laws.
Local Existing Instances toy_sdk toy_sdk_laws live_utf8_error.

Definition relay_up : StartEnv := mkStartEnv None (fun _ => None) None.

(** A deterministic scheduler: each item is a call or a step of a thread. *)
Inductive Move : Type :=
  | MConnect | MPublish (m : ProtocolMessage) | MDisconnect
  | MResume | MStart (tid : nat) | MCommand (tid : nat) | MEvent (tid : nat) (event : Event)
  | MStop (tid : nat).

Definition resume (w : World) : option (Label * World) :=
  match w_caller w with
  | Idle => None
  | Connecting tid =>
      t ← w_threads w !! tid;
      let '(w', r) := finish_connect tid (hears (rt_ready t)) w in Some (Returned OpConnect r, w')
  | Publishing ack =>
      c ← w_acks w !! ack;
      let '(w', r) := finish_publish (ac_message c) (hears (ac_reply c)) w in
      Some (Returned (OpPublish (ac_nonce c) (ac_message c)) r, w')
  | Joining tid =>
      t ← w_threads w !! tid;
      match rt_phase t with
      | Stopped => let '(w', r) := finish_disconnect w in Some (call_label OpDisconnect r, w')
      | _ => None
      end
  end.

Definition move (a : Move) (w : World) : option (Label * World) :=
  let call op '(w', r) := match w_caller w with Idle => Some (call_label op r, w') | _ => None end in
  match a with
  | MConnect => call OpConnect (call_connect w)
  | MPublish m => call (OpPublish 0 m) (call_publish 0 m w)
  | MDisconnect => call OpDisconnect (call_disconnect w)
  | MResume => resume w
  | MStart tid => (fun w' => (Silent, w')) <$> thread_start relay_up tid w
  | MCommand tid => (fun w' => (Silent, w')) <$> thread_command (inr tt) tid w
  | MEvent tid event => (fun w' => (Delivered event, w')) <$> thread_notification event tid w
  | MStop tid => (fun w' => (Silent, w')) <$> thread_stop tid w
  end.

Fixpoint play (moves : list Move) (w : World) : option (list Label * World) :=
  match moves with
  | [] => Some ([], w)
  | a :: moves =>
      '(l, w1) ← move a w; '(ls, w') ← play moves w1; Some (l :: ls, w')
  end.

Lemma resume_step w l w' : resume w = Some (l, w') -> relay_step w l w'.
Proof.
  unfold resume. intros Hm. apply step_caller.
  destruct (w_caller w) as [|tid|ack|tid] eqn:Hcall; [discriminate Hm|..];
    apply bind_Some in Hm as (x & Hx & Hm).
  - destruct (finish_connect _ _ _) as [w1 r] eqn:E. injection Hm as <- <-. by eapply step_connected.
  - destruct (finish_publish _ _ _) as [w1 r] eqn:E. injection Hm as <- <-. by eapply step_published.
  - destruct (rt_phase x) eqn:Hphase; try discriminate Hm. injection Hm as <- <-.
    by eapply (step_joined w tid x _ (Some (Ok tt))).
Qed.

Lemma move_step a w l w' : move a w = Some (l, w') -> relay_step w l w'.
Proof.
  destruct a as [|m| | |tid|tid|tid event|tid]; unfold move; intros Hm.
  4: by apply resume_step.
  1: destruct (call_connect w) as [w1 r] eqn:E.
  2: destruct (call_publish 0 m w) as [w1 r] eqn:E.
  3: destruct (call_disconnect w) as [w1 r] eqn:E.
  1-3: destruct (w_caller w) eqn:Hcall; try discriminate Hm; injection Hm as <- <-; apply step_caller.
  1-3: by constructor.
  all: apply fmap_Some in Hm as (w1 & Hm & [= -> ->]); apply step_thread.
  - by eapply step_start.
  - by eapply step_command.
  - by eapply step_event.
  - by eapply step_stop.
Qed.

Lemma play_run moves : forall w ls w', play moves w = Some (ls, w') -> relay_run w ls w'.
Proof.
  induction moves as [|a moves IH]; intros w ls w' Hp; cbn in Hp.
  { injection Hp as <- <-. constructor. }
  apply bind_Some in Hp as ([l w1] & Hm & Hp). apply bind_Some in Hp as ([ls' w2] & Hr & Hp).
  injection Hp as <- <-. eapply run_cons; [by eapply move_step|by apply IH].
Qed.

(** Connect, publish the round-two message and disconnect; the thread still has
    the [Shutdown] to take. *)
Definition session_start : list Move :=
  [MConnect; MStart 0; MResume; MPublish round2_message; MCommand 0; MResume; MDisconnect].

Definition start_run : list Label * World :=
  default ([], world_new sender_config) (play session_start (world_new sender_config)).

Lemma start_runs : relay_run (world_new sender_config) start_run.1 start_run.2.
Proof. apply (play_run session_start). vm_compute. reflexivity. Qed.

Lemma relay_refines_atomic_witness :
  live_run (LiveNostrTransport_new sender_config)
    [Returned OpConnect (Ok tt); Returned (OpPublish 0 round2_message) (Ok tt)] (project start_run.2).
Proof.
  exact (relay_refines_atomic sender_config start_run.1 start_run.2 start_runs).
Defined.

Lemma relay_hands_over_prepared_witness :
  length (w_handed start_run.2) = 1 /\
  forall h, h ∈ w_handed start_run.2 ->
    exists nonce m, prepare_publish sender_config nonce m = Ok (hd_content h, hd_tags h).
Proof.
  split; [vm_compute; reflexivity|]. intros h Hin.
  destruct (proj1 (proj2 (relay_hands_over_prepared sender_config start_run.2
    (ex_intro _ _ start_runs))) h Hin) as (nonce & m & Hp & _).
  exists nonce, m. exact Hp.
Defined.

Lemma relay_disconnect_returns_witness :
  w_caller start_run.2 = Joining 0 /\
  exists ls w', relay_run start_run.2 (ls ++ [Returned OpDisconnect (Ok tt)]) w' /\ length ls <= 3.
Proof.
  split; [vm_compute; reflexivity|].
  destruct (proj1 (proj2 (relay_disconnect_returns sender_config start_run.2 0
    (ex_intro _ _ start_runs) eq_refl))) as (ls & w' & Hrun & Hlen).
  exists ls, w'. split; [exact Hrun|exact Hlen].
Defined.

(** The broadcast is looped back, so the buffer is not empty. *)
Definition broadcast_message : ProtocolMessage :=
  ProtocolMessage_broadcast (mkSessionId "vault-1-dkg") (mkParticipantId 1) HtssDkgRound1 [x09].

Definition broadcast_run : list Label * World :=
  default ([], world_new sender_config)
    (play [MConnect; MStart 0; MResume; MPublish broadcast_message; MCommand 0; MResume]
       (world_new sender_config)).

Lemma relay_state_invariant_witness :
  w_inbound broadcast_run.2 = [broadcast_message] /\ w_handle broadcast_run.2 = Some 0 /\
  Forall (fun m => ProtocolMessage_is_for m (mkParticipantId 1) = true) (w_inbound broadcast_run.2).
Proof.
  split; [vm_compute; reflexivity|]. split; [vm_compute; reflexivity|].
  refine (proj1 (relay_state_invariant sender_config broadcast_run.2 (ex_intro _ broadcast_run.1 _))).
  apply (play_run [MConnect; MStart 0; MResume; MPublish broadcast_message; MCommand 0; MResume]).
  vm_compute. reflexivity.
Defined.
End witnesses.
