(* ===== verification/DkgCli.v ===== *)
(** [examples/nostr-dkg-cli/src/main.rs]: a FROST key generation of three
    participants over the event transport of [Nostr].

    Every package goes through a coordinator, as an event: the composition of the
    sessions of [FrostSession], the coordinator of [Sdk] and
    [LocalNostrEventTransport]. *)

From Stdlib Require Import Ascii String Strings.Byte.
From stdpp Require Import base numbers countable gmap strings list sorting.
From S2P Require Import Prelude Core Codec Transport Secp SmallGroup Packages SignerPolicy.
From S2P Require Import FrostSession Sdk Ceremony Nostr.

Section program.
Context `{FrostLib} `{SerdeJson ProtocolMessage} `{Utf8Error}.
Context `{Bincode KeygenInput, !Bincode scalar, !Bincode EvenPairedShare, !Bincode EvenSharedKey}.
Context `{SerdeJson Round1Package, SerdeJson Round2Package}.

(** The coordinator and the generator of [rand::thread_rng()]. *)
Local Abbreviation CliST := (ST (FrostCoordinator LocalNostrEventTransport * rng)).

Definition cli_coordinator {A}
    (op : ST (FrostCoordinator LocalNostrEventTransport) DkgKitError A) : CliST DkgKitError A :=
  st_zoom fst (fun c st => (c, st.2)) op.

Definition cli_rng {A} (op : ST rng DkgKitError A) : CliST DkgKitError A :=
  st_zoom snd (fun g st => (st.1, g)) op.

Definition cli_pending : CliST DkgKitError nat :=
  st_gets (fun st => LocalNostrEventTransport_pending_len (FrostCoordinator_transport st.1)).

(** The bodies of the two loops over [dkg_sessions]; a session changes by its
    [runtime] cell. *)
Definition cli_round1 (session_id : SessionId) (session : FrostDkgSession) :
  CliST DkgKitError FrostDkgSession :=
  '(session, round1) ← cli_rng (session_round1 session);
  cli_coordinator (publish_round1 session_id round1);;
  mret session.

Definition cli_round2 (session_id : SessionId) (round1_packages : list Round1Package)
    (session : FrostDkgSession) : CliST DkgKitError FrostDkgSession :=
  '(session, packages) ← st_lift (session_round2 round1_packages session);
  mapM (fun round2 => cli_coordinator (publish_round2 session_id round2)) packages;;
  mret session.

(** [coordinator.drain_round2_for(&session_id, ParticipantId::new(i)?)?] *)
Definition cli_drain_round2 (session_id : SessionId) (i : N) :
  CliST DkgKitError (list Round2Package) :=
  recipient ← st_lift (ParticipantId_new i);
  cli_coordinator (drain_round2_for session_id recipient).

(** What [main] prints; the key is printed in hexadecimal. *)
Record CliReport := mkCliReport {
  cr_round1_events : nat;
  cr_round2_events : nat;
  cr_remaining_events : nat;
  cr_group_key : bytes;
}.

(** [main] up to the finalized shares, over a coordinator. *)
Definition cli_exchange (alice bob carol : FrostDkgSession) :
  CliST DkgKitError (nat * nat * (LocalKeyShare * LocalKeyShare * LocalKeyShare)) :=
  let session_id := dsc_session_id (fds_config alice) in
  cli_coordinator FrostCoordinator_connect;;
  alice ← cli_round1 session_id alice;
  bob ← cli_round1 session_id bob;
  carol ← cli_round1 session_id carol;
  nostr_round1_events ← cli_pending;
  round1_packages ← cli_coordinator (drain_round1 session_id);
  alice ← cli_round2 session_id round1_packages alice;
  bob ← cli_round2 session_id round1_packages bob;
  carol ← cli_round2 session_id round1_packages carol;
  nostr_round2_events ← cli_pending;
  alice_round2 ← cli_drain_round2 session_id 1;
  bob_round2 ← cli_drain_round2 session_id 2;
  carol_round2 ← cli_drain_round2 session_id 3;
  alice_share ← st_lift (FrostDkgSession_finalize alice alice_round2);
  bob_share ← st_lift (FrostDkgSession_finalize bob bob_round2);
  carol_share ← st_lift (FrostDkgSession_finalize carol carol_round2);
  mret (nostr_round1_events, nostr_round2_events, (alice_share, bob_share, carol_share)).

Definition dkg_cli_session : CliST AnyhowError CliReport :=
  alice ← dkgkit (st_lift (create_frost_session "nostr-local-demo" 2 3 1));
  bob ← dkgkit (st_lift (create_frost_session "nostr-local-demo" 2 3 2));
  carol ← dkgkit (st_lift (create_frost_session "nostr-local-demo" 2 3 3));
  '(round1_events, round2_events, (alice_share, bob_share, carol_share)) ←
    dkgkit (cli_exchange alice bob carol);
  st_lift (reject_if (bool_decide (lks_group_key alice_share <> lks_group_key bob_share))
             (AnyhowText "Condition failed: `alice_share.group_key == bob_share.group_key`"));;
  st_lift (reject_if (bool_decide (lks_group_key bob_share <> lks_group_key carol_share))
             (AnyhowText "Condition failed: `bob_share.group_key == carol_share.group_key`"));;
  remaining ← dkgkit cli_pending;
  mret (mkCliReport round1_events round2_events remaining
          (gk_xonly_public_key (lks_group_key alice_share))).

Definition dkg_cli_main : ST rng AnyhowError CliReport :=
  fun g =>
    let '((_, g), r) :=
      dkg_cli_session (FrostCoordinator_new LocalNostrEventTransport_default, g) in
    (g, r).
End program.

(** ** The rounds of the exchange *)

Section exchange.
Context `{KeygenLaws} `{!SecpLaws}.
Context `{BincodeLaws KeygenInput, !Bincode scalar, !BincodeLaws scalar,
          !Bincode EvenPairedShare, !BincodeLaws EvenPairedShare,
          !Bincode EvenSharedKey, !BincodeLaws EvenSharedKey}.
Context `{SerdeJson ProtocolMessage} `{!SerdeJsonLaws ProtocolMessage} `{Utf8Error}.
Context `{SerdeJson Round1Package} `{!SerdeJsonLaws Round1Package}.
Context `{SerdeJson Round2Package} `{!SerdeJsonLaws Round2Package}.
Context (name : string) (t n : N).
Hypothesis name_ok : blank name = false.
Hypothesis t_ok : (1 <= t <= n)%N.
Hypothesis n_ok : (n <= u16_max)%N.

Local Abbreviation sid := (mkSessionId name).
Local Abbreviation positions := (seq 1 (N.to_nat n)).
Local Abbreviation id i := (mkParticipantId (N.of_nat i)).

Lemma mapM_cli {A B} (op : A -> ST (FrostCoordinator LocalNostrEventTransport) DkgKitError B) l c g :
  mapM (fun x => cli_coordinator (op x)) l (c, g) =
  (((mapM op l c).1, g), (mapM op l c).2).
Proof.
  revert c. induction l as [|x l IH]; intros c; [done|]. rewrite !st_mapM_cons.
  unfold mbind, st_bind, cli_coordinator at 1, st_zoom. cbn [fst snd].
  destruct (op x c) as [c1 [y|e|]]; cbn [fst snd]; [|done..]. rewrite IH.
  destruct (mapM op l c1) as [c2 [ys|e|]]; done.
Qed.

(** The messages of the two rounds. *)
Definition round1_event (k : honest) (m : ProtocolMessage) : Prop :=
  Round1Package_from_protocol_message m = Ok (honest_round1 t n k) /\
  pm_session_id m = sid /\ pm_kind m = FrostDkgRound1.

Definition round2_event (x : Round2Package) (m : ProtocolMessage) : Prop :=
  Round2Package_from_protocol_message m = Ok x /\
  pm_session_id m = sid /\ pm_kind m = FrostDkgRound2 /\ pm_recipient m = Some (r2_recipient x).

(** Every package of an honest participant has its message. *)
Lemma round1_message k :
  exists m, Round1Package_to_protocol_message (honest_round1 t n k) sid = Ok m /\
            round1_event k m /\ pm_sender m = id k.1 /\ pm_recipient m = None.
Proof.
  destruct (converted _ _ _ _ _ (fun _ => sid)
              (fun x => Round1Package_to_protocol_message x sid) (honest_round1 t n k)
              round1_package_accepts ltac:(done) I)
    as (m & Hm & Hfrom & Hs & Hkind & Hsender & Hrec). by exists m.
Qed.

Lemma round2_message j k :
  exists m, Round2Package_to_protocol_message (package_to t n j k) sid = Ok m /\
            round2_event (package_to t n j k) m /\ pm_sender m = id k.1.
Proof.
  destruct (converted _ _ _ _ _ (fun _ => sid)
              (fun x => Round2Package_to_protocol_message x sid) (package_to t n j k)
              round2_package_accepts ltac:(done) I)
    as (m & Hm & Hfrom & Hs & Hkind & Hsender & Hrec). by exists m.
Qed.

Lemma cli_round1_step k c :
  k.1 ∈ positions -> coordinator_ok c ->
  exists m c',
    cli_round1 sid (FrostDkgSession_new (local_config name t n k.1)) (c, k.2) =
      ((c', (honest_output t n k).2), Ok (session_after_round1 name t n k)) /\
    round1_event k m /\ coordinator_ok c' /\
    coordinator_pending c' = coordinator_pending c ++ [m].
Proof.
  intros Hk Hok. pose proof (local_round1 name t n t_ok n_ok k Hk) as Hr1.
  destruct (round1_message k) as (m & Hm & Hevent & Hsender & Hrec).
  pose proof Hevent as (_ & Hs & Hkind).
  destruct (publish_message_spec (fun x => Round1Package_to_protocol_message x sid)
              (honest_round1 t n k) m c Hm) as (c' & Hpub & Hok' & Hpend); [|done|].
  { apply (position_range t n t_ok n_ok) in Hk. split_and!; [by rewrite Hs|rewrite Hsender; cbn; lia
      |by rewrite Hrec|by rewrite Hkind]. }
  exists m, c'. split_and!; [|done|done|done]. unfold cli_round1.
  erewrite st_bind_Ok; [|unfold cli_rng, st_zoom; cbn [fst snd]; by rewrite Hr1]. cbv beta iota.
  erewrite st_bind_Ok; [|unfold cli_coordinator, st_zoom; cbn [fst snd]; unfold publish_round1;
    by rewrite Hpub]. done.
Qed.

Lemma cli_round1_all l : forall c g,
  l ⊆ positions -> coordinator_ok c ->
  exists K ms c' g', K.*1 = l /\
    mapM (cli_round1 sid) ((fun i => FrostDkgSession_new (local_config name t n i)) <$> l) (c, g) =
      ((c', g'), Ok (session_after_round1 name t n <$> K)) /\
    Forall2 round1_event K ms /\ coordinator_ok c' /\
    coordinator_pending c' = coordinator_pending c ++ ms.
Proof.
  induction l as [|i l IH]; intros c g Hl Hok.
  { exists [], [], c, g. rewrite app_nil_r. by split_and!. }
  destruct (cli_round1_step (i, g) c) as (m & c1 & Hx1 & Hm & Hok1 & Hp1); [set_solver|done|].
  destruct (IH c1 (honest_output t n (i, g)).2) as (K & ms & c' & g' & HK & Hrun & HF & Hok' & Hp');
    [set_solver|done|].
  exists ((i, g) :: K), (m :: ms), c', g'. rewrite !fmap_cons. split_and!.
  - by rewrite HK.
  - by rewrite st_mapM_cons, (st_bind_Ok _ _ _ _ _ Hx1), (st_bind_Ok _ _ _ _ _ Hrun).
  - by constructor.
  - done.
  - by rewrite Hp', Hp1, <- app_assoc.
Qed.

Lemma publish_round2_events k l : forall c : FrostCoordinator LocalNostrEventTransport,
  k.1 ∈ positions -> (forall j, j ∈ l -> j ∈ positions) -> coordinator_ok c ->
  exists ms c' out,
    mapM (publish_round2 sid) ((fun j => package_to t n j k) <$> l) c = (c', Ok out) /\
    Forall2 round2_event ((fun j => package_to t n j k) <$> l) ms /\
    coordinator_ok c' /\ coordinator_pending c' = coordinator_pending c ++ ms.
Proof.
  induction l as [|j l IH]; intros c Hk Hl Hok.
  { exists [], c, []. rewrite app_nil_r. by split_and!. }
  destruct (round2_message j k) as (m & Hm & Hevent & Hsender).
  pose proof Hevent as (_ & Hs & Hkind & Hrec).
  destruct (publish_message_spec (fun x => Round2Package_to_protocol_message x sid)
              (package_to t n j k) m c Hm) as (c1 & Hpub & Hok1 & Hp1); [|done|].
  { assert (Hj : (1 <= N.of_nat j <= n)%N) by (apply (position_range t n t_ok n_ok), Hl; left).
    apply (position_range t n t_ok n_ok) in Hk. split_and!; [by rewrite Hs|rewrite Hsender; cbn; lia| |by rewrite Hkind].
    rewrite Hrec. intros r [= <-]. cbn. lia. }
  destruct (IH c1 Hk) as (ms & c' & out & Hrun & HF & Hok' & Hp');
    [intros j' Hj'; apply Hl; by right|done|].
  exists (m :: ms), c', (tt :: out). rewrite fmap_cons. split_and!.
  - unfold publish_round2 at 1. by rewrite st_mapM_cons, (st_bind_Ok _ _ _ _ _ Hpub), (st_bind_Ok _ _ _ _ _ Hrun).
  - by constructor.
  - done.
  - by rewrite Hp', Hp1, <- app_assoc.
Qed.

(** From here on all contributors have run round one. *)
Context (K : list honest) (K_positions : K.*1 = positions).
Context (co : Coordinator) (agg : AggKeygenInput).
Hypothesis co_ok : add_inputs (coordinator_new t n)
  ((fun k => (N.of_nat k.1 - 1, honest_input t n k)%N) <$> K) = Some co.
Hypothesis agg_ok : coordinator_finish co = Some agg.

Lemma cli_round2_step k c g :
  k.1 ∈ positions -> coordinator_ok c ->
  exists ms c',
    cli_round2 sid (honest_packages t n K) (session_after_round1 name t n k) (c, g) =
      ((c', g), Ok (session_after_round2 name t n K k)) /\
    Forall2 round2_event (honest_round2 t n k) ms /\ coordinator_ok c' /\
    coordinator_pending c' = coordinator_pending c ++ ms.
Proof.
  intros Hk Hok.
  destruct (publish_round2_events k positions c Hk) as (ms & c' & out & Hrun & HF & Hok' & Hp'); [done..|].
  exists ms, c'. split_and!; [|done|done|done]. unfold cli_round2.
  rewrite st_lift_bind.
  rewrite (local_round2 name t n name_ok t_ok n_ok K K_positions co agg co_ok agg_ok k).
  erewrite st_bind_Ok; [done|]. rewrite mapM_cli. unfold honest_round2.
  change (fun j => mkRound2Package _ _ _) with (fun j => package_to t n j k). by rewrite Hrun.
Qed.

Lemma cli_round2_all l : forall c g,
  (forall k, k ∈ l -> k ∈ K) -> coordinator_ok c ->
  exists ms c',
    mapM (cli_round2 sid (honest_packages t n K)) (session_after_round1 name t n <$> l) (c, g) =
      ((c', g), Ok (session_after_round2 name t n K <$> l)) /\
    Forall2 round2_event (concat (honest_round2 t n <$> l)) ms /\ coordinator_ok c' /\
    coordinator_pending c' = coordinator_pending c ++ ms.
Proof.
  induction l as [|k l IH]; intros c g Hl Hok.
  { exists [], c. rewrite app_nil_r. by split_and!. }
  destruct (cli_round2_step k c g) as (ms1 & c1 & Hx1 & HF1 & Hok1 & Hp1); [|done|].
  { rewrite <- K_positions. apply list_elem_of_fmap_2, Hl. left. }
  destruct (IH c1 g) as (ms & c' & Hrun & HF & Hok' & Hp'); [intros k' Hk'; apply Hl; by right|done|].
  exists (ms1 ++ ms), c'. rewrite !fmap_cons. split_and!.
  - by rewrite st_mapM_cons, (st_bind_Ok _ _ _ _ _ Hx1), (st_bind_Ok _ _ _ _ _ Hrun).
  - cbn [concat]. by apply Forall2_app.
  - done.
  - by rewrite Hp', Hp1, <- app_assoc.
Qed.

(** The drain of round one returns the packages of [K] when the queue holds
    exactly their messages. *)
Lemma cli_drain_round1 c g ms :
  coordinator_ok c -> coordinator_pending c = ms -> Forall2 round1_event K ms ->
  exists c', cli_coordinator (drain_round1 sid) (c, g) = ((c', g), Ok (honest_packages t n K)) /\
             coordinator_ok c' /\ coordinator_pending c' = [].
Proof.
  intros Hok Hp HF.
  assert (Hsel : Forall (selected sid (only_kind FrostDkgRound1)) ms).
  { clear -HF. induction HF as [|k m ks ms (_ & Hs & Hk) HF IH]; constructor; [|done].
    split; [done|]. by apply bool_decide_eq_true. }
  destruct (drain_packages_of c sid (only_kind FrostDkgRound1)
              Round1Package_from_protocol_message (honest_packages t n K) Hok)
    as (c' & Hd & Hok' & Hp').
  - rewrite Hp, filter_all by (by apply Forall_forall). unfold honest_packages.
    apply Forall2_fmap_l. eapply Forall2_impl; [exact HF|]. by intros k m (? & _).
  - exists c'. split_and!; [|done|].
    + unfold cli_coordinator, st_zoom, drain_round1. cbn [fst snd]. by rewrite Hd.
    + rewrite Hp', Hp. apply filter_none. intros m Hm Hn. apply Hn. rewrite Forall_forall in Hsel.
      by apply Hsel.
Qed.

(** The drain of round two for one participant takes its packages out of the
    queue and leaves the others. *)
Lemma cli_drain_round2_step i c g xs :
  i ∈ positions -> coordinator_ok c -> Forall2 round2_event xs (coordinator_pending c) ->
  exists c', cli_drain_round2 sid (N.of_nat i) (c, g) =
               ((c', g), Ok (filter (fun x => r2_recipient x = id i) xs)) /\
    coordinator_ok c' /\
    Forall2 round2_event (filter (fun x => r2_recipient x <> id i) xs) (coordinator_pending c').
Proof.
  intros Hi Hok HF. apply (position_range t n t_ok n_ok) in Hi.
  assert (Hsel : forall x m, round2_event x m ->
            r2_recipient x = id i <-> selected sid (only_target FrostDkgRound2 (id i)) m).
  { intros x m (_ & Hs & Hk & Hr). unfold selected, only_target, ProtocolMessage_is_for.
    rewrite Hr, andb_true_iff, !bool_decide_eq_true. tauto. }
  destruct (drain_packages_of c sid (only_target FrostDkgRound2 (id i))
              Round2Package_from_protocol_message (filter (fun x => r2_recipient x = id i) xs) Hok)
    as (c' & Hd & Hok' & Hp').
  - eapply Forall2_impl; [by eapply Forall2_filter|]. by intros x m (? & _).
  - exists c'. split_and!; [|done|].
    + assert (Hid : ParticipantId_new (N.of_nat i) = Ok (id i)).
      { unfold ParticipantId_new. by rewrite (proj2 (N.eqb_neq _ _)) by lia. }
      unfold cli_drain_round2. rewrite st_lift_bind, Hid.
      unfold cli_coordinator, st_zoom, drain_round2_for. cbn [fst snd]. by rewrite Hd.
    + rewrite Hp'. eapply Forall2_filter; [exact HF|]. intros x m Hx. by rewrite (Hsel x m Hx).
Qed.

Lemma cli_drain_round2_all l : forall c g xs,
  l ⊆ positions -> NoDup l -> coordinator_ok c ->
  Forall2 round2_event xs (coordinator_pending c) ->
  exists c',
    mapM (fun i => cli_drain_round2 sid (N.of_nat i)) l (c, g) =
      ((c', g), Ok ((fun i => filter (fun x => r2_recipient x = id i) xs) <$> l)) /\
    coordinator_ok c' /\
    Forall2 round2_event (filter (fun x => r2_recipient x ∉ (fun i => id i) <$> l) xs)
      (coordinator_pending c').
Proof.
  induction l as [|i l IH]; intros c g xs Hl HN Hok HF.
  { exists c. split_and!; [done..|]. rewrite filter_all; [done|]. intros x _. apply not_elem_of_nil. }
  apply NoDup_cons in HN as [Hi HN].
  destruct (cli_drain_round2_step i c g xs) as (c1 & Hx1 & Hok1 & HF1); [set_solver|done..|].
  destruct (IH c1 g _ ltac:(set_solver) HN Hok1 HF1) as (c' & Hrun & Hok' & HF').
  exists c'. split_and!; [|done|].
  - rewrite st_mapM_cons, (st_bind_Ok _ _ _ _ _ Hx1), (st_bind_Ok _ _ _ _ _ Hrun), fmap_cons.
    unfold mret, st_ret. do 3 f_equal. apply list_fmap_ext. intros m j Hj.
    rewrite list_filter_filter. apply list_filter_iff. intros x. split; [by intros [? _]|].
    intros Hx. split; [done|]. rewrite Hx. intros [= E%Nat2N.inj]. subst j.
    by apply Hi, (list_elem_of_lookup_2 _ m).
  - rewrite list_filter_filter in HF'. erewrite list_filter_iff; [exact HF'|]. intros x.
    rewrite fmap_cons, not_elem_of_cons. tauto.
Qed.
End exchange.

(** ** The program *)

Section cli_theorem.
Context `{KeygenLaws} `{!SecpLaws}.
Context `{BincodeLaws KeygenInput, !Bincode scalar, !BincodeLaws scalar,
          !Bincode EvenPairedShare, !BincodeLaws EvenPairedShare,
          !Bincode EvenSharedKey, !BincodeLaws EvenSharedKey}.
Context `{SerdeJson ProtocolMessage} `{!SerdeJsonLaws ProtocolMessage} `{Utf8Error}.
Context `{SerdeJson Round1Package} `{!SerdeJsonLaws Round1Package}.
Context `{SerdeJson Round2Package} `{!SerdeJsonLaws Round2Package}.

Local Abbreviation name := "nostr-local-demo".

Local Abbreviation sid := (mkSessionId name).

Lemma cli_pending_ok (c : FrostCoordinator LocalNostrEventTransport) g :
  coordinator_ok c -> cli_pending (c, g) = ((c, g), Ok (length (coordinator_pending c))).
Proof. intros Hok. unfold cli_pending, st_gets, FrostCoordinator_transport. cbn [fst]. by rewrite pending_len_ok. Qed.

Definition same_keys (shares : LocalKeyShare * LocalKeyShare * LocalKeyShare) : Prop :=
  let '(alice, bob, carol) := shares in
  lks_group_key alice = lks_group_key bob /\ lks_group_key bob = lks_group_key carol.

Local Abbreviation session i := (FrostDkgSession_new (local_config name 2 3 i)).

(** Three calls in a row are a loop over three items. *)
Lemma three_calls {St E A B C} (f : A -> ST St E B) x1 x2 x3 y1 y2 y3
    (k : B -> B -> B -> ST St E C) st st' :
  mapM f [x1; x2; x3] st = (st', Ok [y1; y2; y3]) ->
  (a ← f x1; b ← f x2; c ← f x3; k a b c) st = k y1 y2 y3 st'.
Proof.
  rewrite !st_mapM_cons. cbn [mapM]. unfold mret, st_ret, mbind, st_bind.
  destruct (f x1 st) as [st1 [a|e|]]; [|congruence..].
  destruct (f x2 st1) as [st2 [b|e|]]; [|congruence..].
  destruct (f x3 st2) as [st3 [c|e|]]; [|congruence..]. by intros [= <- <- <- <-].
Qed.

Lemma three_results {St A B C} (f : A -> Result B) x1 x2 x3 (k : B -> B -> B -> ST St DkgKitError C) st :
  (a ← st_lift (f x1); b ← st_lift (f x2); c ← st_lift (f x3); k a b c) st =
  match mapM f [x1; x2; x3] with
  | Ok [a; b; c] => k a b c st
  | Ok _ => (st, Panic)
  | Err e => (st, Err e)
  | Panic => (st, Panic)
  end.
Proof.
  rewrite st_lift_bind. cbn [mapM]. destruct (f x1) as [a|e|]; [|done..]. rewrite ok_bind, st_lift_bind.
  destruct (f x2) as [b|e|]; [|done..]. rewrite ok_bind, st_lift_bind.
  by destruct (f x3) as [c|e|].
Qed.

(** Every share is for one of the three participants. *)
Lemma no_share_left (K : list honest) :
  filter (fun x => r2_recipient x ∉ (fun i => mkParticipantId (N.of_nat i)) <$> [1; 2; 3])
    (concat (honest_round2 2 3 <$> K)) = [].
Proof.
  apply filter_none. intros x Hx Hout. apply Hout.
  apply list_elem_of_In, in_concat in Hx as (ps & Hps & Hx).
  apply list_elem_of_In, list_elem_of_fmap in Hps as (k & -> & _). apply list_elem_of_In in Hx.
  apply list_elem_of_fmap in Hx as (j & -> & Hj).
  exact (list_elem_of_fmap_2 (fun i => mkParticipantId (N.of_nat i)) _ j Hj).
Qed.

(** The three participants finalize, each with the shares addressed to it. *)
Definition finalize_own (K : list honest) (k : honest) : Result LocalKeyShare :=
  FrostDkgSession_finalize (session_after_round2 name 2 3 K k)
    (filter (fun x => r2_recipient x = mkParticipantId (N.of_nat k.1))
       (concat (honest_round2 2 3 <$> K))).

Lemma three_finalize (K : list honest) :
  K.*1 = [1; 2; 3] ->
  (exists a b c, mapM (finalize_own K) K = Ok [a; b; c] /\ same_keys (a, b, c)) \/
  (exists e, mapM (finalize_own K) K = Err e /\ zero_error e).
Proof.
  intros HK. assert (Ht : (1 <= 2 <= 3)%N) by lia.
  assert (Hu : (3 <= u16_max)%N) by (vm_compute; discriminate).
  destruct (honest_keygen_verifies 2 3 K Ht HK) as (co & agg & Hco & Hagg & Hshares).
  destruct (finalize_each name 2 3 Ht Hu K HK co agg Hco Hagg Hshares
              (fun k => filter (fun x => r2_recipient x = mkParticipantId (N.of_nat k.1))
                          (concat (honest_round2 2 3 <$> K))))
    as [(shares & key & Hr & Hids & Hall)|(e & Hr & He)]; [|left|right; by exists e].
  - intros k Hk. rewrite list_filter_filter. erewrite list_filter_iff;
      [apply (local_packages_for 2 3 k.1 K)|intros x; split; [by intros [? _]|done]].
    apply (list_elem_of_fmap_2 fst) in Hk. by rewrite HK in Hk.
  - destruct shares as [|a [|b [|c [|]]]]; try discriminate Hids. exists a, b, c. split; [exact Hr|].
    rewrite !Forall_cons in Hall. destruct Hall as (Ha & Hb & Hc & _). split; congruence.
Qed.

Lemma cli_exchange_runs g :
  exists c g' r,
    cli_exchange (session 1) (session 2) (session 3)
      (mkFrostCoordinator LocalNostrEventTransport_default, g) = ((c, g'), r) /\
    ((exists shares, r = Ok (3, 9, shares) /\ same_keys shares /\ coordinator_ok c /\
                     coordinator_pending c = []) \/
     (exists e, r = Err e /\ zero_error e)).
Proof.
  assert (Hn : blank name = false) by reflexivity. assert (Ht : (1 <= 2 <= 3)%N) by lia.
  assert (Hu : (3 <= u16_max)%N) by (vm_compute; discriminate).
  set (c0 := mkFrostCoordinator (mkLocalNostrEventTransport true [])).
  assert (Hok0 : coordinator_ok c0) by constructor.
  destruct (cli_round1_all name 2 3 Hn Ht Hu [1; 2; 3] c0 g)
    as (K & ms1 & c1 & g1 & HK & Hr1 & HF1 & Hok1 & Hp1); [done|done|].
  destruct (honest_keygen_verifies 2 3 K Ht HK) as (co & agg & Hco & Hagg & _).
  destruct (cli_drain_round1 name 2 3 K c1 g1 ms1 Hok1 Hp1 HF1) as (c2 & Hd1 & Hok2 & Hp2).
  destruct (cli_round2_all name 2 3 Hn Ht Hu K HK co agg Hco Hagg K c2 g1)
    as (ms2 & c3 & Hr2 & HF2 & Hok3 & Hp3); [done|done|].
  rewrite Hp2 in Hp3. cbn [app] in Hp3. rewrite <- Hp3 in HF2.
  destruct (cli_drain_round2_all name 2 3 Hn Ht Hu K HK co agg Hco Hagg [1; 2; 3] c3 g1 _ ltac:(done)
              (NoDup_seq 1 3) Hok3 HF2) as (c4 & Hd2 & Hok4 & HF4).
  rewrite no_share_left in HF4. apply Forall2_nil_inv_l in HF4 as Hempty.
  pose proof (three_finalize K HK) as Hfin.
  destruct K as [|[i1 r1] [|[i2 r2] [|[i3 r3] [|]]]]; try discriminate HK. injection HK as -> -> ->.
  pose proof (Forall2_length _ _ _ HF2) as Hlen2.
  assert (Hlen1 : length (coordinator_pending c1) = 3)
    by (rewrite Hp1; cbn; symmetry; exact (Forall2_length _ _ _ HF1)).
  unfold cli_exchange. erewrite st_bind_Ok; [|reflexivity].
  erewrite three_calls; [|exact Hr1].
  rewrite (st_bind_Ok _ _ _ _ _ (cli_pending_ok c1 g1 Hok1)), (st_bind_Ok _ _ _ _ _ Hd1).
  erewrite three_calls; [|exact Hr2].
  rewrite (st_bind_Ok _ _ _ _ _ (cli_pending_ok c3 g1 Hok3)), Hlen1, <- Hlen2.
  rewrite <- (mapM_fmap (cli_drain_round2 sid) N.of_nat) in Hd2.
  erewrite three_calls; [|exact Hd2].
  set (K := [(1, r1); (2, r2); (3, r3)] : list honest) in *.
  destruct Hfin as [(a & b & d & Hr & Hsame)|(e & Hr & He)];
    [exists c4, g1, (Ok (3, 9, (a, b, d))); split; [|left; by exists (a, b, d)]
    |exists c4, g1, (Err e); split; [|right; by exists e]].
  all: etransitivity; [exact (three_results (finalize_own K) (1, r1) (2, r2) (3, r3) _ _)|];
    change (mapM (finalize_own K) [(1, r1); (2, r2); (3, r3)]) with (mapM (finalize_own K) K);
    by rewrite Hr.
Qed.

(** The command-line program completes.  Over an engine that accepts honest
    inputs, [main] publishes three events in round one and nine in round two, all
    of them are drained, the three participants derive the same group key and no
    event remains; the only errors are a zero key or a zero share. *)
Theorem dkg_cli_completes g :
  exists g' r, dkg_cli_main g = (g', r) /\
    ((exists key, r = Ok (mkCliReport 3 9 0 key)) \/
     (exists e, r = Err (AnyhowDkgKit e) /\ zero_error e)).
Proof.
  destruct (cli_exchange_runs g) as (c & g' & r & Hrun & Hr). unfold dkg_cli_main, dkg_cli_session.
  do 3 (erewrite dkgkit_bind_Ok; [|reflexivity]).
  destruct Hr as [([[alice bob] carol] & -> & [Hab Hbc] & Hok & Hp)|(e & -> & He)].
  - rewrite (dkgkit_bind_Ok _ _ _ _ _ Hrun). cbv beta iota.
    erewrite st_bind_Ok; [|by rewrite bool_decide_eq_false_2 by auto].
    erewrite st_bind_Ok; [|by rewrite bool_decide_eq_false_2 by auto].
    rewrite (dkgkit_bind_Ok _ _ _ _ _ (cli_pending_ok c g' Hok)), Hp.
    eexists _, _. split; [reflexivity|]. left. by eexists.
  - rewrite (dkgkit_bind_Err _ _ _ _ _ Hrun). eexists _, _. split; [reflexivity|]. right. by exists e.
Qed.
End cli_theorem.

(** ** A concrete run *)

Section witnesses.
Local Existing Instances small_group small_group_laws unit_engine unit_engine_keygen.
Local Existing Instances scalar_bincode scalar_bincode_laws engine_n_bincode digits_bincode_laws.
Local Existing Instances digits_json digits_json_laws.
#[local] Instance cli_utf8_error : Utf8Error := fun _ => "invalid utf-8".

Definition cli_seed : @rng small_group := 0%Z.

Lemma dkg_cli_completes_witness :
  exists g' key, dkg_cli_main cli_seed = (g', Ok (mkCliReport 3 9 0 key)).
Proof.
  destruct (dkg_cli_completes cli_seed) as (g' & r & Hrun & [[key ->]|(e & -> & _)]).
  - exists g', key. exact Hrun.
  - exfalso. assert (Hok : is_ok (dkg_cli_main cli_seed).2 = true) by (vm_compute; reflexivity).
    rewrite Hrun in Hok. discriminate Hok.
Defined.
End witnesses.
