(* ===== verification/TransportService.v ===== *)
(** [examples/nostr-transport-service/src/main.rs]: the devices of a live key
    generation and the polling loop that waits for the relay.

    [collect] polls a drain until enough items have come or a deadline has passed.
    What happens while the loop sleeps (time passes, relay threads push messages)
    is outside: a state type with a clock, an operation [sleep] and the drain are
    the arguments of the loop.  The termination theorem uses only that time does
    not run backwards and that [sleep] sleeps.

    [main] itself, which runs the devices against a relay, is in [LiveDkg]. *)

From Stdlib Require Import Ascii String Strings.Byte.
From stdpp Require Import base numbers countable gmap strings list.
From S2P Require Import Prelude Core Codec Transport Sdk Nostr LiveNostr.

Definition THRESHOLD : N := 2.
Definition PARTICIPANTS : N := 3.

(** [std::env::var("DKGKIT_TEST_RELAY")] is the argument. *)
Definition relay_url (var : option string) : string := default "ws://127.0.0.1:7777" var.

(** [ParticipantId::new(value).expect(..)] *)
Definition service_pid (value : N) : Result ParticipantId :=
  match ParticipantId_new value with Ok id => Ok id | _ => Panic end.

(** ** The devices *)

Section devices.
Context `{NostrSdk}.

Definition make_transport (relay : string) (vault : string) (self_id : N) (keys : Keys)
    (directory : ParticipantDirectory) : Result LiveNostrTransport :=
  self_id ← service_pid self_id;
  Ok (LiveNostrTransport_new
        (mkLiveNostrTransportConfig [relay] vault self_id keys directory)).

(** [for (idx, k) in keys.iter().enumerate() { directory.insert(..) }], with the
    index of the first key. *)
Fixpoint fill_directory (idx : N) (keys : list Keys) (directory : ParticipantDirectory) :
  Result ParticipantDirectory :=
  match keys with
  | [] => Ok directory
  | k :: keys =>
      position ← u16_add (as_u16 idx) 1;
      id ← service_pid position;
      fill_directory (idx + 1) keys
        (ParticipantDirectory_insert directory id (keys_public_key k))
  end.

Fixpoint make_coordinators (relay vault : string) (idx : N) (keys : list Keys)
    (directory : ParticipantDirectory) : Result (list (FrostCoordinator LiveNostrTransport)) :=
  match keys with
  | [] => Ok []
  | k :: keys =>
      position ← u16_add (as_u16 idx) 1;
      transport ← make_transport relay vault position k directory;
      rest ← make_coordinators relay vault (idx + 1) keys directory;
      Ok (FrostCoordinator_new transport :: rest)
  end.

(** The first part of [main]: the directory and one coordinator per key. *)
Definition make_devices (relay vault : string) (keys : list Keys) :
  Result (list (FrostCoordinator LiveNostrTransport)) :=
  directory ← fill_directory 0 keys ParticipantDirectory_new;
  make_coordinators relay vault 0 keys directory.
End devices.

(** ** Polling *)

Section collect.
Context {St E T : Type}.
Context (now : St -> N) (sleep : N -> St -> St).

(** The body of the loop, once its guard holds. *)
Definition poll (want : nat) (drain : ST St E (list T)) (acc : list T) : ST St E (list T) :=
  fun st =>
    match drain st with
    | (st, Ok items) =>
        let acc := acc ++ items in
        (if (length acc <? want)%nat then sleep 100 st else st, Ok acc)
    | (st, Err e) => (st, Err e)
    | (st, Panic) => (st, Panic)
    end.

(** The loop, with the number of iterations it may take; [None] when they do not
    suffice. *)
Fixpoint collect_loop (fuel : nat) (want : nat) (deadline : N) (drain : ST St E (list T))
    (acc : list T) (st : St) : option (St * Outcome E (list T)) :=
  if (length acc <? want)%nat && (now st <? deadline)%N then
    match fuel with
    | O => None
    | S fuel =>
        match poll want drain acc st with
        | (st, Ok acc) => collect_loop fuel want deadline drain acc st
        | (st, r) => Some (st, r)
        end
    end
  else Some (st, Ok acc).

(** Times are in milliseconds. *)
Definition collect (fuel : nat) (want : nat) (timeout : N) (drain : ST St E (list T)) (st : St) :
  option (St * Outcome E (list T)) :=
  collect_loop fuel want (now st + timeout)%N drain [] st.

(** ** The loop ends *)

(** The drains of a run: each batch, and the states between. *)
Inductive polled (drain : ST St E (list T)) : St -> list (list T) -> St -> Prop :=
  | polled_nil st : polled drain st [] st
  | polled_cons st st1 items batches st' :
      drain st = (st1, Ok items) -> polled drain (sleep 100 st1) batches st' ->
      polled drain st (items :: batches) st'.

(** What [collect] returned, after at most [k] sleeps. *)
Inductive collected (want : nat) (deadline : N) (drain : ST St E (list T)) (k : nat) (acc : list T)
    (st : St) : St -> Outcome E (list T) -> Prop :=
  | collected_timeout batches st' :
      polled drain st batches st' -> length batches <= k ->
      length (acc ++ concat batches) < want -> (deadline <= now st')%N ->
      collected want deadline drain k acc st st' (Ok (acc ++ concat batches))
  | collected_enough batches st' st1 items :
      polled drain st batches st' -> length batches <= k -> drain st' = (st1, Ok items) ->
      length (acc ++ concat batches) < want -> (now st' < deadline)%N ->
      want <= length (acc ++ concat batches ++ items) ->
      collected want deadline drain k acc st st1 (Ok (acc ++ concat batches ++ items))
  | collected_error batches st' st1 r :
      polled drain st batches st' -> length batches <= k -> drain st' = (st1, r) ->
      is_ok r = false -> collected want deadline drain k acc st st1 r
  | collected_nothing : want <= length acc -> collected want deadline drain k acc st st (Ok acc).

Hypothesis sleep_passes : forall ms st, (now st + ms <= now (sleep ms st))%N.

Lemma collected_step want deadline drain k acc st st1 items st' r :
  drain st = (st1, Ok items) -> length (acc ++ items) < want ->
  collected want deadline drain k (acc ++ items) (sleep 100 st1) st' r ->
  collected want deadline drain (S k) acc st st' r.
Proof.
  intros Hd Hlt Hc. destruct Hc as [batches st' Hp Hk Hl Hdl|batches st' st2 last Hp Hk Hd' Hl Hdl Hw
    |batches st' st2 r Hp Hk Hd' Hr|Hw].
  - rewrite <- app_assoc in *. apply (collected_timeout _ _ _ _ _ _ (items :: batches));
      [by econstructor|cbn; lia|done|done].
  - rewrite <- app_assoc in *.
    rewrite (app_assoc items (concat batches) last) in *. change (items ++ concat batches) with
      (concat (items :: batches)) in *.
    eapply (collected_enough _ _ _ _ _ _ (items :: batches)); [by econstructor|cbn; lia|done..].
  - eapply (collected_error _ _ _ _ _ _ (items :: batches)); [by econstructor|cbn; lia|done..].
  - lia.
Qed.

Lemma collected_stop want deadline drain k acc st :
  (length acc <? want)%nat && (now st <? deadline)%N = false ->
  collected want deadline drain k acc st st (Ok acc).
Proof.
  intros Hstop. destruct (Nat.ltb_spec (length acc) want) as [Hlt|Hge]; [|by apply collected_nothing].
  cbn [andb] in Hstop. apply N.ltb_ge in Hstop.
  pose proof (collected_timeout want deadline drain k acc st [] st (polled_nil drain st)) as Hc.
  cbn [concat length] in Hc. rewrite app_nil_r in Hc. apply Hc; [lia|done|done].
Qed.

Lemma collect_loop_ends drain want deadline :
  (forall st, (now st <= now (drain st).1)%N) ->
  forall k acc st, (deadline <= now st + 100 * N.of_nat k)%N ->
  exists st' r, collect_loop k want deadline drain acc st = Some (st', r) /\
                collected want deadline drain k acc st st' r.
Proof.
  intros Hmono k. induction k as [|k IH]; intros acc st Hd; cbn [collect_loop];
    destruct ((length acc <? want)%nat && (now st <? deadline)%N) eqn:Hguard;
    try (exists st, (Ok acc); split; [done|by apply collected_stop]).
  - exfalso. apply andb_true_iff in Hguard as [_ Hlt%N.ltb_lt]. lia.
  - apply andb_true_iff in Hguard as [Hlt%Nat.ltb_lt Hnow%N.ltb_lt]. specialize (Hmono st).
    unfold poll. destruct (drain st) as [st1 r] eqn:Hdrain. cbn [fst] in Hmono.
    destruct r as [items|e|].
    2, 3: eexists _, _; split; [reflexivity|];
      apply (collected_error _ _ _ _ _ _ [] st); [constructor|cbn; lia|done|done].
    cbv zeta. destruct (Nat.ltb_spec (length (acc ++ items)) want) as [Hlt'|Hge].
    + destruct (IH (acc ++ items) (sleep 100 st1)) as (st' & r & Hrun & Hc).
      { pose proof (sleep_passes 100 st1). lia. }
      exists st', r. split; [done|]. by eapply collected_step.
    + exists st1, (Ok (acc ++ items)). split.
      * destruct k; cbn [collect_loop]; by rewrite (proj2 (Nat.ltb_ge _ _)).
      * apply (collected_enough _ _ _ _ _ _ [] st st1 items); cbn [concat]; rewrite ?app_nil_r;
          [constructor|cbn; lia|done|done|done|done].
Qed.

(** What every poll keeps holds when the loop returns. *)
Lemma collect_loop_keeps want deadline drain (I : list T -> St -> Prop) :
  (forall acc st, I acc st -> length acc < want -> (now st < deadline)%N ->
     exists st' acc', poll want drain acc st = (st', Ok acc') /\ I acc' st') ->
  forall fuel acc st st' r, collect_loop fuel want deadline drain acc st = Some (st', r) -> I acc st ->
    exists acc', r = Ok acc' /\ I acc' st' /\ (want <= length acc' \/ (deadline <= now st')%N).
Proof.
  intros Hpoll fuel. induction fuel as [|fuel IH]; intros acc st st' r; cbn [collect_loop];
    destruct ((length acc <? want)%nat && (now st <? deadline)%N) eqn:Hguard; [done| | |].
  2: { apply andb_true_iff in Hguard as [Hlt%Nat.ltb_lt Hnow%N.ltb_lt]. intros Hrun HI.
       destruct (Hpoll acc st HI Hlt Hnow) as (st1 & acc1 & Hp & HI1). rewrite Hp in Hrun.
       exact (IH acc1 st1 st' r Hrun HI1). }
  all: intros [= <- <-] HI; exists acc; split_and!; [done|done|];
    apply andb_false_iff in Hguard as [Hge%Nat.ltb_ge|Hge%N.ltb_ge]; [by left|by right].
Qed.

(** The polling loop ends.  If time does not run backwards and [sleep(100ms)]
    lasts 100 milliseconds, [collect] returns after at most
    [timeout / 100 + 1] sleeps, whatever the relay does: with the items of all
    drains, in order, once there are [want] of them or when the deadline has
    passed with fewer, or with the first error of a drain, in which case the
    items of the earlier drains are lost. *)
Theorem collect_ends want timeout (drain : ST St E (list T)) st :
  (forall st, (now st <= now (drain st).1)%N) ->
  let fuel := N.to_nat (timeout / 100 + 1) in
  exists st' r, collect fuel want timeout drain st = Some (st', r) /\
                collected want (now st + timeout) drain fuel [] st st' r.
Proof.
  intros Hmono fuel. apply collect_loop_ends; [done|]. unfold fuel. rewrite N2Nat.id.
  pose proof (N.Div0.div_mod timeout 100). pose proof (N.mod_lt timeout 100). lia.
Qed.
End collect.

(** ** The devices know each other *)

Section device_properties.
Context `{NostrSdk}.

Lemma service_pid_ok i : service_pid (i + 1) = Ok (mkParticipantId (i + 1)).
Proof.
  unfold service_pid, ParticipantId_new. by rewrite (proj2 (N.eqb_neq _ _)) by lia.
Qed.

Lemma position_ok i :
  (i + 1 <= u16_max)%N -> (u16_add (as_u16 i) 1 : Result N) = Ok (i + 1)%N.
Proof.
  intros Hi. unfold as_u16. rewrite N.mod_small by (unfold u16_max in Hi; lia). by apply u16_add_Ok.
Qed.

Lemma fill_directory_ok keys : forall idx directory,
  (idx + N.of_nat (length keys) <= u16_max)%N ->
  exists d, fill_directory idx keys directory = Ok d /\
    forall i, ParticipantDirectory_get d (mkParticipantId i) =
      if decide (idx < i <= idx + N.of_nat (length keys))%N
      then keys_public_key <$> keys !! N.to_nat (i - idx - 1)
      else ParticipantDirectory_get directory (mkParticipantId i).
Proof.
  induction keys as [|k keys IH]; intros idx directory Hmax; cbn [fill_directory].
  - exists directory. split; [done|]. intros i. by rewrite decide_False by (cbn; lia).
  - cbn [length] in Hmax. rewrite position_ok, ok_bind, service_pid_ok, ok_bind by lia.
    destruct (IH (idx + 1)%N (ParticipantDirectory_insert directory (mkParticipantId (idx + 1))
                                (keys_public_key k))) as (d & Hd & Hget); [lia|].
    exists d. split; [done|]. intros i. rewrite Hget. cbn [length].
    destruct (decide (i = idx + 1)%N) as [->|Hne].
    + repeat case_decide; try lia.
      unfold ParticipantDirectory_get, ParticipantDirectory_insert. cbn [by_participant].
      rewrite lookup_insert_eq. by replace (N.to_nat (idx + 1 - idx - 1)) with 0 by lia.
    + unfold ParticipantDirectory_get, ParticipantDirectory_insert. cbn [by_participant].
      rewrite lookup_insert_ne by congruence. repeat case_decide; try lia; [|done].
      by replace (N.to_nat (i - idx - 1)) with (S (N.to_nat (i - (idx + 1) - 1))) by lia.
Qed.

Lemma make_coordinators_ok relay vault directory keys : forall idx,
  (idx + N.of_nat (length keys) <= u16_max)%N ->
  make_coordinators relay vault idx keys directory =
  Ok (imap (fun i k => mkFrostCoordinator (LiveNostrTransport_new
        (mkLiveNostrTransportConfig [relay] vault (mkParticipantId (idx + N.of_nat i + 1)) k
           directory))) keys).
Proof.
  induction keys as [|k keys IH]; intros idx Hmax; [done|].
  cbn [make_coordinators]. cbn [length] in Hmax. rewrite position_ok, ok_bind by lia.
  unfold make_transport. rewrite service_pid_ok, !ok_bind, IH, ok_bind by lia. rewrite imap_cons.
  do 2 f_equal; [do 4 f_equal; lia|]. apply imap_ext. intros i x _. unfold compose.
  do 4 f_equal. lia.
Qed.

(** The devices of the service know each other.  Whatever the relay, vault and
    keys (at most 65535 of them), the construction never panics: it gives one disconnected transport per
    key, device [i] speaks for participant [i + 1] with its own key, and every
    device finds, for each participant [1, .., n], the public key of that
    participant's device, and for no other. *)
Theorem devices_know_each_other relay vault keys :
  (N.of_nat (length keys) <= u16_max)%N ->
  exists directory devices,
    make_devices relay vault keys = Ok devices /\
    (forall i, ParticipantDirectory_get directory (mkParticipantId i) =
       if decide (1 <= i <= N.of_nat (length keys))%N
       then keys_public_key <$> keys !! N.to_nat (i - 1) else None) /\
    (forall i k, keys !! i = Some k ->
       devices !! i = Some (mkFrostCoordinator (LiveNostrTransport_new
         (mkLiveNostrTransportConfig [relay] vault (mkParticipantId (N.of_nat i + 1)) k directory)))) /\
    length devices = length keys.
Proof.
  intros Hmax.
  destruct (fill_directory_ok keys 0 ParticipantDirectory_new) as (d & Hd & Hget); [lia|].
  exists d. eexists. split_and!.
  - unfold make_devices. rewrite Hd, ok_bind. apply make_coordinators_ok. lia.
  - intros i. rewrite Hget. repeat case_decide; try lia; [|done]. do 3 f_equal. lia.
  - intros i k Hk. rewrite list_lookup_imap, Hk. cbn. do 5 f_equal.
  - by rewrite length_imap.
Qed.
End device_properties.

(** ** A concrete wait *)

(** A clock and the batches still to come. *)
Definition slow_relay : ST (N * list (list N)) DkgKitError (list N) :=
  fun st => match st.2 with
            | [] => (st, Ok [])
            | batch :: rest => ((st.1, rest), Ok batch)
            end.

Definition tick (ms : N) (st : N * list (list N)) : N * list (list N) := ((st.1 + ms)%N, st.2).

(** Three items in two batches, within a second. *)
Lemma collect_ends_witness :
  exists st' r, collect fst tick 11 3 1000 slow_relay (5%N, [[]; [1%N]; [2%N; 3%N]]) = Some (st', r) /\
                r = Ok [1%N; 2%N; 3%N].
Proof.
  destruct (collect_ends fst tick ltac:(intros; cbn; lia) 3 1000 slow_relay
              (5%N, [[]; [1%N]; [2%N; 3%N]])) as (st' & r & Hrun & _).
  - intros [t [|b l]]; cbn; lia.
  - exists st', r. split; [exact Hrun|]. vm_compute in Hrun. injection Hrun as <- <-. reflexivity.
Defined.
