(* ===== verification/LiveDkg.v ===== *)
(** [examples/nostr-transport-service/src/main.rs]: the [main] of the service, a
    FROST key generation of three devices over a live relay.

    Each device is a [LiveNostrTransport] of its own; everything they exchange
    goes through the relay.  The relay, the clock and the client library are
    outside: the class [Outside] lists what the program asks of them, and
    [RelayLaws] states what the relay may do: deliver, at any time and in any
    order, what was sent by another device or by strangers.  [PromptWithin] says
    that it serves everyone within a given time; [elsewhere], that a stranger's
    event leaves no message of the session behind. *)

From Stdlib Require Import Ascii String Strings.Byte.
From stdpp Require Import base numbers countable gmap functions strings list sorting.
From S2P Require Import Prelude Core Codec Transport Secp SmallGroup Packages SignerPolicy.
From S2P Require Import FrostSession Sdk Ceremony Nostr LiveNostr TransportService.

(** [net_now]: [Instant::now()], in milliseconds.  [net_connect i cfg]: what
    device [i] hears from the relay thread it starts.  [net_nonce]: the randomness
    of the next encryption.  [net_send i keys content tags]: the client of device
    [i], whose keys are [keys], is handed an event.  [net_deliver]: the events that
    have reached the relay threads of the devices since the last call. *)
Class Outside `{NostrSdk} := {
  Net : Type;
  net_now : Net -> N;
  net_sleep : N -> Net -> Net;
  net_connect : nat -> LiveNostrTransportConfig -> Net -> Net * ThreadReply;
  net_nonce : Net -> N;
  net_send : nat -> Keys -> string -> list (list string) -> Net -> Net * ThreadReply;
  net_deliver : Net -> Net * list (nat * Event);
}.

(** ** One device *)

Section device.
Context `{Outside} `{SerdeJson ProtocolMessage} `{Utf8Error}.

(** A transport and the outside it talks to. *)
Record LiveDevice := mkLiveDevice {
  dv_index : nat;
  dv_transport : LiveNostrTransport;
  dv_net : Net;
}.

Definition with_transport {A} (d : LiveDevice) (net : Net)
    (out : LiveNostrTransport * Result A) : LiveDevice * Result A :=
  (mkLiveDevice (dv_index d) out.1 net, out.2).

Definition device_connect : ST LiveDevice DkgKitError unit :=
  fun d =>
    let t := dv_transport d in
    let '(net, reply) :=
      if lnt_connected t then (dv_net d, ThreadGone)
      else net_connect (dv_index d) (lnt_cfg t) (dv_net d) in
    with_transport d net (LiveNostrTransport_connect reply t).

Definition device_disconnect : ST LiveDevice DkgKitError unit :=
  fun d => with_transport d (dv_net d) (LiveNostrTransport_disconnect (dv_transport d)).

(** The client is handed what [prepare_publish] returns, when there is one. *)
Definition device_publish (message : ProtocolMessage) : ST LiveDevice DkgKitError unit :=
  fun d =>
    let t := dv_transport d in
    let nonce := net_nonce (dv_net d) in
    let '(net, reply) :=
      match (reject_if (negb (lnt_cmd_tx t)) (Transport_ "transport not connected");;
             prepare_publish (lnt_cfg t) nonce message) with
      | Ok (content, tags) =>
          net_send (dv_index d) (lc_keys (lnt_cfg t)) content tags (dv_net d)
      | _ => (dv_net d, ThreadGone)
      end in
    with_transport d net (LiveNostrTransport_publish nonce reply message t).

Definition device_drain_matching {P} (session_id : SessionId)
    (predicate : P -> ProtocolMessage -> bool * P) :
  ST (LiveDevice * P) DkgKitError (list ProtocolMessage) :=
  fun '(d, p) =>
    let '((t, p), r) := LiveNostrTransport_drain_matching session_id predicate (dv_transport d, p) in
    ((mkLiveDevice (dv_index d) t (dv_net d), p), r).

#[export] Instance live_device_transport : Transport LiveDevice := {|
  connect := device_connect;
  disconnect := device_disconnect;
  publish := device_publish;
  drain_matching P := device_drain_matching (P := P);
|}.
End device.

(** ** The program *)

Section program.
Context `{FrostLib} `{Outside} `{SerdeJson ProtocolMessage} `{Utf8Error}.
Context `{Bincode KeygenInput, !Bincode scalar, !Bincode EvenPairedShare, !Bincode EvenSharedKey}.
Context `{SerdeJson Round1Package, SerdeJson Round2Package}.

(** The coordinators of [main], the generator of [rand::thread_rng()] and the
    outside. *)
Record Service := mkService {
  sv_devices : list (FrostCoordinator LiveNostrTransport);
  sv_rng : rng;
  sv_net : Net;
}.

Local Abbreviation ServiceST := (ST Service).

(** What has arrived at the relay threads enters the buffers of the devices. *)
Definition deliver_event (devices : list (FrostCoordinator LiveNostrTransport))
    (delivery : nat * Event) : list (FrostCoordinator LiveNostrTransport) :=
  alter (fun c => mkFrostCoordinator (LiveNostrTransport_receive delivery.2 (fc_transport c)))
    delivery.1 devices.

Definition deliver (s : Service) : Service :=
  let '(net, deliveries) := net_deliver (sv_net s) in
  mkService (foldl deliver_event (sv_devices s) deliveries) (sv_rng s) net.

(** A call on [coordinators[idx]]; the relay threads have run before it. *)
Definition on_device {A} (idx : nat) (op : ST (FrostCoordinator LiveDevice) DkgKitError A) :
  ServiceST DkgKitError A :=
  fun s =>
    let s := deliver s in
    match sv_devices s !! idx with
    | None => (s, Panic)
    | Some c =>
        let '(c, r) := op (mkFrostCoordinator (mkLiveDevice idx (fc_transport c) (sv_net s))) in
        (mkService (<[idx := mkFrostCoordinator (dv_transport (fc_transport c))]> (sv_devices s))
           (sv_rng s) (dv_net (fc_transport c)), r)
    end.

Definition service_on_rng {A} (op : ST rng DkgKitError A) : ServiceST DkgKitError A :=
  st_zoom sv_rng (fun g s => mkService (sv_devices s) g (sv_net s)) op.

Definition service_now (s : Service) : N := net_now (sv_net s).

Definition service_sleep (ms : N) (s : Service) : Service :=
  mkService (sv_devices s) (sv_rng s) (net_sleep ms (sv_net s)).

(** [collect] of [TransportService] with a number of iterations that is always
    enough. *)
Definition service_collect {E T} (want : nat) (timeout : N)
    (drain : ServiceST E (list T)) : ServiceST E (list T) :=
  fun s => default (s, Panic)
    (collect service_now service_sleep (N.to_nat (timeout / 100 + 1)) want timeout drain s).

Definition enumerate {A} (l : list A) : list (nat * A) := imap pair l.

(** The bodies of the loops of [main].  A session changes by its [runtime] cell. *)
Definition announce (session : SessionId) (item : nat * FrostDkgSession) :
  ServiceST AnyhowError FrostDkgSession :=
  let '(idx, dkg) := item in
  '(dkg, round1) ← dkgkit (service_on_rng (session_round1 dkg));
  dkgkit (on_device idx (publish_round1 session round1));;
  mret dkg.

Definition gather_round1 (session : SessionId) (n idx : nat) :
  ServiceST AnyhowError (list Round1Package) :=
  packages ← service_collect n 20000 (dkgkit (on_device idx (drain_round1 session)));
  st_lift (reject_if (negb (length packages =? n))
             (AnyhowText ("a device only collected " +:+ dec_nat (length packages) +:+ "/"
                          +:+ dec_nat n +:+ " round1 packages")));;
  mret packages.

Definition send_shares (session : SessionId) (round1_per_device : list (list Round1Package))
    (item : nat * FrostDkgSession) : ServiceST AnyhowError FrostDkgSession :=
  let '(idx, dkg) := item in
  round1 ← st_lift (expect (round1_per_device !! idx));
  '(dkg, packages) ← dkgkit (st_lift (session_round2 round1 dkg));
  mapM (fun package => dkgkit (on_device idx (publish_round2 session package))) packages;;
  mret dkg.

Definition finish_device (session : SessionId) (n : nat) (item : nat * FrostDkgSession) :
  ServiceST AnyhowError LocalKeyShare :=
  let '(idx, dkg) := item in
  recipient ← dkgkit (st_lift (position ← u16_add (as_u16 (N.of_nat idx)) 1;
                               service_pid position));
  round2 ← service_collect n 20000 (dkgkit (on_device idx (drain_round2_for session recipient)));
  st_lift (reject_if (negb (length round2 =? n))
             (AnyhowText ("participant " +:+ dec (pid_0 recipient) +:+ " only collected "
                          +:+ dec_nat (length round2) +:+ "/" +:+ dec_nat n
                          +:+ " round2 shares")));;
  dkgkit (st_lift (FrostDkgSession_finalize dkg round2)).

(** The ceremony: [main] from the connected devices to the shares. *)
Definition live_ceremony (session : SessionId) (threshold participants : N) :
  ServiceST AnyhowError (list LocalKeyShare) :=
  let n := N.to_nat participants in
  sessions ← dkgkit (st_lift (mapM (fun id => create_frost_session (sid_0 session) threshold
                                                participants (N.of_nat id)) (seq 1 n)));
  sessions ← mapM (announce session) (enumerate sessions);
  devices ← st_gets sv_devices;
  round1_per_device ← mapM (gather_round1 session n) (seq 0 (length devices));
  sessions ← mapM (send_shares session round1_per_device) (enumerate sessions);
  mapM (finish_device session n) (enumerate sessions).

(** What [main] prints; the key is printed in hexadecimal. *)
Record ServiceReport := mkServiceReport {
  svr_relay : string;
  svr_topic : string;
  svr_completed : N;
  svr_group_key : bytes;
  svr_all_match : bool;
}.

Definition service_session (relay vault : string) (session : SessionId) :
  ServiceST AnyhowError ServiceReport :=
  devices ← st_gets sv_devices;
  mapM (fun idx => dkgkit (on_device idx FrostCoordinator_connect)) (seq 0 (length devices));;
  st_modify (service_sleep 500);;
  shares ← live_ceremony session THRESHOLD PARTICIPANTS;
  first ← st_lift (expect (head shares));
  let group_key := lks_group_key first in
  let all_match := forallb (fun s => bool_decide (lks_group_key s = group_key)) shares in
  st_lift (reject_if (negb all_match) (AnyhowText "participants derived different group keys"));;
  mapM (fun idx => dkgkit (on_device idx FrostCoordinator_disconnect)) (seq 0 (length devices));;
  mret (mkServiceReport relay ("dkgkit:" +:+ vault) PARTICIPANTS
          (gk_xonly_public_key group_key) all_match).

(** [var]: the environment variable; [suffix]: [unique_suffix()]; [generate i]: the
    keys that the [i]-th call of [Keys::generate()] returns. *)
Definition transport_service_main (var : option string) (suffix : N) (generate : nat -> Keys) :
  ST (rng * Net) AnyhowError ServiceReport :=
  fun '(g, net) =>
    let vault := "nostr-transport-service-" +:+ dec suffix in
    let keys := generate <$> seq 0 (N.to_nat PARTICIPANTS) in
    match (session ← SessionId_new (vault +:+ "-dkg");
           devices ← make_devices (relay_url var) vault keys;
           Ok (session, devices)) with
    | Ok (session, devices) =>
        let '(s, r) := service_session (relay_url var) vault session (mkService devices g net) in
        ((sv_rng s, sv_net s), r)
    | Err e => ((g, net), Err (AnyhowDkgKit e))
    | Panic => ((g, net), Panic)
    end.
End program.

(** ** The relay *)

Section relay.
Context `{Outside}.

(** An event the relay client of a device was handed. *)
Record Posted := mkPosted {
  po_time : N;
  po_publisher : nat;
  po_event : Event;
}.

Definition posted_id (p : Posted) : EventId := ev_id (po_event p).

Definition delivered_to (i : nat) (deliveries : list (nat * Event)) : gset EventId :=
  list_to_set ((fun d => ev_id d.2) <$> filter (fun d => d.1 = i) deliveries).

(** An error of the relay thread is a transport error. *)
Definition transport_error (reply : ThreadReply) : Prop :=
  forall err, reply = Replied (inl err) -> exists text, err = Transport_ text.
End relay.

(** [net_log]: what the clients were handed and accepted; [net_reached]: the events
    that have reached a device; [net_listening]: the devices whose relay thread
    listens; [net_stranger]: the events that others publish under the program's
    tags.  A client does not hear of its own events, and every event has an
    identifier of its own. *)
Class RelayLaws `{Outside} := {
  net_log : Net -> list Posted;
  net_reached : Net -> nat -> gset EventId;
  net_listening : Net -> gset nat;
  net_stranger : Event -> Prop;
  sleep_law ms net :
    (net_now net + ms <= net_now (net_sleep ms net))%N /\
    net_log (net_sleep ms net) = net_log net /\
    net_reached (net_sleep ms net) = net_reached net /\
    net_listening (net_sleep ms net) = net_listening net;
  connect_law i cfg net net' reply :
    net_connect i cfg net = (net', reply) ->
    (net_now net <= net_now net')%N /\ net_log net' = net_log net /\
    net_reached net' = net_reached net /\ transport_error reply /\
    forall u, reply = Replied (inr u) -> net_listening net' = {[i]} ∪ net_listening net;
  send_law i keys content tags net net' reply :
    net_send i keys content tags net = (net', reply) ->
    (net_now net <= net_now net')%N /\ net_reached net' = net_reached net /\
    net_listening net' = net_listening net /\ transport_error reply /\
    forall u, reply = Replied (inr u) ->
      exists id, ~ (id ∈ (posted_id <$> net_log net)) /\ (forall j, ~ (id ∈ net_reached net j)) /\
        net_log net' = net_log net ++
          [mkPosted (net_now net) i (mkEvent id (keys_public_key keys) tags content)];
  deliver_law net net' deliveries :
    net_deliver net = (net', deliveries) ->
    (net_now net <= net_now net')%N /\ net_log net' = net_log net /\
    net_listening net' = net_listening net /\
    (forall i, net_reached net' i = delivered_to i deliveries ∪ net_reached net i) /\
    forall i event, (i, event) ∈ deliveries -> i ∈ net_listening net /\
      ((exists p, p ∈ net_log net /\ po_event p = event /\ po_publisher p <> i) \/
       (net_stranger event /\ ~ (ev_id event ∈ (posted_id <$> net_log net))));
}.

(** Every request is served, only [sleep] takes time, and an event reaches the
    other devices that listen within [latency] milliseconds. *)
Record PromptWithin `{RelayLaws} (latency : N) (devices : nat) : Prop := {
  prompt_connect i cfg net :
    exists net', net_connect i cfg net = (net', Replied (inr tt)) /\ net_now net' = net_now net;
  prompt_send i keys content tags net :
    exists net', net_send i keys content tags net = (net', Replied (inr tt)) /\
                 net_now net' = net_now net;
  prompt_encrypt nonce keys pk plaintext :
    exists ciphertext, nip44_encrypt nonce keys pk plaintext = inr ciphertext;
  prompt_sleep ms net : net_now (net_sleep ms net) = (net_now net + ms)%N;
  prompt_deliver net net' deliveries :
    net_deliver net = (net', deliveries) -> net_now net' = net_now net /\
    forall i p, (i < devices)%nat -> i ∈ net_listening net -> p ∈ net_log net ->
      po_publisher p <> i -> (po_time p + latency <= net_now net)%N -> posted_id p ∈ net_reached net' i;
}.

Arguments prompt_connect {_ _ _ _ _}.
Arguments prompt_send {_ _ _ _ _}.
Arguments prompt_encrypt {_ _ _ _ _}.
Arguments prompt_sleep {_ _ _ _ _}.
Arguments prompt_deliver {_ _ _ _ _}.

(** The last poll of a [collect] of the service is 19.9 seconds after its first. *)
Abbreviation PromptRelay := (PromptWithin 19900).

(** The messages of a session in a buffer. *)
Definition in_session (sid : SessionId) (l : list ProtocolMessage) : list ProtocolMessage :=
  filter (fun m => pm_session_id m = sid) l.

(** An event from which no device takes a message of the session. *)
Definition elsewhere `{NostrSdk} `{SerdeJson ProtocolMessage} `{Utf8Error} (sid : SessionId)
    (event : Event) : Prop :=
  forall keys self_id seen inbound,
    in_session sid (handle_inbound_event keys self_id (seen, inbound) event).2 =
    in_session sid inbound.

(** A message is taken from an event only under the session of its tag, and only
    when the application tag is the program's. *)
Lemma other_session_elsewhere `{NostrSdk} `{SerdeJson ProtocolMessage} `{Utf8Error} sid event :
  tag_value event "session" <> Some (sid_0 sid) -> elsewhere sid event.
Proof.
  intros Htag keys self_id seen inbound. unfold handle_inbound_event.
  destruct (decide (ev_id event ∈ seen)); [done|]. cbv zeta. case_decide; [done|].
  destruct (match tag_value event "recipient" with Some _ => _ | None => _ end); [done|].
  destruct (if has_encrypted_marker event then _ else _) as [content|e|]; [|done..].
  destruct (_ ← envelope_from_event _ event; _) as [m| |] eqn:Em; [|done..].
  apply bind_Ok in Em as (e & He & Hm). apply to_protocol_message_Ok in Hm as (_ & Hmatch & _).
  apply bind_Ok in He as (session & Hs & He).
  apply bind_Ok in He as (sender & _ & He). apply bind_Ok in He as (from & _ & He).
  apply bind_Ok in He as (recipient & _ & He). apply bind_Ok in He as (kind & _ & [= <-]).
  destruct Hmatch as (_ & _ & Hsession & _). cbn [ne_session_id] in Hsession.
  cbn [snd]. unfold in_session. rewrite filter_app, filter_cons_False, filter_nil, app_nil_r; [done|].
  intros E. apply Htag. rewrite <- E. destruct (tag_value event "session"); [|done].
  injection Hs as ->. by rewrite Hsession.
Qed.

Lemma other_app_elsewhere `{NostrSdk} `{SerdeJson ProtocolMessage} `{Utf8Error} sid event :
  tag_value event "app" <> Some DKGKIT_NOSTR_APP_TAG -> elsewhere sid event.
Proof.
  intros Htag keys self_id seen inbound. unfold handle_inbound_event.
  destruct (decide (ev_id event ∈ seen)); [done|]. by rewrite decide_True.
Qed.

(** What a run may fail with when the relay is not prompt. *)
Definition relay_failure (e : DkgKitError) : Prop :=
  exists text, e = Transport_ text \/ e = Protocol ("nip44 encrypt failed: " +:+ text).
