(* ===== verification/LiveRounds.v ===== *)
(** The devices of the live key generation during a round.

    [service_inv] relates the transports, the relay and the messages of the round;
    publishing, draining, sleeping and polling keep it, whatever the relay delivers
    in between ([publish_keeps], [drain_keeps], [sleep_keeps], [collect_keeps]).
    Events of strangers may arrive at any time, as long as they are [elsewhere]:
    no device takes a message of the session from them. *)

From Stdlib Require Import Ascii String Strings.Byte.
From stdpp Require Import base numbers countable gmap functions strings list sorting.
From S2P Require Import Prelude Core Codec Transport Secp SmallGroup Packages SignerPolicy.
From S2P Require Import FrostSession Sdk Ceremony Nostr LiveNostr TransportService LiveDkg.

(** ** The devices during a round *)

Section rounds.
Context `{FrostLib} `{RelayLaws} `{!NostrSdkLaws}.
Context `{SerdeJson ProtocolMessage} `{!SerdeJsonLaws ProtocolMessage} `{Utf8Error}.
Context (configs : list LiveNostrTransportConfig) (sid : SessionId) {latency : N}.

Local Abbreviation n := (length configs).
Local Abbreviation pid i := (mkParticipantId (N.of_nat i)).

Hypothesis n_small : (N.of_nat n <= u16_max)%N.
Hypothesis configs_self : forall i cfg, configs !! i = Some cfg -> lc_self_id cfg = pid (S i).
Hypothesis configs_directory : forall i j cfg cfg',
  configs !! i = Some cfg -> configs !! j = Some cfg' ->
  ParticipantDirectory_get (lc_directory cfg) (pid (S j)) = Some (keys_public_key (lc_keys cfg')).

(** The strangers do not speak in the session. *)
Hypothesis strangers_elsewhere : forall event, net_stranger event -> elsewhere sid event.

(** The messages the devices send. *)
Definition good_message (m : ProtocolMessage) : Prop :=
  pm_session_id m = sid /\ sendable m /\ u16_ids m /\
  forall r, pm_recipient m = Some r -> exists j, (j < n)%nat /\ r = pid (S j).

(** An event of the relay with the message it carries. *)
Definition carries (x : Posted * ProtocolMessage) : Prop :=
  good_message x.2 /\ exists cfg nonce content tags,
    configs !! po_publisher x.1 = Some cfg /\
    prepare_publish cfg nonce x.2 = Ok (content, tags) /\
    po_event x.1 = mkEvent (posted_id x.1) (keys_public_key (lc_keys cfg)) tags content.

(** [old]: the events of earlier rounds; [G]: those of this round. *)
Definition ledger (old : list Posted) (G : list (Posted * ProtocolMessage)) : Prop :=
  Forall carries G /\ NoDup (posted_id <$> (old ++ G.*1)) /\ NoDup G.*2.

(** Device [i], from which the messages [taken] have been drained in this round:
    these and those of the session in its buffer are the messages for it that it
    sent itself or that have reached it. *)
Definition device_inv (old : list Posted) (G : list (Posted * ProtocolMessage))
    (taken : list ProtocolMessage) (i : nat) (t : LiveNostrTransport) : Prop :=
  configs !! i = Some (lnt_cfg t) /\ lnt_cmd_tx t = true /\
  (forall p, p ∈ old -> po_publisher p <> i -> posted_id p ∈ lnt_seen t) /\
  NoDup (taken ++ in_session sid (lnt_inbound t)) /\
  forall m, m ∈ taken ++ in_session sid (lnt_inbound t) <->
    exists p, (p, m) ∈ G /\ ProtocolMessage_is_for m (pid (S i)) = true /\
              (po_publisher p = i \/ posted_id p ∈ lnt_seen t).

(** Two events of the ledger with one identifier, or with one message, are the
    same. *)
Lemma ledger_same_id old G p q :
  ledger old G -> p ∈ old ++ G.*1 -> q ∈ old ++ G.*1 -> posted_id p = posted_id q -> p = q.
Proof.
  intros (_ & HN & _) Hp Hq E.
  apply list_elem_of_lookup in Hp as [i Hi]. apply list_elem_of_lookup in Hq as [j Hj].
  assert (i = j) as ->; [|congruence].
  apply (NoDup_lookup _ _ _ (posted_id p) HN).
  - by rewrite list_lookup_fmap, Hi.
  - by rewrite list_lookup_fmap, Hj, E.
Qed.

Lemma ledger_same_message old G p q m : ledger old G -> (p, m) ∈ G -> (q, m) ∈ G -> p = q.
Proof.
  intros (_ & _ & HN) Hp Hq.
  apply list_elem_of_lookup in Hp as [i Hi]. apply list_elem_of_lookup in Hq as [j Hj].
  assert (i = j) as ->; [|congruence]. apply (NoDup_lookup _ _ _ m HN).
  - by rewrite list_lookup_fmap, Hi.
  - by rewrite list_lookup_fmap, Hj.
Qed.

Lemma ledger_same_posted old G p m m' : ledger old G -> (p, m) ∈ G -> (p, m') ∈ G -> m = m'.
Proof.
  intros (_ & HN & _) Hm Hm'. rewrite fmap_app in HN. apply NoDup_app in HN as (_ & _ & HN).
  apply list_elem_of_lookup in Hm as [a Ha]. apply list_elem_of_lookup in Hm' as [b Hb].
  assert (a = b) as ->; [|congruence].
  apply (NoDup_lookup _ _ _ (posted_id p) HN); by rewrite !list_lookup_fmap, ?Ha, ?Hb.
Qed.

Lemma ledger_good old G p m : ledger old G -> (p, m) ∈ G -> good_message m.
Proof. intros (HC & _) Hp. rewrite Forall_forall in HC. by destruct (HC _ Hp). Qed.

Lemma in_session_app l l' : in_session sid (l ++ l') = in_session sid l ++ in_session sid l'.
Proof. apply filter_app. Qed.

Lemma in_session_if (b : bool) m :
  pm_session_id m = sid -> in_session sid (if b then [m] else []) = if b then [m] else [].
Proof. intros Hm. destruct b; [|done]. unfold in_session. by rewrite filter_cons_True. Qed.

(** A message that reaches its device for the first time joins the buffer. *)
Lemma receive_fresh old G taken i t p m :
  ledger old G -> device_inv old G taken i t -> (p, m) ∈ G -> po_publisher p <> i ->
  posted_id p ∉ lnt_seen t ->
  device_inv old G taken i
    (mkLiveNostrTransport (lnt_cfg t) (lnt_cmd_tx t)
       (lnt_inbound t ++ if ProtocolMessage_is_for m (pid (S i)) then [m] else [])
       (lnt_handle t) (lnt_connected t) ({[posted_id p]} ∪ lnt_seen t)).
Proof.
  intros HL (Hcfg & Hcmd & Hold & HN & Hmem) HpG Hpub Hout.
  destruct (ledger_good old G p m HL HpG) as [Hsid _].
  assert (Hnew : m ∉ taken ++ in_session sid (lnt_inbound t)).
  { intros (q & Hq & _ & Hor)%Hmem. assert (q = p) as -> by by eapply ledger_same_message.
    by destruct Hor. }
  assert (Hiff : forall m', (exists q, (q, m') ∈ G /\ ProtocolMessage_is_for m' (pid (S i)) = true /\
      (po_publisher q = i \/ posted_id q ∈ {[posted_id p]} ∪ lnt_seen t)) <->
      m' ∈ taken ++ in_session sid (lnt_inbound t) \/
      (m' = m /\ ProtocolMessage_is_for m (pid (S i)) = true)).
  { intros m'. rewrite Hmem. split.
    - intros (q & Hq & Hf & [Hor|[Hor%elem_of_singleton|Hor]%elem_of_union]);
        [left; exists q; tauto| |left; exists q; tauto].
      right. assert (q = p) as ->.
      { eapply ledger_same_id; [done|..|done]; apply elem_of_app; right.
        - by apply (list_elem_of_fmap_2 fst) in Hq.
        - by apply (list_elem_of_fmap_2 fst) in HpG. }
      by assert (m' = m) as -> by by eapply ledger_same_posted.
    - intros [(q & Hq & Hf & Hor)|[-> Hf]]; [exists q; set_solver|]. exists p. set_solver. }
  split_and!; [done|done| | |]; cbn [lnt_seen lnt_inbound];
    rewrite ?in_session_app, ?in_session_if by done.
  - intros q Hq Hqi. specialize (Hold q Hq Hqi). set_solver.
  - rewrite app_assoc. destruct (ProtocolMessage_is_for m _); [|by rewrite app_nil_r].
    apply NoDup_app. split_and!; [done| |apply NoDup_singleton].
    intros x Hx ->%list_elem_of_singleton. done.
  - intros m'. rewrite Hiff, app_assoc, elem_of_app. f_equiv.
    destruct (ProtocolMessage_is_for m (pid (S i))); rewrite ?list_elem_of_singleton; set_solver.
Qed.

(** A delivered event changes a device as it should. *)
Lemma receive_keeps old G taken i t p :
  ledger old G -> device_inv old G taken i t -> p ∈ old ++ G.*1 -> po_publisher p <> i ->
  let t' := LiveNostrTransport_receive (po_event p) t in
  device_inv old G taken i t' /\ lnt_seen t' = {[posted_id p]} ∪ lnt_seen t.
Proof.
  intros HL (Hcfg & Hcmd & Hold & HN & Hmem) Hp Hpub. cbv zeta.
  destruct (decide (posted_id p ∈ lnt_seen t)) as [Hin|Hout].
  { assert (E : LiveNostrTransport_receive (po_event p) t = t).
    { unfold LiveNostrTransport_receive, handle_inbound_event. fold (posted_id p).
      rewrite decide_True by done. by destruct t. }
    rewrite E. split; [by split_and!|]. set_solver. }
  assert (HpG : p ∈ G.*1).
  { apply elem_of_app in Hp as [Hp|Hp]; [|done]. by destruct Hout; apply Hold. }
  apply list_elem_of_fmap in HpG as ([p' m] & -> & HpG). cbn [fst] in *.
  pose proof (proj1 HL) as HC. rewrite Forall_forall in HC.
  destruct (HC _ HpG) as ((_ & Hsend & Hids & Hrec) & cfg & nonce & content & tags & Hcfgp & Hprep & Hev).
  cbn [fst snd] in *.
  assert (E : LiveNostrTransport_receive (po_event p') t =
    mkLiveNostrTransport (lnt_cfg t) (lnt_cmd_tx t)
      (lnt_inbound t ++ if ProtocolMessage_is_for m (pid (S i)) then [m] else [])
      (lnt_handle t) (lnt_connected t) ({[posted_id p']} ∪ lnt_seen t)).
  { unfold LiveNostrTransport_receive. rewrite Hev, (configs_self i _ Hcfg).
    by rewrite (handle_fresh_event cfg nonce m content tags) by
      (done || (intros r Hr ->; by apply (configs_directory (po_publisher p')))). }
  rewrite E. split; [|done]. by eapply receive_fresh.
Qed.

(** A stranger's event leaves nothing in the session. *)
Lemma receive_stranger old G taken i t event :
  device_inv old G taken i t -> elsewhere sid event ->
  ~ (ev_id event ∈ (posted_id <$> (old ++ G.*1))) ->
  let t' := LiveNostrTransport_receive event t in
  device_inv old G taken i t' /\ lnt_seen t' = {[ev_id event]} ∪ lnt_seen t.
Proof.
  intros (Hcfg & Hcmd & Hold & HN & Hmem) Helse Hid. cbv zeta. unfold LiveNostrTransport_receive.
  specialize (Helse (lc_keys (lnt_cfg t)) (lc_self_id (lnt_cfg t)) (lnt_seen t) (lnt_inbound t)).
  pose proof (handle_seen (lc_keys (lnt_cfg t)) (lc_self_id (lnt_cfg t)) (lnt_seen t)
    (lnt_inbound t) event) as Hseen.
  destruct (handle_inbound_event _ _ _ event) as [seen inbound]. cbn [fst snd] in *. subst seen.
  split; [|done]. unfold device_inv. cbn [lnt_cfg lnt_cmd_tx lnt_seen lnt_inbound]. rewrite Helse.
  split_and!; [done|done|set_solver|done|]. intros m. rewrite Hmem. split.
  - intros (p & Hp & Hf & Hor). exists p. set_solver.
  - intros (p & Hp & Hf & [Hor|[Hor%elem_of_singleton|Hor]%elem_of_union]); exists p; [tauto| |tauto].
    destruct Hid. rewrite <- Hor. apply list_elem_of_fmap_2, elem_of_app. right.
    by apply (list_elem_of_fmap_2 fst) in Hp.
Qed.

(** The service, when device [i] has drained [taken i]. *)
Definition service_inv (old : list Posted) (G : list (Posted * ProtocolMessage))
    (taken : nat -> list ProtocolMessage) (s : Service) : Prop :=
  ledger old G /\ net_log (sv_net s) = old ++ G.*1 /\ length (sv_devices s) = n /\
  (forall p, p ∈ G.*1 -> (po_time p <= net_now (sv_net s))%N) /\
  (forall i, (i < n)%nat -> i ∈ net_listening (sv_net s)) /\
  forall i c, sv_devices s !! i = Some c ->
    device_inv old G (taken i) i (fc_transport c) /\
    lnt_seen (fc_transport c) = net_reached (sv_net s) i.

Lemma deliver_events_keep old G taken deliveries : forall devices : list (FrostCoordinator LiveNostrTransport),
  ledger old G ->
  (forall i event, (i, event) ∈ deliveries ->
     (exists p, p ∈ old ++ G.*1 /\ po_event p = event /\ po_publisher p <> i) \/
     (net_stranger event /\ ~ (ev_id event ∈ (posted_id <$> (old ++ G.*1))))) ->
  length (foldl deliver_event devices deliveries) = length devices /\
  forall i c', foldl deliver_event devices deliveries !! i = Some c' ->
    exists c, devices !! i = Some c /\
      (device_inv old G (taken i) i (fc_transport c) ->
       device_inv old G (taken i) i (fc_transport c') /\
       lnt_seen (fc_transport c') = delivered_to i deliveries ∪ lnt_seen (fc_transport c)).
Proof.
  induction deliveries as [|[j event] deliveries IH]; intros devices HL Hd; cbn [foldl].
  { split; [done|]. intros i c' Hc. exists c'. split; [done|]. intros Hinv. split; [done|].
    unfold delivered_to. set_solver. }
  destruct (IH (deliver_event devices (j, event)) HL) as [Hlen Hdev].
  { intros i e Hi. apply Hd. by right. }
  unfold deliver_event in Hlen. rewrite length_alter in Hlen. split; [done|]. intros i c' Hc'.
  destruct (Hdev i c' Hc') as (c1 & Hc1 & Hk1). unfold deliver_event in Hc1. cbn [fst snd] in Hc1.
  destruct (decide (i = j)) as [->|Hij].
  - rewrite list_lookup_alter_eq in Hc1. destruct (devices !! j) as [c|]; [|done].
    injection Hc1 as <-. exists c. split; [done|]. intros Hinv.
    assert (Hstep : let t' := LiveNostrTransport_receive event (fc_transport c) in
      device_inv old G (taken j) j t' /\ lnt_seen t' = {[ev_id event]} ∪ lnt_seen (fc_transport c)).
    { destruct (Hd j event ltac:(left)) as [(p & Hp & <- & Hpub)|[Hs Hid]];
        [by apply receive_keeps|by apply receive_stranger; [|apply strangers_elsewhere|]]. }
    destruct Hstep as [Hinv1 Hseen1]. destruct (Hk1 Hinv1) as [Hinv' Hseen']. split; [done|]. rewrite Hseen'. cbn [fc_transport].
    rewrite Hseen1. unfold delivered_to. rewrite filter_cons_True by done. rewrite fmap_cons.
    cbn [list_to_set snd]. set_solver.
  - rewrite list_lookup_alter_ne in Hc1 by done. exists c1. split; [done|]. intros Hinv.
    destruct (Hk1 Hinv) as [Hinv' Hseen']. split; [done|]. rewrite Hseen'.
    unfold delivered_to. by rewrite filter_cons_False by (cbn; congruence).
Qed.

Lemma deliver_now s : (net_now (sv_net s) <= net_now (sv_net (deliver s)))%N.
Proof.
  unfold deliver. destruct (net_deliver (sv_net s)) as [net' l] eqn:E. cbn.
  by apply deliver_law in E as (? & _).
Qed.

Lemma deliver_keeps old G taken s :
  service_inv old G taken s ->
  service_inv old G taken (deliver s) /\ sv_rng (deliver s) = sv_rng s.
Proof.
  intros (HL & Hlog & Hlen & Htime & Hon & Hdev). pose proof (deliver_now s) as Hnow.
  unfold deliver in *. destruct (net_deliver (sv_net s)) as [net' l] eqn:E.
  pose proof (deliver_law _ _ _ E) as (_ & Hlog' & Hon' & Hreach & Hfrom). rewrite Hlog in Hfrom.
  destruct (deliver_events_keep old G taken l (sv_devices s) HL) as [Hlen' Hdev'];
    [by intros i event [_ Hi]%Hfrom|].
  split; [|done]. cbn [sv_net] in Hnow. split_and!; cbn [sv_net sv_devices].
  - done.
  - by rewrite Hlog'.
  - by rewrite Hlen'.
  - intros p Hp. specialize (Htime p Hp). lia.
  - by rewrite Hon'.
  - intros i c' Hc'. destruct (Hdev' i c' Hc') as (c & Hc & Hk). destruct (Hdev i c Hc) as [Hinv Hseen].
    destruct (Hk Hinv) as [Hinv' Hseen']. split; [done|]. by rewrite Hseen', Hseen, Hreach.
Qed.

(** With a prompt relay, a delivery takes no time and brings every event that is
    old enough. *)
Lemma deliver_prompt old G taken s :
  PromptWithin latency n -> service_inv old G taken s ->
  net_now (sv_net (deliver s)) = net_now (sv_net s) /\
  forall i c p, sv_devices (deliver s) !! i = Some c -> p ∈ G.*1 -> po_publisher p <> i ->
    (po_time p + latency <= net_now (sv_net s))%N -> posted_id p ∈ lnt_seen (fc_transport c).
Proof.
  intros HP Hinv. destruct (deliver_keeps old G taken s Hinv) as [(_ & _ & Hlen' & _ & _ & Hdev') _].
  destruct Hinv as (HL & Hlog & Hlen & _ & Hon & _). unfold deliver in *.
  destruct (net_deliver (sv_net s)) as [net' l] eqn:E.
  destruct (prompt_deliver HP _ _ _ E) as [Hnow Hreach]. split; [done|].
  cbn [sv_net sv_devices] in *. intros i c p Hc Hp Hpub Ht. rewrite (proj2 (Hdev' i c Hc)).
  apply lookup_lt_Some in Hc.
  apply Hreach; [lia|apply Hon; lia|by rewrite Hlog; apply elem_of_app; right|done..].
Qed.

(** ** Publishing and draining during a round *)

Lemma prepare_publish_total idx cfg nonce m :
  configs !! idx = Some cfg -> good_message m ->
  (exists content tags, prepare_publish cfg nonce m = Ok (content, tags)) \/
  (exists text pk plaintext,
     prepare_publish cfg nonce m = Err (Protocol ("nip44 encrypt failed: " +:+ text)) /\
     nip44_encrypt nonce (lc_keys cfg) pk plaintext = inl text).
Proof.
  intros Hcfg (_ & Hsend & Hids & Hrec). unfold prepare_publish. fold (secret_recipient m).
  destruct (from_protocol_message_Ok m) as (e & -> & _). rewrite ok_bind.
  destruct (secret_recipient m) as [r|] eqn:Hr.
  - unfold secret_recipient in Hr. destruct (is_secret_kind (pm_kind m)); [|done].
    destruct (Hrec r Hr) as (j & Hj & ->). destruct (lookup_lt_is_Some_2 configs j Hj) as [cfg' Hcfg'].
    rewrite (configs_directory idx j cfg cfg' Hcfg Hcfg'). cbn [ok_or]. rewrite ok_bind.
    unfold encrypt_for.
    destruct (nip44_encrypt nonce (lc_keys cfg) (keys_public_key (lc_keys cfg')) (ne_content e))
      as [text|ciphertext] eqn:Henc; [by right; exists text, (keys_public_key (lc_keys cfg')), (ne_content e)|].
    rewrite ok_bind.
    destruct (build_event_tags_Ok e (lc_vault_tag cfg) (Some (keys_public_key (lc_keys cfg'))))
      as (rest & -> & _). rewrite ok_bind. left. by eexists _, _.
  - destruct (build_event_tags_Ok e (lc_vault_tag cfg) None) as (rest & -> & _).
    rewrite ok_bind. left. by eexists _, _.
Qed.

(** The event of a new message joins the ledger, and the message the buffer of
    its sender when it is for the sender. *)
Lemma ledger_post old G p m :
  ledger old G -> carries (p, m) -> m ∉ G.*2 -> posted_id p ∉ (posted_id <$> (old ++ G.*1)) ->
  ledger old (G ++ [(p, m)]).
Proof.
  intros (HC & HN & HM) Hc Hm Hid. split_and!.
  - apply Forall_app. split; [done|]. by constructor.
  - rewrite (fmap_app fst), app_assoc, (fmap_app posted_id). apply NoDup_app. split_and!; [done| |apply NoDup_singleton].
    intros id Hid' ->%list_elem_of_singleton. done.
  - rewrite fmap_app. apply NoDup_app. split_and!; [done| |apply NoDup_singleton].
    intros m' Hm' ->%list_elem_of_singleton. done.
Qed.

Lemma device_post old G taken i t p m :
  device_inv old G taken i t -> pm_session_id m = sid -> m ∉ G.*2 -> posted_id p ∉ lnt_seen t ->
  device_inv old (G ++ [(p, m)]) taken i
    (if bool_decide (po_publisher p = i) && ProtocolMessage_is_for m (pid (S i))
     then mkLiveNostrTransport (lnt_cfg t) (lnt_cmd_tx t) (lnt_inbound t ++ [m]) (lnt_handle t)
            (lnt_connected t) (lnt_seen t)
     else t).
Proof.
  intros (Hcfg & Hcmd & Hold & HN & Hmem) Hsid Hm Hfresh.
  assert (Hnew : m ∉ taken ++ in_session sid (lnt_inbound t)).
  { intros (q & Hq & _)%Hmem. apply Hm. by apply (list_elem_of_fmap_2 snd) in Hq. }
  assert (Hiff : forall m', (exists q, (q, m') ∈ G ++ [(p, m)] /\
      ProtocolMessage_is_for m' (pid (S i)) = true /\ (po_publisher q = i \/ posted_id q ∈ lnt_seen t)) <->
      m' ∈ taken ++ in_session sid (lnt_inbound t) \/
      (m' = m /\ po_publisher p = i /\ ProtocolMessage_is_for m (pid (S i)) = true)).
  { intros m'. rewrite Hmem. split.
    - intros (q & [Hq|[= -> ->]%list_elem_of_singleton]%elem_of_app & Hf & Hor); [left; by exists q|].
      right. by destruct Hor.
    - intros [(q & Hq & Hf & Hor)|(-> & Hp & Hf)].
      + exists q. split_and!; [apply elem_of_app; by left|done|done].
      + exists p. split_and!; [apply elem_of_app; right; by left|done|by left]. }
  destruct (bool_decide (po_publisher p = i) && ProtocolMessage_is_for m (pid (S i))) eqn:Hb.
  - apply andb_true_iff in Hb as [Hp%bool_decide_eq_true Hf].
    split_and!; [done|done|done| |]; cbn [lnt_inbound lnt_seen];
      rewrite in_session_app, (in_session_if true) by done.
    + rewrite app_assoc. apply NoDup_app. split_and!; [done| |apply NoDup_singleton].
      intros x Hx ->%list_elem_of_singleton. done.
    + intros m'. rewrite Hiff, app_assoc, elem_of_app, list_elem_of_singleton. tauto.
  - split_and!; [done|done|done|done|]. intros m'. rewrite Hiff.
    apply andb_false_iff in Hb. rewrite bool_decide_eq_false in Hb. split; [by left|].
    intros [?|(-> & Hp & Hf)]; [done|]. destruct Hb; congruence.
Qed.

Lemma service_post old G taken s p m t' net' :
  service_inv old G taken s -> carries (p, m) -> m ∉ G.*2 ->
  posted_id p ∉ (posted_id <$> (old ++ G.*1)) ->
  (forall j, posted_id p ∉ net_reached (sv_net s) j) -> (po_publisher p < n)%nat ->
  (po_time p <= net_now net')%N -> (net_now (sv_net s) <= net_now net')%N ->
  net_reached net' = net_reached (sv_net s) -> net_listening net' = net_listening (sv_net s) ->
  net_log net' = net_log (sv_net s) ++ [p] ->
  device_inv old (G ++ [(p, m)]) (taken (po_publisher p)) (po_publisher p) t' ->
  lnt_seen t' = net_reached (sv_net s) (po_publisher p) ->
  service_inv old (G ++ [(p, m)]) taken
    (mkService (<[po_publisher p := mkFrostCoordinator t']> (sv_devices s)) (sv_rng s) net').
Proof.
  intros (HL & Hlog & Hlen & Htime & Hon & Hdev) Hc Hnew Hid Hfresh Hp Hpt Hnow Hreach Hon' Hlog' Ht' Hs'.
  split_and!; cbn [sv_net sv_devices].
  - by apply ledger_post.
  - by rewrite Hlog', Hlog, fmap_app, app_assoc.
  - by rewrite length_insert.
  - intros q Hq. rewrite fmap_app in Hq. apply elem_of_app in Hq as [Hq|Hq].
    + specialize (Htime q Hq). lia.
    + by apply list_elem_of_singleton in Hq as ->.
  - by rewrite Hon'.
  - intros i c' Hc'. rewrite Hreach. destruct (decide (i = po_publisher p)) as [->|Hi].
    + rewrite list_lookup_insert_eq in Hc' by lia. by injection Hc' as <-.
    + rewrite list_lookup_insert_ne in Hc' by done. destruct (Hdev i c' Hc') as [Hi' Hs].
      split; [|done]. assert (Hout : posted_id p ∉ lnt_seen (fc_transport c')) by (by rewrite Hs).
      pose proof (device_post old G (taken i) i _ p m Hi' (proj1 (proj1 Hc)) Hnew Hout) as Hpost.
      by rewrite bool_decide_eq_false_2 in Hpost by auto.
Qed.

(** The client has accepted the event of a message. *)
Lemma accepted_keeps old G taken idx c m content tags net' s :
  let t := fc_transport c in
  service_inv old G taken s -> sv_devices s !! idx = Some c -> good_message m -> m ∉ G.*2 ->
  prepare_publish (lnt_cfg t) (net_nonce (sv_net s)) m = Ok (content, tags) ->
  (net_now (sv_net s) <= net_now net')%N -> net_reached net' = net_reached (sv_net s) ->
  net_listening net' = net_listening (sv_net s) ->
  (exists id, ~ (id ∈ (posted_id <$> net_log (sv_net s))) /\
     (forall j, ~ (id ∈ net_reached (sv_net s) j)) /\
     net_log net' = net_log (sv_net s) ++ [mkPosted (net_now (sv_net s)) idx
       (mkEvent id (keys_public_key (lc_keys (lnt_cfg t))) tags content)]) ->
  let t' := if ProtocolMessage_is_for m (pid (S idx))
            then mkLiveNostrTransport (lnt_cfg t) (lnt_cmd_tx t) (lnt_inbound t ++ [m])
                   (lnt_handle t) (lnt_connected t) (lnt_seen t)
            else t in
  exists p, po_publisher p = idx /\ service_inv old (G ++ [(p, m)]) taken
    (mkService (<[idx := mkFrostCoordinator t']> (sv_devices s)) (sv_rng s) net').
Proof.
  intros t Hinv Hc Hm Hnew Hprep Hnow Hreach Hon (id & Hid & Hout & Hlog') t'.
  set (event := mkEvent id (keys_public_key (lc_keys (lnt_cfg t))) tags content) in Hlog'.
  set (p := mkPosted (net_now (sv_net s)) idx event) in Hlog'. exists p. split; [done|].
  pose proof Hinv as (HL & Hlog & Hlen & _ & _ & Hdev).
  destruct (Hdev idx c Hc) as [Hd Hseen]. pose proof Hd as (Hcfg & _).
  apply service_post with (p := p); try done; try by rewrite <- Hlog.
  - split; [done|]. by exists (lnt_cfg t), (net_nonce (sv_net s)), content, tags.
  - rewrite <- Hlen. by eapply lookup_lt_Some.
  - pose proof (device_post old G (taken idx) idx t p m Hd (proj1 Hm) Hnew) as Hpost.
    rewrite bool_decide_eq_true_2, andb_true_l in Hpost by done. apply Hpost.
    unfold t. rewrite Hseen. apply Hout.
  - unfold t'. by destruct (ProtocolMessage_is_for m _).
Qed.

Lemma publish_keeps old G taken idx message m s :
  message = Ok m -> (idx < n)%nat -> good_message m -> m ∉ G.*2 -> service_inv old G taken s ->
  ends (on_device idx (publish_message message)) s
    (fun s' _ => (exists p, po_publisher p = idx /\ service_inv old (G ++ [(p, m)]) taken s') /\
                 sv_rng s' = sv_rng s)
    (fun e => (PromptWithin latency n -> False) /\ relay_failure e).
Proof.
  intros -> Hidx Hm Hnew Hinv. destruct (deliver_keeps _ _ _ _ Hinv) as [Hinv1 Hrng].
  unfold ends, on_device. cbv zeta. rewrite <- Hrng. clear Hrng.
  generalize dependent (deliver s). clear s Hinv. intros s Hinv.
  pose proof Hinv as (HL & Hlog & Hlen & _ & _ & Hdev).
  destruct (lookup_lt_is_Some_2 (sv_devices s) idx ltac:(lia)) as [c Hc]. rewrite Hc.
  destruct (Hdev idx c Hc) as [Hd Hseen]. pose proof Hd as (Hcfg & Hcmd & _).
  unfold publish_message. rewrite st_lift_bind. unfold on_transport. cbn [fc_transport].
  cbn [publish live_device_transport]. unfold device_publish. cbn [dv_transport dv_net dv_index].
  rewrite Hcmd. cbn [negb reject_if]. rewrite ok_bind. unfold with_transport, LiveNostrTransport_publish.
  rewrite Hcmd. cbn [negb reject_if]. rewrite ok_bind.
  destruct (prepare_publish_total idx _ (net_nonce (sv_net s)) m Hcfg Hm)
    as [(content & tags & Hprep)|(text & pk & plaintext & Hprep & Henc)]; rewrite Hprep; cbn [fst snd fc_transport dv_transport dv_net].
  2: { eexists _, _. split; [reflexivity|]. cbv beta iota. split; [|exists text; by right]. intros HP.
       destruct (prompt_encrypt HP (net_nonce (sv_net s)) (lc_keys (lnt_cfg (fc_transport c))) pk plaintext).
       congruence. }
  destruct (net_send _ _ _ _ _) as [net' reply] eqn:Hsend.
  destruct (send_law _ _ _ _ _ _ _ Hsend) as (Hnow & Hreach & Hon & Herr & Hok).
  assert (Hprompt : PromptWithin latency n -> reply = Replied (inr tt)).
  { intros HP. destruct (prompt_send HP idx (lc_keys (lnt_cfg (fc_transport c))) content tags (sv_net s))
      as (net2 & Hsend2 & _). congruence. }
  destruct reply as [[err|[]]| |]; cbn [fst snd fc_transport dv_transport dv_net].
  - eexists _, _. split; [reflexivity|]. cbv beta iota. split; [by intros HP%Hprompt|].
    destruct (Herr err eq_refl) as [text ->]. exists text. by left.
  - rewrite (configs_self idx _ Hcfg).
    pose proof (accepted_keeps old G taken idx c m content tags net' s Hinv Hc Hm Hnew Hprep Hnow
      Hreach Hon (Hok tt eq_refl)) as Hacc.
    cbv zeta in Hacc. rewrite Hcmd in Hacc. revert Hacc.
    destruct (ProtocolMessage_is_for m (pid (S idx))); intros Hacc; eexists _, _;
      (split; [reflexivity|]); (split; [exact Hacc|done]).
  - eexists _, _. split; [reflexivity|]. cbv beta iota. split; [by intros HP%Hprompt|].
    eexists. by left.
  - eexists _, _. split; [reflexivity|]. cbv beta iota. split; [by intros HP%Hprompt|].
    eexists. by left.
Qed.

(** Draining takes everything out of the buffer when the drain is for the round's
    messages. *)
Lemma device_drained old G taken i t rest :
  device_inv old G taken i t -> in_session sid rest = [] ->
  device_inv old G (taken ++ in_session sid (lnt_inbound t)) i
    (mkLiveNostrTransport (lnt_cfg t) (lnt_cmd_tx t) rest (lnt_handle t) (lnt_connected t) (lnt_seen t)).
Proof.
  intros (Hcfg & Hcmd & Hold & HN & Hmem) Hrest.
  split_and!; [done..| |]; cbn [lnt_inbound lnt_seen]; by rewrite Hrest, app_nil_r.
Qed.

Lemma device_drain_all f (d : LiveDevice) :
  Forall (fun m => f m = true) (in_session sid (lnt_inbound (dv_transport d))) ->
  let t := dv_transport d in
  exists rest, in_session sid rest = [] /\
  drain_pure sid f d =
    (mkLiveDevice (dv_index d)
       (mkLiveNostrTransport (lnt_cfg t) (lnt_cmd_tx t) rest (lnt_handle t) (lnt_connected t) (lnt_seen t))
       (dv_net d), Ok (in_session sid (lnt_inbound t))).
Proof.
  intros Hsel t. fold t in Hsel. unfold drain_pure. cbn [drain_matching live_device_transport].
  unfold device_drain_matching, LiveNostrTransport_drain_matching. rewrite drain_loop_pure. fold t.
  rewrite Forall_forall in Hsel. eexists. split; cycle 1.
  - do 2 f_equal. apply filter_iff_in. intros m Hm. unfold selected. split; [tauto|].
    intros Hs. split; [done|]. apply Hsel. by apply list_elem_of_filter.
  - apply filter_none. intros m [Hn Hm]%list_elem_of_filter Hs. apply Hn. split; [done|].
    apply Hsel. by apply list_elem_of_filter.
Qed.

Lemma drain_keeps {X} old G taken idx f (from : ProtocolMessage -> Result X) s :
  (idx < n)%nat -> service_inv old G taken s ->
  (forall m, m ∈ G.*2 -> ProtocolMessage_is_for m (pid (S idx)) = true ->
     selected sid f m /\ exists x, from m = Ok x) ->
  ends (on_device idx (drain_packages sid f from)) s
    (fun s' xs => exists ms, Forall2 (fun x m => from m = Ok x) xs ms /\
       service_inv old G (<[idx := taken idx ++ ms]> taken) s' /\ sv_rng s' = sv_rng s /\
       (PromptWithin latency n -> net_now (sv_net s') = net_now (sv_net s) /\
          forall p m, (p, m) ∈ G -> ProtocolMessage_is_for m (pid (S idx)) = true ->
            (po_time p + latency <= net_now (sv_net s))%N -> m ∈ taken idx ++ ms))
    (fun _ => False).
Proof.
  intros Hidx Hinv Hsel. destruct (deliver_keeps _ _ _ _ Hinv) as [Hinv1 Hrng].
  pose proof (fun HP => deliver_prompt _ _ _ _ HP Hinv) as Hprompt.
  unfold ends, on_device. cbv zeta. rewrite <- Hrng.
  destruct Hinv1 as (HL & Hlog & Hlen & Htime & Hon & Hdev).
  destruct (lookup_lt_is_Some_2 (sv_devices (deliver s)) idx ltac:(lia)) as [c Hc]. rewrite Hc.
  destruct (Hdev idx c Hc) as [Hd Hseen]. pose proof Hd as (_ & _ & _ & _ & Hmem).
  set (ms := in_session sid (lnt_inbound (fc_transport c))) in *.
  assert (Hall : forall m, m ∈ ms -> selected sid f m /\ exists x, from m = Ok x).
  { intros m Hm. destruct (proj1 (Hmem m)) as (p & Hp & Hf & _); [apply elem_of_app; by right|].
    apply Hsel; [by apply (list_elem_of_fmap_2 snd) in Hp|done]. }
  unfold drain_packages. unfold mbind at 1, st_bind at 1, on_transport. cbn [fc_transport].
  destruct (device_drain_all f (mkLiveDevice idx (fc_transport c) (sv_net (deliver s)))) as (rest & Hrest & ->).
  { apply Forall_forall. intros m Hm. by apply Hall. }
  cbn [dv_transport dv_index dv_net fc_transport]. unfold st_lift.
  fold ms. assert (Hxs : exists xs, mapM from ms = Ok xs).
  { clear -Hall. induction ms as [|m l IH]; [by exists []|].
    destruct (Hall m ltac:(left)) as [_ [x Hx]]. destruct IH as [xs Hxs]; [intros; apply Hall; by right|].
    exists (x :: xs). cbn [mapM]. rewrite Hx, ok_bind. by rewrite Hxs. }
  destruct Hxs as [xs Hxs]. rewrite Hxs. eexists _, _. split; [reflexivity|]. cbv beta iota.
  exists ms. split_and!; cbn [sv_rng sv_net].
  - by apply Forall2_flip, mapM_Ok.
  - split_and!; cbn [sv_net sv_devices]; [done|done|by rewrite length_insert|done|done|].
    intros i c' Hc'. destruct (decide (i = idx)) as [->|Hi].
    + rewrite list_lookup_insert_eq in Hc' by lia. injection Hc' as <-. rewrite fn_lookup_insert.
      split; [by apply device_drained|done].
    + rewrite list_lookup_insert_ne in Hc' by done. rewrite fn_lookup_insert_ne by done. by apply Hdev.
  - done.
  - intros HP. destruct (Hprompt HP) as [Hnow Hreach]. split; [done|]. intros p m Hp Hf Ht.
    apply Hmem. exists p. split_and!; [done|done|]. destruct (decide (po_publisher p = idx)); [by left|].
    right. apply (Hreach idx c); [done|by apply (list_elem_of_fmap_2 fst) in Hp|done|done].
Qed.

(** ** Collecting *)

Lemma drain_time {X} idx f (from : ProtocolMessage -> Result X) s :
  (service_now s <= service_now (dkgkit (on_device idx (drain_packages sid f from)) s).1)%N.
Proof.
  unfold dkgkit, st_map_err, on_device, service_now. pose proof (deliver_now s) as Hnow. cbv zeta.
  destruct (sv_devices (deliver s) !! idx) as [c|]; [|done].
  unfold drain_packages, mbind, st_bind, on_transport, drain_pure.
  cbn [fc_transport drain_matching live_device_transport device_drain_matching dv_transport
       dv_index dv_net].
  destruct (LiveNostrTransport_drain_matching _ _ _) as [[t u] [ms|e|]]; exact Hnow.
Qed.

Lemma service_inv_ext old G taken taken' s :
  (forall i, taken i = taken' i) -> service_inv old G taken s -> service_inv old G taken' s.
Proof.
  intros Hext (HL & Hlog & Hlen & Htime & Hon & Hdev). split_and!; [done..|].
  intros i c Hc. rewrite <- Hext. by apply Hdev.
Qed.

Lemma sleep_keeps old G taken ms s :
  service_inv old G taken s -> service_inv old G taken (service_sleep ms s).
Proof.
  intros (HL & Hlog & Hlen & Htime & Hon & Hdev). unfold service_sleep.
  destruct (sleep_law ms (sv_net s)) as (Hnow & Hlog' & Hreach & Hon').
  split_and!; cbn [sv_net sv_devices]; [done|by rewrite Hlog'|done| |by rewrite Hon'|by rewrite Hreach].
  intros p Hp. specialize (Htime p Hp). lia.
Qed.

(** The messages of the round for device [i]. *)
Definition messages_for (i : nat) (G : list (Posted * ProtocolMessage)) : list ProtocolMessage :=
  filter (fun m => ProtocolMessage_is_for m (pid (S i)) = true) G.*2.

Lemma taken_messages old G taken i t :
  ledger old G -> device_inv old G taken i t ->
  NoDup taken /\ (length taken <= length (messages_for i G))%nat /\
  (length taken = length (messages_for i G) ->
     taken ≡ₚ messages_for i G /\ in_session sid (lnt_inbound t) = [] /\
     forall p m, (p, m) ∈ G -> ProtocolMessage_is_for m (pid (S i)) = true ->
       po_publisher p = i \/ posted_id p ∈ lnt_seen t).
Proof.
  intros HL (_ & _ & _ & HN & Hmem).
  assert (Hall : taken ++ in_session sid (lnt_inbound t) ⊆+ messages_for i G).
  { apply NoDup_submseteq; [done|]. intros m (p & Hp & Hf & _)%Hmem. apply list_elem_of_filter.
    split; [done|]. by apply (list_elem_of_fmap_2 snd) in Hp. }
  assert (Htaken : taken ⊆+ messages_for i G) by (etransitivity; [apply submseteq_inserts_r|exact Hall]; done).
  split; [by apply NoDup_app in HN as (? & _)|]. split; [by apply submseteq_length|]. intros Hlen.
  assert (Hperm : taken ≡ₚ messages_for i G) by (apply submseteq_length_Permutation; [done|lia]).
  apply submseteq_length in Hall. rewrite length_app in Hall. split_and!; [done|apply length_zero_iff_nil; lia|].
  intros p m Hp Hf. destruct (proj1 (Hmem m)) as (q & Hq & _ & Hor).
  - apply elem_of_app. left. rewrite Hperm. apply list_elem_of_filter. split; [done|].
    by apply (list_elem_of_fmap_2 snd) in Hp.
  - by rewrite (ledger_same_message old G p q m).
Qed.

(** Between two rounds: once every message of the round has reached its devices and
    been drained, the events of the round are old. *)
Lemma round_over G taken s :
  service_inv [] G taken s ->
  (forall i c, sv_devices s !! i = Some c ->
     in_session sid (lnt_inbound (fc_transport c)) = [] /\
     forall p m, (p, m) ∈ G -> po_publisher p = i \/ posted_id p ∈ lnt_seen (fc_transport c)) ->
  service_inv G.*1 [] (fun _ => []) s.
Proof.
  intros ((_ & HN & _) & Hlog & Hlen & Htime & Hon & Hdev) Hall. split_and!.
  - split_and!; [constructor|by rewrite app_nil_r|constructor].
  - by rewrite app_nil_r.
  - done.
  - intros p Hp. by apply not_elem_of_nil in Hp.
  - done.
  - intros i c Hc. destruct (Hdev i c Hc) as [(Hcfg & Hcmd & _) Hr].
    destruct (Hall i c Hc) as [Hin Hreached]. split; [|done]. unfold device_inv. rewrite Hin.
    split_and!; [done|done| |constructor|].
    + intros p ([p' m] & -> & Hp)%list_elem_of_fmap Hpub. by destruct (Hreached p' m Hp).
    + intros m. split; [by intros ?%not_elem_of_nil|]. intros (p & Hp & _). by apply not_elem_of_nil in Hp.
Qed.

Section collecting.
Context {X : Type} (old : list Posted) (G : list (Posted * ProtocolMessage))
  (taken : nat -> list ProtocolMessage) (idx want : nat)
  (f : ProtocolMessage -> bool) (from : ProtocolMessage -> Result X) (s : Service)
  {E : Type} (timeout : N) (drain : ST Service E (list X)).
Hypothesis idx_ok : (idx < n)%nat.
Hypothesis s_ok : service_inv old G taken s.
Hypothesis nothing_taken : taken idx = [].
Hypothesis drain_ok : forall m, m ∈ G.*2 -> ProtocolMessage_is_for m (pid (S idx)) = true ->
  selected sid f m /\ exists x, from m = Ok x.
Hypothesis latency_ok : (latency + 100 <= timeout)%N.
Hypothesis drain_is : forall st st' xs,
  on_device idx (drain_packages sid f from) st = (st', Ok xs) -> drain st = (st', Ok xs).
Hypothesis drain_forward : forall st, (service_now st <= service_now (drain st).1)%N.

Local Abbreviation deadline := (service_now s + timeout)%N.
Local Abbreviation total := (length (messages_for idx G)).

(** What holds between the polls of a [collect] that started in [s]. *)
Definition collecting (acc : list X) (st : Service) : Prop :=
  exists ms, Forall2 (fun x m => from m = Ok x) acc ms /\
    service_inv old G (<[idx := ms]> taken) st /\ sv_rng st = sv_rng s /\
    (PromptWithin latency n -> (deadline <= service_now st)%N ->
     (want <= length acc)%nat \/ (total <= length acc)%nat).

Lemma poll_keeps acc st :
  collecting acc st -> (length acc < want)%nat -> (service_now st < deadline)%N ->
  exists st' acc', poll service_sleep want drain acc st = (st', Ok acc') /\ collecting acc' st'.
Proof.
  intros (ms & HF & Hst & Hrng & _) Hlt Hnow.
  destruct (drain_keeps old G (<[idx := ms]> taken) idx f from st idx_ok Hst drain_ok)
    as (st1 & r1 & Hd & Hr1). destruct r1 as [xs|e|]; [|done..].
  destruct Hr1 as (ms1 & HF1 & Hst1 & Hrng1 & Hp1).
  apply (service_inv_ext _ _ _ (<[idx := ms ++ ms1]> taken)) in Hst1.
  2: { intros i. destruct (decide (i = idx)) as [->|Hi]; [by rewrite !fn_lookup_insert|].
       by rewrite !fn_lookup_insert_ne. }
  rewrite fn_lookup_insert in Hp1. unfold poll. rewrite (drain_is _ _ _ Hd).
  eexists _, _. split; [reflexivity|]. exists (ms ++ ms1). split_and!.
  - by apply Forall2_app.
  - case_match; [by apply sleep_keeps|done].
  - case_match; cbn [service_sleep sv_rng]; congruence.
  - intros HP Hdl. destruct (Hp1 HP) as [Hnow1 Hall].
    destruct (Nat.ltb_spec (length (acc ++ xs)) want) as [Hshort|]; [right|by left].
    unfold service_now in *. cbn [service_sleep sv_net] in Hdl.
    rewrite (prompt_sleep HP), Hnow1 in Hdl. destruct s_ok as (HL & _ & _ & Htime & _ & _).
    assert (Hsub : messages_for idx G ⊆ ms ++ ms1).
    { intros m [Hf Hm]%list_elem_of_filter. apply list_elem_of_fmap in Hm as ([p m'] & -> & Hm).
      apply (Hall p m' Hm Hf). apply (list_elem_of_fmap_2 fst) in Hm. specialize (Htime p Hm). lia. }
    assert (HNm : NoDup (messages_for idx G)) by (destruct HL as (_ & _ & HN); by apply NoDup_filter).
    apply NoDup_submseteq, submseteq_length in Hsub; [|done].
    apply Forall2_length in HF. apply Forall2_length in HF1. rewrite length_app in *. lia.
Qed.

Lemma collect_keeps :
  ends (service_collect want timeout drain) s
    (fun s' xs => exists ms, Forall2 (fun x m => from m = Ok x) xs ms /\
       service_inv old G (<[idx := ms]> taken) s' /\ sv_rng s' = sv_rng s /\
       (length xs <= total)%nat /\ (length xs = total -> ms ≡ₚ messages_for idx G) /\
       (PromptWithin latency n -> (want <= length xs)%nat \/ (total <= length xs)%nat))
    (fun _ => False).
Proof.
  unfold ends, service_collect, collect.
  destruct (collect_loop_ends service_now service_sleep
              ltac:(intros; apply sleep_law) drain want deadline
              drain_forward (N.to_nat (timeout / 100 + 1)) [] s)
    as (s' & r & Hrun & _).
  { rewrite N2Nat.id. pose proof (N.Div0.div_mod timeout 100). pose proof (N.mod_lt timeout 100).
    lia. }
  rewrite Hrun. cbn [default from_option].
  destruct (collect_loop_keeps service_now service_sleep want deadline drain collecting poll_keeps
              _ _ _ _ _ Hrun) as (acc & -> & (ms & HF & Hinv' & Hrng & Hprompt) & Hstop).
  { exists []. split_and!; [constructor| |done|intros _ Hbad; unfold service_now in Hbad; lia].
    apply (service_inv_ext _ _ taken); [|done]. intros i.
    destruct (decide (i = idx)) as [->|Hi]; [by rewrite fn_lookup_insert|by rewrite fn_lookup_insert_ne]. }
  eexists _, _. split; [reflexivity|]. exists ms. pose proof Hinv' as (HL & _ & Hlen & _ & _ & Hdev).
  destruct (lookup_lt_is_Some_2 (sv_devices s') idx ltac:(lia)) as [c Hc].
  destruct (Hdev idx c Hc) as [Hdi _]. rewrite fn_lookup_insert in Hdi.
  destruct (taken_messages old G ms idx _ HL Hdi) as (_ & Hle & Hfull).
  pose proof (Forall2_length _ _ _ HF) as Hl. split_and!; [done..|lia| |].
  - intros Hall. apply Hfull. lia.
  - intros HP. destruct Hstop as [?|Hdl]; [by left|by apply Hprompt].
Qed.
End collecting.

(** What [main] collects. *)
Lemma main_collects {X} old G taken idx want f (from : ProtocolMessage -> Result X) s :
  (latency <= 19900)%N -> (idx < n)%nat -> service_inv old G taken s -> taken idx = [] ->
  (forall m, m ∈ G.*2 -> ProtocolMessage_is_for m (pid (S idx)) = true ->
     selected sid f m /\ exists x, from m = Ok x) ->
  length (messages_for idx G) = want ->
  ends (service_collect want 20000 (dkgkit (on_device idx (drain_packages sid f from)))) s
    (fun s' xs => exists ms, Forall2 (fun x m => from m = Ok x) xs ms /\
       service_inv old G (<[idx := ms]> taken) s' /\ sv_rng s' = sv_rng s /\
       (length xs <= want)%nat /\ (PromptWithin latency n -> length xs = want))
    (fun _ => False).
Proof.
  intros Hlat Hidx Hs Hnone Hsel Hwant.
  eapply ends_mono; [apply (collect_keeps old G taken idx want f from s 20000)| |done];
    [done..|lia| |apply drain_time|].
  - intros st st' xs Hd. unfold dkgkit, st_map_err. by rewrite Hd.
  - intros s' xs (ms & HF & Hinv & Hrng & Hle & _ & Hprompt). exists ms. split_and!; [done..|lia|].
    intros HP. destruct (Hprompt HP); lia.
Qed.
End rounds.

(** ** Connecting *)

Section connecting.
Context `{FrostLib} `{RelayLaws} `{!NostrSdkLaws}.
Context `{SerdeJson ProtocolMessage} `{!SerdeJsonLaws ProtocolMessage} `{Utf8Error}.
Context (configs : list LiveNostrTransportConfig) (sid : SessionId) {latency : N}.

Local Abbreviation pid i := (mkParticipantId (N.of_nat i)).

Hypothesis n_small : (N.of_nat (length configs) <= u16_max)%N.
Hypothesis configs_self : forall i cfg, configs !! i = Some cfg -> lc_self_id cfg = pid (S i).
Hypothesis configs_directory : forall i j cfg cfg',
  configs !! i = Some cfg -> configs !! j = Some cfg' ->
  ParticipantDirectory_get (lc_directory cfg) (pid (S j)) = Some (keys_public_key (lc_keys cfg')).
Hypothesis strangers_elsewhere : forall event, net_stranger event -> elsewhere sid event.

(** Nothing has been sent under the program's vault tag, and no device listens. *)
Definition fresh_net (net : Net) : Prop :=
  net_log net = [] /\ (forall i, net_reached net i = ∅) /\ net_listening net = ∅.

(** The first [i] devices are connected. *)
Definition connecting (i : nat) (s : Service) : Prop :=
  net_log (sv_net s) = [] /\ length (sv_devices s) = length configs /\
  (forall j, j ∈ net_listening (sv_net s) <-> (j < i)%nat) /\
  forall j c, sv_devices s !! j = Some c ->
    lnt_seen (fc_transport c) = net_reached (sv_net s) j /\
    if (j <? i)%nat then device_inv configs sid [] [] [] j (fc_transport c)
    else exists cfg, configs !! j = Some cfg /\ fc_transport c = LiveNostrTransport_new cfg.

(** A device to which nothing is delivered. *)
Lemma deliver_events_others i (deliveries : list (nat * Event)) :
  forall devices : list (FrostCoordinator LiveNostrTransport),
  (forall event, ~ ((i, event) ∈ deliveries)) ->
  foldl deliver_event devices deliveries !! i = devices !! i /\ delivered_to i deliveries = ∅.
Proof.
  induction deliveries as [|[j event] l IH]; intros devices Hno; [done|]. cbn [foldl].
  assert (Hj : i <> j) by (intros ->; apply (Hno event); left).
  destruct (IH (deliver_event devices (j, event))) as [-> IHd].
  { intros e He. apply (Hno e). by right. }
  split; [by apply list_lookup_alter_ne|].
  unfold delivered_to. by rewrite filter_cons_False by (cbn; congruence).
Qed.

Lemma connecting_deliver i s : connecting i s -> connecting i (deliver s).
Proof.
  intros (Hlog & Hlen & Hon & Hdev). unfold deliver. destruct (net_deliver (sv_net s)) as [net' l] eqn:E.
  destruct (deliver_law _ _ _ E) as (_ & Hlog' & Hon' & Hreach' & Hfrom). rewrite Hlog in Hlog', Hfrom.
  assert (Hfrom' : forall j event, (j, event) ∈ l -> (j < i)%nat /\
    ((exists p, p ∈ [] ++ [] /\ po_event p = event /\ po_publisher p <> j) \/
     (net_stranger event /\ ~ (ev_id event ∈ (posted_id <$> ([] ++ []))))))
    by (intros j event [Hj%Hon Hcase]%Hfrom; done).
  destruct (deliver_events_keep configs sid n_small configs_self configs_directory strangers_elsewhere [] []
    (fun _ => []) l (sv_devices s)) as [Hlen' Hdev'];
    [split_and!; constructor|intros j event Hj; exact (proj2 (Hfrom' j event Hj))|].
  split_and!; cbn [sv_net sv_devices]; [done|by rewrite Hlen'|by rewrite Hon'|].
  intros j c' Hc'. rewrite Hreach'. destruct (Nat.ltb_spec j i) as [Hj|Hj].
  - destruct (Hdev' j c' Hc') as (c & Hc & Hk). destruct (Hdev j c Hc) as [Hseen Hinv].
    rewrite (proj2 (Nat.ltb_lt _ _)) in Hinv by done. destruct (Hk Hinv) as [Hinv' Hseen'].
    split; [by rewrite Hseen', Hseen|done].
  - destruct (deliver_events_others j l (sv_devices s)) as [Hsame ->].
    { intros event [Hlt _]%Hfrom'. lia. }
    rewrite Hsame in Hc'. destruct (Hdev j c' Hc') as [Hseen Hnew].
    rewrite (proj2 (Nat.ltb_ge _ _)) in Hnew by done. split; [by rewrite Hseen, union_empty_l_L|done].
Qed.

(** A device whose relay thread has just started. *)
Lemma connected_device i cfg :
  configs !! i = Some cfg ->
  device_inv configs sid [] [] [] i (mkLiveNostrTransport cfg true [] true true ∅).
Proof.
  intros Hcfg. split_and!; [done|done| |constructor|]; cbn.
  - intros p Hp. by apply not_elem_of_nil in Hp.
  - intros m. split; [by intros ?%not_elem_of_nil|]. intros (p & Hp & _). by apply not_elem_of_nil in Hp.
Qed.

Lemma connect_keeps i s :
  (i < length configs)%nat -> connecting i s ->
  ends (on_device i FrostCoordinator_connect) s (fun s' _ => connecting (S i) s')
    (fun e => (PromptWithin latency (length configs) -> False) /\ relay_failure e).
Proof.
  intros Hi Hs%connecting_deliver. unfold ends, on_device. cbv zeta.
  generalize dependent (deliver s). clear s. intros s (Hlog & Hlen & Hon & Hdev).
  destruct (lookup_lt_is_Some_2 (sv_devices s) i ltac:(lia)) as [c Hc]. rewrite Hc.
  destruct (Hdev i c Hc) as [Hseen Hnew]. rewrite Nat.ltb_irrefl in Hnew. destruct Hnew as (cfg & Hcfg & Hnew).
  unfold FrostCoordinator_connect, on_transport. cbn [fc_transport connect live_device_transport].
  unfold device_connect. cbn [dv_transport dv_net dv_index]. rewrite Hnew in Hseen |- *.
  cbn [LiveNostrTransport_new lnt_connected lnt_cfg].
  destruct (net_connect i cfg (sv_net s)) as [net' reply] eqn:E.
  destruct (connect_law _ _ _ _ _ E) as (_ & Hlog' & Hreach' & Herr & Hon').
  assert (Hprompt : PromptWithin latency (length configs) -> reply = Replied (inr tt)).
  { intros HP. destruct (prompt_connect HP i cfg (sv_net s)) as (net2 & E2 & _). congruence. }
  unfold with_transport, LiveNostrTransport_connect. cbn [lnt_connected LiveNostrTransport_new].
  destruct reply as [[err|[]]| |]; cbn [fst snd fc_transport dv_transport dv_net]; eexists _, _;
    (split; [reflexivity|]); cbv beta iota.
  2: { split_and!; cbn [sv_net sv_devices]; [congruence|by rewrite length_insert| |].
       - intros j. rewrite (Hon' tt eq_refl), elem_of_union, elem_of_singleton, Hon. lia.
       - intros j c' Hc'. rewrite Hreach'. destruct (decide (j = i)) as [->|Hj].
         + rewrite list_lookup_insert_eq in Hc' by lia. injection Hc' as <-.
           rewrite (proj2 (Nat.ltb_lt _ _)) by lia. split; [exact Hseen|by apply connected_device].
         + rewrite list_lookup_insert_ne in Hc' by done. destruct (Hdev j c' Hc') as [Hs Hd].
           split; [done|]. by destruct (Nat.ltb_spec j i), (Nat.ltb_spec j (S i)); try lia. }
  all: (split; [by intros HP%Hprompt|]).
  - destruct (Herr err eq_refl) as [text ->]. exists text. by left.
  - eexists. by left.
  - eexists. by left.
Qed.

Lemma connected_inv s :
  connecting (length configs) s -> service_inv configs sid [] [] (fun _ => []) s.
Proof.
  intros (Hlog & Hlen & Hon & Hdev). split_and!; [split_and!; constructor|done|done| | |].
  - intros p Hp. by apply not_elem_of_nil in Hp.
  - intros i Hi. by apply Hon.
  - intros i c Hc. destruct (Hdev i c Hc) as [Hseen Hd]. split; [|done].
    by rewrite (proj2 (Nat.ltb_lt _ _)) in Hd by (rewrite <- Hlen; by eapply lookup_lt_Some).
Qed.

(** The transports of the configurations, before they connect. *)
Lemma created_connecting g net :
  fresh_net net ->
  connecting 0 (mkService ((fun cfg => mkFrostCoordinator (LiveNostrTransport_new cfg)) <$> configs) g net).
Proof.
  clear n_small.
  intros (Hlog & Hreach & Hon). split_and!; cbn [sv_net sv_devices]; [done|by rewrite length_fmap| |].
  - intros j. rewrite Hon. split; [by intros ?%not_elem_of_empty|lia].
  - intros j c (cfg & -> & Hcfg)%list_lookup_fmap_Some. cbn. split; [by rewrite Hreach|by exists cfg].
Qed.
End connecting.
