(* ===== verification/LiveCeremony.v ===== *)
(** The live key generation of [examples/nostr-transport-service/src/main.rs] runs
    to its end: the rounds of [main] over the invariants of [LiveRounds], for any
    behaviour of the relay that [RelayLaws] allows. *)

From Stdlib Require Import Ascii String Strings.Byte.
From stdpp Require Import base numbers countable gmap functions strings list sorting.
From S2P Require Import Prelude Core Codec Transport Secp SmallGroup Packages SignerPolicy.
From S2P Require Import FrostSession Sdk Ceremony Nostr LiveNostr DkgCli TransportService LiveDkg LiveRounds.

(** ** Lists with their indices *)

Lemma enumerate_split {A} (l : list A) before x after :
  enumerate l = before ++ x :: after -> x.1 = length before /\ l !! length before = Some x.2.
Proof.
  intros E. assert (Hx : enumerate l !! length before = Some x)
    by (rewrite E, lookup_app_r, Nat.sub_diag by done; done).
  unfold enumerate in Hx. apply list_lookup_imap_Some in Hx as (y & Hy & ->). done.
Qed.

Lemma seq_split a m before x after :
  seq a m = before ++ x :: after -> x = a + length before /\ length before < m.
Proof.
  intros E. assert (Hx : seq a m !! length before = Some x)
    by (rewrite E, lookup_app_r, Nat.sub_diag by done; done).
  apply lookup_seq in Hx. lia.
Qed.

(** Packages drained in any order are the packages of a reordered list. *)
Lemma packages_reordered {A X} (from : ProtocolMessage -> Result X) (f : A -> X) K ms taken xs :
  Forall2 (fun k m => from m = Ok (f k)) K ms -> taken ≡ₚ ms ->
  Forall2 (fun x m => from m = Ok x) xs taken -> exists L, L ≡ₚ K /\ xs = f <$> L.
Proof.
  intros HF Hperm Hxs. destruct (Forall2_reorder _ _ _ _ HF Hperm) as (L & HL & HFL).
  exists L. split; [done|]. clear -HFL Hxs. revert xs Hxs.
  induction HFL as [|k m L ms Hk HFL IH]; intros xs Hxs.
  - by apply Forall2_nil_inv_r in Hxs as ->.
  - apply Forall2_cons_inv_r in Hxs as (x & xs' & Hx & Hxs & ->). rewrite fmap_cons.
    f_equal; [congruence|by apply IH].
Qed.

Section errors.
Context `{RelayLaws} (count : nat).

(** How the ceremony may fail: with a zero key or share, or, when the relay is not
    prompt, with the failure of an operation or too few packages in time. *)
Definition late_error (e : AnyhowError) : Prop :=
  (exists failure, e = AnyhowDkgKit failure /\ relay_failure failure) \/
  (exists k, (k < count)%nat /\
     e = AnyhowText ("a device only collected " +:+ dec_nat k +:+ "/" +:+ dec_nat count
                     +:+ " round1 packages")) \/
  (exists k i, (k < count)%nat /\
     e = AnyhowText ("participant " +:+ dec i +:+ " only collected " +:+ dec_nat k +:+ "/"
                     +:+ dec_nat count +:+ " round2 shares")).

Definition ceremony_error (e : AnyhowError) : Prop :=
  (exists failure, e = AnyhowDkgKit failure /\ zero_error failure) \/
  ((PromptRelay count -> False) /\ late_error e).
End errors.

Section ceremony.
Context `{KeygenLaws} `{!ArrivalLaws} `{!SecpLaws}.
Context `{BincodeLaws KeygenInput, !Bincode scalar, !BincodeLaws scalar,
          !Bincode EvenPairedShare, !BincodeLaws EvenPairedShare,
          !Bincode EvenSharedKey, !BincodeLaws EvenSharedKey}.
Context `{RelayLaws} `{!NostrSdkLaws}.
Context `{SerdeJson ProtocolMessage} `{!SerdeJsonLaws ProtocolMessage} `{Utf8Error}.
Context `{SerdeJson Round1Package} `{!SerdeJsonLaws Round1Package}.
Context `{SerdeJson Round2Package} `{!SerdeJsonLaws Round2Package}.
Context (configs : list LiveNostrTransportConfig) (name : string) (t : N).

Local Abbreviation count := (length configs).
Local Abbreviation n := (N.of_nat (length configs)).
Local Abbreviation pid i := (mkParticipantId (N.of_nat i)).
Local Abbreviation sid := (mkSessionId name).

Hypothesis name_ok : blank name = false.
Hypothesis t_ok : (1 <= t <= n)%N.
Hypothesis n_ok : (n <= u16_max)%N.
Hypothesis configs_self : forall i cfg, configs !! i = Some cfg -> lc_self_id cfg = pid (S i).
Hypothesis configs_directory : forall i j cfg cfg',
  configs !! i = Some cfg -> configs !! j = Some cfg' ->
  ParticipantDirectory_get (lc_directory cfg) (pid (S j)) = Some (keys_public_key (lc_keys cfg')).
Hypothesis strangers_elsewhere : forall event, net_stranger event -> elsewhere sid event.

Lemma relay_failure_error failure :
  (PromptRelay count -> False) /\ relay_failure failure -> (ceremony_error count) (AnyhowDkgKit failure).
Proof. intros [Hp Hf]. right. split; [done|]. left. by exists failure. Qed.

(** The messages of the ceremony are messages the devices can send. *)
Lemma device_message m i :
  (1 <= i <= count)%nat -> pm_session_id m = sid -> pm_sender m = pid i ->
  (forall r, pm_recipient m = Some r -> exists j, (1 <= j <= count)%nat /\ r = pid j) ->
  (pm_kind m = FrostDkgRound1 \/ pm_kind m = FrostDkgRound2) -> good_message configs sid m.
Proof.
  intros Hi Hs Hsender Hrec Hkind. unfold good_message, sendable, u16_ids. split_and!.
  - done.
  - by rewrite Hs.
  - rewrite Hsender. cbn. lia.
  - intros r (j & Hj & ->)%Hrec. cbn. lia.
  - by destruct Hkind as [-> | ->].
  - rewrite Hsender. unfold is_u16. cbn. lia.
  - intros r (j & Hj & ->)%Hrec. unfold is_u16. cbn. lia.
  - intros r (j & Hj & ->)%Hrec. exists (j - 1)%nat. split; [lia|]. by replace (S (j - 1)) with j by lia.
Qed.

(** ** Round one *)

Local Abbreviation nothing := (fun _ : nat => @nil ProtocolMessage).

(** The announcement of contributor [k], as the relay carries it. *)
Definition announced (k : honest) (g : Posted * ProtocolMessage) : Prop :=
  round1_event name t n k g.2 /\ pm_recipient g.2 = None /\ S (po_publisher g.1) = k.1.

Lemma announce_ends idx G K s :
  (idx < count)%nat -> Forall2 announced K G -> K.*1 = seq 1 idx ->
  service_inv configs sid [] G nothing s ->
  ends (announce sid (idx, FrostDkgSession_new (local_config name t n (S idx)))) s
    (fun s' dkg => exists k p m, k.1 = S idx /\ dkg = session_after_round1 name t n k /\
       announced k (p, m) /\ service_inv configs sid [] (G ++ [(p, m)]) nothing s')
    (ceremony_error count).
Proof.
  intros Hidx HF HK Hinv. pose (k := (S idx, sv_rng s) : honest).
  assert (Hpos : k.1 ∈ seq 1 (N.to_nat n)) by (apply elem_of_seq; cbn; lia).
  unfold announce. apply ends_bind, ends_map_err.
  eapply ends_Ok. { unfold service_on_rng, st_zoom. by rewrite (local_round1 name t n t_ok n_ok k Hpos). }
  cbv beta iota. destruct (round1_message name t n k) as (m & Hm & Hevent & Hsender & Hrec).
  pose proof Hevent as (Hfrom & Hs & Hkind).
  assert (Hgood : good_message configs sid m).
  { apply (device_message m (S idx)); [lia|done|done|by rewrite Hrec|by left]. }
  assert (Hnew : m ∉ G.*2).
  { intros (g & -> & Hg)%list_elem_of_fmap. apply list_elem_of_lookup in Hg as [i Hg].
    destruct (Forall2_lookup_r _ _ _ _ _ HF Hg) as (k' & Hk' & (Hfrom' & _) & _ & _).
    rewrite Hfrom in Hfrom'. injection Hfrom' as E _.
    assert (Hk1 : k'.1 ∈ K.*1) by (apply list_elem_of_fmap_2; by eapply list_elem_of_lookup_2).
    rewrite HK, elem_of_seq in Hk1. lia. }
  apply ends_bind, ends_map_err. eapply ends_mono.
  - exact (publish_keeps (latency := 19900) configs sid n_ok configs_self configs_directory
             strangers_elsewhere [] G nothing idx _ m
             (mkService (sv_devices s) (honest_output t n k).2 (sv_net s)) Hm Hidx Hgood Hnew Hinv).
  - intros s' _ ((p & Hp & Hinv') & _). eapply (ends_Ok _ _ s'); [reflexivity|].
    exists k, p, m. split_and!; [done|done| |exact Hinv'].
    split_and!; [done|done|cbn; by rewrite Hp].
  - intros e He. by apply relay_failure_error.
Qed.

Lemma announce_all s :
  service_inv configs sid [] [] nothing s ->
  ends (mapM (announce sid)
          (enumerate ((fun i => FrostDkgSession_new (local_config name t n i)) <$> seq 1 count))) s
    (fun s' sessions => exists K G, K.*1 = seq 1 count /\ Forall2 announced K G /\
       sessions = session_after_round1 name t n <$> K /\ service_inv configs sid [] G nothing s')
    (ceremony_error count).
Proof.
  intros Hinv.
  set (l := (fun i => FrostDkgSession_new (local_config name t n i)) <$> seq 1 count).
  eapply ends_mono; [apply (ends_mapM (announce sid) (enumerate l) (fun before sessions s' =>
    exists K G, K.*1 = seq 1 (length before) /\ Forall2 announced K G /\
      sessions = session_after_round1 name t n <$> K /\ service_inv configs sid [] G nothing s'))| |done].
  - intros before [idx dkg] after sessions s1 E (K & G & HK & HF & -> & Hinv1).
    destruct (enumerate_split _ _ _ _ E) as [Hidx Hdkg]. cbn [fst snd] in *. subst idx.
    apply list_lookup_fmap_Some in Hdkg as (i & -> & Hi). apply lookup_seq in Hi as [-> Hlt].
    eapply ends_mono; [by eapply (announce_ends (length before) G K)| |done].
    intros s2 d (k & p & m & Hk & -> & Ha & Hinv2). exists (K ++ [k]), (G ++ [(p, m)]). split_and!.
    + rewrite fmap_app, HK, length_app. cbn [length fmap list_fmap]. by rewrite seq_app, Hk.
    + by apply Forall2_app; [|constructor].
    + by rewrite fmap_app.
    + done.
  - by exists [], [].
  - intros s' sessions (K & G & HK & HF & Hs & Hinv'). exists K, G. split_and!; [|done..].
    rewrite HK. unfold enumerate, l. by rewrite length_imap, length_fmap, length_seq.
Qed.
Lemma announced_messages K G m :
  Forall2 announced K G -> m ∈ G.*2 ->
  selected sid (only_kind FrostDkgRound1) m /\ pm_recipient m = None /\
  exists x, Round1Package_from_protocol_message m = Ok x.
Proof.
  intros HF (g & -> & Hg)%list_elem_of_fmap. apply list_elem_of_lookup in Hg as [i Hg].
  destruct (Forall2_lookup_r _ _ _ _ _ HF Hg) as (k & _ & (Hfrom & Hs & Hk) & Hrec & _).
  split_and!; [|done|by eexists]. split; [done|]. by apply bool_decide_eq_true.
Qed.

Lemma announced_for_all K G i : Forall2 announced K G -> messages_for i G = G.*2.
Proof.
  intros HF. apply filter_all. intros m Hm.
  destruct (announced_messages K G m HF Hm) as (_ & Hrec & _).
  unfold ProtocolMessage_is_for. by rewrite Hrec.
Qed.

(** What [collect] and the check after it give. *)
Definition gathered {X} (from : ProtocolMessage -> Result X) (old : list Posted)
    (G : list (Posted * ProtocolMessage)) (before : list nat) (xss : list (list X)) (s : Service) : Prop :=
  exists taken, service_inv configs sid old G taken s /\
    (forall i, (length before <= i)%nat -> taken i = []) /\ length xss = length before /\
    forall i xs, xss !! i = Some xs ->
      Forall2 (fun x m => from m = Ok x) xs (taken i) /\ length xs = count.

Lemma gather_ends K G before xss s :
  (length before < count)%nat -> Forall2 announced K G -> K.*1 = seq 1 count ->
  gathered Round1Package_from_protocol_message [] G before xss s ->
  ends (gather_round1 sid count (length before)) s
    (fun s' xs => gathered Round1Package_from_protocol_message [] G (before ++ [length before])
                    (xss ++ [xs]) s')
    (ceremony_error count).
Proof.
  intros Hidx HF HK (taken & Hinv & Hrest & Hlen & Hxss). set (idx := length before) in *.
  assert (Hsel : forall m, m ∈ G.*2 -> ProtocolMessage_is_for m (pid (S idx)) = true ->
            selected sid (only_kind FrostDkgRound1) m /\
            exists x, Round1Package_from_protocol_message m = Ok x).
  { intros m Hm _. by destruct (announced_messages K G m HF Hm) as (? & _ & ?). }
  assert (Hwant : length (messages_for idx G) = count).
  { rewrite (announced_for_all K) by done. rewrite length_fmap, <- (Forall2_length _ _ _ HF).
    apply (f_equal length) in HK. by rewrite length_fmap, length_seq in HK. }
  unfold gather_round1. apply ends_bind. eapply ends_mono.
  - exact (main_collects (latency := 19900) configs sid n_ok configs_self configs_directory
             strangers_elsewhere [] G
             taken idx count
             (only_kind FrostDkgRound1) Round1Package_from_protocol_message s (N.le_refl _) Hidx Hinv
             (Hrest idx (le_n _)) Hsel Hwant).
  - intros s1 xs (ms & HF1 & Hinv1 & _ & Hle & Hprompt). apply ends_bind.
    destruct (Nat.eqb_spec (length xs) count) as [Heq|Hne]; cbn [negb reject_if].
    + eapply (ends_lift_Ok _ _ tt); [done|]. eapply (ends_Ok _ _ s1); [reflexivity|].
      exists (<[idx := ms]> taken). rewrite !length_app. cbn [length]. fold idx. split_and!; [done| |lia|].
      * intros i Hi. rewrite fn_lookup_insert_ne by lia. apply Hrest. lia.
      * intros i ys Hys. destruct (decide (i = idx)) as [->|Hi].
        -- rewrite lookup_app_r, Hlen, Nat.sub_diag in Hys by lia. injection Hys as <-.
           by rewrite fn_lookup_insert.
        -- rewrite fn_lookup_insert_ne by done. apply Hxss. apply lookup_lt_Some in Hys as Hlt.
           rewrite length_app in Hlt. cbn in Hlt. by rewrite lookup_app_l in Hys by lia.
    + eapply ends_Err; [reflexivity|]. right. split; [intros HP; by apply Hne, Hprompt|].
      right. left. exists (length xs). split; [lia|done].
  - done.
Qed.

Lemma gather_all K G s :
  Forall2 announced K G -> K.*1 = seq 1 count -> service_inv configs sid [] G nothing s ->
  ends (mapM (gather_round1 sid count) (seq 0 count)) s
    (fun s' xss => gathered Round1Package_from_protocol_message [] G (seq 0 count) xss s')
    (ceremony_error count).
Proof.
  intros HF HK Hinv. apply (ends_mapM _ _ (gathered Round1Package_from_protocol_message [] G)).
  - intros before x after xss s1 E Hg. destruct (seq_split _ _ _ _ _ E) as [-> Hlt].
    by apply (gather_ends K).
  - exists nothing. by split_and!.
Qed.

(** ** Between the rounds *)

(** Every device has all announcements: each holds the packages of all
    participants, in some order, and the relay's events are settled. *)
Lemma gathered_all K G xss s :
  Forall2 announced K G -> K.*1 = seq 1 count ->
  gathered Round1Package_from_protocol_message [] G (seq 0 count) xss s ->
  service_inv configs sid G.*1 [] nothing s /\ length xss = count /\
  forall i xs, xss !! i = Some xs -> exists L, L ≡ₚ K /\ xs = honest_round1 t n <$> L.
Proof.
  intros HF HK (taken & Hinv & _ & Hxlen & Hxss).
  pose proof Hinv as (HL & _ & Hlen & _ & _ & Hdev).
  rewrite length_seq in Hxlen.
  assert (Hmsgs : forall i, length (messages_for i G) = count).
  { intros i. rewrite (announced_for_all K) by done. rewrite length_fmap, <- (Forall2_length _ _ _ HF).
    apply (f_equal length) in HK. by rewrite length_fmap, length_seq in HK. }
  assert (Htaken : forall i c, sv_devices s !! i = Some c ->
    taken i ≡ₚ G.*2 /\ in_session sid (lnt_inbound (fc_transport c)) = [] /\
    forall p m, (p, m) ∈ G -> po_publisher p = i \/ posted_id p ∈ lnt_seen (fc_transport c)).
  { intros i c Hc. destruct (Hdev i c Hc) as [Hd _].
    destruct (taken_messages configs sid n_ok [] G (taken i) i _ HL Hd) as (_ & _ & Hfull).
    apply lookup_lt_Some in Hc. destruct (lookup_lt_is_Some_2 xss i ltac:(lia)) as [xs Hxs].
    destruct (Hxss i xs Hxs) as [HFx Hxl]. apply Forall2_length in HFx.
    destruct Hfull as (Hperm & Hin & Hall); [rewrite Hmsgs; lia|].
    rewrite (announced_for_all K) in Hperm by done. split_and!; [done..|].
    intros p m Hp. apply (Hall p m Hp). unfold ProtocolMessage_is_for.
    apply (list_elem_of_fmap_2 snd) in Hp. destruct (announced_messages K G m HF Hp) as (_ & Hrec & _).
    by rewrite Hrec. }
  split_and!.
  - apply (round_over configs sid G taken); [done|]. intros i c Hc. by destruct (Htaken i c Hc) as (_ & ?).
  - done.
  - intros i xs Hxs. pose proof (lookup_lt_Some _ _ _ Hxs) as Hlt.
    destruct (lookup_lt_is_Some_2 (sv_devices s) i ltac:(lia)) as [c Hc].
    destruct (Htaken i c Hc) as (Hperm & _). destruct (Hxss i xs Hxs) as [HFx _].
    apply (packages_reordered Round1Package_from_protocol_message (honest_round1 t n) K G.*2 (taken i));
      [|done|done].
    apply Forall2_fmap_r. eapply Forall2_impl; [exact HF|]. by intros k g ((? & _) & _).
Qed.
(** ** Round two *)

Local Abbreviation packages_of := (honest_round2 t n).

(** A share on its way. *)
Definition sent (x : Round2Package) (g : Posted * ProtocolMessage) : Prop :=
  round2_event name x g.2.

Lemma packages_of_inv k x :
  x ∈ packages_of k -> r2_sender x = pid k.1 /\
  exists j, (1 <= j <= count)%nat /\ x = package_to t n j k.
Proof.
  intros (j & -> & Hj)%list_elem_of_fmap. split; [done|]. exists j. split; [|done].
  apply elem_of_seq in Hj. lia.
Qed.

Lemma all_packages_NoDup K : NoDup K.*1 -> NoDup (concat (packages_of <$> K)).
Proof.
  induction K as [|k K IH]; intros HN; [constructor|]. cbn [fmap list_fmap concat] in HN |- *.
  apply NoDup_cons in HN as [Hk HN]. apply NoDup_app. split_and!; [| |by apply IH].
  - apply NoDup_fmap_2; [|apply NoDup_seq]. intros i j [= E _]. lia.
  - intros x [Hx _]%packages_of_inv Hin. apply list_elem_of_In, in_concat in Hin as (xs & Hxs & Hin).
    apply list_elem_of_In, list_elem_of_fmap in Hxs as (k' & -> & Hk'). apply list_elem_of_In in Hin.
    apply packages_of_inv in Hin as [Hx' _]. rewrite Hx in Hx'. injection Hx' as E%Nat2N.inj.
    apply Hk. rewrite E. by apply list_elem_of_fmap_2.
Qed.

Lemma share_ends old idx j k X G s :
  (idx < count)%nat -> k.1 = S idx -> (1 <= j <= count)%nat -> Forall2 sent X G ->
  package_to t n j k ∉ X -> service_inv configs sid old G nothing s ->
  ends (dkgkit (on_device idx (publish_round2 sid (package_to t n j k)))) s
    (fun s' _ => exists g, sent (package_to t n j k) g /\ service_inv configs sid old (G ++ [g]) nothing s')
    (ceremony_error count).
Proof.
  intros Hidx Hk Hj HF Hx Hinv. destruct (round2_message name t n j k) as (m & Hm & Hevent & Hsender).
  pose proof Hevent as (Hfrom & Hs & Hkind & Hrec).
  assert (Hgood : good_message configs sid m).
  { apply (device_message m (S idx)); [lia|done|by rewrite Hsender, Hk| |by right].
    rewrite Hrec. intros r [= <-]. exists j. split; [lia|done]. }
  assert (Hnew : m ∉ G.*2).
  { intros (g & -> & Hg)%list_elem_of_fmap. apply list_elem_of_lookup in Hg as [i Hg].
    destruct (Forall2_lookup_r _ _ _ _ _ HF Hg) as (x & Hxi & (Hfrom' & _)).
    rewrite Hfrom in Hfrom'. injection Hfrom' as <-. apply Hx. by eapply list_elem_of_lookup_2. }
  apply ends_map_err. eapply ends_mono.
  - exact (publish_keeps (latency := 19900) configs sid n_ok configs_self configs_directory
             strangers_elsewhere old G nothing idx _ m s Hm Hidx
             Hgood Hnew Hinv).
  - intros s' _ ((p & Hp & Hinv') & _). by exists (p, m).
  - intros e He. by apply relay_failure_error.
Qed.

Section round2.
Context (K : list honest) (old : list Posted) (xss : list (list Round1Package)).
Hypothesis K_positions : K.*1 = seq 1 count.
Hypothesis xss_length : length xss = count.
Hypothesis xss_packages :
  forall i xs, xss !! i = Some xs -> exists L, L ≡ₚ K /\ xs = honest_round1 t n <$> L.

Lemma K_positions_N : K.*1 = seq 1 (N.to_nat n).
Proof. by rewrite K_positions, Nat2N.id. Qed.

Lemma K_length : length K = count.
Proof.
  pose proof (f_equal length K_positions) as HK. rewrite length_seq in HK. rewrite <- HK.
  symmetry. apply length_fmap.
Qed.

Lemma K_lookup idx : (idx < count)%nat -> exists k, K !! idx = Some k /\ k.1 = S idx.
Proof.
  intros Hidx. assert (Hk : K.*1 !! idx = Some (S idx)) by (rewrite K_positions; apply lookup_seq; lia).
  apply list_lookup_fmap_Some in Hk as (k & -> & Hk). by exists k.
Qed.

(** The sessions of the first [i] participants have sent their shares. *)
Definition shares_sent (i : nat) (sessions : list FrostDkgSession) (s : Service) : Prop :=
  exists G, Forall2 sent (concat (packages_of <$> take i K)) G /\
    sessions = session_after_round2 name t n K <$> take i K /\ service_inv configs sid old G nothing s.

Lemma send_shares_ends idx sessions s :
  (idx < count)%nat -> shares_sent idx sessions s ->
  forall k, K !! idx = Some k ->
  ends (send_shares sid xss (idx, session_after_round1 name t n k)) s
    (fun s' dkg => shares_sent (S idx) (sessions ++ [dkg]) s') (ceremony_error count).
Proof.
  intros Hidx (G & HF & -> & Hinv) k Hk. destruct (K_lookup idx Hidx) as (k' & Hk' & Hk1).
  assert (k' = k) as -> by (apply (inj Some); etransitivity; [symmetry; exact Hk'|exact Hk]).
  clear Hk'.
  destruct (lookup_lt_is_Some_2 xss idx ltac:(lia)) as [xs Hxs].
  destruct (xss_packages idx xs Hxs) as (L & HL & ->).
  set (X := concat (packages_of <$> take idx K)) in *.
  assert (Hall : X ++ packages_of k = concat (packages_of <$> take (S idx) K)).
  { rewrite (take_S_r _ _ k Hk), fmap_app, concat_app. cbn [fmap list_fmap concat]. by rewrite app_nil_r. }
  assert (HN : NoDup (X ++ packages_of k)).
  { rewrite Hall. apply all_packages_NoDup. rewrite fmap_take, K_positions.
    eapply sublist_NoDup; [apply NoDup_seq|apply sublist_take]. }
  unfold send_shares. rewrite Hxs. apply ends_bind. eapply ends_lift_Ok; [reflexivity|].
  apply ends_bind, ends_map_err. eapply ends_lift_Ok.
  { by apply (arrived_round2 name t n name_ok t_ok n_ok K K_positions_N). }
  cbv beta iota. apply ends_bind. eapply ends_mono; [apply (ends_mapM _ (packages_of k)
    (fun before _ s' => exists G', Forall2 sent (X ++ before) G' /\ service_inv configs sid old G' nothing s')
    (ceremony_error count))| |done].
  - intros before x after _ s1 E (G1 & HF1 & Hinv1). destruct (packages_of_inv k x) as (_ & j & Hj & ->).
    { rewrite E. apply elem_of_app. right. left. }
    rewrite E, app_assoc in HN. apply NoDup_app in HN as (_ & Hd & _).
    eapply ends_mono; [apply (share_ends old idx j k (X ++ before) G1); try done|
      intros s2 u (g & Hg & Hinv2)|done].
    + intros Hin. apply (Hd _ Hin). left.
    + exists (G1 ++ [g]). split; [|done]. rewrite app_assoc. by apply Forall2_app; [|constructor].
  - exists G. by rewrite app_nil_r.
  - intros s' us (G' & HF' & Hinv'). eapply (ends_Ok _ _ s'); [reflexivity|]. exists G'.
    rewrite <- Hall. split_and!; [done| |done]. by rewrite (take_S_r _ _ k Hk), fmap_app.
Qed.

Lemma send_shares_all s :
  service_inv configs sid old [] nothing s ->
  ends (mapM (send_shares sid xss) (enumerate (session_after_round1 name t n <$> K))) s
    (fun s' sessions => shares_sent count sessions s') (ceremony_error count).
Proof.
  intros Hinv.
  eapply ends_mono; [apply (ends_mapM _ (enumerate (session_after_round1 name t n <$> K))
    (fun before sessions s' => shares_sent (length before) sessions s'))| |done].
  - intros before [idx dkg] after sessions s1 E Hsent.
    destruct (enumerate_split _ _ _ _ E) as [Hidx Hdkg]. cbn [fst snd] in *. subst idx.
    apply list_lookup_fmap_Some in Hdkg as (k & -> & Hk). pose proof (lookup_lt_Some _ _ _ Hk) as Hlt.
    rewrite length_app, Nat.add_1_r. apply send_shares_ends; [by rewrite <- K_length|done|done].
  - exists []. by split_and!.
  - intros s' sessions. unfold enumerate. by rewrite length_imap, length_fmap, K_length.
Qed.
(** ** The shares *)

Section finish.
Context (co : Coordinator) (agg : AggKeygenInput) (G : list (Posted * ProtocolMessage)).
Hypothesis co_ok : add_inputs (coordinator_new t n)
  ((fun k => (N.of_nat k.1 - 1, honest_input t n k)%N) <$> K) = Some co.
Hypothesis agg_ok : coordinator_finish co = Some agg.
Hypothesis shares_ok : forall j, (1 <= j <= N.to_nat n)%nat ->
  exists share, receive_secret_share agg
    (collect_secret_inputs (scalar_from (N.of_nat j)) (honest_share t n j <$> K)) = inr share.
Hypothesis all_sent : Forall2 sent (concat (packages_of <$> K)) G.

Lemma sent_to idx :
  (idx < count)%nat ->
  Forall2 (fun k m => Round2Package_from_protocol_message m = Ok (package_to t n (S idx) k)) K
    (messages_for idx G).
Proof.
  intros Hidx. apply (Forall2_fmap_l (package_to t n (S idx))
    (fun x m => Round2Package_from_protocol_message m = Ok x)).
  rewrite <- (local_packages_for t n (S idx) K) by (apply elem_of_seq; lia).
  eapply Forall2_impl; [apply (Forall2_filter (round2_event name)); [by apply Forall2_fmap_r|]|].
  - intros x m (_ & _ & _ & Hr). unfold ProtocolMessage_is_for. rewrite Hr. by rewrite bool_decide_eq_true.
  - by intros x m (? & _).
Qed.

Lemma sent_selected idx m :
  m ∈ G.*2 -> ProtocolMessage_is_for m (pid (S idx)) = true ->
  selected sid (only_target FrostDkgRound2 (pid (S idx))) m /\
  exists x, Round2Package_from_protocol_message m = Ok x.
Proof.
  intros (g & -> & Hg)%list_elem_of_fmap Hfor. apply list_elem_of_lookup in Hg as [i Hg].
  destruct (Forall2_lookup_r _ _ _ _ _ all_sent Hg) as (x & _ & (Hfrom & Hs & Hk & _)).
  split; [|by exists x]. split; [done|]. unfold only_target. by rewrite Hk, bool_decide_eq_true_2.
Qed.

Definition finished (i : nat) (shares : list LocalKeyShare) (s : Service) : Prop :=
  exists taken, service_inv configs sid old G taken s /\ (forall j, (i <= j)%nat -> taken j = []) /\
    Forall2 (dealt_share t n K agg) (seq 1 i) shares.

Lemma finalize_arrived idx k L :
  K !! idx = Some k -> k.1 = S idx -> L ≡ₚ K ->
  let r := FrostDkgSession_finalize (session_after_round2 name t n K k) (package_to t n (S idx) <$> L) in
  (exists share, r = Ok share /\ dealt_share t n K agg (S idx) share) \/
  (exists e, r = Err e /\ zero_error e).
Proof.
  intros Hk Hk1 HL. cbv zeta. rewrite <- Hk1.
  apply (arrived_finalize name t n t_ok n_ok K K_positions_N co agg co_ok agg_ok shares_ok k L).
  - by eapply list_elem_of_lookup_2.
  - done.
  - apply filter_all. intros x (k' & -> & _)%list_elem_of_fmap. done.
  - apply collect_any_order. by rewrite HL.
Qed.

Lemma finish_ends idx k shares s :
  K !! idx = Some k -> finished idx shares s ->
  ends (finish_device sid count (idx, session_after_round2 name t n K k)) s
    (fun s' share => finished (S idx) (shares ++ [share]) s') (ceremony_error count).
Proof.
  intros Hk (taken & Hinv & Hrest & HF).
  assert (Hidx : (idx < count)%nat).
  { rewrite <- K_length. by eapply lookup_lt_Some. }
  destruct (K_lookup idx Hidx) as (k' & Hk' & Hk1).
  assert (k' = k) as -> by (apply (inj Some); etransitivity; [symmetry; exact Hk'|exact Hk]).
  unfold finish_device. apply ends_bind, ends_map_err. eapply ends_lift_Ok.
  { rewrite position_ok, ok_bind by lia. apply service_pid_ok. }
  replace (N.of_nat idx + 1)%N with (N.of_nat (S idx)) by lia. pose proof (sent_to idx Hidx) as Hto.
  assert (Hwant : length (messages_for idx G) = count).
  { rewrite <- (Forall2_length _ _ _ Hto). apply K_length. }
  apply ends_bind. eapply ends_mono; [exact (main_collects (latency := 19900) configs sid n_ok configs_self
    configs_directory strangers_elsewhere old G taken idx count _ Round2Package_from_protocol_message s
    (N.le_refl _) Hidx Hinv
    (Hrest idx (le_n _)) (sent_selected idx) Hwant)| |done].
  intros s1 xs (ms & HF1 & Hinv1 & _ & Hle & Hprompt). apply ends_bind.
  destruct (Nat.eqb_spec (length xs) count) as [Heq|Hne]; cbn [negb reject_if].
  2: { eapply ends_Err; [reflexivity|]. right. split; [intros HP; by apply Hne, Hprompt|].
       right. right. exists (length xs), (N.of_nat (S idx)). split; [lia|done]. }
  eapply (ends_lift_Ok _ _ tt); [done|]. apply ends_map_err.
  assert (Hms : ms ≡ₚ messages_for idx G).
  { destruct Hinv1 as (HL & _ & Hlen & _ & _ & Hdev).
    destruct (lookup_lt_is_Some_2 (sv_devices s1) idx ltac:(lia)) as [c Hc].
    destruct (Hdev idx c Hc) as [Hd _]. rewrite fn_lookup_insert in Hd.
    destruct (taken_messages configs sid n_ok old G ms idx _ HL Hd) as (_ & _ & Hfull).
    apply Hfull. apply Forall2_length in HF1. lia. }
  destruct (packages_reordered _ (package_to t n (S idx)) _ _ _ _ Hto Hms HF1) as (L & HL & ->).
  destruct (finalize_arrived idx k L Hk Hk1 HL) as [(share & Hr & Hdealt)|(e & Hr & He)].
  - eapply ends_lift_Ok; [exact Hr|]. exists (<[idx := ms]> taken). split_and!; [done| |].
    + intros j Hj. rewrite fn_lookup_insert_ne by lia. apply Hrest. lia.
    + rewrite seq_S. by apply Forall2_app; [|constructor].
  - eapply ends_Err; [unfold st_lift; by rewrite Hr|]. left. by exists e.
Qed.

Lemma finish_all s :
  service_inv configs sid old G nothing s ->
  ends (mapM (finish_device sid count) (enumerate (session_after_round2 name t n K <$> K))) s
    (fun s' shares => finished count shares s') (ceremony_error count).
Proof.
  intros Hinv. eapply ends_mono; [apply (ends_mapM _ (enumerate (session_after_round2 name t n K <$> K))
    (fun before shares s' => finished (length before) shares s'))| |done].
  - intros before [idx dkg] after shares s1 E Hfin.
    destruct (enumerate_split _ _ _ _ E) as [Hidx Hdkg]. cbn [fst snd] in *. subst idx.
    apply list_lookup_fmap_Some in Hdkg as (k & -> & Hk).
    rewrite length_app, Nat.add_1_r. by apply finish_ends.
  - exists nothing. by split_and!.
  - intros s' shares. unfold enumerate. by rewrite length_imap, length_fmap, K_length.
Qed.
End finish.
End round2.

(** ** The ceremony *)

(** Every device ends with a share of one group key. *)
Definition ceremony_shares (shares : list LocalKeyShare) : Prop :=
  exists group_key, lks_participant_id <$> shares = (fun i => pid i) <$> seq 1 count /\
    Forall (fun share => lks_group_key share = group_key) shares.

Lemma live_ceremony_ends s :
  service_inv configs sid [] [] nothing s ->
  ends (live_ceremony sid t n) s
    (fun s' shares => ceremony_shares shares /\ length (sv_devices s') = count) (ceremony_error count).
Proof.
  intros Hinv. unfold live_ceremony. apply ends_bind, ends_map_err.
  eapply ends_lift_Ok; [rewrite Nat2N.id; rewrite <- (Nat2N.id count) at 1;
    by apply (local_sessions name t n name_ok t_ok n_ok)|].
  rewrite !Nat2N.id. apply ends_bind. eapply ends_mono; [by apply announce_all| |done].
  intros s1 sessions (K & G & HK & HF & -> & Hinv1).
  apply ends_bind. eapply ends_Ok; [reflexivity|].
  assert (Hdevices : length (sv_devices s1) = count) by by destruct Hinv1 as (_ & _ & ? & _).
  rewrite Hdevices. apply ends_bind. eapply ends_mono; [by apply (gather_all K G)| |done].
  intros s2 xss Hg. destruct (gathered_all K G xss s2 HF HK Hg) as (Hinv2 & Hxlen & Hxss).
  apply ends_bind. eapply ends_mono; [by apply (send_shares_all K G.*1 xss)| |done].
  intros s3 sessions (G2 & HF2 & -> & Hinv3).
  pose proof (K_length K HK) as HlenK.
  rewrite (take_ge K) in HF2 |- * by (apply Nat.eq_le_incl; exact HlenK).
  assert (HKN : K.*1 = seq 1 (N.to_nat n)) by (by rewrite Nat2N.id).
  destruct (honest_keygen_verifies t n K t_ok HKN) as (co & agg & Hco & Hagg & Hshares).
  eapply ends_mono; [by apply (finish_all K G.*1 xss HK Hxlen co agg G2 Hco Hagg Hshares HF2)| |done].
  intros s4 shares (taken & (_ & _ & Hlen & _) & _ & Hdealt). split; [|done].
  by apply dealt_shares_agree in Hdealt.
Qed.
End ceremony.

(** ** The program *)

Section service.
Context `{KeygenLaws} `{!ArrivalLaws} `{!SecpLaws}.
Context `{BincodeLaws KeygenInput, !Bincode scalar, !BincodeLaws scalar,
          !Bincode EvenPairedShare, !BincodeLaws EvenPairedShare,
          !Bincode EvenSharedKey, !BincodeLaws EvenSharedKey}.
Context `{RelayLaws} `{!NostrSdkLaws}.
Context `{SerdeJson ProtocolMessage} `{!SerdeJsonLaws ProtocolMessage} `{Utf8Error}.
Context `{SerdeJson Round1Package} `{!SerdeJsonLaws Round1Package}.
Context `{SerdeJson Round2Package} `{!SerdeJsonLaws Round2Package}.

Local Abbreviation pid i := (mkParticipantId (N.of_nat i)).

Section connect.
Context (configs : list LiveNostrTransportConfig) (sid : SessionId).

Hypothesis n_ok : (N.of_nat (length configs) <= u16_max)%N.
Hypothesis configs_self : forall i cfg, configs !! i = Some cfg -> lc_self_id cfg = pid (S i).
Hypothesis configs_directory : forall i j cfg cfg',
  configs !! i = Some cfg -> configs !! j = Some cfg' ->
  ParticipantDirectory_get (lc_directory cfg) (pid (S j)) = Some (keys_public_key (lc_keys cfg')).
Hypothesis strangers_elsewhere : forall event, net_stranger event -> elsewhere sid event.

Lemma connect_ends i s :
  (i < length configs)%nat -> connecting configs sid i s ->
  ends (dkgkit (on_device i FrostCoordinator_connect)) s
    (fun s' _ => connecting configs sid (S i) s') (ceremony_error (length configs)).
Proof.
  intros Hi Hs. apply ends_map_err.
  eapply ends_mono; [by apply (connect_keeps (latency := 19900) configs sid)|done|].
  intros e He. by apply relay_failure_error.
Qed.

Lemma connect_all s :
  connecting configs sid 0 s ->
  ends (mapM (fun idx => dkgkit (on_device idx FrostCoordinator_connect)) (seq 0 (length configs))) s
    (fun s' _ => service_inv configs sid [] [] (fun _ => []) s') (ceremony_error (length configs)).
Proof.
  intros Hs. eapply ends_mono; [apply (ends_mapM _ (seq 0 (length configs))
    (fun before _ s' => connecting configs sid (length before) s'))| |done].
  - intros before x after us s1 E Hc. destruct (seq_split _ _ _ _ _ E) as [-> Hlt].
    rewrite length_app, Nat.add_1_r. by apply connect_ends.
  - done.
  - rewrite length_seq. intros s' _. apply connected_inv.
Qed.
End connect.

Lemma deliver_length s : length (sv_devices (deliver s)) = length (sv_devices s).
Proof.
  unfold deliver. destruct (net_deliver (sv_net s)) as [net' l]. cbn [sv_devices].
  generalize (sv_devices s) as devices. induction l as [|d l IH]; intros devices; [done|].
  cbn [foldl]. rewrite IH. unfold deliver_event. apply length_alter.
Qed.

Lemma disconnect_all m s F :
  length (sv_devices s) = m ->
  ends (mapM (fun idx => dkgkit (on_device idx FrostCoordinator_disconnect)) (seq 0 m)) s
    (fun _ _ => True) F.
Proof.
  intros Hlen. eapply ends_mono; [apply (ends_mapM _ (seq 0 m)
    (fun _ _ s' => length (sv_devices s') = m) F)|done|done]; [|done].
  intros before x after us s1 E Hl. destruct (seq_split _ _ _ _ _ E) as [-> Hlt]. cbn [Nat.add].
  unfold dkgkit. apply ends_map_err. unfold ends, on_device. cbv zeta. pose proof (deliver_length s1) as Hd.
  destruct (lookup_lt_is_Some_2 (sv_devices (deliver s1)) (length before) ltac:(lia)) as [c Hc].
  rewrite Hc. eexists _, _. split; [reflexivity|]. cbn. rewrite length_insert. lia.
Qed.
(** The devices of [main] and the session name. *)
Lemma service_devices relay vault keys :
  (N.of_nat (length keys) <= u16_max)%N ->
  exists configs, length configs = length keys /\
    make_devices relay vault keys =
      Ok ((fun cfg => mkFrostCoordinator (LiveNostrTransport_new cfg)) <$> configs) /\
    (forall i cfg, configs !! i = Some cfg -> lc_self_id cfg = pid (S i)) /\
    (forall i j cfg cfg', configs !! i = Some cfg -> configs !! j = Some cfg' ->
       ParticipantDirectory_get (lc_directory cfg) (pid (S j)) = Some (keys_public_key (lc_keys cfg'))).
Proof.
  intros Hmax. destruct (devices_know_each_other relay vault keys Hmax) as (d & devices & Hm & Hget & Hdev & Hlen).
  exists (imap (fun i k => mkLiveNostrTransportConfig [relay] vault
                             (mkParticipantId (N.of_nat i + 1)) k d) keys).
  assert (Hinv : forall i cfg, imap (fun i k => mkLiveNostrTransportConfig [relay] vault
            (mkParticipantId (N.of_nat i + 1)) k d) keys !! i = Some cfg ->
            exists k, keys !! i = Some k /\
              cfg = mkLiveNostrTransportConfig [relay] vault (mkParticipantId (N.of_nat i + 1)) k d).
  { intros i cfg Hcfg. apply list_lookup_imap_Some in Hcfg as (k & Hk & ->). by exists k. }
  split_and!.
  - apply length_imap.
  - rewrite Hm. f_equal. apply list_eq_same_length with (length keys);
      [by rewrite length_fmap, length_imap|done|].
    intros i x y Hi Hx Hy. destruct (lookup_lt_is_Some_2 keys i Hi) as [k Hk].
    rewrite (Hdev i k Hk) in Hx. rewrite list_lookup_fmap, list_lookup_imap, Hk in Hy. cbn in Hy. congruence.
  - intros i cfg (k & _ & ->)%Hinv. cbn [lc_self_id]. f_equal. lia.
  - intros i j cfg cfg' (k & _ & ->)%Hinv (k' & Hk' & ->)%Hinv. cbn [lc_directory lc_keys].
    rewrite Hget. rewrite decide_True by (apply lookup_lt_Some in Hk'; lia).
    replace (N.to_nat (N.of_nat (S j) - 1)) with j by lia. by rewrite Hk'.
Qed.

Local Abbreviation vault suffix := ("nostr-transport-service-" +:+ dec suffix).

Lemma service_session_ends relay suffix configs s :
  let sid := mkSessionId (vault suffix +:+ "-dkg") in
  length configs = 3 -> connecting configs sid 0 s ->
  (forall i cfg, configs !! i = Some cfg -> lc_self_id cfg = pid (S i)) ->
  (forall i j cfg cfg', configs !! i = Some cfg -> configs !! j = Some cfg' ->
     ParticipantDirectory_get (lc_directory cfg) (pid (S j)) = Some (keys_public_key (lc_keys cfg'))) ->
  (forall event, net_stranger event -> elsewhere sid event) ->
  ends (service_session relay (vault suffix) sid) s
    (fun _ report => exists key,
       report = mkServiceReport relay ("dkgkit:" +:+ vault suffix) 3 key true)
    (ceremony_error 3).
Proof.
  intros sid Hthree Hs Hself Hdir Helse. unfold service_session.
  assert (Hsmall : (N.of_nat (length configs) <= u16_max)%N) by (rewrite Hthree; vm_compute; discriminate). apply ends_bind.
  eapply ends_Ok; [reflexivity|]. pose proof Hs as (_ & Hlen & _). rewrite Hlen.
  apply ends_bind. rewrite <- Hthree. eapply ends_mono; [by apply (connect_all configs sid)| |done].
  intros s1 us Hinv. apply ends_bind. eapply ends_Ok; [reflexivity|].
  apply (sleep_keeps configs sid Hsmall) with (ms := 500%N) in Hinv.
  apply ends_bind. replace PARTICIPANTS with (N.of_nat (length configs)) by (by rewrite Hthree).
  assert (Ht : (1 <= THRESHOLD <= N.of_nat (length configs))%N) by (rewrite Hthree; vm_compute; split; discriminate).
  eapply ends_mono; [exact (live_ceremony_ends configs (vault suffix +:+ "-dkg") THRESHOLD eq_refl Ht
    Hsmall Hself Hdir Helse _ Hinv)|intros s2 shares ((key & Hids & Hkeys) & Hlen2)|done].
  destruct shares as [|first shares].
  { apply (f_equal length) in Hids. rewrite !length_fmap, length_seq, Hthree in Hids. discriminate Hids. }
  apply ends_bind. eapply (ends_lift_Ok _ _ first); [done|].
  assert (Hall : forallb (fun s => bool_decide (lks_group_key s = lks_group_key first)) (first :: shares) = true).
  { apply forallb_forall. intros x Hx%list_elem_of_In. rewrite Forall_forall in Hkeys.
    rewrite (Hkeys x Hx), (Hkeys first ltac:(left)). by apply bool_decide_eq_true. }
  cbv zeta. rewrite Hall. apply ends_bind. eapply (ends_lift_Ok _ _ tt); [done|].
  apply ends_bind. eapply ends_mono; [by apply (disconnect_all (length configs))| |intros e He; exact He].
  intros s3 us' _. eapply ends_Ok; [reflexivity|]. rewrite Hthree. by exists (gk_xonly_public_key (lks_group_key first)).
Qed.

(** C13: the live service completes.  Whatever events the relay delivers when, in
    whatever order and how often, those of the other devices and any that
    strangers publish, as long as no stranger speaks in the session, [main] ends
    without a panic: with its report, in which the three devices have derived one group key;
    or with a zero key or share of the engine; or, only if the relay is not
    prompt, with the error of a refused operation or of a device that collected too
    few packages in time.  With a prompt relay, which accepts every operation and
    delivers every event within 19.9 seconds, the last case is impossible. *)
Theorem live_service_completes var suffix generate g net :
  fresh_net net ->
  (forall event, net_stranger event -> elsewhere (mkSessionId (vault suffix +:+ "-dkg")) event) ->
  exists st r, transport_service_main var suffix generate (g, net) = (st, r) /\
    ((exists key, r = Ok (mkServiceReport (relay_url var) ("dkgkit:" +:+ vault suffix) 3 key true)) \/
     (exists e, r = Err (AnyhowDkgKit e) /\ zero_error e) \/
     (exists e, r = Err e /\ late_error 3 e /\ (PromptRelay 3 -> False))).
Proof.
  intros Hfresh Helse.
  destruct (service_devices (relay_url var) (vault suffix) (generate <$> seq 0 (N.to_nat PARTICIPANTS)))
    as (configs & Hlen & Hm & Hself & Hdir); [vm_compute; discriminate|].
  rewrite length_fmap, length_seq in Hlen. change (N.to_nat PARTICIPANTS) with 3 in Hlen.
  destruct (service_session_ends (relay_url var) suffix configs
    (mkService ((fun cfg => mkFrostCoordinator (LiveNostrTransport_new cfg)) <$> configs) g net))
    as (s & r & Hrun & Hr); [done|by apply created_connecting|done|done|exact Helse|].
  exists (sv_rng s, sv_net s), r. split.
  - unfold transport_service_main. cbv zeta. change (SessionId_new (vault suffix +:+ "-dkg")) with
      (Ok (E := DkgKitError) (mkSessionId (vault suffix +:+ "-dkg"))).
    rewrite ok_bind, Hm, ok_bind. by rewrite Hrun.
  - destruct r as [report|e|]; [|destruct Hr as [(e' & -> & He)|[Hp He]]|done].
    + destruct Hr as [key ->]. left. by exists key.
    + right. left. by exists e'.
    + right. right. by exists e.
Qed.
End service.

(** ** A concrete run *)

Section witnesses.
Local Existing Instances small_group small_group_laws unit_engine unit_engine_keygen.
Local Existing Instances scalar_bincode scalar_bincode_laws engine_n_bincode digits_bincode_laws.
Local Existing Instances digits_json digits_json_laws toy_sdk toy_sdk_laws live_utf8_error.

Lemma unit_engine_arrival : @ArrivalLaws small_group unit_engine.
Proof.
  split.
  - intros t n K L _ _ _.
    assert (Hadd : forall l co, exists co', @add_inputs small_group unit_engine co l = Some co').
    { induction l as [|[i x] l IH]; intros co; [by exists co|]. apply (IH (i :: co)). }
    destruct (Hadd ((fun k => (N.of_nat k.1 - 1, honest_input t n k)%N) <$> L)
                (coordinator_new t n)) as [co Hco]. by exists co, co.
  - intros index shares shares' Hp. exact (Permutation_length Hp).
Qed.

(** A relay that passes every event to all other devices whenever it is asked, and
    an event of a stranger with it. *)
Record ToyNet := mkToyNet {
  tn_clock : N;
  tn_log : list Posted;
  tn_reached : nat -> gset EventId;
  tn_listening : gset nat;
}.

Section toy_relay.
Context (stranger : Event).

Definition toy_deliveries (net : ToyNet) : list (nat * Event) :=
  filter (fun d => d.1 ∈ tn_listening net)
    ((p ← tn_log net; (fun i => (i, po_event p)) <$> filter (fun i => po_publisher p <> i) (seq 0 3))
     ++ if decide (ev_id stranger ∈ (posted_id <$> tn_log net)) then []
        else (fun i => (i, stranger)) <$> seq 0 3).

(** The identifiers in use. *)
Definition toy_ids (net : ToyNet) : list EventId :=
  (posted_id <$> tn_log net) ++ (i ← seq 0 3; elements (tn_reached net i)).

Definition toy_fresh (net : ToyNet) : N := foldr N.max 0%N (toy_ids net) + 1.

Definition toy_outside : Outside := {|
  Net := ToyNet;
  net_now := tn_clock;
  net_sleep ms net := mkToyNet (tn_clock net + ms) (tn_log net) (tn_reached net) (tn_listening net);
  net_connect i _ net :=
    (mkToyNet (tn_clock net) (tn_log net) (tn_reached net) ({[i]} ∪ tn_listening net),
     Replied (inr tt));
  net_nonce _ := 0%N;
  net_send i keys content tags net :=
    (mkToyNet (tn_clock net)
       (tn_log net ++ [mkPosted (tn_clock net) i (mkEvent (toy_fresh net : EventId) keys tags content)])
       (tn_reached net) (tn_listening net), Replied (inr tt));
  net_deliver net :=
    (mkToyNet (tn_clock net) (tn_log net)
       (fun i => delivered_to i (toy_deliveries net) ∪ tn_reached net i) (tn_listening net),
     toy_deliveries net);
|}.
Local Existing Instance toy_outside.

Lemma toy_deliveries_elem net i event :
  (i, event) ∈ toy_deliveries net <-> (i < 3)%nat /\ i ∈ tn_listening net /\
    ((exists p, p ∈ tn_log net /\ po_event p = event /\ po_publisher p <> i) \/
     (event = stranger /\ ~ (ev_id event ∈ (posted_id <$> tn_log net)))).
Proof.
  unfold toy_deliveries. rewrite list_elem_of_filter, elem_of_app, list_elem_of_bind. split.
  - intros (Hon & [(p & (j & [= -> ->] & Hj)%list_elem_of_fmap & Hp)|Hs]).
    + apply list_elem_of_filter in Hj as [Hne Hj%elem_of_seq].
      split_and!; [lia|done|left; by exists p].
    + case_decide; [by apply not_elem_of_nil in Hs|].
      apply list_elem_of_fmap in Hs as (j & [= -> ->] & Hj%elem_of_seq). split_and!; [lia|done|by right].
  - intros (Hi & Hon & Hcase). split; [done|]. destruct Hcase as [(p & Hp & <- & Hne)|[-> Hn]].
    + left. exists p. split; [|done]. apply list_elem_of_fmap. exists i. split; [done|].
      apply list_elem_of_filter. rewrite elem_of_seq. split; [done|lia].
    + right. rewrite decide_False by done. apply list_elem_of_fmap. exists i. rewrite elem_of_seq. split; [done|lia].
Qed.

Lemma toy_delivered net i id :
  id ∈ delivered_to i (toy_deliveries net) <-> exists event, ev_id event = id /\ (i, event) ∈ toy_deliveries net.
Proof.
  unfold delivered_to. rewrite elem_of_list_to_set, list_elem_of_fmap. split.
  - intros ([j event] & -> & [Hj Hin]%list_elem_of_filter). cbn in Hj. subst j. by exists event.
  - intros (event & <- & Hin). exists (i, event). by rewrite list_elem_of_filter.
Qed.

Lemma toy_fresh_unused net : ~ (toy_fresh net ∈ toy_ids net).
Proof.
  assert (Hbound : forall (l : list N) x, x ∈ l -> (x <= foldr N.max 0%N l)%N)
    by (induction 1 as [x l|x y l Hx IH]; cbn [foldr]; lia).
  intros Hin%Hbound. unfold toy_fresh in Hin. lia.
Qed.

#[local, refine] Instance toy_relay_laws : RelayLaws := {|
  net_log := tn_log : @Net _ toy_outside -> _;
  net_reached (net : @Net _ toy_outside) i := if decide (i < 3)%nat then tn_reached net i else ∅;
  net_listening := tn_listening : @Net _ toy_outside -> _;
  net_stranger event := event = stranger;
|}.
Proof.
  - intros ms net. cbn. split_and!; [lia|done..].
  - intros i cfg net net' reply [= <- <-]. split_and!; [done..| |done]. intros err [=].
  - intros i keys content tags net net' reply [= <- <-]. split_and!; [done..| |].
    + intros err [=].
    + intros u _. exists (toy_fresh net). pose proof (toy_fresh_unused net) as Hno. split_and!; [|intros j|done].
      * intros Hin. apply Hno, elem_of_app. by left.
      * case_decide; [|apply not_elem_of_empty]. intros Hin. apply Hno, elem_of_app. right.
        apply list_elem_of_bind. exists j. rewrite elem_of_elements, elem_of_seq. split; [done|lia].
  - intros net net' l [= <- <-]. split_and!; [done..| |].
    + intros i. cbn. case_decide as Hi; [done|]. apply set_eq. intros id.
      rewrite elem_of_union, toy_delivered. split; [by intros ?%not_elem_of_empty|].
      intros [(event & _ & (Hlt & _)%toy_deliveries_elem)|?]; [lia|done].
    + intros i event (_ & Hon & Hcase)%toy_deliveries_elem. by split.
Defined.

Lemma toy_relay_prompt latency : PromptWithin latency 3.
Proof.
  split.
  - intros i cfg net. by eexists.
  - intros i keys content tags net. by eexists.
  - intros nonce keys pk plaintext. by eexists.
  - done.
  - intros net net' l [= <- <-]. split; [done|]. intros i p Hi Hon Hp Hne _. cbn.
    rewrite decide_True by done. apply elem_of_union_l, toy_delivered. exists (po_event p).
    split; [done|]. apply toy_deliveries_elem. split_and!; [done..|]. left. by exists p.
Qed.

End toy_relay.

Definition toy_stranger : Event :=
  mkEvent (0%N : EventId) (7%N : PublicKey)
    [["app"; DKGKIT_NOSTR_APP_TAG]; ["session"; "another session"]; ["sender"; "1"];
     ["message_kind"; "frost_dkg_round1"]] "content".

#[local] Instance quiet_outside : Outside := toy_outside toy_stranger.
#[local] Instance quiet_relay : RelayLaws := toy_relay_laws toy_stranger.

Lemma toy_stranger_elsewhere name event :
  name <> "another session" -> net_stranger event -> elsewhere (mkSessionId name) event.
Proof. intros Hname ->. apply other_session_elsewhere. intros [= E]. by destruct Hname. Qed.

Definition toy_net : Net := mkToyNet 0 [] (fun _ => ∅) ∅.

Lemma toy_net_fresh : fresh_net toy_net.
Proof. split_and!; [done| |done]. intros i. cbn. by case_decide. Qed.

Definition toy_keys (i : nat) : Keys := N.of_nat i.
Definition toy_seed : @rng small_group := 0%Z.

Lemma live_service_completes_witness :
  exists st r,
    transport_service_main None 7 toy_keys (toy_seed, toy_net) =
      (st, r) /\
    ((exists key, r = Ok (mkServiceReport "ws://127.0.0.1:7777" "dkgkit:nostr-transport-service-7" 3 key true)) \/
     (exists e, r = Err (AnyhowDkgKit e) /\ zero_error e)).
Proof.
  pose proof unit_engine_arrival as Harrival.
  destruct (live_service_completes None 7 toy_keys toy_seed toy_net)
    as (st & r & Hrun & Hr).
  - exact toy_net_fresh.
  - intros event. apply toy_stranger_elsewhere. discriminate.
  - exists st, r. split; [exact Hrun|]. destruct Hr as [Hr|[Hr|(e & _ & _ & Hp)]].
    + left. exact Hr.
    + right. exact Hr.
    + destruct (Hp (toy_relay_prompt toy_stranger 19900)).
Defined.

(** A stranger who does speak in the session: one round-one message in the name of
    participant 1, in the clear and under a key no directory lists. *)
Definition loud_message : ProtocolMessage :=
  ProtocolMessage_broadcast (mkSessionId "nostr-transport-service-7-dkg") (mkParticipantId 1)
    FrostDkgRound1
    (match encode_payload (mkRound1Package (mkParticipantId 1) [x01]) with Ok bs => bs | _ => [] end).

Definition loud_stranger : Event :=
  match NostrEnvelopeEvent_from_protocol_message loud_message with
  | Ok envelope => mkEvent (0%N : EventId) (7%N : PublicKey) (NostrEnvelopeEvent_tags envelope)
                     (ne_content envelope)
  | _ => toy_stranger
  end.

(** It ends the key generation of the three devices. *)
Lemma session_stranger_stops_service :
  let outside := toy_outside loud_stranger in
  (transport_service_main (H2 := outside) None 7 toy_keys (toy_seed, mkToyNet 0 [] (fun _ => ∅) ∅)).2 =
  Err (AnyhowText "a device only collected 4/3 round1 packages").
Proof. vm_compute. reflexivity. Qed.
End witnesses.
