(* ===== verification/RelayTests.v ===== *)
(** [crates/dkgkit-nostr/tests/live_relay.rs]: the integration tests of the live
    transport over a relay.

    The transports of a test are the devices of [LiveDkg.Service], numbered in
    the order they are created; the relay and the clock are those of [Outside].
    The environment variable, the keys of [Keys::generate()] and the readings of
    the system clock are arguments.  [relay_tests_pass] proves that both tests
    pass over every relay that delivers within 9.9 seconds. *)

From Stdlib Require Import Ascii String Strings.Byte.
From stdpp Require Import base numbers countable gmap functions strings list.
From S2P Require Import Prelude Core TestKit Codec Transport Secp SmallGroup FrostSession.
From S2P Require Import Sdk Nostr LiveNostr TransportService LiveDkg LiveRounds LiveCeremony.

Section relay_tests.
Context `{FrostLib} `{Outside} `{SerdeJson ProtocolMessage} `{Utf8Error}.

Local Abbreviation TestST := (ST Service DkgKitError).

(** [nanos]: what the clock shows. *)
Definition unique (prefix : string) (nanos : N) : string := prefix +:+ "-" +:+ dec nanos.

Definition config (relays : list string) (vault_tag : string) (self_id : N) (keys : Keys)
    (directory : ParticipantDirectory) : Result LiveNostrTransportConfig :=
  self_id ← unwrap (ParticipantId_new self_id);
  Ok (mkLiveNostrTransportConfig relays vault_tag self_id keys directory).

(** [let mut tx = LiveNostrTransport::new(config)] *)
Definition new_transport (config : Result LiveNostrTransportConfig) : TestST nat :=
  config ← st_lift config;
  tx ← st_gets (fun s => length (sv_devices s));
  st_modify (fun s => mkService
    (sv_devices s ++ [mkFrostCoordinator (LiveNostrTransport_new config)]) (sv_rng s) (sv_net s));;
  mret tx.

Definition tx_connect (tx : nat) : TestST unit := on_device tx (on_transport connect).

Definition tx_publish (tx : nat) (message : ProtocolMessage) : TestST unit :=
  on_device tx (on_transport (publish message)).

(** The loop is that of the service's [collect], on [drain_matching(..).unwrap()]
    with the predicate [|_| true]. *)
Definition collect_until (tx : nat) (session : SessionId) (want : nat) (timeout : N) :
  TestST (list ProtocolMessage) :=
  service_collect want timeout
    (st_unwrap (on_device tx (on_transport (drain_pure session (fun _ => true))))).

Definition public_message_round_trips_over_relay (relay_url : option string)
    (generate : nat -> Keys) (vault_nanos session_nanos : N) : TestST unit :=
  match relay_url with
  | None => mret tt
  | Some url =>
      let alice := generate 0 in
      let bob := generate 1 in
      one ← st_lift (ParticipantId_new 1);
      let directory := ParticipantDirectory_insert ParticipantDirectory_new one
                         (keys_public_key alice) in
      two ← st_lift (ParticipantId_new 2);
      let directory := ParticipantDirectory_insert directory two (keys_public_key bob) in
      let vault := unique "it-pub" vault_nanos in
      tx1 ← new_transport (config [url] vault 1 alice directory);
      tx2 ← new_transport (config [url] vault 2 bob directory);
      tx_connect tx1;;
      tx_connect tx2;;
      st_modify (service_sleep 300);;
      session ← st_lift (SessionId_new (unique "it-pub-dkg" session_nanos));
      one ← st_lift (ParticipantId_new 1);
      tx_publish tx1 (ProtocolMessage_new session one FrostDkgRound1 [x01; x02; x03]);;
      received ← collect_until tx2 session 1 10000;
      st_lift (assert_eq (length received) 1);;
      first ← st_lift (index received 0);
      st_lift (assert_eq (pm_kind first) FrostDkgRound1);;
      st_lift (assert_eq (pm_payload first) [x01; x02; x03])
  end.

Definition round2_is_encrypted_and_only_recipient_reads_it (relay_url : option string)
    (generate : nat -> Keys) (vault_nanos session_nanos : N) : TestST unit :=
  match relay_url with
  | None => mret tt
  | Some url =>
      let alice := generate 0 in
      let bob := generate 1 in
      let eve := generate 2 in
      one ← st_lift (ParticipantId_new 1);
      let directory := ParticipantDirectory_insert ParticipantDirectory_new one
                         (keys_public_key alice) in
      two ← st_lift (ParticipantId_new 2);
      let directory := ParticipantDirectory_insert directory two (keys_public_key bob) in
      three ← st_lift (ParticipantId_new 3);
      let directory := ParticipantDirectory_insert directory three (keys_public_key eve) in
      let vault := unique "it-enc" vault_nanos in
      tx1 ← new_transport (config [url] vault 1 alice directory);
      tx_bob ← new_transport (config [url] vault 2 bob directory);
      tx_eve ← new_transport (config [url] vault 3 eve directory);
      tx_connect tx1;;
      tx_connect tx_bob;;
      tx_connect tx_eve;;
      st_modify (service_sleep 300);;
      session ← st_lift (SessionId_new (unique "it-enc-dkg" session_nanos));
      one ← st_lift (ParticipantId_new 1);
      two ← st_lift (ParticipantId_new 2);
      tx_publish tx1 (ProtocolMessage_direct session one two HtssDkgRound2 [x2a; x2a; x2a]);;
      bob_got ← collect_until tx_bob session 1 10000;
      st_lift (assert_eq (length bob_got) 1);;
      first ← st_lift (index bob_got 0);
      st_lift (assert_eq (pm_payload first) [x2a; x2a; x2a]);;
      eve_got ← collect_until tx_eve session 1 3000;
      st_lift (assert (bool_decide (length eve_got = 0)))
  end.
End relay_tests.

(** ** The tests pass *)

Section passing.
Context `{FrostLib} `{RelayLaws} `{!NostrSdkLaws}.
Context `{SerdeJson ProtocolMessage} `{!SerdeJsonLaws ProtocolMessage} `{Utf8Error}.

Local Abbreviation pid i := (mkParticipantId (N.of_nat i)).
Local Abbreviation never := (fun _ : DkgKitError => False).

Lemma prompt_fewer latency devices devices' :
  (devices' <= devices)%nat -> PromptWithin latency devices -> PromptWithin latency devices'.
Proof.
  intros Hle HP. split; [exact (prompt_connect HP)|exact (prompt_send HP)|exact (prompt_encrypt HP)|
    exact (prompt_sleep HP)|].
  intros net net' l Hl. destruct (prompt_deliver HP net net' l Hl) as [Hnow Hreach].
  split; [done|]. intros i p Hi. apply Hreach. lia.
Qed.

Lemma ends_passes {St A} (m : ST St DkgKitError A) s (Q : St -> A -> Prop) :
  ends m s Q never -> st_passes m s.
Proof.
  intros (s' & r & Hm & Hr). unfold st_passes. rewrite Hm. destruct r as [a|e|]; [by exists a|done..].
Qed.

(** What a prompt relay refuses. *)
Lemma ends_prompt {St A} (m : ST St DkgKitError A) s (Q : St -> A -> Prop) (P : Prop) F :
  P -> ends m s Q (fun e => (P -> False) /\ F e) -> ends m s Q never.
Proof. intros HP Hm. eapply ends_mono; [exact Hm|done|]. by intros e [Hno _]. Qed.

Section devices.
Context (configs : list LiveNostrTransportConfig) (sid : SessionId).

Local Abbreviation n := (length configs).

Hypothesis n_small : (N.of_nat n <= u16_max)%N.
Hypothesis configs_self : forall i cfg, configs !! i = Some cfg -> lc_self_id cfg = pid (S i).
Hypothesis configs_directory : forall i j cfg cfg',
  configs !! i = Some cfg -> configs !! j = Some cfg' ->
  ParticipantDirectory_get (lc_directory cfg) (pid (S j)) = Some (keys_public_key (lc_keys cfg')).
Hypothesis strangers_elsewhere : forall event, net_stranger event -> elsewhere sid event.
Hypothesis prompt : PromptWithin 9900 n.

Local Abbreviation nothing := (fun _ : nat => @nil ProtocolMessage).

Lemma tx_connect_ends i s :
  (i < n)%nat -> connecting configs sid i s ->
  ends (tx_connect i) s (fun s' _ => connecting configs sid (S i) s') never.
Proof.
  intros Hi Hs. eapply ends_prompt; [exact prompt|]. by apply (connect_keeps configs sid).
Qed.

Lemma tx_publish_ends idx m s :
  (idx < n)%nat -> good_message configs sid m -> service_inv configs sid [] [] nothing s ->
  ends (tx_publish idx m) s (fun s' _ => exists p, service_inv configs sid [] [(p, m)] nothing s') never.
Proof.
  intros Hidx Hm Hs. eapply ends_prompt; [exact prompt|].
  eapply ends_mono; [apply (publish_keeps (latency := 9900) configs sid n_small configs_self
    configs_directory strangers_elsewhere [] [] nothing idx (Ok m) m s);
    [reflexivity|exact Hidx|exact Hm|apply not_elem_of_nil|exact Hs]| |intros e He; exact He].
  intros s' _ [(p & _ & Hinv) _]. by exists p.
Qed.

(** [drain_packages] with nothing to decode. *)
Lemma drain_unpacked idx f s :
  on_device idx (drain_packages sid f Ok) s = on_device idx (on_transport (drain_pure sid f)) s.
Proof.
  unfold on_device. cbv zeta. destruct (sv_devices (deliver s) !! idx) as [c|]; [|done].
  unfold drain_packages, mbind, st_bind.
  destruct (on_transport _ _) as [c' [ms|e|]]; [|done..]. unfold st_lift.
  assert (E : mapM Ok ms = (Ok ms : Result (list ProtocolMessage)))
    by by apply mapM_Ok, Forall2_flip, Forall_Forall2_diag, Forall_true.
  by rewrite E.
Qed.

(** The only message is collected by the device it is for; the others may wait
    for it in vain. *)
Lemma collect_until_ends idx p m taken timeout s :
  (idx < n)%nat -> pm_session_id m = sid -> (100 <= timeout)%N ->
  (ProtocolMessage_is_for m (pid (S idx)) = true -> (10000 <= timeout)%N) ->
  service_inv configs sid [] [(p, m)] taken s -> taken idx = [] ->
  ends (collect_until idx sid 1 timeout) s
    (fun s' ms => ms = (if ProtocolMessage_is_for m (pid (S idx)) then [m] else []) /\
                  service_inv configs sid [] [(p, m)] (<[idx := ms]> taken) s') never.
Proof.
  intros Hidx Hsid Htime Hfor Hs Hnone.
  set (latency := if ProtocolMessage_is_for m (pid (S idx)) then 9900%N else 0%N).
  eapply ends_mono; [apply (collect_keeps (latency := latency) configs sid n_small configs_self
    configs_directory strangers_elsewhere [] [(p, m)] taken idx 1 (fun _ => true) Ok s timeout)| |done].
  1-3: done.
  - intros m' ->%list_elem_of_singleton _. split; [done|by exists m].
  - unfold latency. destruct (ProtocolMessage_is_for m _); [specialize (Hfor eq_refl)|]; lia.
  - intros st st' xs Hd. rewrite drain_unpacked in Hd. unfold st_unwrap. by rewrite Hd.
  - intros st. pose proof (drain_time sid idx (fun _ => true) Ok st) as Ht.
    unfold dkgkit, st_map_err in Ht. rewrite drain_unpacked in Ht. unfold st_unwrap.
    by destruct (on_device _ _ st).
  - intros s' ms (ms' & HF & Hinv & _ & Hle & Hall & Hprompt).
    assert (ms' = ms) as ->.
    { clear -HF. induction HF as [|x y l k [= ->] _ IH]; [done|]. by rewrite IH. }
    split; [|done]. unfold messages_for in *. cbn [snd fmap list_fmap] in *. unfold latency in Hprompt.
    rewrite filter_cons in *. destruct (ProtocolMessage_is_for m _); case_decide; try done; cbn in *.
    + apply Permutation_singleton_r, Hall. destruct (Hprompt prompt); lia.
    + apply length_zero_iff_nil. lia.
Qed.
End devices.

(** Configurations with one directory, in which they all are. *)
Definition test_configs (url vault : string) (generate : nat -> Keys)
    (directory : ParticipantDirectory) (k : nat) : list LiveNostrTransportConfig :=
  (fun i => mkLiveNostrTransportConfig [url] vault (pid (S i)) (generate i) directory) <$> seq 0 k.

Lemma test_configs_ok url vault generate directory k :
  (forall i, (i < k)%nat ->
     ParticipantDirectory_get directory (pid (S i)) = Some (keys_public_key (generate i))) ->
  let configs := test_configs url vault generate directory k in
  length configs = k /\
  (forall i cfg, configs !! i = Some cfg -> lc_self_id cfg = pid (S i)) /\
  (forall i j cfg cfg', configs !! i = Some cfg -> configs !! j = Some cfg' ->
     ParticipantDirectory_get (lc_directory cfg) (pid (S j)) = Some (keys_public_key (lc_keys cfg'))).
Proof.
  intros Hdir configs. subst configs. unfold test_configs. split_and!.
  - by rewrite length_fmap, length_seq.
  - intros i cfg (x & -> & [-> _]%lookup_seq)%list_lookup_fmap_Some. done.
  - intros i j cfg cfg' (x & -> & _)%list_lookup_fmap_Some (y & -> & [-> Hj]%lookup_seq)%list_lookup_fmap_Some.
    by apply Hdir.
Qed.

Lemma ends_seq {St A B} (m : ST St DkgKitError A) (f : A -> ST St DkgKitError B) s P Q F :
  ends m s P F -> (forall s' a, P s' a -> ends (f a) s' Q F) -> ends (m ≫= f) s Q F.
Proof. intros Hm Hf. by apply ends_bind; eapply ends_mono; [exact Hm|exact Hf|]. Qed.

(** A step that only computes. *)
Ltac next :=
  apply ends_bind; first [eapply ends_lift_Ok; [reflexivity|]|eapply ends_Ok; [reflexivity|]].

(** Every transport has been created. *)
Ltac created configs :=
  cbn [length sv_devices sv_rng sv_net app];
  lazymatch goal with
  | Hs : connecting ?cs _ 0 ?s, Hlen : length ?cs = ?k, Hself : forall i cfg, _ -> lc_self_id cfg = _,
    Hdir : forall i j cfg cfg', _, Hall : PromptWithin ?l 3 |- ends _ ?s' _ _ =>
      change s' with s; let st := fresh "st" in generalize dependent s; intros st Hs;
      generalize dependent cs; intros configs Hlen Hself Hdir Hs;
      assert (Hsmall : (N.of_nat (length configs) <= u16_max)%N) by (by rewrite Hlen);
      assert (HP : PromptWithin l (length configs)) by (apply (prompt_fewer l 3); [lia|exact Hall])
  end.

Section runs.
Context (url : string) (generate : nat -> Keys) (vault_nanos session_nanos : N).
Context (g : rng) (net : Net).

Hypothesis fresh : fresh_net net.
Hypothesis prompt : PromptWithin 9900 3.

Local Abbreviation strangers_avoid sid := (forall event, net_stranger event -> elsewhere sid event).

Local Abbreviation nothing := (fun _ : nat => @nil ProtocolMessage).

Lemma settled configs sid s :
  (N.of_nat (length configs) <= u16_max)%N -> connecting configs sid (length configs) s ->
  service_inv configs sid [] [] nothing (service_sleep 300 s).
Proof. intros Hsmall Hs. by apply sleep_keeps, connected_inv. Qed.

Lemma public_message_passes :
  strangers_avoid (mkSessionId (unique "it-pub-dkg" session_nanos)) ->
  st_passes (public_message_round_trips_over_relay (Some url) generate vault_nanos session_nanos)
    (mkService [] g net).
Proof.
  set (sid := mkSessionId (unique "it-pub-dkg" session_nanos)). intros Helse.
  set (vault := unique "it-pub" vault_nanos).
  set (directory := ParticipantDirectory_insert (ParticipantDirectory_insert
    ParticipantDirectory_new (pid 1) (keys_public_key (generate 0))) (pid 2)
    (keys_public_key (generate 1))).
  destruct (test_configs_ok url vault generate directory 2) as (Hlen & Hself & Hdir).
  { intros [|[|i]] Hi; [reflexivity|reflexivity|lia]. }
  pose proof (created_connecting (test_configs url vault generate directory 2) sid g net fresh) as Hs.
  apply (ends_passes _ _ (fun _ _ => True)). unfold public_message_round_trips_over_relay.
  do 4 next. created configs.
  eapply ends_seq; [apply (tx_connect_ends configs sid Hsmall Hself Hdir Helse HP 0);
                    [lia|exact Hs]|intros s1 [] Hs1].
  eapply ends_seq; [apply (tx_connect_ends configs sid Hsmall Hself Hdir Helse HP 1);
                    [lia|exact Hs1]|intros s2 [] Hs2].
  cbv beta in Hs2. rewrite <- Hlen in Hs2. apply settled in Hs2; [|done]. do 3 next.
  set (m := ProtocolMessage_new _ _ _ _).
  eapply ends_seq; [apply (tx_publish_ends configs sid Hsmall Hself Hdir Helse HP 0 m); [lia|done|exact Hs2]|].
  intros s3 [] (p & Hs3).
  eapply ends_seq; [apply (collect_until_ends configs sid Hsmall Hself Hdir Helse HP 1 p m nothing 10000);
                    [lia|done|done|done|exact Hs3|done]|].
  intros s4 ms [-> _]. cbn [ProtocolMessage_is_for]. do 3 next. by eapply ends_lift_Ok.
Qed.

Lemma round2_passes :
  strangers_avoid (mkSessionId (unique "it-enc-dkg" session_nanos)) ->
  st_passes (round2_is_encrypted_and_only_recipient_reads_it (Some url) generate vault_nanos
               session_nanos) (mkService [] g net).
Proof.
  set (sid := mkSessionId (unique "it-enc-dkg" session_nanos)). intros Helse.
  set (vault := unique "it-enc" vault_nanos).
  set (directory := ParticipantDirectory_insert (ParticipantDirectory_insert
    (ParticipantDirectory_insert ParticipantDirectory_new (pid 1) (keys_public_key (generate 0)))
    (pid 2) (keys_public_key (generate 1))) (pid 3) (keys_public_key (generate 2))).
  destruct (test_configs_ok url vault generate directory 3) as (Hlen & Hself & Hdir).
  { intros [|[|[|i]]] Hi; [reflexivity..|lia]. }
  pose proof (created_connecting (test_configs url vault generate directory 3) sid g net fresh) as Hs.
  apply (ends_passes _ _ (fun _ _ => True)). unfold round2_is_encrypted_and_only_recipient_reads_it.
  do 6 next. created configs.
  eapply ends_seq; [apply (tx_connect_ends configs sid Hsmall Hself Hdir Helse HP 0);
                    [lia|exact Hs]|intros s1 [] Hs1].
  eapply ends_seq; [apply (tx_connect_ends configs sid Hsmall Hself Hdir Helse HP 1);
                    [lia|exact Hs1]|intros s2 [] Hs2].
  eapply ends_seq; [apply (tx_connect_ends configs sid Hsmall Hself Hdir Helse HP 2);
                    [lia|exact Hs2]|intros s3 [] Hs3].
  cbv beta in Hs3. rewrite <- Hlen in Hs3. apply settled in Hs3; [|done]. do 4 next.
  set (m := ProtocolMessage_direct _ _ _ _ _).
  eapply ends_seq; [apply (tx_publish_ends configs sid Hsmall Hself Hdir Helse HP 0 m); [lia| |exact Hs3]|].
  { split_and!; [done| | |].
    - split_and!; [done|done|by intros r [= <-]|done].
    - split; [done|]. by intros r [= <-].
    - intros r [= <-]. exists 1. split; [lia|done]. }
  intros s4 [] (p & Hs4).
  eapply ends_seq; [apply (collect_until_ends configs sid Hsmall Hself Hdir Helse HP 1 p m nothing 10000);
                    [lia|done|done|done|exact Hs4|done]|].
  intros s5 bob_got [-> Hs5]. cbn [ProtocolMessage_is_for]. do 3 next.
  eapply ends_seq; [eapply (collect_until_ends configs sid Hsmall Hself Hdir Helse HP 2 p m) 
                      with (timeout := 3000%N);
                    [lia|done|done|done|exact Hs5|by rewrite fn_lookup_insert_ne]|].
  intros s6 eve_got [-> _]. by eapply ends_lift_Ok.
Qed.
End runs.

(** Both tests pass, without the environment variable and over every relay that
    serves the devices and delivers within 9.9 seconds, whatever it delivers of
    strangers who do not speak in the tests' sessions: the broadcast reaches the
    other device unchanged; the encrypted share reaches its recipient only, the
    third device collects nothing before its deadline. *)
Theorem relay_tests_pass relay_url generate vault_nanos session_nanos g net :
  fresh_net net -> PromptWithin 9900 3 ->
  (forall event, net_stranger event ->
     elsewhere (mkSessionId (unique "it-pub-dkg" session_nanos)) event /\
     elsewhere (mkSessionId (unique "it-enc-dkg" session_nanos)) event) ->
  st_passes (public_message_round_trips_over_relay relay_url generate vault_nanos session_nanos)
    (mkService [] g net) /\
  st_passes (round2_is_encrypted_and_only_recipient_reads_it relay_url generate vault_nanos
               session_nanos) (mkService [] g net).
Proof.
  intros Hfresh HP Helse. destruct relay_url as [url|]; [|split; by exists tt].
  split; [apply public_message_passes; try done|apply round2_passes; try done];
    intros event He; by apply Helse.
Qed.
End passing.

(** ** A relay *)

Section witnesses.
Local Existing Instances small_group unit_engine digits_json digits_json_laws.
Local Existing Instances toy_sdk toy_sdk_laws live_utf8_error quiet_outside quiet_relay.

Lemma relay_tests_pass_witness :
  st_passes (public_message_round_trips_over_relay (Some "ws://127.0.0.1:7777") toy_keys 5 6)
    (mkService [] toy_seed toy_net).
Proof.
  destruct (relay_tests_pass (Some "ws://127.0.0.1:7777") toy_keys 5 6 toy_seed toy_net) as [H _].
  - exact toy_net_fresh.
  - apply toy_relay_prompt.
  - intros event He. split; apply toy_stranger_elsewhere; [discriminate|exact He|discriminate|exact He].
  - exact H.
Defined.
End witnesses.
