(* ===== verification/Bitcoin.v ===== *)
(** [crates/dkgkit-bitcoin/src/lib.rs]: authorization messages, derivation paths,
    Taproot key tweaks, address descriptors and signature checks.

    The crates [bitcoin] and [secp256k1] compute in the same group as the rest of
    the workspace: their keys and scalars are the points and scalars of [Secp].
    Hashing, BIP32 public derivation, BIP341 tweaking, address encoding and
    hexadecimal text are the class [BitcoinLib]; errors are [anyhow] texts. *)

From Stdlib Require Import Ascii String Strings.Byte Field.
From stdpp Require Import base numbers countable gmap strings list.
From S2P Require Import Prelude Core Codec Secp SmallGroup Packages SignerPolicy Birkhoff.
From S2P Require Import HtssKeygen HtssSigning.

Abbreviation AResult := (Outcome string).

(** ** Authorization messages *)

Record BitcoinAuthorizationMessage := mkBitcoinAuthorizationMessage {
  bam_network : string;
  bam_action : string;
  bam_recipient : option string;
  bam_amount_sats : option N;
  bam_memo : option string;
  bam_nonce : string;
}.

Definition BitcoinAuthorizationMessage_canonical_text (self : BitcoinAuthorizationMessage) :
  string :=
  "DKGKit Bitcoin Authorization" +:+ newline +:+ "network=" +:+ bam_network self
  +:+ newline +:+ "action=" +:+ bam_action self
  +:+ newline +:+ "recipient=" +:+ default "" (bam_recipient self)
  +:+ newline +:+ "amount_sats=" +:+ default "" (dec <$> bam_amount_sats self)
  +:+ newline +:+ "memo=" +:+ default "" (bam_memo self)
  +:+ newline +:+ "nonce=" +:+ bam_nonce self.

(** ** Paths and networks *)

Record BitcoinDerivationPath := mkBitcoinDerivationPath {
  bdp_purpose : N;
  bdp_coin_type : N;
  bdp_account : N;
  bdp_change : N;
  bdp_address_index : N;
}.

Definition BitcoinDerivationPath_bip86 (account change address_index : N) :
  BitcoinDerivationPath := mkBitcoinDerivationPath 86 0 account change address_index.

Definition BitcoinDerivationPath_bip44 (account change address_index : N) :
  BitcoinDerivationPath := mkBitcoinDerivationPath 44 0 account change address_index.

Definition BitcoinDerivationPath_display_path (self : BitcoinDerivationPath) : string :=
  "m/" +:+ dec (bdp_purpose self) +:+ "'/" +:+ dec (bdp_coin_type self) +:+ "'/"
  +:+ dec (bdp_account self) +:+ "'/" +:+ dec (bdp_change self) +:+ "/"
  +:+ dec (bdp_address_index self).

Record BitcoinAccountKey := mkBitcoinAccountKey {
  bak_group_key : GroupKey;
  bak_chain_code : bytes;
}.

Definition BitcoinAccountKey_new (group_key : GroupKey) (chain_code : bytes) :
  BitcoinAccountKey := mkBitcoinAccountKey group_key chain_code.

Record BitcoinAddressDescriptor := mkBitcoinAddressDescriptor {
  bad_path : BitcoinDerivationPath;
  bad_network : string;
  bad_address : string;
  bad_account_xonly_public_key_hex : string;
  bad_internal_xonly_public_key_hex : string;
  bad_xonly_public_key_hex : string;
  bad_chain_code_hex : string;
}.

(** [bitcoin::Network], and its [Debug] text. *)
Inductive Network : Type := NetBitcoin | NetTestnet | NetTestnet4 | NetSignet | NetRegtest.

#[export] Instance network_eq_dec : EqDecision Network.
Proof. solve_decision. Defined.

Definition network_debug (network : Network) : string :=
  match network with
  | NetBitcoin => "Bitcoin"
  | NetTestnet => "Testnet"
  | NetTestnet4 => "Testnet4"
  | NetSignet => "Signet"
  | NetRegtest => "Regtest"
  end.

Definition parse_network (network : string) : AResult Network :=
  if decide (network = "bitcoin" \/ network = "mainnet") then Ok NetBitcoin
  else if decide (network = "testnet") then Ok NetTestnet
  else if decide (network = "testnet4") then Ok NetTestnet4
  else if decide (network = "signet") then Ok NetSignet
  else if decide (network = "regtest") then Ok NetRegtest
  else Err ("unsupported Bitcoin network: " +:+ network).

(** ** The libraries *)

(** [tap_tweak] is [None] and [tap_tweak_hash] has no scalar where the library
    panics.  [ckd_pub] works on a public key with its chain code.  [library_error]
    is the text of the error of the named call. *)
Class BitcoinLib `{Secp} := {
  sha256 : bytes -> bytes;
  hmac_sha512 : bytes -> bytes -> bytes;
  tap_tweak_hash : bytes -> bytes;
  tap_tweak : point -> option (point * bool);
  ckd_pub : point * bytes -> N -> string + (point * bytes);
  p2tr_address : point -> Network -> string;
  hex_encode : bytes -> string;
  hex_decode : string -> option bytes;
  signature_from_bytes : bytes -> option (point * scalar);
  library_error : string -> string;
}.

(** BIP341: the output key is the even lift of [P + t * G], where [t] is the tagged
    hash of the x-only internal key; and signatures are read back. *)
Class BitcoinLaws `{BitcoinLib} : Prop := {
  tap_tweak_eq P Q b :
    tap_tweak P = Some (Q, b) ->
    exists t, scalar_from_bytes (tap_tweak_hash (point_to_xonly_bytes P)) = Some t /\
      point_add P (point_scale t point_G) <> point_zero /\
      point_into_even_y (point_add P (point_scale t point_G)) = (Q, b);
  signature_from_to_bytes sig :
    point_from_xonly_bytes (point_to_xonly_bytes sig.1) = Some sig.1 ->
    signature_from_bytes (signature_to_bytes sig) = Some sig;
}.

Section bitcoin.
Context `{BitcoinLib}.

Definition BitcoinAuthorizationMessage_digest (self : BitcoinAuthorizationMessage) : bytes :=
  sha256 (as_bytes (BitcoinAuthorizationMessage_canonical_text self)).

Definition parse_xonly_public_key_hex (hex_text : string) : AResult bytes :=
  bs ← ok_or (hex_decode hex_text) "x-only public key must be hex";
  reject_if (negb (length bs =? 32)) "x-only public key must be exactly 32 bytes";;
  Ok bs.

(** ** Keys of the [secp256k1] crate *)

(** [SecretKey::from_slice]: a non-zero scalar. *)
Definition secret_key_from_slice (bs : bytes) : option scalar :=
  s ← scalar_from_bytes bs; scalar_non_zero s.

(** [SecretKey::add_tweak] and [PublicKey::add_exp_tweak] refuse a zero result. *)
Definition add_tweak (s t : scalar) : option scalar := scalar_non_zero (scalar_add s t).

Definition add_exp_tweak (P : point) (t : scalar) : option point :=
  point_non_zero (point_add P (point_scale t point_G)).

Definition negate_if (b : bool) (s : scalar) : scalar := if b then scalar_opp s else s.

Definition library_result {A} (o : option A) (prefix call : string) : AResult A :=
  ok_or o (prefix +:+ library_error call).

(** ** Addresses *)

Definition taproot_address (group_key : GroupKey) (network : Network) : AResult string :=
  xonly ← library_result (point_from_xonly_bytes (gk_xonly_public_key group_key))
            "invalid x-only public key: " "XOnlyPublicKey::from_slice";
  Ok (p2tr_address xonly network).

Definition taproot_address_descriptor (group_key : GroupKey) (network : Network)
    (path : BitcoinDerivationPath) : AResult BitcoinAddressDescriptor :=
  address ← taproot_address group_key network;
  let hex := hex_encode (gk_xonly_public_key group_key) in
  Ok (mkBitcoinAddressDescriptor path (network_debug network) address hex hex hex "").

Definition taproot_address_descriptor_for_network (group_key : GroupKey) (network : string)
    (path : BitcoinDerivationPath) : AResult BitcoinAddressDescriptor :=
  network ← parse_network network;
  taproot_address_descriptor group_key network path.

(** [ChildNumber::from_hardened_idx] and [from_normal_idx] accept indices below
    [2 ^ 31]. *)
Definition child_index (index : N) (prefix call : string) : AResult N :=
  library_result (if (index <? 2147483648)%N then Some index else None) prefix call.

Definition child_step (xpub : point * bytes) (index : N) : AResult (point * bytes) :=
  index ← child_index index "invalid child index: " "ChildNumber::from_normal_idx";
  match ckd_pub xpub index with
  | inl err => Err ("failed to derive public child key: " +:+ err)
  | inr xpub => Ok xpub
  end.

(** The account key as an extended public key, and the two non-hardened steps. *)
Definition account_point (account_key : BitcoinAccountKey) : AResult point :=
  library_result (point_from_xonly_bytes (gk_xonly_public_key (bak_group_key account_key)))
    "invalid account x-only public key: " "XOnlyPublicKey::from_slice".

Definition derive_child (account_key : BitcoinAccountKey) (account_public_key : point)
    (path : BitcoinDerivationPath) : AResult (point * bytes) :=
  child_index (bdp_account path) "invalid account index: " "ChildNumber::from_hardened_idx";;
  foldlM child_step (account_public_key, bak_chain_code account_key)
    [bdp_change path; bdp_address_index path].

Definition taproot_child_address_descriptor (account_key : BitcoinAccountKey)
    (network : Network) (path : BitcoinDerivationPath) : AResult BitcoinAddressDescriptor :=
  account_public_key ← account_point account_key;
  '(public_key, chain_code) ← derive_child account_key account_public_key path;
  let internal_xonly := (point_into_even_y public_key).1 in
  '(output_key, _) ← expect (tap_tweak internal_xonly);
  Ok (mkBitcoinAddressDescriptor path (network_debug network) (p2tr_address output_key network)
        (hex_encode (gk_xonly_public_key (bak_group_key account_key)))
        (hex_encode (point_to_xonly_bytes internal_xonly))
        (hex_encode (point_to_xonly_bytes output_key)) (hex_encode chain_code)).

Definition taproot_child_address_descriptor_for_network (account_key : BitcoinAccountKey)
    (network : string) (path : BitcoinDerivationPath) : AResult BitcoinAddressDescriptor :=
  network ← parse_network network;
  taproot_child_address_descriptor account_key network path.

(** ** Key tweaks *)

Record TaprootKeyTweak := mkTaprootKeyTweak {
  tkt_output_xonly : bytes;
  tkt_tweak : bytes;
  tkt_negate_key : bool;
}.

(** One BIP32 step on the chain code, the parent point and the accumulated
    tweak. *)
Definition bip32_step (state : bytes * point * option scalar) (index : N) :
  AResult (bytes * point * option scalar) :=
  let '(chain_code, parent, bip32_tweak) := state in
  let i := hmac_sha512 chain_code (point_to_bytes parent ++ be_bytes 4 index) in
  let il := take 32 i in
  il_scalar ← library_result (scalar_from_bytes il) "invalid BIP32 tweak: " "Scalar::from_be_bytes";
  parent ← library_result (add_exp_tweak parent il_scalar) "BIP32 point derivation failed: "
             "PublicKey::add_exp_tweak";
  bip32_tweak ← match bip32_tweak with
                | None => library_result (secret_key_from_slice il) "invalid BIP32 tweak: "
                            "SecretKey::from_slice"
                | Some acc => library_result (add_tweak acc il_scalar)
                                "BIP32 tweak accumulation failed: " "SecretKey::add_tweak"
                end;
  Ok (drop 32 i, parent, Some bip32_tweak).

(** The common end of the key-path tweaks: the BIP341 tweak on top of an internal
    point that differs from the key by the tweak [inner]. *)
Definition keypath_tweak (internal_point : point) (inner : scalar) : AResult TaprootKeyTweak :=
  let '(internal_xonly, internal_was_odd) := point_into_even_y internal_point in
  tap_tweak_scalar ← expect (scalar_from_bytes (tap_tweak_hash (point_to_xonly_bytes internal_xonly)));
  '(output_key, output_was_odd) ← expect (tap_tweak internal_xonly);
  inner ← library_result (add_tweak (negate_if internal_was_odd inner) tap_tweak_scalar)
            "taproot tweak accumulation failed: " "SecretKey::add_tweak";
  Ok (mkTaprootKeyTweak (point_to_xonly_bytes output_key)
        (scalar_to_bytes (negate_if output_was_odd inner))
        (xorb internal_was_odd output_was_odd)).

Definition taproot_child_key_tweak (account_key : BitcoinAccountKey) (network : string)
    (path : BitcoinDerivationPath) : AResult TaprootKeyTweak :=
  parse_network network;;
  account_public_key ← account_point account_key;
  '(child_public_key, _) ← derive_child account_key account_public_key path;
  '(_, parent, bip32_tweak) ← foldlM bip32_step
      (bak_chain_code account_key, account_public_key, None)
      [bdp_change path; bdp_address_index path];
  bip32_tweak ← ok_or bip32_tweak "empty derivation path";
  reject_if (negb (bool_decide (point_to_bytes parent = point_to_bytes child_public_key)))
    "recomputed BIP32 child does not match the Xpub derivation";;
  keypath_tweak child_public_key bip32_tweak.

(** The silent-payment point [B_spend + k * G] and its scalar. *)
Definition silent_payment_point (group_key : GroupKey) (k : bytes) : AResult (point * scalar) :=
  p_even ← library_result (point_from_xonly_bytes (gk_xonly_public_key group_key))
             "invalid group x-only public key: " "XOnlyPublicKey::from_slice";
  k_secret ← library_result (secret_key_from_slice k) "invalid silent-payment tweak scalar: "
               "SecretKey::from_slice";
  k_scalar ← library_result (scalar_from_bytes k) "invalid silent-payment tweak scalar: "
               "Scalar::from_be_bytes";
  P ← library_result (add_exp_tweak p_even k_scalar) "silent-payment point derivation failed: "
        "PublicKey::add_exp_tweak";
  Ok (P, k_secret).

Definition silent_payment_output_tweak (group_key : GroupKey) (k : bytes) :
  AResult TaprootKeyTweak :=
  '(internal_point, k_secret) ← silent_payment_point group_key k;
  keypath_tweak internal_point k_secret.

Definition silent_payment_leaf_tweak (group_key : GroupKey) (k : bytes) :
  AResult TaprootKeyTweak :=
  '(p_point, k_secret) ← silent_payment_point group_key k;
  let '(p_xonly, p_was_odd) := point_into_even_y p_point in
  Ok (mkTaprootKeyTweak (point_to_xonly_bytes p_xonly)
        (scalar_to_bytes (negate_if p_was_odd k_secret)) p_was_odd).

(** ** Signature checks *)

Definition taproot_address_from_xonly_hex (xonly_hex : string) (network : Network) :
  AResult string :=
  xonly ← parse_xonly_public_key_hex xonly_hex;
  taproot_address (mkGroupKey xonly []) network.

Definition verify_schnorr_digest (xonly_public_key digest signature : bytes) : AResult bool :=
  public_key ← library_result (point_from_xonly_bytes xonly_public_key)
                 "invalid x-only public key: " "XOnlyPublicKey::from_slice";
  signature ← library_result (signature_from_bytes signature) "invalid Schnorr signature: "
                "Signature::from_slice";
  Ok (schnorr_verify public_key digest signature).

Definition verify_aggregate_signature_digest (group_key : GroupKey) (digest : bytes)
    (signature : AggregateSignature) : AResult bool :=
  reject_if (negb (length (as_signature_bytes signature) =? 64))
    "aggregate signature must be exactly 64 bytes";;
  verify_schnorr_digest (gk_xonly_public_key group_key) digest (as_signature_bytes signature).

Definition decode_exactly (what : string) (n : nat) (text : string) : AResult bytes :=
  bs ← ok_or (hex_decode text) (what +:+ " must be hex");
  reject_if (negb (length bs =? n)) (what +:+ " must be exactly " +:+ dec_nat n +:+ " bytes");;
  Ok bs.

Definition verify_schnorr_digest_hex (xonly_public_key_hex digest_hex signature_hex : string) :
  AResult bool :=
  public_key ← parse_xonly_public_key_hex xonly_public_key_hex;
  digest ← decode_exactly "digest" 32 digest_hex;
  signature ← decode_exactly "signature" 64 signature_hex;
  verify_schnorr_digest public_key digest signature.
End bitcoin.

(** ** The tweaks *)

Section tweaks.
Context `{BitcoinLaws} `{!SecpLaws}.
Local Open Scope secp_scope.
Add Field scalar_field_bitcoin : scalar_ft.

(** The output key of the tweak is [A * P + B * G], with [A = -1] or [A = 1] as
    [negate_key] says and [B] the tweak scalar. *)
Definition tweaks_key (P : point) (t : TaprootKeyTweak) : Prop :=
  exists B Q, scalar_from_bytes (tkt_tweak t) = Some B /\
    point_from_xonly_bytes (tkt_output_xonly t) = Some Q /\
    Q = (if tkt_negate_key t then (- scalar_one) · P else P) ⊕ B · point_G.

Lemma even_lift P Q b :
  P <> point_zero -> point_into_even_y P = (Q, b) ->
  Q = sign_of b · P /\ point_from_xonly_bytes (point_to_xonly_bytes Q) = Some Q /\
  Q <> point_zero.
Proof.
  intros HP E. destruct (point_generated P) as [a ->].
  apply scale_G_nonzero in HP as Ha. destruct (even_y_of_scale a Q b Ha E) as (HQ & He & Hz).
  split_and!; [|by apply point_xonly_even|done].
  by rewrite HQ, cond_negate_sign, scale_mul_l.
Qed.

Lemma negate_if_sign b s : negate_if b s = sign_of b * s.
Proof. destruct b; cbn; unfold negate_if, sign_of; ring. Qed.

Lemma sign_of_xor b b' : sign_of (xorb b b') = sign_of b * sign_of b'.
Proof. destruct b, b'; cbn; unfold sign_of; ring. Qed.

Lemma sign_scale (b : bool) P : (if b then (- scalar_one) · P else P) = sign_of b · P.
Proof. destruct b; cbn; [done|by rewrite scale_one_l]. Qed.

Lemma library_result_Ok {A} (o : option A) p c a : library_result o p c = Ok a <-> o = Some a.
Proof. apply ok_or_Ok. Qed.

Lemma expect_Ok {E A : Type} (o : option A) (a : A) : (expect o : Outcome E A) = Ok a <-> o = Some a.
Proof. destruct o; cbn; naive_solver. Qed.

Lemma add_tweak_Some s t r : add_tweak s t = Some r -> r = s + t.
Proof. unfold add_tweak, scalar_non_zero. destruct (scalar_is_zero _); [done|by intros [= <-]]. Qed.

Lemma add_exp_tweak_Some P t Q :
  add_exp_tweak P t = Some Q -> Q = P ⊕ t · point_G /\ Q <> point_zero.
Proof.
  unfold add_exp_tweak, point_non_zero. destruct (point_is_zero _) eqn:E; [done|].
  intros [= <-]. split; [done|]. by apply point_is_zero_false.
Qed.

Lemma keypath_tweak_Ok P inner internal t :
  internal = P ⊕ inner · point_G -> internal <> point_zero ->
  keypath_tweak internal inner = Ok t ->
  tweaks_key P t /\
  exists Q b, tap_tweak (point_into_even_y internal).1 = Some (Q, b) /\
              tkt_output_xonly t = point_to_xonly_bytes Q.
Proof.
  intros HI Hnz Ht. unfold keypath_tweak in Ht.
  destruct (point_into_even_y internal) as [X bi] eqn:EX.
  destruct (even_lift _ _ _ Hnz EX) as (HX & _ & HXz).
  apply bind_Ok in Ht as (tap & Htap%expect_Ok & Ht). apply bind_Ok in Ht as ([Q bo] & HQ%expect_Ok & Ht).
  apply bind_Ok in Ht as (s & Hs%library_result_Ok & [= <-]). apply add_tweak_Some in Hs as ->.
  destruct (tap_tweak_eq X Q bo HQ) as (t' & Ht' & Hsum & HQe).
  rewrite Htap in Ht'. injection Ht' as <-.
  destruct (even_lift _ _ _ Hsum HQe) as (HQ' & HQx & _).
  split; [|by exists Q, bo]. exists (negate_if bo (negate_if bi inner + tap)), Q. cbn.
  split_and!; [apply scalar_from_to_bytes|done|].
  rewrite sign_scale, sign_of_xor, !negate_if_sign, HQ', HX, HI.
  rewrite !point_scale_add_r, <- !scale_mul_l.
  replace (sign_of bo * (sign_of bi * inner + tap))
    with (sign_of bo * (sign_of bi * inner) + sign_of bo * tap) by ring.
  rewrite scale_add_l, <- point_add_assoc. f_equal; [f_equal; ring|].
  by rewrite !scale_mul_l.
Qed.

(** The recomputed BIP32 point differs from the account point by the accumulated
    tweak. *)
Lemma bip32_loop P indices : forall st st',
  (st.1.2 = P ⊕ default scalar_zero st.2 · point_G /\ st.1.2 <> point_zero) ->
  foldlM bip32_step st indices = Ok st' ->
  st'.1.2 = P ⊕ default scalar_zero st'.2 · point_G /\ st'.1.2 <> point_zero.
Proof.
  induction indices as [|i indices IH]; intros [[cc parent] acc] st' Hst Hl; cbn [foldlM] in Hl.
  - by injection Hl as <-.
  - apply bind_Ok in Hl as ([[cc1 parent1] acc1] & Hs & Hl). eapply IH; [|exact Hl].
    cbn [fst snd] in Hst |- *. destruct Hst as [Hp Hz]. unfold bip32_step in Hs. cbv zeta in Hs.
    apply bind_Ok in Hs as (il & Hil%library_result_Ok & Hs).
    apply bind_Ok in Hs as (Q & HQ%library_result_Ok & Hs).
    apply bind_Ok in Hs as (acc' & Hacc & [= <- <- <-]).
    apply add_exp_tweak_Some in HQ as [-> HQz]. split; [|done]. cbn [default from_option id].
    rewrite Hp, <- point_add_assoc, <- scale_add_l. do 2 f_equal.
    destruct acc as [a|]; apply library_result_Ok in Hacc; cbn [default from_option id].
    + by apply add_tweak_Some in Hacc as ->.
    + unfold secret_key_from_slice in Hacc. rewrite Hil in Hacc. cbn in Hacc.
      unfold scalar_non_zero in Hacc. destruct (scalar_is_zero il); [done|].
      injection Hacc as <-. change (scalar_zero + il = il). ring.
Qed.

Lemma child_index_Ok i p c j : child_index i p c = Ok j -> j = i.
Proof. unfold child_index. intros Hi%library_result_Ok. case_match; naive_solver. Qed.

(** The child of a path is two steps of the library from the account point. *)
Lemma derive_child_Ok account_key P path child cc :
  derive_child account_key P path = Ok (child, cc) ->
  exists mid, ckd_pub (P, bak_chain_code account_key) (bdp_change path) = inr mid /\
              ckd_pub mid (bdp_address_index path) = inr (child, cc).
Proof.
  assert (Hstep : forall X i Y, child_step X i = Ok Y -> ckd_pub X i = inr Y).
  { unfold child_step. intros X i Y (j & ->%child_index_Ok & Hs)%bind_Ok.
    destruct (ckd_pub X i); [done|by injection Hs as ->]. }
  unfold derive_child. intros (? & _ & Hd)%bind_Ok. cbn [foldlM] in Hd.
  apply bind_Ok in Hd as (mid & Hmid & (Y & Hy & [= ->])%bind_Ok). exists mid. eauto.
Qed.

(** What a computed child tweak says: the account key [P] decodes, the output
    key [Q] is the Taproot key of the child of the path, the descriptor of the
    path carries the address of [Q], and the tweak relates [Q] to [P]. *)
Lemma child_key_tweak_relates account_key network path t :
  taproot_child_key_tweak account_key network path = Ok t ->
  exists P net mid child chain_code Q b,
    point_from_xonly_bytes (gk_xonly_public_key (bak_group_key account_key)) = Some P /\
    tweaks_key P t /\ parse_network network = Ok net /\
    ckd_pub (P, bak_chain_code account_key) (bdp_change path) = inr mid /\
    ckd_pub mid (bdp_address_index path) = inr (child, chain_code) /\
    tap_tweak (point_into_even_y child).1 = Some (Q, b) /\
    tkt_output_xonly t = point_to_xonly_bytes Q /\
    point_from_xonly_bytes (point_to_xonly_bytes Q) = Some Q /\
    taproot_child_address_descriptor_for_network account_key network path =
      Ok (mkBitcoinAddressDescriptor path (network_debug net) (p2tr_address Q net)
            (hex_encode (gk_xonly_public_key (bak_group_key account_key)))
            (hex_encode (point_to_xonly_bytes (point_into_even_y child).1))
            (hex_encode (point_to_xonly_bytes Q)) (hex_encode chain_code)).
Proof.
  intros Ht. unfold taproot_child_key_tweak in Ht. apply bind_Ok in Ht as (net & Hnet & Ht).
  apply bind_Ok in Ht as (P & HP & Ht). unfold account_point in HP. apply library_result_Ok in HP.
  apply bind_Ok in Ht as ([child cc] & Hchild & Ht).
  apply bind_Ok in Ht as ([[cc' parent] acc] & Hloop & Ht).
  apply bind_Ok in Ht as (acc' & Hacc%ok_or_Ok & Ht). apply bind_Ok in Ht as (u & Heq%reject_if_Ok & Ht).
  apply negb_false_iff, bool_decide_eq_true, point_to_bytes_inj in Heq. subst child acc.
  pose proof (point_from_xonly_Some _ _ HP) as (HPz & _).
  assert (Hinit : P = P ⊕ scalar_zero · point_G) by (by rewrite scale_zero_l, point_add_0_r).
  destruct (bip32_loop P _ (bak_chain_code account_key, P, None) _ (conj Hinit HPz) Hloop)
    as [Hpar Hparz]. cbn [fst snd default from_option id] in Hpar, Hparz.
  destruct (keypath_tweak_Ok P acc' parent t Hpar Hparz Ht) as (Hrel & Q & b & HQ & Hout).
  destruct (derive_child_Ok _ _ _ _ _ Hchild) as (mid & Hmid & Hck).
  exists P, net, mid, parent, cc, Q, b. split_and!; [done..| |].
  - destruct (tap_tweak_eq _ _ _ HQ) as (t' & _ & Hz & HQe). by apply (even_lift _ _ _ Hz HQe).
  - unfold taproot_child_address_descriptor_for_network, taproot_child_address_descriptor,
      account_point, library_result.
    rewrite Hnet, ok_bind, HP. cbn [ok_or]. rewrite ok_bind, Hchild, ok_bind, HQ. reflexivity.
Qed.

Lemma silent_payment_point_Ok group_key k Q s :
  silent_payment_point group_key k = Ok (Q, s) ->
  exists P, point_from_xonly_bytes (gk_xonly_public_key group_key) = Some P /\
            Q = P ⊕ s · point_G /\ Q <> point_zero /\ scalar_from_bytes k = Some s.
Proof.
  unfold silent_payment_point. intros Hp. apply bind_Ok in Hp as (P & HP%library_result_Ok & Hp).
  apply bind_Ok in Hp as (ks & Hks%library_result_Ok & Hp).
  apply bind_Ok in Hp as (k' & Hk%library_result_Ok & Hp).
  apply bind_Ok in Hp as (R & HR%library_result_Ok & [= <- <-]). exists P.
  apply add_exp_tweak_Some in HR as [-> HRz]. unfold secret_key_from_slice in Hks.
  rewrite Hk in Hks. cbn in Hks. unfold scalar_non_zero in Hks.
  destruct (scalar_is_zero k'); [done|]. injection Hks as <-. done.
Qed.

(** The silent-payment tweaks are tweaks of the group key.  Both variants
    return [(output, B, negate)] with [Q = A * P + B * G] for the group key [P];
    for the leaf variant the output key is the even lift of [P + k * G] itself,
    without a Taproot tweak. *)
Theorem silent_payment_tweaks_correct group_key k t :
  (silent_payment_output_tweak group_key k = Ok t ->
   exists P, point_from_xonly_bytes (gk_xonly_public_key group_key) = Some P /\ tweaks_key P t) /\
  (silent_payment_leaf_tweak group_key k = Ok t ->
   exists P s, point_from_xonly_bytes (gk_xonly_public_key group_key) = Some P /\
     tweaks_key P t /\ scalar_from_bytes k = Some s /\
     tkt_output_xonly t = point_to_xonly_bytes (point_into_even_y (P ⊕ s · point_G)).1).
Proof.
  split; intros Ht; apply bind_Ok in Ht as ([Q s] & Hp & Ht);
    apply silent_payment_point_Ok in Hp as (P & HP & HQ & HQz & Hk).
  - exists P. split; [done|]. by apply (keypath_tweak_Ok P s Q t).
  - exists P, s. split; [done|]. destruct (point_into_even_y Q) as [X b] eqn:EX.
    injection Ht as <-. cbn. split_and!; [|done|by rewrite <- HQ, EX].
    destruct (even_lift _ _ _ HQz EX) as (HX & HXx & _).
    exists (negate_if b s), X. cbn. split_and!; [apply scalar_from_to_bytes|done|].
    by rewrite sign_scale, negate_if_sign, HX, HQ, point_scale_add_r, <- !scale_mul_l.
Qed.

(** C18: the quorum can spend the child address of a path.  Take a valid
    sharing of the group key, a signer set that can reconstruct, and a tweak that
    [taproot_child_key_tweak] computes for a network and a path.  Two public
    derivation steps from the group key, by the change and the address index of
    that path, give the child, and [Q] is its Taproot output key.  Then
    [taproot_child_address_descriptor_for_network] returns for this path the
    address of [Q] on this network, the tweak names [Q] as its output key, and
    signing a digest with the tweak returns a signature that verifies under [Q]
    (or reports that the drawn nonces cancelled). *)
Theorem child_address_spendable t0 ps c ks signers chain_code network path t digest g :
  let account_key := BitcoinAccountKey_new (hkset_group_key ks) chain_code in
  HierarchicalThresholdConfig_new t0 ps = Ok c ->
  valid_key_set c ks -> can_reconstruct c signers ->
  taproot_child_key_tweak account_key network path = Ok t ->
  exists P net mid child child_chain_code Q odd d g',
    point_from_xonly_bytes (gk_xonly_public_key (hkset_group_key ks)) = Some P /\
    parse_network network = Ok net /\
    ckd_pub (P, chain_code) (bdp_change path) = inr mid /\
    ckd_pub mid (bdp_address_index path) = inr (child, child_chain_code) /\
    tap_tweak (point_into_even_y child).1 = Some (Q, odd) /\
    taproot_child_address_descriptor_for_network account_key network path = Ok d /\
    bad_path d = path /\ bad_address d = p2tr_address Q net /\
    bad_xonly_public_key_hex d = hex_encode (point_to_xonly_bytes Q) /\
    tkt_output_xonly t = point_to_xonly_bytes Q /\
    let run := sign_digest_with_local_htss_threshold_shares_for_output (hkset_group_key ks) digest
                 (tkt_output_xonly t) (tkt_tweak t) (tkt_negate_key t) (hkset_shares ks) signers c g in
    ((exists sig, run = (g', Ok (mkAggregateSignature (signature_to_bytes sig))) /\
                  schnorr_verify Q (frost_message digest) sig = true) \/
     run = (g', Err (Protocol "HTSS aggregate nonce cannot be zero"))).
Proof.
  intros account_key Hc Hks Hcan Ht. destruct (child_key_tweak_relates _ _ _ _ Ht)
    as (P & net & mid & child & cc & Q & odd & HP & (B & Q' & HB & HQ' & E) & Hnet & Hmid & Hchild &
        HQ & Hout & HQx & Hd).
  assert (Q' = Q) as -> by (rewrite Hout, HQx in HQ'; by injection HQ'). rewrite E in HQ'.
  destruct (local_output_sign t0 ps c ks signers digest (tkt_output_xonly t)
    (tkt_tweak t) (tkt_negate_key t) B g Hc Hks Hcan HB P HP HQ') as (g' & Hsign).
  rewrite <- E in Hsign. exists P, net, mid, child, cc, Q, odd. eexists _, g'.
  split_and!; [done..|exact Hd|done|done|done|done|exact Hsign].
Qed.

(** ** Aggregates and the Bitcoin verifier *)

Lemma aggregate_nonce_even nonces signer_set a :
  aggregate_htss_public_nonce nonces signer_set = Ok a ->
  point_from_xonly_bytes (point_to_xonly_bytes (ahn_even_public_nonce a)) =
    Some (ahn_even_public_nonce a).
Proof.
  unfold aggregate_htss_public_nonce. intros Ha. do 3 (apply bind_Ok in Ha as (? & _ & Ha)).
  apply bind_Ok in Ha as (P & HP%ok_or_Ok & Ha). unfold point_non_zero in HP.
  destruct (point_is_zero _) eqn:Ez; [done|]. injection HP as ->. apply point_is_zero_false in Ez.
  destruct (point_into_even_y P) as [R b] eqn:ER. injection Ha as <-. cbn.
  by apply (even_lift P R b).
Qed.

Lemma verify_signature_bytes xonly P digest R s :
  point_from_xonly_bytes xonly = Some P ->
  point_from_xonly_bytes (point_to_xonly_bytes R) = Some R ->
  verify_schnorr_digest xonly digest (signature_to_bytes (R, s)) =
    Ok (schnorr_verify P digest (R, s)).
Proof.
  intros HP HR. unfold verify_schnorr_digest, library_result. rewrite HP. cbn [ok_or].
  rewrite ok_bind, signature_from_to_bytes by done. done.
Qed.

Lemma aggregate_new_bytes sig (r : AggregateSignature) :
  AggregateSignature_new (signature_to_bytes sig) = Ok r ->
  as_signature_bytes r = signature_to_bytes sig.
Proof. unfold AggregateSignature_new. intros (? & _ & [= <-])%bind_Ok. done. Qed.

Lemma aggregate_verifies group_key digest nonces shares signers c out :
  aggregate_htss_signature_shares group_key digest nonces shares signers c = Ok out ->
  verify_aggregate_signature_digest group_key digest out = Ok true.
Proof.
  unfold aggregate_htss_signature_shares. intros Ha. do 3 (apply bind_Ok in Ha as (? & _ & Ha)).
  apply bind_Ok in Ha as (a & HR%aggregate_nonce_even & Ha).
  apply bind_Ok in Ha as (s & _ & Ha). apply bind_Ok in Ha as (P & HP%ok_or_Ok & Ha).
  apply bind_Ok in Ha as (u & Hv%reject_if_Ok%negb_false_iff & Ha%aggregate_new_bytes).
  unfold verify_aggregate_signature_digest. rewrite Ha, signature_to_bytes_length.
  cbn [Nat.eqb negb reject_if]. rewrite ok_bind, (verify_signature_bytes _ P) by done.
  by rewrite <- Hv.
Qed.

(** C22: what the aggregators return, the Bitcoin verifier accepts.  Whatever
    nonce and share packages were aggregated, a signature returned by
    [aggregate_htss_signature_shares] passes [verify_aggregate_signature_digest]
    under the group key, and one returned for a Taproot output passes
    [verify_schnorr_digest] under the output key. *)
Theorem aggregates_pass_bitcoin_verifier group_key digest output_xonly tweak nonces shares signers
    c out :
  (aggregate_htss_signature_shares group_key digest nonces shares signers c = Ok out ->
   verify_aggregate_signature_digest group_key digest out = Ok true) /\
  (aggregate_htss_signature_shares_for_output digest output_xonly tweak nonces shares signers c
     = Ok out ->
   verify_schnorr_digest output_xonly digest (as_signature_bytes out) = Ok true).
Proof.
  split; [apply aggregate_verifies|].
  unfold aggregate_htss_signature_shares_for_output. intros Ha.
  do 3 (apply bind_Ok in Ha as (? & _ & Ha)).
  apply bind_Ok in Ha as (a & HR%aggregate_nonce_even & Ha).
  apply bind_Ok in Ha as (s & _ & Ha). apply bind_Ok in Ha as (P & HP%ok_or_Ok & Ha).
  apply bind_Ok in Ha as (B & _ & Ha).
  apply bind_Ok in Ha as (u & Hv%reject_if_Ok%negb_false_iff & Ha%aggregate_new_bytes).
  rewrite Ha, (verify_signature_bytes _ P) by done. by rewrite <- Hv.
Qed.
End tweaks.

(** ** The canonical text *)

Section canonical_text.
Context `{BitcoinLib}.

(** The fields before the nonce are single lines, and no optional text is the
    empty text. *)
Definition line_safe (m : BitcoinAuthorizationMessage) : Prop :=
  one_line (bam_network m) = true /\ one_line (bam_action m) = true /\
  (forall r, bam_recipient m = Some r -> one_line r = true /\ r <> "") /\
  (forall x, bam_memo m = Some x -> one_line x = true /\ x <> "").

Definition text_field_ok (o : option string) : Prop :=
  forall x, o = Some x -> one_line x = true /\ x <> "".

Lemma text_field_line o : text_field_ok o -> one_line (default "" o) = true.
Proof. destruct o as [x|]; [|done]. intros Hx. by apply Hx. Qed.

Lemma text_field_inj o1 o2 :
  text_field_ok o1 -> text_field_ok o2 -> default "" o1 = default "" o2 -> o1 = o2.
Proof.
  destruct o1 as [x|], o2 as [y|]; intros H1 H2 E; cbn in E; [by subst| | |done].
  - by destruct (H1 x eq_refl) as [_ []].
  - by destruct (H2 y eq_refl) as [_ []].
Qed.

Lemma amount_field_ok o : text_field_ok (dec <$> o).
Proof.
  intros x. destruct o as [n|]; [|done]. intros [= <-].
  split; [apply dec_one_line|apply dec_nonempty].
Qed.

Lemma append_inj s t1 t2 : s +:+ t1 = s +:+ t2 -> t1 = t2.
Proof. induction s as [|c s IH]; [done|]. cbn. intros [= E]. by apply IH. Qed.

Lemma append_assoc s t u : (s +:+ t) +:+ u = s +:+ (t +:+ u).
Proof. induction s as [|c s IH]; [done|]. exact (f_equal (String c) IH). Qed.

Lemma append_not_prefix s c t : s +:+ String c t <> s.
Proof. induction s as [|d s IH]; [done|]. cbn. intros [= E]. by apply IH. Qed.

(** C39: the canonical text identifies the message, as long as its fields are
    lines.  Two messages whose network, action, recipient and memo are single
    lines, with no empty recipient or memo, have the same text only when they
    are equal.  Without this condition the text is ambiguous: a line break in the
    action and one in the recipient give the same text, hence the same digest to
    sign, for two messages with different actions and different recipients. *)
Theorem canonical_text_identifies :
  (forall m1 m2,
     line_safe m1 -> line_safe m2 ->
     BitcoinAuthorizationMessage_canonical_text m1 =
     BitcoinAuthorizationMessage_canonical_text m2 -> m1 = m2) /\
  (forall network action r1 r2 amount memo nonce,
     let m1 := mkBitcoinAuthorizationMessage network (action +:+ newline +:+ "recipient=" +:+ r1)
                 (Some r2) amount memo nonce in
     let m2 := mkBitcoinAuthorizationMessage network action
                 (Some (r1 +:+ newline +:+ "recipient=" +:+ r2)) amount memo nonce in
     BitcoinAuthorizationMessage_digest m1 = BitcoinAuthorizationMessage_digest m2 /\ m1 <> m2).
Proof.
  split.
  - intros [n1 a1 r1 s1 e1 c1] [n2 a2 r2 s2 e2 c2] (Hn1 & Ha1 & Hr1 & He1) (Hn2 & Ha2 & Hr2 & He2).
    cbn in *. unfold BitcoinAuthorizationMessage_canonical_text. cbn [bam_network bam_action
      bam_recipient bam_amount_sats bam_memo bam_nonce]. intros E.
    do 3 apply append_inj in E. apply line_inj in E as [-> E]; [|done|done].
    apply append_inj in E. apply line_inj in E as [-> E]; [|done|done].
    apply append_inj in E. apply line_inj in E as [Er E]; [|by apply text_field_line..].
    apply append_inj in E.
    apply line_inj in E as [Es E]; [|apply text_field_line, amount_field_ok..].
    apply append_inj in E. apply line_inj in E as [Ee E]; [|by apply text_field_line..].
    apply append_inj in E. subst c2.
    apply text_field_inj in Er as ->; [|done|done]. apply text_field_inj in Ee as ->; [|done|done].
    apply text_field_inj in Es; [|apply amount_field_ok..].
    apply (inj (fmap dec)) in Es as ->. done.
  - intros network action r1 r2 amount memo nonce m1 m2. split.
    + unfold BitcoinAuthorizationMessage_digest. do 2 f_equal.
      unfold BitcoinAuthorizationMessage_canonical_text, m1, m2. cbn [bam_network bam_action
        bam_recipient bam_amount_sats bam_memo bam_nonce default from_option id].
      by rewrite !append_assoc.
    + intros [= E _]. by apply append_not_prefix in E.
Qed.
End canonical_text.

(** ** The theorems at concrete inputs *)

Section witnesses.
Local Existing Instances small_group small_group_laws.

(** A keyed hash that returns the index it is given, shifted, and a constant
    Taproot hash; the curve operations are those of the small group. *)
#[local] Instance toy_bitcoin : BitcoinLib := {|
  sha256 bs := bs;
  hmac_sha512 _ bs := f_to_bytes (f_of (7 + Z.of_N (be_value (drop 33 bs)))) ++ f_to_bytes (f_of 9);
  tap_tweak_hash _ := f_to_bytes (f_of 5);
  tap_tweak P := let S := point_add P (point_scale (f_of 5 : scalar) point_G) in
                 if point_is_zero S then None else Some (point_into_even_y S);
  ckd_pub xpub i := inr (point_add xpub.1 (point_scale (f_of (7 + Z.of_N i) : scalar) point_G),
                         f_to_bytes (f_of 9));
  p2tr_address P _ := String.string_of_list_byte (point_to_xonly_bytes P);
  hex_encode := String.string_of_list_byte;
  hex_decode s := Some (String.list_byte_of_string s);
  signature_from_bytes bs :=
    match point_from_xonly_bytes (take 32 bs), scalar_from_bytes (drop 32 bs) with
    | Some R, Some s => Some (R, s)
    | _, _ => None
    end;
  library_error call := call;
|}.

Lemma toy_bitcoin_laws : BitcoinLaws.
Proof.
  split.
  - intros P Q b Ht. exists (f_of 5). split; [apply f_from_bytes_to_bytes|].
    unfold tap_tweak, toy_bitcoin in Ht. destruct (point_is_zero _) eqn:E; [done|].
    apply (inj Some) in Ht. split; [apply point_is_zero_false; exact E|exact Ht].
  - intros [R s] HR. unfold signature_from_bytes, toy_bitcoin.
    change (signature_to_bytes (R, s)) with (point_to_xonly_bytes R ++ scalar_to_bytes s).
    rewrite take_app_length', drop_app_length' by (symmetry; apply length_be_bytes).
    cbn [fst] in HR. by rewrite HR, scalar_from_to_bytes.
Qed.

Definition demo_path : BitcoinDerivationPath := BitcoinDerivationPath_bip86 0 0 3.
Definition demo_account : BitcoinAccountKey :=
  BitcoinAccountKey_new (hkset_group_key demo_keys) (replicate 32 Byte.x01).

Definition demo_child_tweak : TaprootKeyTweak :=
  match taproot_child_key_tweak demo_account "regtest" demo_path with
  | Ok t => t
  | _ => mkTaprootKeyTweak [] [] false
  end.

Lemma demo_child_tweak_Ok :
  taproot_child_key_tweak demo_account "regtest" demo_path = Ok demo_child_tweak.
Proof. vm_compute. reflexivity. Qed.

Lemma silent_payment_tweaks_correct_witness :
  exists t P,
    silent_payment_leaf_tweak (hkset_group_key demo_keys) (f_to_bytes (f_of 4)) = Ok t /\
    tweaks_key P t.
Proof.
  destruct (silent_payment_leaf_tweak (hkset_group_key demo_keys) (f_to_bytes (f_of 4)))
    as [t| |] eqn:E;
    [|exfalso; apply (f_equal is_ok) in E; vm_compute in E; discriminate E..].
  destruct (proj2 (@silent_payment_tweaks_correct _ _ toy_bitcoin_laws _ (hkset_group_key demo_keys)
                     (f_to_bytes (f_of 4)) t) E) as (P & s & _ & Ht & _).
  exists t, P. split; [reflexivity|exact Ht].
Defined.

(** The tweaks of two paths lead to two addresses. *)
Lemma child_address_spendable_witness :
  (exists P mid child cc Q odd d g' sig,
    ckd_pub (P, replicate 32 Byte.x01) 0 = inr mid /\ ckd_pub mid 3 = inr (child, cc) /\
    tap_tweak (point_into_even_y child).1 = Some (Q, odd) /\
    taproot_child_address_descriptor_for_network demo_account "regtest" demo_path = Ok d /\
    bad_address d = p2tr_address Q NetRegtest /\
    tkt_output_xonly demo_child_tweak = point_to_xonly_bytes Q /\
    sign_digest_with_local_htss_threshold_shares_for_output (hkset_group_key demo_keys) demo_digest
      (tkt_output_xonly demo_child_tweak) (tkt_tweak demo_child_tweak)
      (tkt_negate_key demo_child_tweak) (hkset_shares demo_keys) demo_signers demo_config demo_rng
      = (g', Ok (mkAggregateSignature (signature_to_bytes sig))) /\
    schnorr_verify Q (frost_message demo_digest) sig = true) /\
  bad_address <$> taproot_child_address_descriptor_for_network demo_account "regtest" demo_path <>
  bad_address <$> taproot_child_address_descriptor_for_network demo_account "regtest"
                    (BitcoinDerivationPath_bip86 0 0 0).
Proof.
  split; [|vm_compute; discriminate].
  destruct (@child_address_spendable _ _ toy_bitcoin_laws _ 2 demo_participants demo_config demo_keys
    demo_signers (replicate 32 Byte.x01) "regtest" demo_path demo_child_tweak demo_digest demo_rng
    demo_config_new demo_keys_valid demo_can_reconstruct demo_child_tweak_Ok)
    as (P & net & mid & child & cc & Q & odd & d & g' & HP & Hnet & Hmid & Hchild & HQ & Hd & _ & Ha &
        _ & Hout & [(sig & Hrun & Hv)|Hrun]).
  - exists P, mid, child, cc, Q, odd, d, g', sig. vm_compute in Hnet. injection Hnet as <-.
    split_and!; [exact Hmid|exact Hchild|exact HQ|exact Hd|exact Ha|exact Hout|exact Hrun|exact Hv].
  - exfalso. apply (f_equal (fun r => is_ok r.2)) in Hrun. vm_compute in Hrun. discriminate Hrun.
Defined.

Lemma canonical_text_identifies_witness :
  let m := mkBitcoinAuthorizationMessage "regtest" "spend" (Some "addr") (Some 5%N) None "n1" in
  let m1 := mkBitcoinAuthorizationMessage "regtest" ("spend" +:+ newline +:+ "recipient=" +:+ "alice")
              (Some "mallory") (Some 5%N) None "n1" in
  let m2 := mkBitcoinAuthorizationMessage "regtest" "spend"
              (Some ("alice" +:+ newline +:+ "recipient=" +:+ "mallory")) (Some 5%N) None "n1" in
  (line_safe m /\ m = m) /\
  BitcoinAuthorizationMessage_digest m1 = BitcoinAuthorizationMessage_digest m2 /\ m1 <> m2.
Proof.
  intros m m1 m2.
  assert (Hm : line_safe m).
  { split; [reflexivity|]. split; [reflexivity|]. split; [|discriminate].
    intros r [= <-]. split; [reflexivity|discriminate]. }
  split; [split; [exact Hm|]; exact (proj1 canonical_text_identifies m m Hm Hm eq_refl)|].
  exact (proj2 canonical_text_identifies "regtest" "spend" "alice" "mallory" (Some 5%N) None "n1").
Defined.

Lemma aggregates_pass_bitcoin_verifier_witness :
  exists out,
    aggregate_htss_signature_shares (hkset_group_key demo_keys) demo_digest demo_nonces demo_shares
      demo_signers demo_config = Ok out /\
    verify_aggregate_signature_digest (hkset_group_key demo_keys) demo_digest out = Ok true.
Proof.
  destruct (aggregate_htss_signature_shares (hkset_group_key demo_keys) demo_digest demo_nonces
    demo_shares demo_signers demo_config) as [out| |] eqn:E;
    [|exfalso; apply (f_equal is_ok) in E; vm_compute in E; discriminate E..].
  exists out. split; [reflexivity|].
  exact (proj1 (@aggregates_pass_bitcoin_verifier _ _ toy_bitcoin_laws _ (hkset_group_key demo_keys)
    demo_digest [] [] demo_nonces demo_shares demo_signers demo_config out) E).
Defined.
End witnesses.
