(* ===== verification/NostrTests.v ===== *)
(** The unit tests of [crates/dkgkit-nostr/src/lib.rs].

    The tests of the envelope and of the event transport pass for every lawful
    serializer.  The two that run a whole ceremony through the transport, a
    distributed key generation followed by signing and a grouped signing, are run
    on the small group. *)

From Stdlib Require Import Ascii String Strings.Byte.
From stdpp Require Import base numbers countable gmap strings list.
From S2P Require Import Prelude Core TestKit Codec Transport Secp SmallGroup Packages SignerPolicy Birkhoff HtssKeygen HtssDkg HtssSigning FrostTests Nostr Bitcoin.

(** ** Envelopes and queueing *)

Section envelopes.
Context `{SerdeJson ProtocolMessage} `{Utf8Error}.

Definition message : Result ProtocolMessage :=
  session_id ← unwrap (SessionId_new "room-1");
  sender ← unwrap (ParticipantId_new 1);
  recipient ← unwrap (ParticipantId_new 2);
  Ok (ProtocolMessage_direct session_id sender recipient FrostDkgRound2 [x01; x02; x03]).

Definition nostr_envelope_event_round_trips_protocol_message : Result unit :=
  message ← message;
  event ← unwrap (NostrEnvelopeEvent_from_protocol_message message);
  assert_eq (ne_kind event) DKGKIT_NOSTR_EVENT_KIND;;
  assert_eq (length (NostrEnvelopeEvent_tags event)) 5;;
  decoded ← unwrap (NostrEnvelopeEvent_to_protocol_message event);
  assert_eq decoded message.

(** [event.sender = sender] *)
Definition set_sender (sender : N) (event : NostrEnvelopeEvent) : NostrEnvelopeEvent :=
  mkNostrEnvelopeEvent (ne_kind event) (ne_app event) (ne_session_id event) sender
    (ne_recipient event) (ne_message_kind event) (ne_content event).

Definition nostr_envelope_rejects_mismatched_metadata : Result unit :=
  message ← message;
  event ← unwrap (NostrEnvelopeEvent_from_protocol_message message);
  let event := set_sender 3 event in
  assert (is_err (NostrEnvelopeEvent_to_protocol_message event)).

Definition only (kind : ProtocolMessageKind) (message : ProtocolMessage) : bool :=
  bool_decide (pm_kind message = kind).

Definition local_nostr_event_transport_publishes_tags_and_drains_protocol_messages :
  ST LocalNostrEventTransport DkgKitError unit :=
  message ← st_lift message;
  let session_id := pm_session_id message in
  st_unwrap (E := DkgKitError) connect;;
  st_unwrap (E := DkgKitError) (publish message);;
  pending ← st_gets LocalNostrEventTransport_pending_len;
  st_lift (assert_eq pending 1);;
  events ← st_gets lt_events;
  event ← st_lift (index events 0);
  st_lift (assert_eq (length (NostrEnvelopeEvent_tags event)) 5);;
  drained ← st_unwrap (E := DkgKitError) (drain_pure session_id (only FrostDkgRound2));
  st_lift (assert_eq drained [message]);;
  pending ← st_gets LocalNostrEventTransport_pending_len;
  st_lift (assert_eq pending 0).

Definition local_nostr_event_transport_preserves_non_matching_events :
  ST LocalNostrEventTransport DkgKitError unit :=
  message ← st_lift message;
  let session_id := pm_session_id message in
  st_unwrap (E := DkgKitError) (publish message);;
  drained ← st_unwrap (E := DkgKitError) (drain_pure session_id (only FrostSigningNonce));
  st_lift (assert_eq drained []);;
  pending ← st_gets LocalNostrEventTransport_pending_len;
  st_lift (assert_eq pending 1).
End envelopes.

Section envelopes_pass.
Context `{SerdeJsonLaws ProtocolMessage} `{Utf8Error}.

(** The event of the tests' message, and what the transport makes of it. *)
Lemma message_event :
  exists m event, message = Ok m /\ NostrEnvelopeEvent_from_protocol_message m = Ok event /\
    NostrEnvelopeEvent_to_protocol_message event = Ok m /\ tags_match event m /\
    pm_kind m = FrostDkgRound2 /\ is_Some (pm_recipient m) /\ pm_sender m = mkParticipantId 1.
Proof.
  destruct message as [m| |] eqn:E; [|discriminate E..].
  destruct (from_protocol_message_Ok m) as (event & He & Ht & Hd).
  assert (Hm : sendable m).
  { injection E as <-. split_and!; try done. by intros r [= <-]. }
  exists m, event. split_and!; try done; [by apply to_protocol_message_Ok|..];
    injection E as <-; by try eexists.
Qed.

Lemma tags_length event m :
  tags_match event m -> is_Some (pm_recipient m) -> length (NostrEnvelopeEvent_tags event) = 5.
Proof.
  intros (_ & _ & _ & _ & Hr & _) [r E]. unfold NostrEnvelopeEvent_tags. rewrite Hr, E. done.
Qed.

Lemma publish_event event m t :
  NostrEnvelopeEvent_from_protocol_message m = Ok event ->
  publish m t = (mkLocalNostrEventTransport (lt_connected t) (lt_events t ++ [event]), Ok tt).
Proof. intros He. cbn. unfold LocalNostrEventTransport_publish. by rewrite He. Qed.

(** Draining a single event. *)
Lemma drain_event event m c f :
  NostrEnvelopeEvent_to_protocol_message event = Ok m ->
  drain_pure (pm_session_id m) f (mkLocalNostrEventTransport c [event]) =
    (mkLocalNostrEventTransport c (if f m then [] else [event]), Ok (if f m then [m] else [])).
Proof.
  intros Hto. unfold drain_pure. cbn. rewrite Hto, decide_True by done. cbn.
  by destruct (f m).
Qed.

(** The tests of the envelope pass, for every lawful serializer. *)
Theorem envelope_tests_pass :
  passes nostr_envelope_event_round_trips_protocol_message /\
  passes nostr_envelope_rejects_mismatched_metadata /\
  st_passes local_nostr_event_transport_publishes_tags_and_drains_protocol_messages
    LocalNostrEventTransport_default /\
  st_passes local_nostr_event_transport_preserves_non_matching_events
    LocalNostrEventTransport_default.
Proof.
  destruct message_event as (m & event & Hm & He & Hto & Ht & Hk & Hr & Hs).
  pose proof (tags_length event m Ht Hr) as Hlen.
  assert (Hkind : only FrostDkgRound2 m = true) by (by apply bool_decide_eq_true_2).
  assert (Hother : only FrostSigningNonce m = false) by (unfold only; by rewrite Hk).
  split_and!.
  - unfold nostr_envelope_event_round_trips_protocol_message. rewrite Hm, ok_bind, He.
    cbn [unwrap]. rewrite ok_bind. rewrite (proj1 Ht), assert_eq_same, ok_bind, Hlen.
    rewrite assert_eq_same, ok_bind, Hto. cbn [unwrap]. rewrite ok_bind. by apply passes_assert_eq.
  - unfold nostr_envelope_rejects_mismatched_metadata. rewrite Hm, ok_bind, He. cbn [unwrap].
    rewrite ok_bind. apply passes_assert.
    pose proof (to_protocol_message_returns (set_sender 3 event)) as Hret.
    destruct (NostrEnvelopeEvent_to_protocol_message (set_sender 3 event)) as [m'| |] eqn:E;
      [exfalso|done|done].
    apply to_protocol_message_Ok in E as (Hd & (_ & _ & _ & Hsender & _) & _).
    apply to_protocol_message_Ok in Hto as (Hd' & _).
    change (ne_content (set_sender 3 event)) with (ne_content event) in Hd.
    rewrite Hd' in Hd. injection Hd as <-. rewrite Hs in Hsender. discriminate.
  - eapply st_passes_lift; [exact Hm|]. cbv zeta. eapply st_passes_bind; [reflexivity|].
    eapply st_passes_bind; [apply st_unwrap_Ok; by apply publish_event|].
    eapply st_passes_bind; [reflexivity|]. eapply st_passes_lift; [reflexivity|].
    eapply st_passes_bind; [reflexivity|]. eapply st_passes_lift; [reflexivity|].
    rewrite Hlen. eapply st_passes_lift; [reflexivity|].
    eapply st_passes_bind; [apply st_unwrap_Ok, (drain_event event m); done|].
    rewrite Hkind. eapply st_passes_lift; [apply assert_eq_same|].
    eapply st_passes_bind; [reflexivity|]. by eexists.
  - eapply st_passes_lift; [exact Hm|]. cbv zeta.
    eapply st_passes_bind; [apply st_unwrap_Ok; by apply publish_event|].
    eapply st_passes_bind; [apply st_unwrap_Ok, (drain_event event m); done|].
    rewrite Hother. eapply st_passes_lift; [reflexivity|].
    eapply st_passes_bind; [reflexivity|]. by eexists.
Qed.
End envelopes_pass.

(** ** Ceremonies through the event transport *)

Section ceremonies.
Context `{BitcoinLib} `{SerdeJson ProtocolMessage} `{Utf8Error}.
Context `{SerdeJson HtssDkgRound1Package, SerdeJson HtssDkgRound2Package,
          SerdeJson HtssNoncePackage, SerdeJson HtssSignatureSharePackage}.

(** The variable [relay] and the generator of [thread_rng()]. *)
Local Abbreviation TestST := (ST (LocalNostrEventTransport * rng) DkgKitError).

Definition on_relay {A} (op : ST LocalNostrEventTransport DkgKitError A) : TestST A :=
  st_unwrap (st_zoom fst (fun relay st => (relay, st.2)) op).

Definition on_rng {A} (op : ST rng DkgKitError A) : TestST A :=
  st_unwrap (st_zoom snd (fun g st => (st.1, g)) op).

Definition pending_len : TestST nat :=
  st_gets (fun st => LocalNostrEventTransport_pending_len st.1).

(** [relay.events().iter().all(..)] *)
Definition all_of_kind (kind : ProtocolMessageKind) : TestST bool :=
  st_gets (fun st => forallb (fun event =>
      (ne_kind event =? DKGKIT_NOSTR_EVENT_KIND)%N
      && bool_decide (ne_message_kind event = ProtocolMessageKind_as_str kind)) (lt_events st.1)).

(** [relay.drain_matching(..).unwrap().iter().map(from).collect::<Result<Vec<_>>>().unwrap()] *)
Definition drain_decoded {T} (from : ProtocolMessage -> Result T) (session_id : SessionId)
    (predicate : ProtocolMessage -> bool) : TestST (list T) :=
  messages ← on_relay (drain_pure session_id predicate);
  st_lift (unwrap (mapM from messages)).

Definition publish_package (to : Result ProtocolMessage) : TestST unit :=
  message ← st_lift (unwrap to);
  on_relay (publish message).

(** The shares of the signers, in the order of the signer set. *)
Definition pick_shares (keyset : HtssLocalKeySet) (signer_set : list ParticipantId) :
  Result (list HtssLocalKeyShare) :=
  mapM (fun participant_id =>
          expect (List.find (fun share => bool_decide (hks_participant_id share = participant_id))
                    (hkset_shares keyset))) signer_set.

(** The turn of a participant in the loop that finalizes. *)
Definition finalize_turn (config : HierarchicalThresholdConfig) (dkg_session_id : SessionId)
    (round1_packages : list HtssDkgRound1Package)
    (state : option GroupKey * list HtssLocalKeyShare) (participant : RankedParticipant) :
  TestST (option GroupKey * list HtssLocalKeyShare) :=
  let '(group_key, shares) := state in
  let recipient := rp_id participant in
  round2_packages ← drain_decoded HtssDkgRound2Package_from_protocol_message dkg_session_id
      (fun message => only HtssDkgRound2 message && ProtocolMessage_is_for message recipient);
  '(participant_group_key, share) ←
    st_lift (unwrap (finalize_htss_dkg recipient round1_packages round2_packages config));
  group_key ← match group_key with
              | Some existing_group_key =>
                  st_lift (assert_eq existing_group_key participant_group_key);;
                  mret (Some existing_group_key)
              | None => mret (Some participant_group_key)
              end;
  mret (group_key, shares ++ [share]).

Definition local_nostr_event_transport_runs_htss_dkg_derivative_share_flow : TestST unit :=
  grouped ← st_lift test_grouped_config_123_of_235;
  config ← st_lift (unwrap (hierarchical_config_from_grouped_threshold grouped));
  dkg_session_id ← st_lift (unwrap (SessionId_new "nostr-htss-dkg"));
  states ← on_rng (mapM (fun participant => htss_dkg_round1 (rp_id participant) config)
                     (htc_participants config));
  on_relay connect;;
  mapM (fun state => publish_package
          (HtssDkgRound1Package_to_protocol_message (h1s_package state) dkg_session_id)) states;;
  pending ← pending_len;
  st_lift (assert_eq pending (length (htc_participants config)));;
  all_round1 ← all_of_kind HtssDkgRound1;
  st_lift (assert all_round1);;
  round1_packages ← drain_decoded HtssDkgRound1Package_from_protocol_message dkg_session_id
                      (only HtssDkgRound1);
  st_lift (assert_eq (length round1_packages) (length (htc_participants config)));;
  mapM (fun state =>
          packages ← st_lift (unwrap (htss_dkg_round2 state round1_packages config));
          mapM (fun package => publish_package
                  (HtssDkgRound2Package_to_protocol_message package dkg_session_id)) packages)
    states;;
  pending ← pending_len;
  st_lift (assert_eq pending (length (htc_participants config) * length (htc_participants config)));;
  '(group_key, shares) ← st_foldlM (finalize_turn config dkg_session_id round1_packages)
                           (None, []) (htc_participants config);
  pending ← pending_len;
  st_lift (assert_eq pending 0);;
  group_key ← st_lift (expect group_key);
  let keyset := mkHtssLocalKeySet group_key shares in
  signing_session_id ← st_lift (unwrap (SessionId_new "nostr-htss-dkg-sign"));
  signer_set ← st_lift (pids [1; 3; 4; 6; 7; 8]%N);
  let digest := array 25 in
  selected_shares ← st_lift (pick_shares keyset signer_set);
  local_nonces ← on_rng (mapM (htss_nonce signing_session_id) selected_shares);
  let public_nonces := hln_package <$> local_nonces in
  signature_shares ← st_lift (unwrap (mapM (fun '(share, nonce) =>
      htss_sign_share (hkset_group_key keyset) digest share nonce public_nonces signer_set config)
      (zip selected_shares local_nonces)));
  signature ← st_lift (unwrap (aggregate_htss_signature_shares (hkset_group_key keyset) digest
                                 public_nonces signature_shares signer_set config));
  verified ← st_lift (unwrap (verify_aggregate_signature_digest (hkset_group_key keyset) digest
                                signature));
  st_lift (assert verified).

Definition local_nostr_event_transport_runs_grouped_htss_123_of_235_signing : TestST unit :=
  config ← st_lift test_grouped_config_123_of_235;
  hierarchical_config ← st_lift (unwrap (hierarchical_config_from_grouped_threshold config));
  keyset ← on_rng (run_local_grouped_htss_keygen config);
  signing_session_id ← st_lift (unwrap (SessionId_new "nostr-grouped-htss-sign"));
  signer_set ← st_lift (pids [1; 3; 4; 6; 7; 8]%N);
  let digest := array 23 in
  st_lift (unwrap (validate_grouped_threshold_signer_set signer_set config));;
  short ← st_lift (pids [1; 3; 6; 7; 8; 9]%N);
  err ← st_lift (unwrap_err (validate_grouped_threshold_signer_set short config));
  st_lift (assert (text_contains "rank 1 needs 2" (DkgKitError_to_string err)));;
  selected_shares ← st_lift (pick_shares keyset signer_set);
  local_nonces ← on_rng (mapM (htss_nonce signing_session_id) selected_shares);
  on_relay connect;;
  mapM (fun nonce => publish_package (HtssNoncePackage_to_protocol_message (hln_package nonce)))
    local_nonces;;
  pending ← pending_len;
  st_lift (assert_eq pending (length signer_set));;
  all_nonces ← all_of_kind HtssSigningNonce;
  st_lift (assert all_nonces);;
  public_nonces ← drain_decoded HtssNoncePackage_from_protocol_message signing_session_id
                    (only HtssSigningNonce);
  st_lift (assert_eq (length public_nonces) (length signer_set));;
  pending ← pending_len;
  st_lift (assert_eq pending 0);;
  mapM (fun '(share, nonce) =>
          signature_share ← st_lift (unwrap (htss_sign_share (hkset_group_key keyset) digest share
                              nonce public_nonces signer_set hierarchical_config));
          publish_package (HtssSignatureSharePackage_to_protocol_message signature_share))
    (zip selected_shares local_nonces);;
  signature_shares ← drain_decoded HtssSignatureSharePackage_from_protocol_message
                       signing_session_id (only HtssSignatureShare);
  signature ← st_lift (unwrap (aggregate_htss_signature_shares (hkset_group_key keyset) digest
                                 public_nonces signature_shares signer_set hierarchical_config));
  verified ← st_lift (unwrap (verify_aggregate_signature_digest (hkset_group_key keyset) digest
                                signature));
  st_lift (assert verified).
End ceremonies.

Section runs.
Local Existing Instances small_group small_group_laws digits_json toy_bitcoin.
#[local] Instance tests_utf8_error : Utf8Error := fun _ => "invalid utf-8".

(** Both ceremonies pass on the small group. *)
Theorem ceremony_tests_pass :
  st_passes local_nostr_event_transport_runs_htss_dkg_derivative_share_flow
    (LocalNostrEventTransport_default, 7%Z) /\
  st_passes local_nostr_event_transport_runs_grouped_htss_123_of_235_signing
    (LocalNostrEventTransport_default, 7%Z).
Proof. split; apply passes_is_ok; vm_compute; reflexivity. Qed.
End runs.
