(* ===== verification/Keyspend.v ===== *)
(** The Taproot key-path spends of [crates/dkgkit-bitcoin/src/lib.rs]: building an
    unsigned transaction with one sighash per input, and attaching one signature
    per input.

    Parsing of addresses and transaction identifiers, the BIP341 sighash and the
    consensus encoding belong to the crate [bitcoin]: the class [TransactionLib]. *)

From Stdlib Require Import Ascii String Strings.Byte.
From stdpp Require Import base numbers countable gmap strings list.
From S2P Require Import Prelude Codec Secp SmallGroup Bitcoin.

Record TaprootSpendInput := mkTaprootSpendInput {
  tsi_txid : string;
  tsi_vout : N;
  tsi_value_sats : N;
}.

Record TaprootSpendOutput := mkTaprootSpendOutput {
  tso_address : string;
  tso_value_sats : N;
}.

(** ** Transactions *)

Record TxIn := mkTxIn {
  txin_txid : bytes;
  txin_vout : N;
  txin_script_sig : bytes;
  txin_sequence : N;
  txin_witness : list bytes;
}.

Record TxOut := mkTxOut {
  txout_value : N;
  txout_script_pubkey : bytes;
}.

Record Tx := mkTx {
  tx_version : N;
  tx_lock_time : N;
  tx_input : list TxIn;
  tx_output : list TxOut;
}.

(** [Sequence::ENABLE_RBF_NO_LOCKTIME] *)
Definition ENABLE_RBF_NO_LOCKTIME : N := 4294967293.

Class TransactionLib := {
  txid_from_str : string -> string + bytes;
  (** [Address::from_str], then [require_network], then [script_pubkey] *)
  Address : Type;
  address_from_str : string -> string + Address;
  address_require_network : Address -> Network -> string + Address;
  address_script_pubkey : Address -> bytes;
  (** [SighashCache::taproot_key_spend_signature_hash] with [Prevouts::All] and
      [SIGHASH_DEFAULT] *)
  key_spend_sighash : Tx -> list TxOut -> nat -> string + bytes;
  serialize_hex : Tx -> string;
  deserialize_hex : string -> string + Tx;
  compute_txid : Tx -> string;
}.

(** Decoding the encoding of a transaction with inputs gives it back, and the
    sighash of an existing input with all its prevouts exists. *)
Class TransactionLaws `{TransactionLib} : Prop := {
  deserialize_serialize tx : tx_input tx <> [] -> deserialize_hex (serialize_hex tx) = inr tx;
  key_spend_sighash_total tx prevouts i :
    length prevouts = length (tx_input tx) -> (i < length (tx_input tx))%nat ->
    exists h, key_spend_sighash tx prevouts i = inr h;
}.

Section keyspend.
Context `{TransactionLib}.

(** [r.map_err(|err| anyhow!("{prefix}{err}"))] *)
Definition prefixed {A} (prefix : string) (r : string + A) : AResult A :=
  match r with inl err => Err (prefix +:+ err) | inr a => Ok a end.

Definition script_of_address (what : string) (net : Network) (address : string) : AResult bytes :=
  parsed ← prefixed ("invalid " +:+ what +:+ " address: ") (address_from_str address);
  checked ← prefixed (what +:+ " address network mismatch: ") (address_require_network parsed net);
  Ok (address_script_pubkey checked).

Definition unsigned_input (input : TaprootSpendInput) : AResult TxIn :=
  txid ← prefixed "invalid input txid: " (txid_from_str (tsi_txid input));
  Ok (mkTxIn txid (tsi_vout input) [] ENABLE_RBF_NO_LOCKTIME []).

Definition spend_output (net : Network) (output : TaprootSpendOutput) : AResult TxOut :=
  script_pubkey ← script_of_address "output" net (tso_address output);
  Ok (mkTxOut (tso_value_sats output) script_pubkey).

Definition taproot_keyspend_sighashes (network vault_address : string)
    (inputs : list TaprootSpendInput) (outputs : list TaprootSpendOutput) :
  AResult (string * list bytes) :=
  reject_if (length inputs =? 0) "a spend needs at least one input";;
  reject_if (length outputs =? 0) "a spend needs at least one output";;
  net ← parse_network network;
  vault_script_pubkey ← script_of_address "vault" net vault_address;
  tx_inputs ← mapM unsigned_input inputs;
  tx_outputs ← mapM (spend_output net) outputs;
  let unsigned := mkTx 2 0 tx_inputs tx_outputs in
  let prevouts := (fun input => mkTxOut (tsi_value_sats input) vault_script_pubkey) <$> inputs in
  sighashes ← mapM (fun index => prefixed "taproot sighash failed: "
                                   (key_spend_sighash unsigned prevouts index))
                   (seq 0 (length inputs));
  Ok (serialize_hex unsigned, sighashes).

Definition attach_witness (input : TxIn) (signature : bytes) : TxIn :=
  mkTxIn (txin_txid input) (txin_vout input) (txin_script_sig input) (txin_sequence input)
    [signature].

Definition finalize_taproot_keyspend (unsigned_tx_hex : string) (signatures : list bytes) :
  AResult (string * string) :=
  tx ← prefixed "invalid unsigned transaction: " (deserialize_hex unsigned_tx_hex);
  reject_if (negb (length (tx_input tx) =? length signatures))
    ("expected " +:+ dec_nat (length (tx_input tx)) +:+ " signatures, got "
     +:+ dec_nat (length signatures));;
  let tx := mkTx (tx_version tx) (tx_lock_time tx)
              (zip_with attach_witness (tx_input tx) signatures) (tx_output tx) in
  Ok (serialize_hex tx, compute_txid tx).
End keyspend.

(** ** Properties *)

Section keyspend_properties.
Context `{TransactionLaws}.

Lemma prefixed_Ok {A} p (r : string + A) a : prefixed p r = Ok a <-> r = inr a.
Proof. destruct r; cbn; naive_solver. Qed.

(** What the spend must have parsed to. *)
Definition spends (net : Network) (inputs : list TaprootSpendInput)
    (outputs : list TaprootSpendOutput) (tx : Tx) : Prop :=
  tx_version tx = 2%N /\ tx_lock_time tx = 0%N /\
  Forall2 (fun input txin => txid_from_str (tsi_txid input) = inr (txin_txid txin) /\
             txin_vout txin = tsi_vout input /\ txin_script_sig txin = [] /\
             txin_sequence txin = ENABLE_RBF_NO_LOCKTIME) inputs (tx_input tx) /\
  Forall2 (fun output txout => txout_value txout = tso_value_sats output /\
             script_of_address "output" net (tso_address output) = Ok (txout_script_pubkey txout))
    outputs (tx_output tx).

Lemma unsigned_inputs inputs tx_inputs :
  mapM unsigned_input inputs = Ok tx_inputs ->
  Forall2 (fun input txin => txid_from_str (tsi_txid input) = inr (txin_txid txin) /\
             txin_vout txin = tsi_vout input /\ txin_script_sig txin = [] /\
             txin_sequence txin = ENABLE_RBF_NO_LOCKTIME) inputs tx_inputs /\
  Forall (fun txin => txin_witness txin = []) tx_inputs.
Proof.
  intros HF%mapM_Ok. induction HF as [|x y l k Hy HF [IH1 IH2]]; [by split|].
  apply bind_Ok in Hy as (txid & Ht%prefixed_Ok & [= <-]). split; by constructor.
Qed.

Lemma spend_outputs net outputs tx_outputs :
  mapM (spend_output net) outputs = Ok tx_outputs ->
  Forall2 (fun output txout => txout_value txout = tso_value_sats output /\
             script_of_address "output" net (tso_address output) = Ok (txout_script_pubkey txout))
    outputs tx_outputs.
Proof.
  intros HF%mapM_Ok. eapply Forall2_impl; [exact HF|]. intros o t Ho.
  apply bind_Ok in Ho as (script & Hs & [= <-]). done.
Qed.

Lemma sighashes_total tx prevouts :
  length prevouts = length (tx_input tx) ->
  exists hs, mapM (fun index => prefixed "taproot sighash failed: "
                                  (key_spend_sighash tx prevouts index))
               (seq 0 (length (tx_input tx))) = Ok hs /\ length hs = length (tx_input tx).
Proof.
  intros Hlen.
  destruct (mapM_Ok_or_Err (fun index => prefixed "taproot sighash failed: "
              (key_spend_sighash tx prevouts index)) (fun _ _ => True) (fun _ => False)
              (seq 0 (length (tx_input tx)))) as [(hs & Hhs & HF)|(e & _ & [])].
  - intros i Hi%elem_of_seq. left. destruct (key_spend_sighash_total tx prevouts i Hlen) as [h Hh]; [lia|].
    exists h. by rewrite Hh.
  - exists hs. split; [done|]. apply Forall2_length in HF. rewrite length_seq in HF. done.
Qed.

(** C36: a prepared spend can be completed, and completing it changes nothing but
    the witnesses.  When the network, the addresses and the transaction
    identifiers parse and there is an input and an output,
    [taproot_keyspend_sighashes] succeeds with one sighash per input; and
    [finalize_taproot_keyspend] of its transaction succeeds exactly when there is
    one signature per input, producing the transaction with the requested inputs
    and outputs in which input [i] carries signature [i] as its only witness. *)
Theorem keyspend_completes network net vault_address script inputs outputs tx_inputs tx_outputs :
  inputs <> [] -> outputs <> [] -> parse_network network = Ok net ->
  script_of_address "vault" net vault_address = Ok script ->
  mapM unsigned_input inputs = Ok tx_inputs -> mapM (spend_output net) outputs = Ok tx_outputs ->
  exists hex sighashes,
    taproot_keyspend_sighashes network vault_address inputs outputs = Ok (hex, sighashes) /\
    length sighashes = length inputs /\
    forall signatures,
      (length signatures = length inputs ->
       exists tx, finalize_taproot_keyspend hex signatures = Ok (serialize_hex tx, compute_txid tx) /\
         spends net inputs outputs tx /\
         txin_witness <$> tx_input tx = (fun signature => [signature]) <$> signatures) /\
      (length signatures <> length inputs -> is_err (finalize_taproot_keyspend hex signatures) = true).
Proof.
  intros Hin Hout Hnet Hscript Hi Ho.
  pose (unsigned := mkTx 2 0 tx_inputs tx_outputs).
  destruct (unsigned_inputs _ _ Hi) as [HFi Hw]. pose proof (spend_outputs _ _ _ Ho) as HFo.
  pose proof (Forall2_length _ _ _ HFi) as Hli.
  destruct (sighashes_total unsigned
              ((fun input => mkTxOut (tsi_value_sats input) script) <$> inputs)) as (hs & Hhs & Hlh).
  { by rewrite length_fmap. }
  exists (serialize_hex unsigned), hs. cbn [tx_input unsigned] in Hhs, Hlh. split_and!.
  - unfold taproot_keyspend_sighashes. destruct inputs, outputs; [done..|].
    cbn [length Nat.eqb reject_if]. rewrite !ok_bind, Hnet, ok_bind, Hscript, ok_bind, Hi, ok_bind,
      Ho, ok_bind. cbv zeta. cbn [length] in Hli. rewrite <- Hli in Hhs.
    fold unsigned in Hhs |- *. rewrite Hhs. done.
  - by rewrite Hlh.
  - intros signatures. unfold finalize_taproot_keyspend.
    rewrite deserialize_serialize by (cbn; by destruct tx_inputs; [destruct inputs|]).
    cbn [prefixed]. rewrite ok_bind. cbn [tx_input unsigned]. split.
    + intros Hls. rewrite (proj2 (Nat.eqb_eq _ _)) by lia. cbn [negb reject_if]. rewrite ok_bind.
      eexists. split; [reflexivity|]. assert (Hlen : length tx_inputs = length signatures) by lia.
      clear -HFi HFo Hw Hlen. split.
      * split_and!; [done|done| |done]. cbn [tx_input]. revert signatures Hlen Hw.
        induction HFi as [|x y l k Hxy HF IH]; intros [|sg sgs] Hlen Hw; try done.
        cbn [zip_with]. constructor; [done|]. apply IH; [by injection Hlen|by inversion Hw].
      * cbn [tx_input]. clear HFi HFo Hw. revert signatures Hlen.
        induction tx_inputs as [|y k IH]; intros [|sg sgs] Hlen; try done.
        cbn. f_equal. apply IH. by injection Hlen.
    + intros Hls. by rewrite (proj2 (Nat.eqb_neq _ _)) by lia.
Qed.
End keyspend_properties.

(** ** The theorem at a concrete input *)

#[export] Instance tx_in_eq_dec : EqDecision TxIn.
Proof. solve_decision. Defined.
#[export] Instance tx_out_eq_dec : EqDecision TxOut.
Proof. solve_decision. Defined.
#[export] Instance tx_eq_dec : EqDecision Tx.
Proof. solve_decision. Defined.

#[export] Program Instance tx_in_countable : Countable TxIn :=
  inj_countable' (fun i => (txin_txid i, txin_vout i, txin_script_sig i, txin_sequence i, txin_witness i))
    (fun '(a, b, c, d, e) => mkTxIn a b c d e) _.
Next Obligation. by intros []. Qed.
#[export] Program Instance tx_out_countable : Countable TxOut :=
  inj_countable' (fun o => (txout_value o, txout_script_pubkey o)) (fun '(a, b) => mkTxOut a b) _.
Next Obligation. by intros []. Qed.
#[export] Program Instance tx_countable : Countable Tx :=
  inj_countable' (fun t => (tx_version t, tx_lock_time t, tx_input t, tx_output t))
    (fun '(a, b, c, d) => mkTx a b c d) _.
Next Obligation. by intros []. Qed.

Section witnesses.
#[local] Instance toy_transactions : TransactionLib := {|
  txid_from_str s := inr (as_bytes s);
  Address := string;
  address_from_str s := inr s;
  address_require_network s _ := inr s;
  address_script_pubkey s := as_bytes s;
  key_spend_sighash _ _ i := inr (be_bytes 32 (N.of_nat i));
  serialize_hex tx := String.string_of_list_byte (digits_of_pos (encode tx));
  deserialize_hex s := digits_decode (String.list_byte_of_string s);
  compute_txid _ := "txid";
|}.

Lemma toy_transactions_laws : TransactionLaws.
Proof.
  split.
  - intros tx _. unfold deserialize_hex, serialize_hex, toy_transactions. rewrite String.list_byte_of_string_of_list_byte. apply digits_decode_encode.
  - intros tx prevouts i _ _. by eexists.
Qed.

Lemma keyspend_completes_witness :
  let inputs := [mkTaprootSpendInput "a" 0 100; mkTaprootSpendInput "b" 1 200] in
  let outputs := [mkTaprootSpendOutput "dest" 290] in
  exists hex sighashes,
    taproot_keyspend_sighashes "regtest" "vault" inputs outputs = Ok (hex, sighashes) /\
    length sighashes = 2 /\
    is_err (finalize_taproot_keyspend hex [[x01]]) = true.
Proof.
  intros inputs outputs.
  destruct (@keyspend_completes _ toy_transactions_laws "regtest" NetRegtest "vault" (as_bytes "vault")
    inputs outputs [mkTxIn (as_bytes "a") 0 [] ENABLE_RBF_NO_LOCKTIME [];
                    mkTxIn (as_bytes "b") 1 [] ENABLE_RBF_NO_LOCKTIME []]
    [mkTxOut 290 (as_bytes "dest")]) as (hex & hs & Hs & Hlen & Hf).
  - discriminate.
  - discriminate.
  - reflexivity.
  - reflexivity.
  - reflexivity.
  - reflexivity.
  - exists hex, hs. split; [exact Hs|]. split; [exact Hlen|]. apply (Hf [[x01]]). discriminate.
Defined.
End witnesses.
