(* ===== verification/BitcoinTests.v ===== *)
(** The unit tests of [crates/dkgkit-bitcoin/src/lib.rs].

    The scenarios are run on the small group, with the library [hex_bitcoin] whose
    child keys, addresses and hexadecimal text depend on their arguments.  The
    tweaks of the silent-payment tests, 32 bytes [0x11] or [0x22], are larger than
    the order of the small group, so these two tests are run with small tweaks; the
    tweak is an argument of their definitions. *)

From Stdlib Require Import Ascii String Strings.Byte.
From stdpp Require Import base numbers countable gmap strings list.
From S2P Require Import Prelude Core TestKit Codec Secp SmallGroup Packages SignerPolicy Birkhoff HtssKeygen HtssSigning FrostTests Bitcoin Keyspend.

Section tests.
Context `{BitcoinLib}.

(** A 1/2 + 2/3 + 3/5 vault. *)
Definition demo_grouped_keyset : ST rng DkgKitError (GroupedThresholdConfig * HtssLocalKeySet) :=
  participants ← st_lift (participants_of
    [(1, 0, "c-level-a"); (2, 0, "c-level-b"); (3, 1, "manager-a"); (4, 1, "manager-b");
     (5, 1, "manager-c"); (6, 2, "operator-a"); (7, 2, "operator-b"); (8, 2, "operator-c");
     (9, 2, "operator-d"); (10, 2, "operator-e")]%N);
  requirements ← st_lift (mapM (fun '(rank, required, total) =>
                                  unwrap (GroupThresholdRequirement_new rank required total))
                            [(0, 1, 2); (1, 2, 3); (2, 3, 5)]%N);
  config ← st_lift (unwrap (GroupedThresholdConfig_new participants requirements));
  keyset ← st_unwrap (run_local_grouped_htss_keygen config);
  mret (config, keyset).

Definition demo_signer_set : Result (list ParticipantId) := pids [1; 3; 4; 6; 7; 8]%N.

Definition sign_for_tweak (config : GroupedThresholdConfig) (keyset : HtssLocalKeySet)
    (digest : bytes) (tweak : TaprootKeyTweak) : ST rng DkgKitError AggregateSignature :=
  signer_set ← st_lift demo_signer_set;
  st_unwrap (sign_digest_with_local_grouped_htss_threshold_shares_for_output
               (hkset_group_key keyset) digest (tkt_output_xonly tweak) (tkt_tweak tweak)
               (tkt_negate_key tweak) (hkset_shares keyset) signer_set config).

(** Decode the signature and the key and call [verify_schnorr]. *)
Definition assert_verifies (xonly digest : bytes) (signature : AggregateSignature) : Result unit :=
  assert (length (as_signature_bytes signature) =? 64)%nat;;
  sig ← expect (signature_from_bytes (as_signature_bytes signature));
  output_xonly ← expect (point_from_xonly_bytes xonly);
  assert (schnorr_verify output_xonly digest sig).

(** [A * P + B * G] is the output key, with an even y-coordinate. *)
Definition assert_output_relation (group_key : GroupKey) (tweak : TaprootKeyTweak) : Result unit :=
  p ← expect (point_from_xonly_bytes (gk_xonly_public_key group_key));
  let p_term := if tkt_negate_key tweak then point_scale (scalar_opp scalar_one) p else p in
  t ← expect (scalar_from_bytes (tkt_tweak tweak));
  q ← expect (add_exp_tweak p_term t);
  let '(q_xonly, q_parity) := point_into_even_y q in
  assert_eq (point_to_xonly_bytes q_xonly) (tkt_output_xonly tweak);;
  assert (negb q_parity).

Definition authorization_message_digest_is_stable : Result unit :=
  let message := mkBitcoinAuthorizationMessage "signet" "approve-payment" (Some "tb1ptest")
                   (Some 100000%N) (Some "designer payout") "demo-001" in
  assert_eq (BitcoinAuthorizationMessage_digest message)
    (sha256 (as_bytes (BitcoinAuthorizationMessage_canonical_text message)));;
  assert (text_contains "network=signet" (BitcoinAuthorizationMessage_canonical_text message)).

Definition xonly_hex_requires_32_bytes : Result unit :=
  assert (is_err (parse_xonly_public_key_hex "00"));;
  assert (is_ok (parse_xonly_public_key_hex (text_repeat "11" 32))).

Definition taproot_child_spend_signature_validates_under_address_output_key :
  ST rng DkgKitError unit :=
  '(config, keyset) ← demo_grouped_keyset;
  let account := BitcoinAccountKey_new (hkset_group_key keyset) (array 42) in
  let path := BitcoinDerivationPath_bip86 0 0 0 in
  descriptor ← st_lift (unwrap (taproot_child_address_descriptor_for_network account "regtest" path));
  tweak ← st_lift (unwrap (taproot_child_key_tweak account "regtest" path));
  st_lift (assert_eq (hex_encode (tkt_output_xonly tweak)) (bad_xonly_public_key_hex descriptor));;
  st_lift (assert_output_relation (hkset_group_key keyset) tweak);;
  let digest := replicate 32 x5a in
  signature ← sign_for_tweak config keyset digest tweak;
  st_lift (assert_verifies (tkt_output_xonly tweak) digest signature).

Definition silent_payment_spend_signature_validates_under_output_key (k : bytes) :
  ST rng DkgKitError unit :=
  '(config, keyset) ← demo_grouped_keyset;
  tweak ← st_lift (unwrap (silent_payment_output_tweak (hkset_group_key keyset) k));
  st_lift (assert_output_relation (hkset_group_key keyset) tweak);;
  p ← st_lift (expect (point_from_xonly_bytes (gk_xonly_public_key (hkset_group_key keyset))));
  t ← st_lift (expect (scalar_from_bytes k));
  internal ← st_lift (expect (add_exp_tweak p t));
  let '(internal_xonly, _) := point_into_even_y internal in
  '(expected_output, _) ← st_lift (expect (tap_tweak internal_xonly));
  st_lift (assert_eq (point_to_xonly_bytes expected_output) (tkt_output_xonly tweak));;
  let digest := replicate 32 x5a in
  signature ← sign_for_tweak config keyset digest tweak;
  st_lift (assert_verifies (tkt_output_xonly tweak) digest signature).

Definition silent_payment_leaf_signature_validates_under_leaf_key (k : bytes) :
  ST rng DkgKitError unit :=
  '(config, keyset) ← demo_grouped_keyset;
  tweak ← st_lift (unwrap (silent_payment_leaf_tweak (hkset_group_key keyset) k));
  p ← st_lift (expect (point_from_xonly_bytes (gk_xonly_public_key (hkset_group_key keyset))));
  t ← st_lift (expect (scalar_from_bytes k));
  leaf ← st_lift (expect (add_exp_tweak p t));
  let '(leaf_xonly, _) := point_into_even_y leaf in
  st_lift (assert_eq (point_to_xonly_bytes leaf_xonly) (tkt_output_xonly tweak));;
  st_lift (assert_output_relation (hkset_group_key keyset) tweak);;
  let digest := replicate 32 x7b in
  signature ← sign_for_tweak config keyset digest tweak;
  st_lift (assert_verifies (tkt_output_xonly tweak) digest signature).

Definition taproot_child_address_descriptor_derives_distinct_public_children (secret : bytes) :
  Result unit :=
  secret_key ← expect (secret_key_from_slice secret);
  let '(xonly_public_key, _) := point_into_even_y (point_scale secret_key point_G) in
  let account_key := BitcoinAccountKey_new
    (mkGroupKey (point_to_xonly_bytes xonly_public_key) []) (array 7) in
  first ← unwrap (taproot_child_address_descriptor_for_network account_key "regtest"
                    (BitcoinDerivationPath_bip86 0 0 0));
  second ← unwrap (taproot_child_address_descriptor_for_network account_key "regtest"
                     (BitcoinDerivationPath_bip86 0 0 1));
  assert_eq (BitcoinDerivationPath_display_path (bad_path first)) "m/86'/0'/0'/0/0";;
  assert (text_starts_with "bcrt1p" (bad_address first));;
  assert_ne (bad_address first) (bad_address second);;
  assert_ne (bad_internal_xonly_public_key_hex first) (bad_account_xonly_public_key_hex first).
End tests.

Section keyspend.
Context `{BitcoinLib} `{TransactionLib}.

Definition taproot_keyspend_witness_verifies_under_output_key : ST rng DkgKitError unit :=
  '(config, keyset) ← demo_grouped_keyset;
  let account := BitcoinAccountKey_new (hkset_group_key keyset) (array 42) in
  let path := BitcoinDerivationPath_bip86 0 0 0 in
  descriptor ← st_lift (unwrap (taproot_child_address_descriptor_for_network account "regtest" path));
  let vault_address := bad_address descriptor in
  tweak ← st_lift (unwrap (taproot_child_key_tweak account "regtest" path));
  let inputs := [mkTaprootSpendInput (text_repeat "ab" 32) 1 50000000000] in
  let outputs := [mkTaprootSpendOutput vault_address 100000000;
                  mkTaprootSpendOutput vault_address 49899990000] in
  '(unsigned_hex, sighashes) ←
    st_lift (unwrap (taproot_keyspend_sighashes "regtest" vault_address inputs outputs));
  st_lift (assert_eq (length sighashes) 1);;
  sighash ← st_lift (index sighashes 0);
  signature ← sign_for_tweak config keyset sighash tweak;
  st_lift (assert_verifies (tkt_output_xonly tweak) sighash signature);;
  '(raw_hex, txid) ← st_lift (unwrap (finalize_taproot_keyspend unsigned_hex
                                        [as_signature_bytes signature]));
  st_lift (assert (negb (bool_decide (txid = ""))));;
  tx ← st_lift (match deserialize_hex raw_hex with inr tx => Ok tx | inl _ => Panic end);
  input ← st_lift (index (tx_input tx) 0);
  st_lift (assert_eq (length (txin_witness input)) 1);;
  witness ← st_lift (index (txin_witness input) 0);
  st_lift (assert_eq (length witness) 64).
End keyspend.

(** ** The runs *)

Definition hex_digit (n : N) : ascii := ascii_of_N (if (n <? 10)%N then 48 + n else 87 + n)%N.

Definition hex_value (a : ascii) : option N :=
  let n := N_of_ascii a in
  if (48 <=? n)%N && (n <=? 57)%N then Some (n - 48)%N
  else if (97 <=? n)%N && (n <=? 102)%N then Some (n - 87)%N
  else None.

Definition to_hex (bs : bytes) : string :=
  foldr (fun b s => String (hex_digit (Byte.to_N b / 16)) (String (hex_digit (Byte.to_N b mod 16)) s))
    "" bs.

Fixpoint of_hex (s : string) : option bytes :=
  match s with
  | EmptyString => Some []
  | String a (String b s) =>
      high ← hex_value a; low ← hex_value b; bs ← of_hex s;
      Some (byte_of_N (high * 16 + low) :: bs)
  | _ => None
  end.

Section runs.
Local Existing Instances small_group small_group_laws toy_transactions.

(** The left half of the toy HMAC is a scalar that depends on its arguments. *)
Definition toy_hmac (key data : bytes) : bytes :=
  f_to_bytes (f_of (1 + (Z.of_N (be_value key) + Z.of_N (be_value data)) mod 1000003))
  ++ f_to_bytes (f_of 9).

#[local] Instance hex_bitcoin : BitcoinLib := {|
  sha256 bs := f_to_bytes (f_of (Z.of_N (be_value bs)));
  hmac_sha512 := toy_hmac;
  tap_tweak_hash _ := f_to_bytes (f_of 5);
  tap_tweak P := let S := point_add P (point_scale (f_of 5 : scalar) point_G) in
                 if point_is_zero S then None else Some (point_into_even_y S);
  ckd_pub xpub i :=
    let hash := toy_hmac xpub.2 (point_to_bytes xpub.1 ++ be_bytes 4 i) in
    match scalar_from_bytes (take 32 hash) with
    | Some s => inr (point_add xpub.1 (point_scale s point_G), drop 32 hash)
    | None => inl "scalar"
    end;
  p2tr_address P network :=
    (match network with NetRegtest => "bcrt1p" | NetBitcoin => "bc1p" | _ => "tb1p" end)
    +:+ to_hex (point_to_xonly_bytes P);
  hex_encode := to_hex;
  hex_decode := of_hex;
  signature_from_bytes bs :=
    match point_from_xonly_bytes (take 32 bs), scalar_from_bytes (drop 32 bs) with
    | Some R, Some s => Some (R, s)
    | _, _ => None
    end;
  library_error call := call;
|}.

(** The tests of the crate pass on the small group. *)
Theorem bitcoin_tests_pass :
  Forall passes
    [authorization_message_digest_is_stable; xonly_hex_requires_32_bytes;
     taproot_child_address_descriptor_derives_distinct_public_children (f_to_bytes (f_of 101))] /\
  Forall (fun test => st_passes test 7%Z)
    [taproot_child_spend_signature_validates_under_address_output_key;
     silent_payment_spend_signature_validates_under_output_key (f_to_bytes (f_of 17));
     silent_payment_leaf_signature_validates_under_leaf_key (f_to_bytes (f_of 34));
     taproot_keyspend_witness_verifies_under_output_key].
Proof. split; repeat constructor; apply passes_is_ok; vm_compute; reflexivity. Qed.
End runs.
