(* ===== verification/MessageSigning.v ===== *)
(** FROST from end to end: the local key generation, then a signature of any
    qualified signer set, then the Bitcoin verifier; and
    [examples/bitcoin-message-signing/src/main.rs], which does this for two of
    three participants.

    [ThresholdLaws] says what the protocol engine promises across the two
    ceremonies: the shares of an honest key generation are shares of its key, and
    a combined signature is a BIP340 signature. *)

From Stdlib Require Import Ascii String Strings.Byte.
From stdpp Require Import base numbers countable gmap strings list sorting.
From S2P Require Import Prelude Core Codec Secp SmallGroup Packages SignerPolicy.
From S2P Require Import HtssSigning FrostSession Sdk Ceremony Bitcoin.

Class ThresholdLaws `{FL : FrostLib} {SL : SigningLaws} : Prop := {
  (** The share a participant accepts in an honest key generation is a share of
      the resulting key. *)
  honest_share_valid t n K co agg j paired even key :
    (1 <= t <= n)%N -> K.*1 = seq 1 (N.to_nat n) ->
    add_inputs (coordinator_new t n)
      ((fun k => (N.of_nat k.1 - 1, honest_input t n k)%N) <$> K) = Some co ->
    coordinator_finish co = Some agg -> j ∈ seq 1 (N.to_nat n) ->
    receive_secret_share agg
      (collect_secret_inputs (scalar_from (N.of_nat j)) (honest_share t n j <$> K)) = inr paired ->
    paired_into_even paired = Some even -> shared_into_even (agg_shared_key agg) = Some key ->
    valid_share key (scalar_from (N.of_nat j)) even;
  (** [t] signers are enough for a key of threshold [t]. *)
  honest_threshold t n K co agg key m :
    (1 <= t <= n)%N -> K.*1 = seq 1 (N.to_nat n) ->
    add_inputs (coordinator_new t n)
      ((fun k => (N.of_nat k.1 - 1, honest_input t n k)%N) <$> K) = Some co ->
    coordinator_finish co = Some agg -> shared_into_even (agg_shared_key agg) = Some key ->
    (t <= N.of_nat m)%N -> enough key m;
  (** Keys and nonces have even y. *)
  shared_public_key_even key :
    point_from_xonly_bytes (point_to_xonly_bytes (even_shared_public_key key)) =
      Some (even_shared_public_key key);
  combined_signature_valid key nonces message shares sig :
    verify_and_combine (coordinator_sign_session key nonces message) key shares = inr sig ->
    point_from_xonly_bytes (point_to_xonly_bytes sig.1) = Some sig.1 /\
    schnorr_verify (even_shared_public_key key) message sig = true;
}.

(** The [serde] form of a signature, whose nonce has even y, is its 64 bytes. *)
Class SignatureBincode `{Secp, Bincode (point * scalar)} : Prop :=
  signature_encoding sig :
    point_from_xonly_bytes (point_to_xonly_bytes sig.1) = Some sig.1 ->
    encode_binary sig = Ok (signature_to_bytes sig).

(** ** Signing with freshly generated shares *)

Section end_to_end.
Context `{FL : FrostLib, !KeygenLaws, SL : !SigningLaws, !ThresholdLaws, !SecpLaws}.
Context `{BincodeLaws KeygenInput, !Bincode scalar, !BincodeLaws scalar,
          !Bincode EvenPairedShare, !BincodeLaws EvenPairedShare,
          !Bincode EvenSharedKey, !BincodeLaws EvenSharedKey}.
Context `{!Bincode Nonce, !BincodeLaws Nonce, !Bincode (point * scalar), !BincodeLaws (point * scalar)}.
Context `{!SignatureBincode}.

Local Abbreviation id i := (mkParticipantId (N.of_nat i)).

(** The share of a participant is found by its identifier. *)
Lemma find_dealt t n K agg L shares i :
  Forall2 (dealt_share t n K agg) L shares -> NoDup L -> i ∈ L ->
  exists share,
    List.find (fun share => bool_decide (lks_participant_id share = id i)) shares = Some share /\
    dealt_share t n K agg i share.
Proof.
  intros HF HN Hi. induction HF as [|j share L shares Hj HF IH]; [by apply not_elem_of_nil in Hi|].
  apply NoDup_cons in HN as [Hnj HN]. cbn [List.find]. pose proof Hj as (-> & _).
  case_bool_decide as E.
  - injection E as ->%Nat2N.inj. by exists share.
  - apply elem_of_cons in Hi as [->|Hi]; [done|]. by apply IH.
Qed.

(** Every signer of a valid set holds a usable share of the key. *)
Lemma dealt_signers_ready t n K co agg key shares signers :
  (1 <= t <= n)%N -> (n <= u16_max)%N -> K.*1 = seq 1 (N.to_nat n) ->
  add_inputs (coordinator_new t n)
    ((fun k => (N.of_nat k.1 - 1, honest_input t n k)%N) <$> K) = Some co ->
  coordinator_finish co = Some agg -> shared_into_even (agg_shared_key agg) = Some key ->
  Forall2 (dealt_share t n K agg) (seq 1 (N.to_nat n)) shares ->
  Forall (fun s => 1 <= pid_0 s <= n)%N signers ->
  exists paireds, Forall2 (signer_ready (group_key_of key) key shares) signers paireds.
Proof.
  intros Ht Hn HK Hco Hagg Hkey HF Hs. induction Hs as [|s signers Hs _ [paireds IH]]; [by exists []|].
  assert (Hi : N.to_nat (pid_0 s) ∈ seq 1 (N.to_nat n)) by (apply elem_of_seq; lia).
  destruct (find_dealt t n K agg _ shares _ HF (NoDup_seq _ _) Hi)
    as (share & Hfind & Hid & (key' & Hkey' & Hgk) & paired & even & Hrec & Heven & Hbytes).
  rewrite N2Nat.id in Hfind, Hid. rewrite Hkey in Hkey'. injection Hkey' as <-.
  exists (even :: paireds). constructor; [|done]. exists share. split_and!.
  - by destruct s.
  - done.
  - rewrite Hbytes. apply decode_encoded.
  - lia.
  - lia.
  - pose proof (honest_share_valid t n K co agg _ paired even key Ht HK Hco Hagg Hi Hrec Heven Hkey) as Hv.
    by rewrite N2Nat.id in Hv.
Qed.

Lemma combined_bytes key nonces message shares sig :
  verify_and_combine (coordinator_sign_session key nonces message) key shares = inr sig ->
  encoded sig = signature_to_bytes sig /\ length (encoded sig) = 64.
Proof.
  intros [HR _]%combined_signature_valid. unfold encoded. rewrite (signature_encoding sig HR).
  split; [done|]. destruct sig. apply signature_to_bytes_length.
Qed.
End end_to_end.

(** ** The Bitcoin verifier accepts *)

Section verified.
Context `{FL : FrostLib, !KeygenLaws, SL : !SigningLaws, !ThresholdLaws, !SecpLaws}.
Context `{BincodeLaws KeygenInput, !Bincode scalar, !BincodeLaws scalar,
          !Bincode EvenPairedShare, !BincodeLaws EvenPairedShare,
          !Bincode EvenSharedKey, !BincodeLaws EvenSharedKey}.
Context `{!Bincode Nonce, !BincodeLaws Nonce, !Bincode (point * scalar), !BincodeLaws (point * scalar)}.
Context `{!SignatureBincode, BL : !BitcoinLib, !BitcoinLaws}.

Lemma combined_passes_bitcoin key nonces digest shares sig :
  verify_and_combine (coordinator_sign_session key nonces (frost_message digest)) key shares =
    inr sig ->
  verify_aggregate_signature_digest (group_key_of key) digest (mkAggregateSignature (encoded sig)) =
    Ok true.
Proof.
  intros Hc. destruct (combined_bytes _ _ _ _ _ Hc) as [Hb Hl].
  apply combined_signature_valid in Hc as [HR Hv]. destruct sig as [R z].
  unfold verify_aggregate_signature_digest. cbn [as_signature_bytes group_key_of gk_xonly_public_key].
  rewrite Hl, Hb. cbn [Nat.eqb negb reject_if].
  rewrite ok_bind, (verify_signature_bytes _ (even_shared_public_key key));
    [by rewrite <- Hv|apply shared_public_key_even|done].
Qed.

(** [shares] sign under [group_key] for every qualified signer set, and the
    Bitcoin verifier accepts. *)
Definition shares_sign (t n : N) (shares : list LocalKeyShare) (group_key : GroupKey) : Prop :=
  forall signing_sid digest signers h,
    blank signing_sid = false -> Forall (fun s => pid_0 s <> 0%N) signers ->
    validate_signer_set signers (mkThresholdConfig t n) = Ok tt ->
    exists h' signature,
      sign_digest_with_shares signing_sid (mkThresholdConfig t n) group_key digest shares signers h =
        (h', Ok signature) /\
      verify_aggregate_signature_digest group_key digest signature = Ok true /\
      length (as_signature_bytes signature) = 64.

Lemma fresh_shares_sign t n K co agg shares :
  (1 <= t <= n)%N -> (n <= u16_max)%N -> K.*1 = seq 1 (N.to_nat n) ->
  add_inputs (coordinator_new t n)
    ((fun k => (N.of_nat k.1 - 1, honest_input t n k)%N) <$> K) = Some co ->
  coordinator_finish co = Some agg ->
  Forall2 (dealt_share t n K agg) (seq 1 (N.to_nat n)) shares ->
  exists key, Forall (fun share => lks_group_key share = group_key_of key) shares /\
    length shares = N.to_nat n /\ shares_sign t n shares (group_key_of key).
Proof.
  intros Ht Hn HK Hco Hagg HF.
  assert (Hlength : length shares = N.to_nat n) by (apply Forall2_length in HF; by rewrite <- HF, length_seq).
  assert (Hkey : exists key, shared_into_even (agg_shared_key agg) = Some key).
  { destruct shares as [|share l]; [cbn in Hlength; lia|].
    apply Forall2_cons_inv_r in HF as (j & L & (_ & (key & Hkey & _) & _) & _). by exists key. }
  destruct Hkey as [key Hkey]. exists key. split_and!; [|done|].
  - clear -HF Hkey. induction HF as [|j share L l (_ & (key' & Hkey' & Hgk) & _) HF IH]; constructor; [|done].
    congruence.
  - intros signing_sid digest signers h Hssid Hpos Hval.
    pose proof (proj1 (validate_signer_set_Ok _ _ _) Hval) as (Hlen & _ & Hrange).
    destruct (dealt_signers_ready t n K co agg key shares signers) as [paireds Hready]; [done..| |].
    { rewrite Forall_forall in Hpos |- *. intros s Hs. specialize (Hpos s Hs).
      specialize (Hrange s Hs). cbn in Hrange. lia. }
    destruct (local_signing_runs signing_sid (Threshold (mkThresholdConfig t n)) (group_key_of key)
                digest shares signers key paireds h)
      as (h' & sig & Hsign & nonces & sshares & Hcomb); [done|done| |done| | |].
    + apply decode_encoded.
    + by eapply honest_threshold.
    + intros ns ss sig [_ Hl]%combined_bytes E. by rewrite E in Hl.
    + exists h', (mkAggregateSignature (encoded sig)). split_and!; [exact Hsign| |].
      * by eapply combined_passes_bitcoin.
      * by apply combined_bytes in Hcomb as [_ Hl].
Qed.

(** C9: FROST works from end to end.  For [1 <= t <= n], over an engine that keeps
    its promises, the shares of the local key generation sign: unless the key
    generation reports a zero key or share, it returns [n] shares of one group
    key, and for every digest and every signer set of at least [t] distinct
    participants, signing with these shares returns a 64-byte signature that the
    Bitcoin verifier accepts under the group key. *)
Theorem frost_end_to_end sid t n g :
  blank sid = false -> (1 <= t <= n)%N -> (n <= u16_max)%N ->
  exists g' r, run_local_frost_dkg sid t n g = (g', r) /\
    ((exists shares group_key,
        r = Ok shares /\ Forall (fun share => lks_group_key share = group_key) shares /\
        length shares = N.to_nat n /\ shares_sign t n shares group_key) \/
     (exists e, r = Err e /\ zero_error e)).
Proof.
  intros Hsid Ht Hn.
  destruct (local_dkg_runs sid t n g Hsid Ht Hn) as (K & co & agg & g' & r & HK & Hco & Hagg & Hrun & Hr).
  exists g', r. split; [done|]. destruct Hr as [(shares & Hr & HF)|?]; [left|by right].
  destruct (fresh_shares_sign t n K co agg shares Ht Hn HK Hco Hagg HF) as (key & ?).
  by exists shares, (group_key_of key).
Qed.
End verified.

(** ** The program *)

Section program.
Context `{FL : FrostLib, BL : !BitcoinLib}.
Context `{Bincode KeygenInput, !Bincode scalar, !Bincode EvenPairedShare, !Bincode EvenSharedKey}.
Context `{!Bincode Nonce, !Bincode (point * scalar)}.

(** What [main] prints. *)
Record SigningReport := mkSigningReport {
  sgr_group_key_hex : string;
  sgr_address : string;
  sgr_message : string;
  sgr_digest_hex : string;
  sgr_verified : bool;
  sgr_signature : bytes;
}.

Definition demo_payout : BitcoinAuthorizationMessage :=
  mkBitcoinAuthorizationMessage "signet" "approve-payment" (Some "tb1p...demo-recipient")
    (Some 100000%N) (Some "hackathon demo payout") "demo-session-001".

(** [expect] is the panic of [local_shares[0]]. *)
Definition message_signing_main : ST rng AnyhowError SigningReport :=
  local_shares ← dkgkit (run_local_frost_dkg "demo-dkg" 2 3);
  first ← st_lift (expect (head local_shares));
  let group_key := lks_group_key first in
  let group_key_hex := hex_encode (gk_xonly_public_key group_key) in
  address ← st_lift (map_err AnyhowText (taproot_address_from_xonly_hex group_key_hex NetSignet));
  let digest := BitcoinAuthorizationMessage_digest demo_payout in
  threshold ← dkgkit (st_lift (ThresholdConfig_new 2 3));
  signers ← dkgkit (st_lift (mapM ParticipantId_new [1; 2]%N));
  aggregate ← dkgkit (sign_digest_with_shares "demo-signing" threshold group_key digest local_shares
                        signers);
  first ← st_lift (expect (head local_shares));
  verified ← st_lift (map_err AnyhowText
                        (verify_aggregate_signature_digest (lks_group_key first) digest aggregate));
  st_lift (reject_if (negb verified)
             (AnyhowText "aggregate signature did not verify against group key"));;
  mret (mkSigningReport group_key_hex address (BitcoinAuthorizationMessage_canonical_text demo_payout)
          (hex_encode digest) verified (as_signature_bytes aggregate)).
End program.

(** The [hex] crate: decoding undoes encoding. *)
Class HexLaws `{BitcoinLib} : Prop := hex_round_trip bs : hex_decode (hex_encode bs) = Some bs.

Section program_theorem.
Context `{FL : FrostLib, !KeygenLaws, SL : !SigningLaws, !ThresholdLaws, !SecpLaws}.
Context `{BincodeLaws KeygenInput, !Bincode scalar, !BincodeLaws scalar,
          !Bincode EvenPairedShare, !BincodeLaws EvenPairedShare,
          !Bincode EvenSharedKey, !BincodeLaws EvenSharedKey}.
Context `{!Bincode Nonce, !BincodeLaws Nonce, !Bincode (point * scalar), !BincodeLaws (point * scalar)}.
Context `{!SignatureBincode, BL : !BitcoinLib, !BitcoinLaws, !HexLaws}.

Lemma shared_key_address key network :
  taproot_address_from_xonly_hex (hex_encode (gk_xonly_public_key (group_key_of key))) network =
  Ok (p2tr_address (even_shared_public_key key) network).
Proof.
  unfold taproot_address_from_xonly_hex, parse_xonly_public_key_hex. rewrite hex_round_trip.
  cbn [ok_or]. rewrite ok_bind. cbn [group_key_of gk_xonly_public_key].
  rewrite point_to_xonly_length. cbn [Nat.eqb negb reject_if]. rewrite !ok_bind.
  unfold taproot_address, library_result. cbn [gk_xonly_public_key].
  by rewrite shared_public_key_even.
Qed.

(** The message-signing program completes: unless the key generation reports a
    zero key or share, [main] generates a key for three participants, derives its
    address, signs the payout with the first two and reports a verified 64-byte
    signature; it never panics. *)
Theorem message_signing_completes g :
  exists g' r, message_signing_main g = (g', r) /\
    ((exists report, r = Ok report /\ sgr_verified report = true /\
                     length (sgr_signature report) = 64) \/
     (exists e, r = Err (AnyhowDkgKit e) /\ zero_error e)).
Proof.
  assert (Hn : (3 <= u16_max)%N) by (vm_compute; discriminate).
  destruct (local_dkg_runs "demo-dkg" 2 3 g eq_refl ltac:(lia) Hn)
    as (K & co & agg & g1 & r & HK & Hco & Hagg & Hrun & Hr). unfold message_signing_main.
  destruct Hr as [(shares & -> & HF)|(e & -> & He)].
  - destruct (fresh_shares_sign 2 3 K co agg shares ltac:(lia) Hn HK Hco Hagg HF)
      as (key & Hkeys & Hlen & Hsigns).
    destruct shares as [|first rest]; [discriminate Hlen|].
    apply Forall_cons in Hkeys as [Hfirst _].
    destruct (Hsigns "demo-signing" (BitcoinAuthorizationMessage_digest demo_payout)
                [mkParticipantId 1; mkParticipantId 2] g1) as (g2 & sig & Hsign & Hver & H64);
      [done|by repeat constructor|done|].
    rewrite (dkgkit_bind_Ok _ _ _ _ _ Hrun), st_lift_bind. cbn [head expect]. rewrite Hfirst.
    cbv zeta. rewrite st_lift_bind, shared_key_address. cbn [map_err]. cbv beta iota.
    do 2 (erewrite dkgkit_bind_Ok; [|reflexivity]).
    rewrite (dkgkit_bind_Ok _ _ _ _ _ Hsign), st_lift_bind. cbn [head expect].
    rewrite st_lift_bind, Hfirst, Hver. cbn [map_err negb reject_if].
    rewrite st_lift_bind. eexists _, _. split; [reflexivity|]. left. by eexists.
  - rewrite (dkgkit_bind_Err _ _ _ _ _ Hrun). eexists _, _. split; [reflexivity|]. right. by exists e.
Qed.
End program_theorem.

(** ** An engine that keeps its promises *)

(** Shares are numbers, the key is the generator, and the coordinator of a signing
    session signs by itself. *)
Definition dealer_engine : @FrostLib small_group := {|
  Contributor := N;
  KeygenInput := N;
  Coordinator := list N;
  AggKeygenInput := list N;
  SecretShare := list (@scalar small_group);
  PairedShare := N;
  EvenPairedShare := N;
  SharedKeyZero := N;
  EvenSharedKey := N;
  Nonce := N;
  NonceKeyPair := N;
  CoordSession := bytes;
  gen_keygen_input t indices i g := ((i, t, (fun x => (x, x)) <$> indices), g);
  coordinator_new _ _ := [];
  coordinator_add_input l i _ := inr (i :: l);
  coordinator_finish := Some;
  collect_secret_inputs _ l := l;
  receive_secret_share _ l := inr (N.of_nat (length l));
  agg_shared_key l := N.of_nat (length l);
  paired_into_even := Some;
  shared_into_even := Some;
  even_shared_public_key _ := (f_keypair (f_of 1)).2;
  gen_nonce share _ g := (share, g);
  nonce_public n := n;
  coordinator_sign_session _ _ message := message;
  party_sign _ _ _ _ n := f_of (Z.of_N n);
  verify_and_combine message _ l := match l with
                                    | [] => inl "no shares"
                                    | _ => inr (f_sign (f_keypair (f_of 1)) message)
                                    end;
|}.

Section witnesses.
Local Existing Instances small_group small_group_laws dealer_engine.
Local Existing Instances scalar_bincode scalar_bincode_laws engine_n_bincode digits_bincode_laws.
Local Existing Instances pair_bincode pair_bincode_laws.

#[local] Instance dealer_keygen : KeygenLaws.
Proof.
  split.
  - intros t indices i g. cbn. rewrite <- list_fmap_compose. apply list_fmap_id.
  - intros t n K _ _.
    assert (Hadd : forall l co, exists co', add_inputs co l = Some co').
    { induction l as [|[i x] l IH]; intros co; [by exists co|]. apply (IH (i :: co)). }
    destruct (Hadd ((fun k => (N.of_nat k.1 - 1, honest_input t n k)%N) <$> K)
                (coordinator_new t n)) as [co Hco].
    exists co, co. split_and!; [exact Hco|done|]. intros j _. by eexists.
Qed.

#[local] Instance dealer_signing : SigningLaws.
Proof.
  refine {| valid_share := fun _ _ _ => True; enough := fun _ m => (0 < m)%nat |}.
  intros key message [|s l] _ Hm _ session; [by apply Nat.lt_irrefl in Hm|]. by eexists.
Defined.

#[local] Instance dealer_threshold : ThresholdLaws.
Proof.
  split.
  - intros. exact I.
  - intros t n K co agg key m Ht _ _ _ _ Hm. cbn. lia.
  - intros key. vm_compute. reflexivity.
  - intros key nonces message [|x l] sig Hsig; [discriminate Hsig|]. injection Hsig as <-. split.
    + vm_compute. reflexivity.
    + apply (@schnorr_sign_verifies small_group small_group_laws (f_of 1) message). discriminate.
Qed.

#[local] Instance dealer_signature_bytes : SignatureBincode.
Proof.
  intros [R s] HR. cbn [fst] in HR. apply point_from_xonly_Some in HR as (_ & Heven & _).
  assert (E : f_abs R = R) by exact (f_equal fst Heven).
  unfold encode_binary. cbn. unfold f_to_bytes at 1. by rewrite E.
Qed.

Local Existing Instances toy_bitcoin toy_bitcoin_laws.

#[local] Instance toy_hex : HexLaws.
Proof.
  intros bs. change (Some (String.list_byte_of_string (String.string_of_list_byte bs)) = Some bs).
  by rewrite String.list_byte_of_string_of_list_byte.
Qed.

Definition signing_seed : rng := 0%Z.

Lemma frost_end_to_end_witness :
  exists g' shares group_key,
    run_local_frost_dkg "demo" 2 3 signing_seed = (g', Ok shares) /\ length shares = 3 /\
    exists h' signature,
      sign_digest_with_shares "sign" (mkThresholdConfig 2 3) group_key [x05] shares
        [mkParticipantId 3; mkParticipantId 1] g' = (h', Ok signature) /\
      verify_aggregate_signature_digest group_key [x05] signature = Ok true.
Proof.
  destruct (frost_end_to_end "demo" 2 3 signing_seed) as (g' & r & Hrun & Hr).
  - reflexivity.
  - lia.
  - discriminate.
  - destruct Hr as [(shares & key & -> & _ & Hlen & Hsigns)|(e & -> & _)].
    + exists g', shares, key. split; [exact Hrun|]. split; [exact Hlen|].
      destruct (Hsigns "sign" [x05] [mkParticipantId 3; mkParticipantId 1] g')
        as (h' & sig & Hs & Hv & _); [reflexivity|repeat constructor; discriminate|reflexivity|].
      exists h', sig. split; [exact Hs|exact Hv].
    + exfalso. assert (Hok : is_ok (run_local_frost_dkg "demo" 2 3 signing_seed).2 = true)
        by (vm_compute; reflexivity).
      rewrite Hrun in Hok. discriminate Hok.
Defined.

Lemma message_signing_completes_witness :
  exists g' report, message_signing_main signing_seed = (g', Ok report) /\ sgr_verified report = true.
Proof.
  destruct (message_signing_completes signing_seed) as (g' & r & Hrun & Hr).
  destruct Hr as [(report & -> & Hv & _)|(e & -> & _)].
  - exists g', report. split; [exact Hrun|exact Hv].
  - exfalso. assert (Hok : is_ok (message_signing_main signing_seed).2 = true)
      by (vm_compute; reflexivity).
    rewrite Hrun in Hok. discriminate Hok.
Defined.
End witnesses.
