(* ===== verification/SdkTests.v ===== *)
(** The unit tests of [crates/dkgkit-sdk/src/lib.rs].

    The tests of the coordinator run over the in-memory transport.  All tests are
    run on the small group with the engine [dealer_engine], whose signatures
    verify. *)

From Stdlib Require Import Ascii String Strings.Byte.
From stdpp Require Import base numbers countable gmap strings list.
From S2P Require Import Prelude Core TestKit Codec Transport Secp SmallGroup Packages SignerPolicy Birkhoff HtssKeygen HtssDkg HtssSigning FrostSession Sdk Ceremony FrostTests Bitcoin Keyspend BitcoinTests MessageSigning.

Section builder.

Definition builder_creates_manifest : Result unit :=
  let builder := DkgKitSessionBuilder_session_id DkgKitSessionBuilder_new "demo" in
  let builder := DkgKitSessionBuilder_threshold builder 2 3 in
  builder ← unwrap (DkgKitSessionBuilder_participant builder 1 (Some "alice"));
  builder ← unwrap (DkgKitSessionBuilder_participant builder 2 (Some "bob"));
  builder ← unwrap (DkgKitSessionBuilder_participant builder 3 (Some "carol"));
  manifest ← unwrap (DkgKitSessionBuilder_build_manifest builder);
  assert_eq (tc_threshold (sc_threshold (sm_config manifest))) 2%N;;
  assert_eq (length (sc_participants (sm_config manifest))) 3.
End builder.

(** ** The coordinator *)

Section coordinator.
Context `{SerdeJson Round1Package, SerdeJson Round2Package, SerdeJson NoncePackage,
          SerdeJson SignatureSharePackage, SerdeJson HtssDkgRound1Package,
          SerdeJson HtssDkgRound2Package, SerdeJson HtssNoncePackage,
          SerdeJson HtssSignatureSharePackage}.

Local Abbreviation CoordinatorST := (ST (FrostCoordinator MemoryTransport) DkgKitError).

(** [let mut coordinator = FrostCoordinator::new(MemoryTransport::default())] *)
Definition test_coordinator : FrostCoordinator MemoryTransport :=
  FrostCoordinator_new MemoryTransport_default.

Definition frost_coordinator_publishes_and_drains_round1_packages : CoordinatorST unit :=
  session_id ← st_lift (unwrap (SessionId_new "dkg-demo"));
  st_unwrap (E := DkgKitError) FrostCoordinator_connect;;
  one ← st_lift (pid 1);
  st_unwrap (publish_round1 session_id (mkRound1Package one [x01; x02; x03]));;
  packages ← st_unwrap (drain_round1 session_id);
  st_lift (assert_eq (length packages) 1);;
  first ← st_lift (index packages 0);
  st_lift (assert_eq (r1_participant_id first) one);;
  st_lift (assert_eq (r1_bytes first) [x01; x02; x03]).

Definition frost_coordinator_filters_round2_by_recipient : CoordinatorST unit :=
  session_id ← st_lift (unwrap (SessionId_new "dkg-demo"));
  one ← st_lift (pid 1);
  two ← st_lift (pid 2);
  three ← st_lift (pid 3);
  st_unwrap (publish_round2 session_id (mkRound2Package one two [x02]));;
  st_unwrap (publish_round2 session_id (mkRound2Package one three [x03]));;
  packages ← st_unwrap (drain_round2_for session_id two);
  st_lift (assert_eq (length packages) 1);;
  first ← st_lift (index packages 0);
  st_lift (assert_eq (r2_recipient first) two).

Definition frost_coordinator_publishes_and_drains_signing_packages : CoordinatorST unit :=
  signing_session_id ← st_lift (unwrap (SessionId_new "sign-demo"));
  one ← st_lift (pid 1);
  two ← st_lift (pid 2);
  st_unwrap (publish_nonce (mkNoncePackage one signing_session_id [x07]));;
  st_unwrap (publish_signature_share
               (mkSignatureSharePackage two signing_session_id [x07] [x08]));;
  nonces ← st_unwrap (drain_nonces signing_session_id);
  st_lift (assert_eq (length nonces) 1);;
  nonce ← st_lift (index nonces 0);
  st_lift (assert_eq (np_participant_id nonce) one);;
  shares ← st_unwrap (drain_signature_shares signing_session_id);
  st_lift (assert_eq (length shares) 1);;
  share ← st_lift (index shares 0);
  st_lift (assert_eq (ssp_participant_id share) two).

Definition frost_coordinator_publishes_and_drains_htss_signing_packages : CoordinatorST unit :=
  signing_session_id ← st_lift (unwrap (SessionId_new "htss-sign-demo"));
  one ← st_lift (pid 1);
  two ← st_lift (pid 2);
  st_unwrap (publish_htss_nonce (mkHtssNoncePackage one signing_session_id (replicate 33 x02)));;
  st_unwrap (publish_htss_signature_share
               (mkHtssSignatureSharePackage two signing_session_id (replicate 32 x04)));;
  nonces ← st_unwrap (drain_htss_nonces signing_session_id);
  st_lift (assert_eq (length nonces) 1);;
  nonce ← st_lift (index nonces 0);
  st_lift (assert_eq (hnp_participant_id nonce) one);;
  shares ← st_unwrap (drain_htss_signature_shares signing_session_id);
  st_lift (assert_eq (length shares) 1);;
  share ← st_lift (index shares 0);
  st_lift (assert_eq (hsp_participant_id share) two).

Definition coordinator_tests : list (CoordinatorST unit) :=
  [frost_coordinator_publishes_and_drains_round1_packages;
   frost_coordinator_filters_round2_by_recipient;
   frost_coordinator_publishes_and_drains_signing_packages;
   frost_coordinator_publishes_and_drains_htss_signing_packages].
End coordinator.

(** ** The HTSS service over a coordinator *)

Section service.
Context `{BitcoinLib} `{SerdeJson HtssDkgRound1Package, SerdeJson HtssDkgRound2Package}.

(** The variable [coordinator] and the generator of [thread_rng()]. *)
Local Abbreviation ServiceST := (ST (FrostCoordinator MemoryTransport * rng) DkgKitError).

Definition on_coordinator {A} (op : ST (FrostCoordinator MemoryTransport) DkgKitError A) :
  ServiceST A := st_unwrap (st_zoom fst (fun c st => (c, st.2)) op).

Definition htss_dkg_service_entrypoints_publish_drain_and_finalize : ServiceST unit :=
  participants ← st_lift (participants_of [(1, 0, "admin"); (2, 1, "ops-a"); (3, 1, "ops-b")]%N);
  config ← st_lift (unwrap (HierarchicalThresholdConfig_new 2 participants));
  service ← st_lift (unwrap (HtssDkgService_new "sdk-htss-dkg-entrypoint" config));
  let session_id := hds_session_id service in
  states ← st_unwrap (st_zoom snd (fun g st => (st.1, g))
             (mapM (fun participant => HtssDkgService_begin_round1 service (rp_id participant))
                (htc_participants (hds_config service))));
  mapM (fun state => on_coordinator (publish_htss_dkg_round1 session_id (h1s_package state)))
    states;;
  round1_packages ← on_coordinator (drain_htss_dkg_round1 session_id);
  st_lift (assert_eq (length round1_packages) 3);;
  mapM (fun state =>
          packages ← st_lift (unwrap (HtssDkgService_create_round2_packages service state
                                        round1_packages));
          mapM (fun package => on_coordinator (publish_htss_dkg_round2 session_id package)) packages)
    states;;
  one ← st_lift (pid 1);
  round2_for_one ← on_coordinator (drain_htss_dkg_round2_for session_id one);
  '(group_key, share) ← st_lift (unwrap (HtssDkgService_finalize_participant service one
                                           round1_packages round2_for_one));
  st_lift (assert_eq (hks_participant_id share) one);;
  let account_key := BitcoinAccountKey_new group_key (array 42) in
  descriptor ← st_lift (unwrap (taproot_child_address_descriptor_for_network account_key "regtest"
                                  (BitcoinDerivationPath_bip86 0 0 0)));
  st_lift (assert_eq (BitcoinDerivationPath_display_path (bad_path descriptor))
             "m/86'/0'/0'/0/0");;
  st_lift (assert (text_starts_with "bcrt1p" (bad_address descriptor)));;
  st_lift (assert_eq (String.length (bad_account_xonly_public_key_hex descriptor)) 64);;
  st_lift (assert_ne (bad_internal_xonly_public_key_hex descriptor)
             (bad_account_xonly_public_key_hex descriptor)).
End service.

(** ** The local ceremonies *)

Section ceremonies.
Context `{FL : FrostLib, BL : !BitcoinLib}.
Context `{Bincode KeygenInput, !Bincode scalar, !Bincode EvenPairedShare, !Bincode EvenSharedKey}.
Context `{!Bincode Nonce, !Bincode (point * scalar)}.

(** [shares[i].group_key.clone()] *)
Definition key_of (shares : list LocalKeyShare) (i : nat) : Result GroupKey :=
  lks_group_key <$> index shares i.

(** The ranked policies the tests write out. *)
Definition ranked_policy (threshold : N) (l : list (N * N * string)) :
  Result HierarchicalThresholdConfig :=
  participants ← participants_of l;
  unwrap (HierarchicalThresholdConfig_new threshold participants).

Definition high_level_helpers_run_dkg_and_sign_digest : ST rng DkgKitError unit :=
  shares ← st_unwrap (run_local_frost_dkg "sdk-demo" 2 3);
  st_lift (assert_eq (length shares) 3);;
  key_0 ← st_lift (key_of shares 0);
  key_1 ← st_lift (key_of shares 1);
  st_lift (assert_eq key_0 key_1);;
  threshold ← st_lift (unwrap (ThresholdConfig_new 2 3));
  signers ← st_lift (pids [1; 2]%N);
  signature ← st_unwrap (sign_digest_with_shares "sdk-sign" threshold key_0 (array 9) shares signers);
  st_lift (assert_eq (length (as_signature_bytes signature)) 64).

Definition high_level_helper_can_enforce_hierarchical_policy : ST rng DkgKitError unit :=
  shares ← st_unwrap (run_local_frost_dkg "sdk-htss-demo" 2 3);
  config ← st_lift (ranked_policy 2 [(1, 0, "admin"); (2, 1, "operator-a"); (3, 1, "operator-b")]%N);
  let policy := Hierarchical config in
  group_key ← st_lift (key_of shares 0);
  signers ← st_lift (pids [1; 2]%N);
  signature ← st_unwrap (sign_digest_with_shares_and_policy "sdk-htss-sign" policy group_key
                           (array 7) shares signers);
  st_lift (assert_eq (length (as_signature_bytes signature)) 64);;
  signers ← st_lift (pids [2; 3]%N);
  err ← st_unwrap_err (sign_digest_with_shares_and_policy "sdk-htss-sign-reject" policy group_key
                         (array 7) shares signers);
  st_lift (assert (text_contains "Birkhoff rank rule" (DkgKitError_to_string err))).

Definition sdk_exports_birkhoff_points_for_hierarchical_signer_set : Result unit :=
  config ← ranked_policy 3 [(1, 0, "admin"); (2, 1, "finance"); (3, 1, "ops")]%N;
  signers ← pids [1; 2; 3]%N;
  points ← unwrap (birkhoff_points_from_hierarchical_signer_set signers config);
  coefficients ← unwrap (birkhoff_interpolation_coefficients points);
  assert_eq (length coefficients) 3;;
  first ← index coefficients 0;
  one ← pid 1;
  assert_eq (bc_participant_id first) one.

Definition sdk_exports_hierarchical_signing_request : ST rng DkgKitError unit :=
  shares ← st_unwrap (run_local_frost_dkg "sdk-hierarchical-request-demo" 2 3);
  config ← st_lift (ranked_policy 2 [(1, 0, "admin"); (2, 1, "operator-a"); (3, 1, "operator-b")]%N);
  session_id ← st_lift (unwrap (SessionId_new "sdk-hierarchical-request-sign"));
  group_key ← st_lift (key_of shares 0);
  signers ← st_lift (pids [1; 2]%N);
  request ← st_lift (unwrap (HierarchicalSigningRequest_new session_id group_key (array 8) signers
                               config));
  st_lift (assert_eq (length (hsr_coefficients request)) 2).

(** [assert!(verify_aggregate_signature_digest(..).unwrap())] *)
Definition assert_aggregate_verifies (group_key : GroupKey) (digest : bytes)
    (signature : AggregateSignature) : Result unit :=
  verified ← unwrap (verify_aggregate_signature_digest group_key digest signature);
  assert verified.

Definition sdk_exports_local_htss_keygen_and_signing : ST rng DkgKitError unit :=
  config ← st_lift (ranked_policy 3
    [(1, 0, "admin"); (2, 1, "finance"); (3, 1, "ops"); (4, 2, "operator")]%N);
  keyset ← st_unwrap (run_local_htss_keygen config);
  let digest := array 13 in
  signers ← st_lift (pids [1; 2; 4]%N);
  signature ← st_lift (unwrap (sign_digest_with_local_htss_shares (hkset_group_key keyset) digest
                                 (hkset_shares keyset) signers config));
  st_lift (assert_aggregate_verifies (hkset_group_key keyset) digest signature).

Definition sdk_exports_local_htss_threshold_share_signing : ST rng DkgKitError unit :=
  config ← st_lift (ranked_policy 3
    [(1, 0, "admin"); (2, 1, "finance"); (3, 1, "ops"); (4, 2, "operator")]%N);
  keyset ← st_unwrap (run_local_htss_keygen config);
  let digest := array 16 in
  signers ← st_lift (pids [1; 2; 4]%N);
  signature ← st_unwrap (sign_digest_with_local_htss_threshold_shares (hkset_group_key keyset)
                           digest (hkset_shares keyset) signers config);
  st_lift (assert_aggregate_verifies (hkset_group_key keyset) digest signature).

Definition high_level_helper_can_enforce_grouped_threshold_policy : ST rng DkgKitError unit :=
  shares ← st_unwrap (run_local_frost_dkg "sdk-grouped-demo" 6 10);
  config ← st_lift test_grouped_config_123_of_235;
  let policy := Grouped config in
  group_key ← st_lift (key_of shares 0);
  signers ← st_lift (pids [1; 3; 4; 6; 7; 8]%N);
  signature ← st_unwrap (sign_digest_with_shares_and_policy "sdk-grouped-sign" policy group_key
                           (array 10) shares signers);
  st_lift (assert_eq (length (as_signature_bytes signature)) 64);;
  signers ← st_lift (pids [1; 3; 6; 7; 8; 9]%N);
  err ← st_unwrap_err (sign_digest_with_shares_and_policy "sdk-grouped-sign-reject" policy group_key
                         (array 10) shares signers);
  st_lift (assert (text_contains "rank 1 needs 2" (DkgKitError_to_string err))).

Definition sdk_can_sign_grouped_policy_with_local_htss_threshold_shares :
  ST rng DkgKitError unit :=
  config ← st_lift test_grouped_config_123_of_235;
  keyset ← st_unwrap (run_local_grouped_htss_keygen config);
  signer_set ← st_lift (pids [1; 3; 4; 6; 7; 8]%N);
  let digest := array 19 in
  signature ← st_unwrap (sign_digest_with_local_grouped_htss_threshold_shares
                           (hkset_group_key keyset) digest (hkset_shares keyset) signer_set config);
  st_lift (assert_aggregate_verifies (hkset_group_key keyset) digest signature).

Definition sdk_exports_grouped_signing_request : ST rng DkgKitError unit :=
  shares ← st_unwrap (run_local_frost_dkg "sdk-grouped-request-demo" 6 10);
  config ← st_lift test_grouped_config_123_of_235;
  session_id ← st_lift (unwrap (SessionId_new "sdk-grouped-request-sign"));
  group_key ← st_lift (key_of shares 0);
  signers ← st_lift (pids [1; 3; 4; 6; 7; 8]%N);
  request ← st_lift (unwrap (GroupedSigningRequest_new session_id group_key (array 11) signers
                               config));
  required ← st_lift (GroupedThresholdConfig_required_signer_count (gsr_config request));
  st_lift (assert_eq required 6%N).

(** This test returns its errors. *)
Definition bitcoin_authorization_signature_verifies_against_frost_group_key :
  ST rng DkgKitError unit :=
  threshold ← st_lift (ThresholdConfig_new 2 3);
  shares ← run_local_frost_dkg "sdk-bitcoin-verification-dkg" 2 3;
  group_key ← st_lift (key_of shares 0);
  let authorization := mkBitcoinAuthorizationMessage "signet" "approve-payment"
    (Some "tb1ptestrecipient") (Some 25000%N) (Some "sdk integration test")
    "sdk-bitcoin-verification-001" in
  let digest := BitcoinAuthorizationMessage_digest authorization in
  signers ← st_lift (mapM ParticipantId_new [1; 3]%N);
  signature ← sign_digest_with_shares "sdk-bitcoin-verification-signing" threshold group_key digest
                shares signers;
  st_lift (assert_aggregate_verifies group_key digest signature).

Definition ceremony_tests : list (ST rng DkgKitError unit) :=
  [high_level_helpers_run_dkg_and_sign_digest;
   high_level_helper_can_enforce_hierarchical_policy;
   sdk_exports_hierarchical_signing_request;
   sdk_exports_local_htss_keygen_and_signing;
   sdk_exports_local_htss_threshold_share_signing;
   high_level_helper_can_enforce_grouped_threshold_policy;
   sdk_can_sign_grouped_policy_with_local_htss_threshold_shares;
   sdk_exports_grouped_signing_request;
   bitcoin_authorization_signature_verifies_against_frost_group_key].
End ceremonies.

(** ** The runs *)

Section runs.
Local Existing Instances small_group small_group_laws digits_json hex_bitcoin.

(** The tests of the crate pass. *)
Theorem sdk_tests_pass :
  passes builder_creates_manifest /\
  Forall (fun test => st_passes test test_coordinator) coordinator_tests /\
  st_passes htss_dkg_service_entrypoints_publish_drain_and_finalize (test_coordinator, 7%Z) /\
  passes sdk_exports_birkhoff_points_for_hierarchical_signer_set /\
  Forall (fun test => st_passes test 7%Z)
    (@ceremony_tests small_group dealer_engine hex_bitcoin engine_n_bincode scalar_bincode
       engine_n_bincode engine_n_bincode engine_n_bincode pair_bincode).
Proof. split_and!; repeat constructor; apply passes_is_ok; vm_compute; reflexivity. Qed.
End runs.
