(* ===== verification/VaultService.v ===== *)
(** [examples/vault-service/src/main.rs]: a vault service that owns the key shares
    of a grouped policy, runs the HTSS key generation over its coordinator, derives
    receive addresses and signs authorizations.

    The service composes the components below it: the policies of [Core], the
    distributed key generation of [HtssDkg], the coordinator of [Sdk] over the
    event transport of [Nostr], the signing of [HtssSigning] and the addresses and
    signature checks of [Bitcoin].  [rand::thread_rng()] is a generator state next
    to the service. *)

From Stdlib Require Import Ascii String Strings.Byte.
From stdpp Require Import base numbers countable gmap strings list sorting.
From S2P Require Import Prelude Core Codec Transport Secp SmallGroup Packages SignerPolicy.
From S2P Require Import Birkhoff HtssKeygen Certificates HtssDkg HtssSigning Sdk Nostr Bitcoin.

Section service.
Context `{BitcoinLib} `{SerdeJson ProtocolMessage} `{Utf8Error}.
Context `{SerdeJson HtssDkgRound1Package, SerdeJson HtssDkgRound2Package,
          SerdeJson HtssNoncePackage, SerdeJson HtssSignatureSharePackage}.

Record InMemoryVaultService := mkInMemoryVaultService {
  vs_vault_id : string;
  vs_network : string;
  vs_chain_code : bytes;
  vs_grouped_config : GroupedThresholdConfig;
  vs_dkg : HtssDkgService;
  vs_coordinator : FrostCoordinator LocalNostrEventTransport;
  vs_round1_states : gmap ParticipantId HtssDkgRound1State;
  vs_local_shares : gmap ParticipantId HtssLocalKeyShare;
  vs_group_key : option GroupKey;
}.

Definition with_coordinator (c : FrostCoordinator LocalNostrEventTransport)
    (s : InMemoryVaultService) : InMemoryVaultService :=
  mkInMemoryVaultService (vs_vault_id s) (vs_network s) (vs_chain_code s) (vs_grouped_config s)
    (vs_dkg s) c (vs_round1_states s) (vs_local_shares s) (vs_group_key s).

Definition with_round1_state (id : ParticipantId) (state : HtssDkgRound1State)
    (s : InMemoryVaultService) : InMemoryVaultService :=
  mkInMemoryVaultService (vs_vault_id s) (vs_network s) (vs_chain_code s) (vs_grouped_config s)
    (vs_dkg s) (vs_coordinator s) (<[id := state]> (vs_round1_states s)) (vs_local_shares s)
    (vs_group_key s).

Definition with_local_share (id : ParticipantId) (share : HtssLocalKeyShare)
    (s : InMemoryVaultService) : InMemoryVaultService :=
  mkInMemoryVaultService (vs_vault_id s) (vs_network s) (vs_chain_code s) (vs_grouped_config s)
    (vs_dkg s) (vs_coordinator s) (vs_round1_states s) (<[id := share]> (vs_local_shares s))
    (vs_group_key s).

Definition with_group_key (key : GroupKey) (s : InMemoryVaultService) : InMemoryVaultService :=
  mkInMemoryVaultService (vs_vault_id s) (vs_network s) (vs_chain_code s) (vs_grouped_config s)
    (vs_dkg s) (vs_coordinator s) (vs_round1_states s) (vs_local_shares s) (Some key).

Definition InMemoryVaultService_new (vault_id dkg_session_id network : string)
    (chain_code : bytes) (grouped_config : GroupedThresholdConfig) :
  Result InMemoryVaultService :=
  htss_config ← hierarchical_config_from_grouped_threshold grouped_config;
  dkg ← HtssDkgService_new dkg_session_id htss_config;
  Ok (mkInMemoryVaultService vault_id network chain_code grouped_config dkg
        (mkFrostCoordinator LocalNostrEventTransport_default) ∅ ∅ None).

(** The methods that draw random numbers run on the service and the generator. *)
Local Abbreviation VaultST := (ST (InMemoryVaultService * rng)).

Definition on_coordinator {A}
    (op : ST (FrostCoordinator LocalNostrEventTransport) DkgKitError A) : VaultST DkgKitError A :=
  st_zoom (fun sg => vs_coordinator sg.1) (fun c sg => (with_coordinator c sg.1, sg.2)) op.

Definition on_rng {A} (op : ST rng DkgKitError A) : VaultST DkgKitError A :=
  st_zoom snd (fun g sg => (sg.1, g)) op.

Definition on_service (f : InMemoryVaultService -> InMemoryVaultService) : VaultST DkgKitError unit :=
  st_modify (fun sg => (f sg.1, sg.2)).

Definition connect_transport : VaultST DkgKitError unit :=
  on_coordinator FrostCoordinator_connect.

(** ** Key generation *)

(** One iteration of the three loops of [run_htss_dkg]. *)
Definition begin_participant (dkg : HtssDkgService) (participant : RankedParticipant) :
  VaultST DkgKitError unit :=
  state ← on_rng (HtssDkgService_begin_round1 dkg (rp_id participant));
  on_coordinator (publish_htss_dkg_round1 (hds_session_id dkg) (h1s_package state));;
  on_service (with_round1_state (rp_id participant) state).

Definition send_round2 (dkg : HtssDkgService) (round1_packages : list HtssDkgRound1Package)
    (state : HtssDkgRound1State) : VaultST DkgKitError (list unit) :=
  packages ← st_lift (HtssDkgService_create_round2_packages dkg state round1_packages);
  mapM (fun package => on_coordinator (publish_htss_dkg_round2 (hds_session_id dkg) package))
    packages.

Definition finish_participant (dkg : HtssDkgService)
    (round1_packages : list HtssDkgRound1Package) (participant : RankedParticipant) :
  VaultST DkgKitError unit :=
  round2_for_participant ←
    on_coordinator (drain_htss_dkg_round2_for (hds_session_id dkg) (rp_id participant));
  '(group_key, local_share) ←
    st_lift (HtssDkgService_finalize_participant dkg (rp_id participant) round1_packages
               round2_for_participant);
  known ← st_gets (fun sg => vs_group_key sg.1);
  match known with
  | Some existing =>
      st_lift (reject_if (bool_decide (gk_xonly_public_key existing
                                       <> gk_xonly_public_key group_key))
                 (Protocol "participants derived different group keys"))
  | None => on_service (with_group_key group_key)
  end;;
  on_service (with_local_share (rp_id participant) local_share).

Definition run_htss_dkg : VaultST DkgKitError unit :=
  dkg ← st_gets (fun sg => vs_dkg sg.1);
  mapM (begin_participant dkg) (htc_participants (hds_config dkg));;
  round1_packages ← on_coordinator (drain_htss_dkg_round1 (hds_session_id dkg));
  round1_states ← st_gets (fun sg => vs_round1_states sg.1);
  mapM (send_round2 dkg round1_packages) (btree_values round1_states);;
  mapM (finish_participant dkg round1_packages) (htc_participants (hds_config dkg));;
  mret tt.

(** ** Addresses *)

Definition derive_receive_address (self : InMemoryVaultService)
    (account change address_index : N) : Outcome AnyhowError BitcoinAddressDescriptor :=
  group_key ← ok_or (vs_group_key self) (AnyhowText "vault DKG is not finalized");
  let account_key := BitcoinAccountKey_new group_key (vs_chain_code self) in
  let path := BitcoinDerivationPath_bip86 account change address_index in
  map_err AnyhowText
    (taproot_child_address_descriptor_for_network account_key (vs_network self) path).

(** ** Signing *)

Definition select_local_share (shares : gmap ParticipantId HtssLocalKeyShare)
    (participant_id : ParticipantId) : Outcome AnyhowError HtssLocalKeyShare :=
  ok_or (shares !! participant_id)
    (AnyhowText ("missing local share for signer " +:+ dec (pid_0 participant_id))).

Definition sign_and_publish (group_key : GroupKey) (digest : bytes)
    (public_nonces : list HtssNoncePackage) (signer_set : list ParticipantId)
    (config : HierarchicalThresholdConfig) (item : HtssLocalKeyShare * HtssLocalNonce) :
  VaultST DkgKitError unit :=
  let '(share, nonce) := item in
  signature_share ← st_lift (htss_sign_share group_key digest share nonce public_nonces signer_set
                               config);
  on_coordinator (publish_htss_signature_share signature_share).

(** The second half of [sign_authorization]: from the public nonces to the
    verified aggregate. *)
Definition finish_authorization (group_key : GroupKey) (digest : bytes)
    (signing_session_id : SessionId) (public_nonces : list HtssNoncePackage)
    (signer_set : list ParticipantId) (config : HierarchicalThresholdConfig)
    (items : list (HtssLocalKeyShare * HtssLocalNonce)) :
  VaultST AnyhowError HtssSignatureSharePackage :=
  dkgkit (mapM (sign_and_publish group_key digest public_nonces signer_set config) items);;
  signature_shares ← dkgkit (on_coordinator (drain_htss_signature_shares signing_session_id));
  aggregate ← dkgkit (st_lift (aggregate_htss_signature_shares group_key digest public_nonces
                                 signature_shares signer_set config));
  verified ← st_lift (map_err AnyhowText
                        (verify_aggregate_signature_digest group_key digest aggregate));
  st_lift (reject_if (negb verified)
             (AnyhowText "aggregate signature failed Bitcoin verification"));;
  st_lift (ok_or (head signature_shares) (AnyhowText "no signature shares produced")).

Definition sign_authorization (signing_session_id : string)
    (authorization : BitcoinAuthorizationMessage) (signer_set : list ParticipantId) :
  VaultST AnyhowError HtssSignatureSharePackage :=
  self ← st_gets fst;
  dkgkit (st_lift (validate_grouped_threshold_signer_set signer_set (vs_grouped_config self)));;
  group_key ← st_lift (ok_or (vs_group_key self) (AnyhowText "vault DKG is not finalized"));
  signing_session_id ← dkgkit (st_lift (SessionId_new signing_session_id));
  let digest := BitcoinAuthorizationMessage_digest authorization in
  selected_shares ← st_lift (mapM (select_local_share (vs_local_shares self)) signer_set);
  local_nonces ← dkgkit (on_rng (mapM (htss_nonce signing_session_id) selected_shares));
  dkgkit (mapM (fun nonce => on_coordinator (publish_htss_nonce (hln_package nonce))) local_nonces);;
  public_nonces ← dkgkit (on_coordinator (drain_htss_nonces signing_session_id));
  finish_authorization group_key digest signing_session_id public_nonces signer_set
    (hds_config (vs_dkg self)) (zip selected_shares local_nonces).

(** ** The program *)

Definition grouped_config_123_of_235 : Result GroupedThresholdConfig :=
  participants ← mapM (fun '(id, rank, label) => RankedParticipant_new id rank (Some label))
    [(1%N, 0%N, "c-level-a"); (2%N, 0%N, "c-level-b"); (3%N, 1%N, "manager-a");
     (4%N, 1%N, "manager-b"); (5%N, 1%N, "manager-c"); (6%N, 2%N, "operator-a");
     (7%N, 2%N, "operator-b"); (8%N, 2%N, "operator-c"); (9%N, 2%N, "operator-d");
     (10%N, 2%N, "operator-e")];
  requirements ← mapM (fun '(rank, required, total) => GroupThresholdRequirement_new rank required total)
    [(0%N, 1%N, 2%N); (1%N, 2%N, 3%N); (2%N, 3%N, 5%N)];
  GroupedThresholdConfig_new participants requirements.

(** What [main] prints. *)
Record VaultReport := mkVaultReport {
  vr_vault_id : string;
  vr_group_key_hex : string;
  vr_path : string;
  vr_address : string;
  vr_signers : list N;
  vr_digest_hex : string;
  vr_first_share_participant : N;
  vr_remaining_events : nat;
}.

(** The part of [main] that works on the service. *)
Definition treasury_session : VaultST AnyhowError VaultReport :=
  dkgkit connect_transport;;
  dkgkit run_htss_dkg;;
  self ← st_gets fst;
  address ← st_lift (derive_receive_address self 0 0 0);
  let authorization :=
    mkBitcoinAuthorizationMessage "regtest" "approve-payment" (Some (bad_address address))
      (Some 100000%N) (Some "vault-service spec execution") "approval-001" in
  signer_set ← dkgkit (st_lift (mapM ParticipantId_new [1; 3; 4; 6; 7; 8]%N));
  first_share ← sign_authorization "treasury-demo-signing" authorization signer_set;
  self ← st_gets fst;
  group_key ← st_lift (expect (vs_group_key self));
  mret (mkVaultReport (vs_vault_id self) (hex_encode (gk_xonly_public_key group_key))
          (BitcoinDerivationPath_display_path (bad_path address)) (bad_address address)
          (pid_0 <$> signer_set) (hex_encode (BitcoinAuthorizationMessage_digest authorization))
          (pid_0 (hsp_participant_id first_share))
          (LocalNostrEventTransport_pending_len (fc_transport (vs_coordinator self)))).

(** A service that lives as long as the call. *)
Definition with_service {E A} (service : InMemoryVaultService) (m : VaultST E A) : ST rng E A :=
  fun g => let '((_, g), r) := m (service, g) in (g, r).

Definition vault_main : ST rng AnyhowError VaultReport :=
  service ← st_lift (map_err AnyhowDkgKit
                       (grouped ← grouped_config_123_of_235;
                        InMemoryVaultService_new "treasury-demo" "treasury-demo-dkg" "regtest"
                          (replicate 32 Byte.x2a) grouped));
  with_service service treasury_session.
End service.

(** ** A run of the key generation *)

Section dkg_run.
Context `{BitcoinLib} `{!SecpLaws}.
Context `{SerdeJson ProtocolMessage} `{!SerdeJsonLaws ProtocolMessage} `{Utf8Error}.
Context `{SerdeJson HtssDkgRound1Package, SerdeJson HtssDkgRound2Package}.
Context `{!SerdeJsonLaws HtssDkgRound1Package, !SerdeJsonLaws HtssDkgRound2Package}.

Context (s0 : InMemoryVaultService).
Local Abbreviation dkg := (vs_dkg s0).
Local Abbreviation sid := (hds_session_id (vs_dkg s0)).
Local Abbreviation config := (hds_config (vs_dkg s0)).
Hypothesis wf : wf_hierarchical config.
Hypothesis sid_ok : blank (sid_0 sid) = false.
Hypothesis ids_ok : forall p, p ∈ htc_participants config -> pid_0 (rp_id p) <> 0%N.

(** The states a run goes through differ from [s0] in four fields. *)
Definition vault_at (c : FrostCoordinator LocalNostrEventTransport)
    (states : gmap ParticipantId HtssDkgRound1State)
    (shares : gmap ParticipantId HtssLocalKeyShare) (key : option GroupKey) :
  InMemoryVaultService :=
  mkInMemoryVaultService (vs_vault_id s0) (vs_network s0) (vs_chain_code s0)
    (vs_grouped_config s0) dkg c states shares key.

Definition round1_sent (k : contributor) (m : ProtocolMessage) : Prop :=
  HtssDkgRound1Package_from_protocol_message m = Ok (round1_of k) /\
  pm_session_id m = sid /\ pm_kind m = HtssDkgRound1.

Definition round2_sent (x : HtssDkgRound2Package) (m : ProtocolMessage) : Prop :=
  HtssDkgRound2Package_from_protocol_message m = Ok x /\
  pm_session_id m = sid /\ pm_kind m = HtssDkgRound2 /\ pm_recipient m = Some (h2_recipient x).

Lemma begin_participant_ok p c states shares key g :
  p ∈ htc_participants config -> coordinator_ok c ->
  exists f m c' g',
    begin_participant dkg p (vault_at c states shares key, g) =
      ((vault_at c' (<[rp_id p := state_of (p, f)]> states) shares key, g'), Ok tt) /\
    good_contributor config (p, f) /\ round1_sent (p, f) m /\
    coordinator_ok c' /\ coordinator_pending c' = coordinator_pending c ++ [m].
Proof.
  intros Hp Hok. destruct (round1_single config wf p g Hp) as (f & g' & Hr & Hgood).
  destruct (converted _ _ _ _ _ (fun _ => sid)
              (fun x => HtssDkgRound1Package_to_protocol_message x sid) (round1_of (p, f))
              htss_dkg_round1_package_accepts ltac:(done) I)
    as (m & Hm & Hfrom & Hs & Hk & Hsender & Hrec).
  destruct (publish_message_spec (fun x => HtssDkgRound1Package_to_protocol_message x sid)
              (round1_of (p, f)) m c Hm) as (c' & Hpub & Hok' & Hpend); [|done|].
  { split_and!; [by rewrite Hs|rewrite Hsender; by apply ids_ok|by rewrite Hrec|by rewrite Hk]. }
  exists f, m, c', g'. split_and!; [|done|by split_and!|done|done].
  unfold begin_participant.
  erewrite st_bind_Ok; [|unfold on_rng, st_zoom, HtssDkgService_begin_round1; cbn [snd]; by rewrite Hr].
  erewrite st_bind_Ok; [|unfold on_coordinator, st_zoom; cbn [fst snd vault_at vs_coordinator];
    unfold publish_htss_dkg_round1; cbn [state_of h1s_package]; by rewrite Hpub].
  reflexivity.
Qed.

Lemma begin_participants ps : forall done c shares key g,
  (forall p, p ∈ ps -> p ∈ htc_participants config) -> coordinator_ok c ->
  exists ks ms c' g' out,
    mapM (begin_participant dkg) ps
      (vault_at c (collect_map (fun st => h1_participant_id (h1s_package st)) done) shares key, g) =
      ((vault_at c' (collect_map (fun st => h1_participant_id (h1s_package st))
                       (done ++ (state_of <$> ks))) shares key, g'), Ok out) /\
    ks.*1 = ps /\ Forall (good_contributor config) ks /\ Forall2 round1_sent ks ms /\
    coordinator_ok c' /\ coordinator_pending c' = coordinator_pending c ++ ms.
Proof.
  induction ps as [|p ps IH]; intros done c shares key g Hps Hok.
  { exists [], [], c, g, []. rewrite !app_nil_r. by split_and!. }
  destruct (begin_participant_ok p c
              (collect_map (fun st => h1_participant_id (h1s_package st)) done) shares key g)
    as (f & m & c1 & g1 & Hx1 & Hgood & Hsent & Hok1 & Hp1); [apply Hps; left|assumption|].
  destruct (IH (done ++ [state_of (p, f)]) c1 shares key g1) as
    (ks & ms & c' & g' & out & Hm & Hks & Hg & HF & Hok' & Hp');
    [intros q Hq; apply Hps; by right|assumption|].
  exists ((p, f) :: ks), (m :: ms), c', g', (tt :: out). split_and!.
  - rewrite st_mapM_cons, (st_bind_Ok _ _ _ _ _ Hx1).
    rewrite collect_map_snoc in Hm. cbn [h1s_package state_of h1_participant_id round1_of fst] in Hm.
    rewrite (st_bind_Ok _ _ _ _ _ Hm), fmap_cons, <- app_assoc. reflexivity.
  - rewrite fmap_cons. by rewrite Hks.
  - by constructor.
  - by constructor.
  - assumption.
  - by rewrite Hp', Hp1, <- app_assoc.
Qed.

Lemma drain_round1_all ks ms (c : FrostCoordinator LocalNostrEventTransport) :
  coordinator_ok c -> coordinator_pending c = ms -> Forall2 round1_sent ks ms ->
  exists c', drain_htss_dkg_round1 sid c = (c', Ok (round1_of <$> ks)) /\
             coordinator_ok c' /\ coordinator_pending c' = [].
Proof.
  intros Hok Hp HF.
  assert (Hsel : Forall (selected sid (only_kind HtssDkgRound1)) ms).
  { clear Hp. induction HF as [|k m ks ms (_ & Hs & Hk) HF IH]; constructor; [|done].
    split; [done|]. by apply bool_decide_eq_true. }
  destruct (drain_packages_of c sid (only_kind HtssDkgRound1)
              HtssDkgRound1Package_from_protocol_message (round1_of <$> ks) Hok)
    as (c' & Hd & Hok' & Hp').
  - rewrite Hp, filter_all by (by apply Forall_forall).
    apply Forall2_fmap_l. eapply Forall2_impl; [exact HF|]. by intros k m (? & _).
  - exists c'. split_and!; [done|done|]. rewrite Hp', Hp. apply filter_none.
    intros m Hm Hn. apply Hn. rewrite Forall_forall in Hsel. by apply Hsel.
Qed.

Context (ks : list contributor).
Hypothesis ks_participants : ks.*1 = htc_participants config.
Hypothesis ks_good : Forall (good_contributor config) ks.

Lemma publish_round2_ok k p c states shares key g :
  k ∈ ks -> p ∈ htc_participants config -> coordinator_ok c ->
  exists m c',
    on_coordinator (publish_htss_dkg_round2 sid (round2_of p k)) (vault_at c states shares key, g) =
      ((vault_at c' states shares key, g), Ok tt) /\
    round2_sent (round2_of p k) m /\
    coordinator_ok c' /\ coordinator_pending c' = coordinator_pending c ++ [m].
Proof.
  intros Hk Hp Hok.
  destruct (converted _ _ _ _ _ (fun _ => sid)
              (fun x => HtssDkgRound2Package_to_protocol_message x sid) (round2_of p k)
              htss_dkg_round2_package_accepts ltac:(done) I)
    as (m & Hm & Hfrom & Hs & Hkind & Hsender & Hrec).
  destruct (publish_message_spec (fun x => HtssDkgRound2Package_to_protocol_message x sid)
              (round2_of p k) m c Hm) as (c' & Hpub & Hok' & Hpend); [|done|].
  { rewrite Forall_forall in ks_good. destruct (ks_good k Hk) as (Hkp & _).
    split_and!; [by rewrite Hs|rewrite Hsender; by apply ids_ok| |by rewrite Hkind].
    rewrite Hrec. intros r [= <-]. by apply ids_ok. }
  exists m, c'. split_and!; [|by split_and!|done|done].
  unfold on_coordinator, st_zoom. cbn [fst snd vault_at vs_coordinator].
  unfold publish_htss_dkg_round2. by rewrite Hpub.
Qed.

Lemma publish_round2_all k ps : forall c states shares key g,
  k ∈ ks -> (forall p, p ∈ ps -> p ∈ htc_participants config) -> coordinator_ok c ->
  exists ms c' out,
    mapM (fun package => on_coordinator (publish_htss_dkg_round2 sid package))
      ((fun p => round2_of p k) <$> ps) (vault_at c states shares key, g) =
      ((vault_at c' states shares key, g), Ok out) /\
    Forall2 round2_sent ((fun p => round2_of p k) <$> ps) ms /\
    coordinator_ok c' /\ coordinator_pending c' = coordinator_pending c ++ ms.
Proof.
  induction ps as [|p ps IH]; intros c states shares key g Hk Hps Hok.
  { exists [], c, []. rewrite app_nil_r. by split_and!. }
  destruct (publish_round2_ok k p c states shares key g Hk) as (m & c1 & Hx1 & Hsent & Hok1 & Hp1);
    [apply Hps; left|assumption|].
  destruct (IH c1 states shares key g Hk) as (ms & c' & out & Hm & HF & Hok' & Hp');
    [intros q Hq; apply Hps; by right|assumption|].
  exists (m :: ms), c', (tt :: out). rewrite fmap_cons. split_and!.
  - by rewrite st_mapM_cons, (st_bind_Ok _ _ _ _ _ Hx1), (st_bind_Ok _ _ _ _ _ Hm).
  - by constructor.
  - assumption.
  - by rewrite Hp', Hp1, <- app_assoc.
Qed.

Lemma send_round2_all l : forall c states shares key g,
  (forall k, k ∈ l -> k ∈ ks) -> coordinator_ok c ->
  exists ms c' out,
    mapM (send_round2 dkg (round1_of <$> ks)) (state_of <$> l)
      (vault_at c states shares key, g) = ((vault_at c' states shares key, g), Ok out) /\
    Forall2 round2_sent (all_round2 config l) ms /\
    coordinator_ok c' /\ coordinator_pending c' = coordinator_pending c ++ ms.
Proof.
  induction l as [|k l IH]; intros c states shares key g Hl Hok.
  { exists [], c, []. rewrite app_nil_r. by split_and!. }
  assert (Hk : k ∈ ks) by (apply Hl; left).
  destruct (publish_round2_all k (htc_participants config) c states shares key g Hk)
    as (ms1 & c1 & out1 & Hx1 & HF1 & Hok1 & Hp1); [auto|assumption|].
  destruct (IH c1 states shares key g) as (ms & c' & out & Hm & HF & Hok' & Hp');
    [intros q Hq; apply Hl; by right|assumption|].
  exists (ms1 ++ ms), c', (out1 :: out). rewrite fmap_cons. split_and!.
  - rewrite st_mapM_cons.
    assert (Hs : send_round2 dkg (round1_of <$> ks) (state_of k) (vault_at c states shares key, g) =
                 ((vault_at c1 states shares key, g), Ok out1)).
    { unfold send_round2, HtssDkgService_create_round2_packages.
      by rewrite st_lift_bind, (round2_total config wf ks ks_participants ks_good k Hk). }
    by rewrite (st_bind_Ok _ _ _ _ _ Hs), (st_bind_Ok _ _ _ _ _ Hm).
  - unfold all_round2. rewrite fmap_cons. cbn [concat]. by apply Forall2_app.
  - assumption.
  - by rewrite Hp', Hp1, <- app_assoc.
Qed.

(** The queue of a run whose participants [l] have not finished yet: it holds the
    round-two packages for them and nothing else. *)
Definition round2_queue (l : list RankedParticipant) (order : list contributor)
    (c : FrostCoordinator LocalNostrEventTransport) : Prop :=
  coordinator_ok c /\
  exists pk, Forall2 round2_sent pk (coordinator_pending c) /\
    Forall (fun x => h2_recipient x ∈ rp_id <$> l) pk /\
    forall p, p ∈ l -> filter (fun x => h2_recipient x = rp_id p) pk = round2_of p <$> order.

Lemma round2_sent_selected r x m :
  round2_sent x m -> h2_recipient x = r <-> selected sid (only_target HtssDkgRound2 r) m.
Proof.
  intros (_ & Hs & Hk & Hr). unfold selected, only_target, ProtocolMessage_is_for.
  rewrite Hr, Hk, andb_true_iff, !bool_decide_eq_true. naive_solver.
Qed.

Lemma drain_round2_one p l order c :
  NoDup (rp_id <$> p :: l) -> round2_queue (p :: l) order c ->
  exists c', drain_htss_dkg_round2_for sid (rp_id p) c = (c', Ok (round2_of p <$> order)) /\
             round2_queue l order c'.
Proof.
  rewrite fmap_cons. intros [Hp HN]%NoDup_cons (Hok & pk & HF & Hin & Hfor).
  destruct (drain_packages_of c sid (only_target HtssDkgRound2 (rp_id p))
              HtssDkgRound2Package_from_protocol_message (round2_of p <$> order) Hok)
    as (c' & Hd & Hok' & Hp').
  - rewrite <- (Hfor p) by left. apply (Forall2_impl round2_sent); [|by intros x m (Hx & _)].
    apply (Forall2_filter round2_sent); [exact HF|].
    intros x m Hxm. by apply round2_sent_selected.
  - exists c'. split; [done|]. split; [done|]. exists (filter (fun x => h2_recipient x <> rp_id p) pk).
    split_and!.
    + rewrite Hp'. apply (Forall2_filter round2_sent); [exact HF|].
      intros x m Hxm. by rewrite (round2_sent_selected (rp_id p) x m Hxm).
    + apply Forall_forall. intros x [Hx1 Hx2]%list_elem_of_filter.
      rewrite Forall_forall in Hin. specialize (Hin x Hx2). rewrite fmap_cons in Hin.
      by apply elem_of_cons in Hin as [?|?].
    + intros q Hq. rewrite <- (Hfor q) by (by right). rewrite list_filter_filter.
      apply list_filter_iff. intros x. split; [by intros [? _]|]. intros ->. split; [done|].
      intros E. apply Hp. rewrite <- E. by apply list_elem_of_fmap_2.
Qed.

Lemma finish_participants x F order l : forall c states shares key g,
  (forall p, p ∈ htc_participants config ->
     finalize_htss_dkg (rp_id p) (round1_of <$> ks) (round2_of p <$> order) config =
     Ok (mkGroupKey x [], share_of F p)) ->
  (forall p, p ∈ l -> p ∈ htc_participants config) -> NoDup (rp_id <$> l) ->
  round2_queue l order c -> key = None \/ key = Some (mkGroupKey x []) ->
  exists c' out,
    mapM (finish_participant dkg (round1_of <$> ks)) l (vault_at c states shares key, g) =
      ((vault_at c' states
          (foldl (fun m p => <[rp_id p := share_of F p]> m) shares l)
          (match l with [] => key | _ => Some (mkGroupKey x []) end), g), Ok out) /\
    round2_queue [] order c'.
Proof.
  induction l as [|p l IH]; intros c states shares key g Hfin Hl HN Hq Hkey.
  { by exists c, []. }
  destruct (drain_round2_one p l order c HN Hq) as (c1 & Hd & Hq1).
  assert (Hs : finish_participant dkg (round1_of <$> ks) p (vault_at c states shares key, g) =
    ((vault_at c1 states (<[rp_id p := share_of F p]> shares) (Some (mkGroupKey x [])), g), Ok tt)).
  { unfold finish_participant.
    erewrite st_bind_Ok; [|unfold on_coordinator, st_zoom; cbn [fst snd vault_at vs_coordinator];
      by rewrite Hd].
    rewrite st_lift_bind. unfold HtssDkgService_finalize_participant.
    rewrite Hfin by (apply Hl; left). cbn beta iota.
    erewrite st_bind_Ok; [|unfold st_gets; cbn [fst with_coordinator vault_at vs_group_key]; reflexivity].
    destruct Hkey as [->| ->].
    - reflexivity.
    - rewrite st_lift_bind, bool_decide_eq_false_2 by (intros Hn; by apply Hn). reflexivity. }
  rewrite fmap_cons in HN. apply NoDup_cons in HN as [_ HN].
  destruct (IH c1 states (<[rp_id p := share_of F p]> shares) (Some (mkGroupKey x [])) g Hfin)
    as (c' & out & Hm & Hq'); [intros q Hin; apply Hl; by right|assumption|assumption|by right|].
  exists c', (tt :: out). split; [|assumption].
  rewrite st_mapM_cons, (st_bind_Ok _ _ _ _ _ Hs), (st_bind_Ok _ _ _ _ _ Hm). by destruct l.
Qed.

Lemma finish_fails e order l c states shares key g :
  (forall p, p ∈ htc_participants config ->
     finalize_htss_dkg (rp_id p) (round1_of <$> ks) (round2_of p <$> order) config = Err e) ->
  (forall p, p ∈ l -> p ∈ htc_participants config) -> NoDup (rp_id <$> l) -> l <> [] ->
  round2_queue l order c ->
  exists c', mapM (finish_participant dkg (round1_of <$> ks)) l (vault_at c states shares key, g) =
    ((vault_at c' states shares key, g), Err e).
Proof.
  intros Hfin Hl HN Hne Hq. destruct l as [|p l]; [done|].
  destruct (drain_round2_one p l order c HN Hq) as (c1 & Hd & Hq1). exists c1.
  rewrite st_mapM_cons. apply st_bind_Err. unfold finish_participant.
  erewrite st_bind_Ok; [|unfold on_coordinator, st_zoom; cbn [fst snd vault_at vs_coordinator];
    by rewrite Hd].
  rewrite st_lift_bind. unfold HtssDkgService_finalize_participant.
  by rewrite Hfin by (apply Hl; left).
Qed.

(** What round one leaves to round two, and round two to the finish. *)
Lemma round2_queue_start order c :
  coordinator_ok c -> Forall2 round2_sent (all_round2 config order) (coordinator_pending c) ->
  round2_queue (htc_participants config) order c.
Proof.
  intros Hok HF. split; [assumption|]. exists (all_round2 config order). split_and!; [assumption| |].
  - apply Forall_forall. intros x Hx. unfold all_round2 in Hx.
    apply list_elem_of_In, in_concat in Hx as (l & Hl & Hx).
    apply list_elem_of_In, list_elem_of_fmap in Hl as (k & -> & _).
    apply list_elem_of_In, list_elem_of_fmap in Hx as (p & -> & Hp).
    by apply (list_elem_of_fmap_2 rp_id _ p).
  - intros p Hp. by apply packages_for.
Qed.

Lemma round2_queue_end order c : round2_queue [] order c -> coordinator_pending c = [].
Proof.
  intros (_ & [|x pk] & HF & Hpk & _); [by apply Forall2_nil_inv_l in HF|].
  apply Forall_cons in Hpk as [Hx _]. by apply not_elem_of_nil in Hx.
Qed.
End dkg_run.

(** The key set a service holds: its group key and the shares of the participants
    of the policy. *)
Definition vault_keys (s : InMemoryVaultService) (key : GroupKey) : HtssLocalKeySet :=
  mkHtssLocalKeySet key (omap (fun p => vs_local_shares s !! rp_id p)
                           (htc_participants (hds_config (vs_dkg s)))).

Lemma shares_inserted `{Secp} F l : forall m : gmap ParticipantId HtssLocalKeyShare,
  NoDup (rp_id <$> l) ->
  forall p, p ∈ l ->
    foldl (fun m p => <[rp_id p := share_of F p]> m) m l !! rp_id p = Some (share_of F p).
Proof.
  induction l as [|p l IH] using rev_ind; intros m HN q Hq; [by apply not_elem_of_nil in Hq|].
  rewrite foldl_app. cbn [foldl]. rewrite fmap_app in HN. apply NoDup_app in HN as (HN & Hd & _).
  apply elem_of_app in Hq as [Hq|Hq%list_elem_of_singleton]; [|subst; apply lookup_insert_eq].
  rewrite lookup_insert_ne; [by apply IH|]. intros E.
  apply (Hd (rp_id q)); [by apply list_elem_of_fmap_2|]. rewrite <- E. left.
Qed.

Lemma omap_all {A B} (f : A -> option B) (g : A -> B) (l : list A) :
  (forall x, x ∈ l -> f x = Some (g x)) -> omap f l = g <$> l.
Proof.
  induction l as [|x l IH]; intros Hf; [done|]. rewrite fmap_cons. cbn [omap list_omap].
  rewrite Hf by left. f_equal. apply IH. intros y Hy. apply Hf. by right.
Qed.

Section key_generation.
Context `{BitcoinLib} `{!SecpLaws}.
Context `{SerdeJson ProtocolMessage} `{!SerdeJsonLaws ProtocolMessage} `{Utf8Error}.
Context `{SerdeJson HtssDkgRound1Package, SerdeJson HtssDkgRound2Package}.
Context `{!SerdeJsonLaws HtssDkgRound1Package, !SerdeJsonLaws HtssDkgRound2Package}.

(** The service holds a sharing of its group key's secret, and its transport is
    in order. *)
Definition vault_ready (s : InMemoryVaultService) : Prop :=
  wf_hierarchical (hds_config (vs_dkg s)) /\
  (forall p, p ∈ htc_participants (hds_config (vs_dkg s)) -> pid_0 (rp_id p) <> 0%N) /\
  coordinator_ok (vs_coordinator s) /\
  exists key, vs_group_key s = Some key /\
    valid_key_set (hds_config (vs_dkg s)) (vault_keys s key).

(** The first two rounds: what they leave is the start of the third loop. *)
Lemma run_rounds s0 c g :
  let config := hds_config (vs_dkg s0) in
  wf_hierarchical config -> blank (sid_0 (hds_session_id (vs_dkg s0))) = false ->
  (forall p, p ∈ htc_participants config -> pid_0 (rp_id p) <> 0%N) ->
  coordinator_ok c -> coordinator_pending c = [] ->
  exists ks order c' states g',
    ks.*1 = htc_participants config /\ Forall (good_contributor config) ks /\ order ≡ₚ ks /\
    round2_queue s0 (htc_participants config) order c' /\
    run_htss_dkg (vault_at s0 c ∅ ∅ None, g) =
    (mapM (finish_participant (vs_dkg s0) (round1_of <$> ks)) (htc_participants config);; mret tt)
      (vault_at s0 c' states ∅ None, g').
Proof.
  intros config Hwf Hsid Hids Hok Hempty. set (key := fun st => h1_participant_id (h1s_package st)).
  destruct (begin_participants s0 Hwf Hsid Hids (htc_participants config) [] c ∅ None g)
    as (ks & ms & c1 & g' & out1 & Hm1 & Hk & Hg & HF & Hok1 & Hp1); [auto|assumption|].
  rewrite Hempty in Hp1. cbn [app] in Hp1, Hm1. fold key in Hm1.
  destruct (drain_round1_all s0 ks ms c1 Hok1 Hp1 HF) as (c2 & Hd & Hok2 & Hp2).
  assert (HN : NoDup (key <$> (state_of <$> ks))).
  { rewrite <- list_fmap_compose. by apply (ks_distinct config Hwf ks). }
  destruct (Permutation_map_inv _ _ (btree_values_collect key _ HN)) as (order & Horder & Hperm).
  change (map state_of order) with (state_of <$> order) in Horder. symmetry in Hperm.
  destruct (send_round2_all s0 Hwf Hsid Hids ks Hk Hg order c2 (collect_map key (state_of <$> ks))
              ∅ None g') as (ms2 & c3 & out3 & Hm3 & HF3 & Hok3 & Hp3);
    [intros k; by rewrite Hperm|assumption|].
  rewrite Hp2 in Hp3. cbn [app] in Hp3.
  exists ks, order, c3, (collect_map key (state_of <$> ks)), g'. split_and!; [done..| |].
  { apply round2_queue_start; [done|done|by rewrite Hp3]. }
  unfold run_htss_dkg. erewrite st_bind_Ok; [|unfold st_gets; reflexivity]. cbn [fst vault_at vs_dkg].
  rewrite (st_bind_Ok _ _ _ _ _ Hm1).
  erewrite st_bind_Ok; [|unfold on_coordinator, st_zoom; cbn [fst snd vault_at vs_coordinator];
    by rewrite Hd].
  erewrite st_bind_Ok; [|unfold st_gets; cbn [fst with_coordinator vault_at vs_round1_states]; reflexivity].
  by rewrite Horder, (st_bind_Ok _ _ _ _ _ Hm3).
Qed.

Lemma run_htss_dkg_cases s0 c g :
  let config := hds_config (vs_dkg s0) in
  wf_hierarchical config -> blank (sid_0 (hds_session_id (vs_dkg s0))) = false ->
  (forall p, p ∈ htc_participants config -> pid_0 (rp_id p) <> 0%N) ->
  coordinator_ok c -> coordinator_pending c = [] ->
  exists c' states g',
    (exists x F,
       run_htss_dkg (vault_at s0 c ∅ ∅ None, g) =
         ((vault_at s0 c' states
             (foldl (fun m p => <[rp_id p := share_of F p]> m) ∅ (htc_participants config))
             (Some (mkGroupKey x [])), g'), Ok tt) /\
       length F = N.to_nat (htc_threshold config) /\ secret_key_of (poly_eval F scalar_zero) x /\
       coordinator_ok c' /\ coordinator_pending c' = []) \/
    run_htss_dkg (vault_at s0 c ∅ ∅ None, g) =
      ((vault_at s0 c' states ∅ None, g'), Err (Protocol "HTSS DKG group key cannot be zero")).
Proof.
  intros config Hwf Hsid Hids Hok Hempty.
  assert (Hne : htc_participants config <> []).
  { destruct Hwf as (Ht & _). by destruct (htc_participants config); [simpl in Ht; lia|]. }
  destruct (run_rounds s0 c g Hwf Hsid Hids Hok Hempty)
    as (ks & order & c3 & states & g' & Hk & Hg & Hperm & Hq & ->).
  pose proof (participants_distinct config Hwf) as HNp.
  destruct (honest_finalize config Hwf ks Hk Hg) as [(x & F & Hl & Hsk & Hfin)|Hfin].
  - destruct (finish_participants s0 ks x F order (htc_participants config) c3 states ∅ None g')
      as (c' & out & Hm & Hq'); [intros p Hp; by apply Hfin|auto|assumption|assumption|by left|].
    exists c', states, g'. left. exists x, F. rewrite (st_bind_Ok _ _ _ _ _ Hm).
    split_and!; [|done|done|apply Hq'|by apply (round2_queue_end s0 order)].
    by destruct (htc_participants config).
  - destruct (finish_fails s0 ks (Protocol "HTSS DKG group key cannot be zero") order
                (htc_participants config) c3 states ∅ None g'
                (fun p Hp => Hfin p order Hp Hperm)) as (c' & Hm); [auto|assumption..|].
    exists c', states, g'. right. by rewrite (st_bind_Err _ _ _ _ _ Hm).
Qed.

(** The constructor's checks give what a run needs. *)
Lemma service_new_Ok vault_id dkg_sid network chain_code gc s ps rs :
  InMemoryVaultService_new vault_id dkg_sid network chain_code gc = Ok s ->
  GroupedThresholdConfig_new ps rs = Ok gc ->
  s = vault_at s (mkFrostCoordinator LocalNostrEventTransport_default) ∅ ∅ None /\
  wf_hierarchical (hds_config (vs_dkg s)) /\ htc_participants (hds_config (vs_dkg s)) = ps /\
  blank (sid_0 (hds_session_id (vs_dkg s))) = false /\ vs_grouped_config s = gc /\
  vs_network s = network /\ vs_chain_code s = chain_code.
Proof.
  unfold InMemoryVaultService_new, HtssDkgService_new, SessionId_new. intros Hs Hgc.
  apply bind_Ok in Hs as (hc & Hhc & Hs). apply bind_Ok in Hs as (dkg & Hd & Hs).
  apply bind_Ok in Hd as (sid & Hsid & Hd). apply bind_Ok in Hsid as ([] & Hb%reject_if_Ok & Hsid).
  injection Hsid as <-. injection Hd as <-. injection Hs as <-.
  unfold hierarchical_config_from_grouped_threshold in Hhc.
  apply bind_Ok in Hhc as (req & _ & Hhc).
  pose proof (hierarchical_new_wf _ _ _ Hhc) as Hwf.
  apply HierarchicalThresholdConfig_new_Ok in Hhc as [-> _].
  apply GroupedThresholdConfig_new_Ok in Hgc as [-> _]. by split_and!.
Qed.

(** Key generation from a new service. *)
Lemma new_vault_dkg vault_id dkg_sid network chain_code ps rs gc s g :
  GroupedThresholdConfig_new ps rs = Ok gc ->
  (forall p, p ∈ ps -> pid_0 (rp_id p) <> 0%N) ->
  InMemoryVaultService_new vault_id dkg_sid network chain_code gc = Ok s ->
  exists s' g',
    ((connect_transport;; run_htss_dkg) (s, g) = ((s', g'), Ok tt) /\
     vault_ready s' /\ coordinator_pending (vs_coordinator s') = [] /\
     s' = vault_at s (vs_coordinator s') (vs_round1_states s') (vs_local_shares s')
            (vs_group_key s')) \/
    ((connect_transport;; run_htss_dkg) (s, g) =
       ((s', g'), Err (Protocol "HTSS DKG group key cannot be zero")) /\
     vs_group_key s' = None /\ vs_local_shares s' = ∅).
Proof.
  intros Hgc Hids Hs.
  destruct (service_new_Ok _ _ _ _ _ _ _ _ Hs Hgc) as (Hat & Hwf & Hps & Hsid & _).
  set (c1 := mkFrostCoordinator (mkLocalNostrEventTransport true [])).
  destruct (run_htss_dkg_cases s c1 g Hwf Hsid) as (c' & states & g' & Hrun);
    [by rewrite Hps|constructor|done|].
  replace ((connect_transport;; run_htss_dkg) (s, g)) with
    (run_htss_dkg (vault_at s c1 ∅ ∅ None, g)) by (by rewrite Hat).
  destruct Hrun as [(x & F & Hrun & Hl & Hsk & Hok' & Hp')|Hrun].
  - eexists _, g'. left. split_and!; [exact Hrun| |exact Hp'|done].
    split_and!; [exact Hwf|by rewrite <- Hps in Hids|exact Hok'|].
    exists (mkGroupKey x []). split; [done|]. exists F. split_and!; [exact Hl|exact Hsk|]. unfold vault_keys. cbn [hkset_shares vault_at vs_dkg vs_local_shares].
    apply omap_all. intros p Hp. apply shares_inserted; [by apply participants_distinct|done].
  - eexists _, g'. right. by split_and!.
Qed.

(** C7: a new vault completes its key generation.  For every grouped policy the
    constructors accept, whose participants have non-zero identifiers, a new
    service that connects and runs the key generation over its own event transport
    ends with a sharing of its group key's secret stored under the right
    participants and an empty queue, nothing else having changed, or reports that
    the contributions cancelled to the zero key, having stored neither key nor
    share. *)
Theorem vault_dkg_completes vault_id dkg_sid network chain_code ps rs gc s g :
  GroupedThresholdConfig_new ps rs = Ok gc ->
  (forall p, p ∈ ps -> pid_0 (rp_id p) <> 0%N) ->
  InMemoryVaultService_new vault_id dkg_sid network chain_code gc = Ok s ->
  exists s' g',
    ((connect_transport;; run_htss_dkg) (s, g) = ((s', g'), Ok tt) /\
     vault_ready s' /\ coordinator_pending (vs_coordinator s') = [] /\
     s' = vault_at s (vs_coordinator s') (vs_round1_states s') (vs_local_shares s')
            (vs_group_key s')) \/
    ((connect_transport;; run_htss_dkg) (s, g) =
       ((s', g'), Err (Protocol "HTSS DKG group key cannot be zero")) /\
     vs_group_key s' = None /\ vs_local_shares s' = ∅).
Proof. apply new_vault_dkg. Qed.
End key_generation.

(** ** A signing run *)

Section signing_run.
Context `{BitcoinLaws} `{!SecpLaws}.
Context `{SerdeJson ProtocolMessage} `{!SerdeJsonLaws ProtocolMessage} `{Utf8Error}.
Context `{SerdeJson HtssNoncePackage, SerdeJson HtssSignatureSharePackage}.
Context `{!SerdeJsonLaws HtssNoncePackage, !SerdeJsonLaws HtssSignatureSharePackage}.
Context (sid : SessionId) (sid_ok : blank (sid_0 sid) = false).

Implicit Types (s : InMemoryVaultService) (c : FrostCoordinator LocalNostrEventTransport).

(** The message is of this signing session, and carries the package. *)
Definition signing_message {X} (from : ProtocolMessage -> Result X) (kind : ProtocolMessageKind)
    (x : X) (m : ProtocolMessage) : Prop :=
  from m = Ok x /\ pm_session_id m = sid /\ pm_kind m = kind.

Local Abbreviation nonce_message :=
  (signing_message HtssNoncePackage_from_protocol_message HtssSigningNonce).
Local Abbreviation share_message :=
  (signing_message HtssSignatureSharePackage_from_protocol_message HtssSignatureShare).

Lemma publish_htss_nonce_ok x s g :
  hnp_signing_session_id x = sid -> pid_0 (hnp_participant_id x) <> 0%N ->
  length (hnp_public_nonce_bytes x) = 33 -> coordinator_ok (vs_coordinator s) ->
  exists m c', on_coordinator (publish_htss_nonce x) (s, g) = ((with_coordinator c' s, g), Ok tt) /\
    nonce_message x m /\ coordinator_ok c' /\
    coordinator_pending c' = coordinator_pending (vs_coordinator s) ++ [m].
Proof.
  intros Hs Hid Hlen Hok.
  destruct (converted _ _ _ _ _ hnp_signing_session_id HtssNoncePackage_to_protocol_message x
              htss_nonce_package_accepts ltac:(done) ltac:(done))
    as (m & Hm & Hfrom & Hsm & Hk & Hsender & Hrec).
  destruct (publish_message_spec HtssNoncePackage_to_protocol_message x m (vs_coordinator s) Hm)
    as (c' & Hpub & Hok' & Hpend); [|done|].
  { split_and!; [by rewrite Hsm, Hs|by rewrite Hsender|by rewrite Hrec|by rewrite Hk]. }
  exists m, c'. split_and!; [|split_and!; congruence|done|done].
  unfold on_coordinator, st_zoom. cbn [fst snd]. unfold publish_htss_nonce. by rewrite Hpub.
Qed.

Lemma publish_htss_signature_share_ok x s g :
  hsp_signing_session_id x = sid -> pid_0 (hsp_participant_id x) <> 0%N ->
  coordinator_ok (vs_coordinator s) ->
  exists m c', on_coordinator (publish_htss_signature_share x) (s, g) =
      ((with_coordinator c' s, g), Ok tt) /\
    share_message x m /\ coordinator_ok c' /\
    coordinator_pending c' = coordinator_pending (vs_coordinator s) ++ [m].
Proof.
  intros Hs Hid Hok.
  destruct (converted _ _ _ _ _ hsp_signing_session_id HtssSignatureSharePackage_to_protocol_message
              x htss_signature_share_package_accepts ltac:(done) ltac:(done))
    as (m & Hm & Hfrom & Hsm & Hk & Hsender & Hrec).
  destruct (publish_message_spec HtssSignatureSharePackage_to_protocol_message x m
              (vs_coordinator s) Hm) as (c' & Hpub & Hok' & Hpend); [|done|].
  { split_and!; [by rewrite Hsm, Hs|by rewrite Hsender|by rewrite Hrec|by rewrite Hk]. }
  exists m, c'. split_and!; [|split_and!; congruence|done|done].
  unfold on_coordinator, st_zoom. cbn [fst snd]. unfold publish_htss_signature_share. by rewrite Hpub.
Qed.

Lemma publish_nonces l : forall s g,
  Forall (fun n => let x := hln_package n in hnp_signing_session_id x = sid /\
    pid_0 (hnp_participant_id x) <> 0%N /\ length (hnp_public_nonce_bytes x) = 33) l ->
  coordinator_ok (vs_coordinator s) ->
  exists ms c' out,
    mapM (fun nonce => on_coordinator (publish_htss_nonce (hln_package nonce))) l (s, g) =
      ((with_coordinator c' s, g), Ok out) /\
    Forall2 nonce_message (hln_package <$> l) ms /\ coordinator_ok c' /\
    coordinator_pending c' = coordinator_pending (vs_coordinator s) ++ ms.
Proof.
  induction l as [|n l IH]; intros s g HF Hok.
  { exists [], (vs_coordinator s), []. rewrite app_nil_r. split_and!; [by destruct s|done..]. }
  apply Forall_cons in HF as [(Hs & Hid & Hlen) HF].
  destruct (publish_htss_nonce_ok (hln_package n) s g Hs Hid Hlen Hok)
    as (m & c1 & Hx1 & Hsent & Hok1 & Hp1).
  destruct (IH (with_coordinator c1 s) g HF Hok1) as (ms & c' & out & Hm & HFm & Hok' & Hp').
  exists (m :: ms), c', (tt :: out). rewrite fmap_cons. split_and!.
  - by rewrite st_mapM_cons, (st_bind_Ok _ _ _ _ _ Hx1), (st_bind_Ok _ _ _ _ _ Hm).
  - by constructor.
  - assumption.
  - rewrite Hp'. cbn [with_coordinator vs_coordinator]. by rewrite Hp1, <- app_assoc.
Qed.

(** A signature share names the signer and the session of its nonce. *)
Lemma htss_sign_share_fields group_key digest share nonce nonces signers config x :
  htss_sign_share group_key digest share nonce nonces signers config = Ok x ->
  hsp_participant_id x = hks_participant_id share /\
  hsp_signing_session_id x = hnp_signing_session_id (hln_package nonce).
Proof.
  unfold htss_sign_share, htss_share_for_key. intros Hx.
  repeat (apply bind_Ok in Hx as (? & ? & Hx)). by injection Hx as <-.
Qed.

(** The loop that signs and publishes does what signing all and then publishing
    would do; when a signer fails, the shares before it are already published. *)
Lemma sign_and_publish_all group_key digest nonces signers config items : forall s g,
  Forall (fun i => hnp_signing_session_id (hln_package i.2) = sid /\
                   pid_0 (hks_participant_id i.1) <> 0%N) items ->
  coordinator_ok (vs_coordinator s) ->
  exists ms c',
    coordinator_ok c' /\ coordinator_pending c' = coordinator_pending (vs_coordinator s) ++ ms /\
    Forall (fun m => pm_session_id m = sid) ms /\
    let run := mapM (sign_and_publish group_key digest nonces signers config) items (s, g) in
    match mapM (fun '(share, n) => htss_sign_share group_key digest share n nonces signers config)
            items with
    | Ok shares => exists out, run = ((with_coordinator c' s, g), Ok out) /\
                               Forall2 share_message shares ms
    | Err e => run = ((with_coordinator c' s, g), Err e)
    | Panic => run = ((with_coordinator c' s, g), Panic)
    end.
Proof.
  induction items as [|[share n] items IH]; intros s g HF Hok.
  { exists [], (vs_coordinator s). rewrite app_nil_r. split_and!; [done..|].
    exists []. split; [by destruct s|constructor]. }
  apply Forall_cons in HF as [[Hs Hid] HF]. cbn [fst snd] in Hs, Hid.
  cbv zeta. rewrite st_mapM_cons.
  change (mapM ?h ((share, n) :: ?l)) with (y ← h (share, n); k ← mapM h l; mret (y :: k)).
  cbv beta iota.
  pose proof (st_lift_bind (htss_sign_share group_key digest share n nonces signers config)
    (fun x => on_coordinator (publish_htss_signature_share x)) (s, g)
    : sign_and_publish group_key digest nonces signers config (share, n) (s, g) = _) as Hone.
  destruct (htss_sign_share _ _ share n _ _ _) as [x|e|] eqn:Hx.
  2: exists [], (vs_coordinator s); rewrite app_nil_r; split_and!; [done..|];
     by rewrite (st_bind_Err _ _ _ _ _ Hone); destruct s.
  2: exists [], (vs_coordinator s); rewrite app_nil_r; split_and!; [done..|];
     by rewrite (st_bind_Panic _ _ _ _ Hone); destruct s.
  destruct (htss_sign_share_fields _ _ _ _ _ _ _ _ Hx) as [Hxid Hxs].
  destruct (publish_htss_signature_share_ok x s g) as (m & c1 & Hx1 & Hsent & Hok1 & Hp1);
    [congruence..|done|].
  destruct (IH (with_coordinator c1 s) g HF Hok1) as (ms & c' & Hok' & Hp' & Hms & Hrun).
  rewrite Hx1 in Hone. exists (m :: ms), c'. rewrite ok_bind, (st_bind_Ok _ _ _ _ _ Hone). split_and!.
  - done.
  - rewrite Hp'. cbn [with_coordinator vs_coordinator]. by rewrite Hp1, <- app_assoc.
  - constructor; [apply Hsent|done].
  - destruct (mapM _ items) as [shares|e|].
    + destruct Hrun as (out & Hrun & HFm). rewrite ok_bind, (st_bind_Ok _ _ _ _ _ Hrun).
      eexists. split; [reflexivity|by constructor].
    + by rewrite (st_bind_Err _ _ _ _ _ Hrun).
    + by rewrite (st_bind_Panic _ _ _ _ Hrun).
Qed.

(** Draining the messages of the session gives the packages and restores the
    queue. *)
Lemma drain_session_messages {X} (from : ProtocolMessage -> Result X) kind xs ms old s c g :
  coordinator_ok c -> coordinator_pending c = old ++ ms ->
  Forall (fun m => pm_session_id m <> sid) old -> Forall2 (signing_message from kind) xs ms ->
  exists c', on_coordinator (drain_packages sid (only_kind kind) from) (with_coordinator c s, g) =
               ((with_coordinator c' s, g), Ok xs) /\
             coordinator_ok c' /\ coordinator_pending c' = old.
Proof.
  intros Hok Hp Hold HF.
  assert (Hsel : forall m, m ∈ ms -> selected sid (only_kind kind) m).
  { intros m Hm. apply list_elem_of_lookup in Hm as [i Hi].
    destruct (Forall2_lookup_r _ _ _ _ _ HF Hi) as (x & _ & _ & Hms & Hk).
    split; [done|]. by apply bool_decide_eq_true. }
  rewrite Forall_forall in Hold.
  destruct (drain_packages_of c sid (only_kind kind) from xs Hok) as (c' & Hd & Hok' & Hp').
  - rewrite Hp, filter_app, filter_none, (filter_all _ ms) by (intros m Hm; first [by apply Hsel|
      intros [? _]; by apply (Hold m)]).
    apply (Forall2_impl (signing_message from kind)); [done|]. by intros x m (? & _).
  - exists c'. split_and!; [|done|].
    + unfold on_coordinator, st_zoom. cbn [fst snd with_coordinator vs_coordinator]. by rewrite Hd.
    + rewrite Hp', Hp, filter_app, filter_all, (filter_none _ ms), app_nil_r; [done| |].
      * intros m Hm Hn. by apply Hn, Hsel.
      * intros m Hm [? _]. by apply (Hold m).
Qed.
End signing_run.

(** ** Signing from a ready vault *)

Lemma omap_all_inv {A B} (f : A -> option B) (g : A -> B) (l : list A) :
  omap f l = g <$> l -> forall x, x ∈ l -> f x = Some (g x).
Proof.
  assert (Hlen : forall l : list A, length (omap f l) <= length l).
  { clear. induction l as [|x l IH]; [done|]. cbn. destruct (f x); cbn; lia. }
  induction l as [|x l IH]; intros E y Hy; [by apply not_elem_of_nil in Hy|].
  rewrite fmap_cons in E. cbn [omap list_omap] in E. destruct (f x) as [z|] eqn:Hx.
  - injection E as -> E. apply elem_of_cons in Hy as [->|Hy]; [done|by apply IH].
  - exfalso. specialize (Hlen l). rewrite E in Hlen. cbn in Hlen. rewrite length_fmap in Hlen. lia.
Qed.

Section signing.
Context `{BitcoinLaws} `{!SecpLaws}.
Context `{SerdeJson ProtocolMessage} `{!SerdeJsonLaws ProtocolMessage} `{Utf8Error}.
Context `{SerdeJson HtssNoncePackage, SerdeJson HtssSignatureSharePackage}.
Context `{!SerdeJsonLaws HtssNoncePackage, !SerdeJsonLaws HtssSignatureSharePackage}.

(** The stored shares of the signers. *)
Lemma stored_shares s key f signers :
  wf_hierarchical (hds_config (vs_dkg s)) ->
  hkset_shares (vault_keys s key) = share_of f <$> htc_participants (hds_config (vs_dkg s)) ->
  (forall i, i ∈ signers -> ranked (htc_participants (hds_config (vs_dkg s))) i) ->
  mapM (select_local_share (vs_local_shares s)) signers =
  Ok (key_share (hds_config (vs_dkg s)) f <$> signers).
Proof.
  intros Hwf Hsh Hrk. apply mapM_pure. intros i Hi.
  destruct (find_rank_value _ i Hwf (Hrk i Hi)) as (p & Hp & <- & Hr).
  unfold select_local_share.
  rewrite (omap_all_inv (fun p => vs_local_shares s !! rp_id p) (share_of f) _ Hsh p Hp).
  cbn [ok_or]. f_equal. unfold share_of, key_share, signer_value. by rewrite Hr.
Qed.

Lemma ready_with_coordinator s c :
  vault_ready s -> coordinator_ok c -> vault_ready (with_coordinator c s).
Proof. intros (Hwf & Hids & _ & key & Hk & Hv) Hok. split_and!; [done..|]. by exists key. Qed.

(** The second half of a signing run, from a round whose shares are known. *)
Lemma finish_authorization_cases s g key digest sid nonces signers config items :
  blank (sid_0 sid) = false -> coordinator_ok (vs_coordinator s) ->
  Forall (fun m => pm_session_id m <> sid) (coordinator_pending (vs_coordinator s)) ->
  Forall (fun i => hnp_signing_session_id (hln_package i.2) = sid /\
                   pid_0 (hks_participant_id i.1) <> 0%N) items ->
  let run := finish_authorization key digest sid nonces signers config items (s, g) in
  match mapM (fun '(share, n) => htss_sign_share key digest share n nonces signers config) items with
  | Ok shares => forall sig share,
      aggregate_htss_signature_shares key digest nonces shares signers config = Ok sig ->
      head shares = Some share ->
      exists c', run = ((with_coordinator c' s, g), Ok share) /\ coordinator_ok c' /\
                 coordinator_pending c' = coordinator_pending (vs_coordinator s)
  | Err e => exists c', run = ((with_coordinator c' s, g), Err (AnyhowDkgKit e)) /\ coordinator_ok c'
  | Panic => True
  end.
Proof.
  intros Hblank Hok Hold Hitems. cbv zeta.
  destruct (sign_and_publish_all sid Hblank key digest nonces signers config items s g Hitems Hok)
    as (ms & c1 & Hok1 & Hp1 & Hms & Hsign). unfold finish_authorization. cbv zeta in Hsign.
  destruct (mapM _ items) as [shares|e|]; [|exists c1; by rewrite (dkgkit_bind_Err _ _ _ _ _ Hsign)|done].
  destruct Hsign as (out & Hsign & HF). intros sig share Hagg Hhead.
  destruct (drain_session_messages sid _ _ _ ms (coordinator_pending (vs_coordinator s)) s c1 g
              Hok1 Hp1 Hold HF) as (c2 & Hd & Hok2 & Hp2).
  exists c2. split_and!; [|done|done].
  rewrite (dkgkit_bind_Ok _ _ _ _ _ Hsign), (dkgkit_bind_Ok _ _ _ _ _ Hd).
  erewrite dkgkit_bind_Ok; [|unfold st_lift; by rewrite Hagg].
  rewrite st_lift_bind, (aggregate_verifies _ _ _ _ _ _ _ Hagg). cbn [map_err]. cbn beta iota.
  rewrite st_lift_bind. cbn [negb reject_if]. unfold st_lift. by rewrite Hhead.
Qed.

(** The first half: the nonce exchange of a ready vault. *)
Lemma nonce_exchange s g key f session authorization signers :
  let config := hds_config (vs_dkg s) in
  let sid := mkSessionId session in
  coordinator_ok (vs_coordinator s) -> vs_group_key s = Some key ->
  validate_grouped_threshold_signer_set signers (vs_grouped_config s) = Ok tt ->
  blank session = false -> NoDup signers -> (forall i, i ∈ signers -> pid_0 i <> 0%N) ->
  mapM (select_local_share (vs_local_shares s)) signers = Ok (key_share config f <$> signers) ->
  Forall (fun m => pm_session_id m <> sid) (coordinator_pending (vs_coordinator s)) ->
  exists nonce c' g', (forall i, nonce i <> scalar_zero) /\ coordinator_ok c' /\
    coordinator_pending c' = coordinator_pending (vs_coordinator s) /\
    sign_authorization session authorization signers (s, g) =
    finish_authorization key (BitcoinAuthorizationMessage_digest authorization) sid
      (nonce_package sid nonce <$> signers) signers config
      (zip (key_share config f <$> signers) (local_nonce sid nonce <$> signers))
      (with_coordinator c' s, g').
Proof.
  intros config sid Hok Hkey Hgroup Hblank HN Hidn Hsel Hold.
  destruct (nonces_drawn config f sid signers g HN) as (nonce & g' & Hnz & Hm).
  destruct (publish_nonces sid Hblank (local_nonce sid nonce <$> signers) s g')
    as (ms1 & c1 & out1 & Hpub & HF1 & Hok1 & Hp1); [|done|].
  { apply Forall_fmap, Forall_forall. intros i Hi. cbn. split_and!; [done|by apply Hidn|].
    apply point_to_bytes_length. }
  destruct (drain_session_messages sid _ _ _ ms1 (coordinator_pending (vs_coordinator s)) s c1 g'
              Hok1 Hp1 Hold HF1) as (c2 & Hd2 & Hok2 & Hp2).
  rewrite <- list_fmap_compose in Hd2.
  change (hln_package ∘ local_nonce sid nonce) with (nonce_package sid nonce) in Hd2.
  exists nonce, c2, g'. split_and!; [done..|]. unfold sign_authorization.
  erewrite st_bind_Ok; [|unfold st_gets; reflexivity]. cbn [fst].
  erewrite dkgkit_bind_Ok; [|unfold st_lift; by rewrite Hgroup].
  rewrite st_lift_bind, Hkey. cbn [ok_or]. cbn beta iota.
  erewrite dkgkit_bind_Ok; [|unfold st_lift, SessionId_new; by rewrite Hblank].
  fold sid. cbv zeta. rewrite st_lift_bind, Hsel. cbn beta iota.
  erewrite dkgkit_bind_Ok; [|unfold on_rng, st_zoom; cbn [fst snd]; by rewrite Hm].
  by rewrite (dkgkit_bind_Ok _ _ _ _ _ Hpub), (dkgkit_bind_Ok _ _ _ _ _ Hd2).
Qed.

(** Signing from a ready vault. *)
Lemma ready_vault_signs s g session authorization signers :
  vault_ready s ->
  validate_grouped_threshold_signer_set signers (vs_grouped_config s) = Ok tt ->
  can_reconstruct (hds_config (vs_dkg s)) signers -> blank session = false ->
  Forall (fun m => pm_session_id m <> mkSessionId session) (coordinator_pending (vs_coordinator s)) ->
  exists c' g', vault_ready (with_coordinator c' s) /\
    ((exists share,
        sign_authorization session authorization signers (s, g) =
          ((with_coordinator c' s, g'), Ok share) /\
        head signers = Some (hsp_participant_id share) /\
        coordinator_pending c' = coordinator_pending (vs_coordinator s)) \/
     sign_authorization session authorization signers (s, g) =
       ((with_coordinator c' s, g'),
        Err (AnyhowDkgKit (Protocol "HTSS aggregate nonce cannot be zero")))).
Proof.
  intros Hready Hgroup Hcan Hblank Hold. pose proof Hready as (Hwf & Hids & Hok & key & Hkey & Hv).
  set (config := hds_config (vs_dkg s)) in *. set (sid := mkSessionId session) in *.
  destruct (signing_round config (vault_keys s key) signers Hwf Hv Hcan)
    as (f & Hsh & HN & Hne & Hrk & Hround).
  assert (Hidn : forall i, i ∈ signers -> pid_0 i <> 0%N).
  { intros i Hi. destruct (find_rank_value config i Hwf (Hrk i Hi)) as (p & Hp & <- & _). by apply Hids. }
  destruct (nonce_exchange s g key f session authorization signers Hok Hkey Hgroup Hblank HN Hidn
              (stored_shares s key f signers Hwf Hsh Hrk) Hold)
    as (nonce & c1 & g' & Hnz & Hok1 & Hp1 & ->). fold config sid.
  set (digest := BitcoinAuthorizationMessage_digest authorization).
  pose proof (finish_authorization_cases (with_coordinator c1 s) g' key digest sid
    (nonce_package sid nonce <$> signers) signers config
    (zip (key_share config f <$> signers) (local_nonce sid nonce <$> signers)) Hblank Hok1) as Hfin.
  cbn [with_coordinator vs_coordinator] in Hfin. rewrite Hp1 in Hfin. specialize (Hfin Hold).
  destruct (Hround sid nonce digest signers signers Hnz) as
    [[_ Hsigned]|(z & P & sig & Hsigned & Hagg & _ & _)]; [done|done| |];
    cbn [vault_keys hkset_group_key] in Hsigned; rewrite Hsigned in Hfin.
  - destruct Hfin as (c' & Hrun & Hok').
    { rewrite zip_fmap_diag. apply Forall_fmap, Forall_forall. intros i Hi. cbn. split; [done|by apply Hidn]. }
    exists c', g'. split; [by apply ready_with_coordinator|]. right. exact Hrun.
  - destruct signers as [|i signers]; [done|].
    destruct (fun Hi => Hfin Hi _ _ Hagg eq_refl) as (c' & Hrun & Hok' & Hp').
    { rewrite zip_fmap_diag. apply Forall_fmap, Forall_forall. intros j Hj. cbn. split; [done|by apply Hidn]. }
    exists c', g'. split; [by apply ready_with_coordinator|]. left.
    eexists. split_and!; [exact Hrun|done|done].
Qed.

(** C8: a ready vault signs.  When the signer set meets the quotas of the grouped
    policy and can reconstruct, and the signing session is new,
    [sign_authorization] exchanges nonces and shares over the vault's transport,
    aggregates and verifies, and returns the first signer's share with the queue as
    it was before, or reports that the drawn nonces cancelled.  The keys are never
    touched. *)
Theorem vault_signs s g session authorization signers :
  vault_ready s ->
  validate_grouped_threshold_signer_set signers (vs_grouped_config s) = Ok tt ->
  can_reconstruct (hds_config (vs_dkg s)) signers -> blank session = false ->
  Forall (fun m => pm_session_id m <> mkSessionId session) (coordinator_pending (vs_coordinator s)) ->
  exists c' g', vault_ready (with_coordinator c' s) /\
    ((exists share,
        sign_authorization session authorization signers (s, g) =
          ((with_coordinator c' s, g'), Ok share) /\
        head signers = Some (hsp_participant_id share) /\
        coordinator_pending c' = coordinator_pending (vs_coordinator s)) \/
     sign_authorization session authorization signers (s, g) =
       ((with_coordinator c' s, g'),
        Err (AnyhowDkgKit (Protocol "HTSS aggregate nonce cannot be zero")))).
Proof. apply ready_vault_signs. Qed.
End signing.

(** ** What holds after any sequence of calls *)

Section all_runs.
Context `{BitcoinLib} `{!SecpLaws}.
Context `{SerdeJson ProtocolMessage} `{Utf8Error}.
Context `{SerdeJson HtssDkgRound1Package, SerdeJson HtssDkgRound2Package,
          SerdeJson HtssNoncePackage, SerdeJson HtssSignatureSharePackage}.

Local Abbreviation vault_state := (InMemoryVaultService * rng)%type.

(** Only the transport and the generator changed. *)
Definition transport_only (st st' : vault_state) : Prop :=
  exists c, st'.1 = with_coordinator c st.1.

#[local] Instance transport_only_preorder : PreOrder transport_only.
Proof.
  split.
  - intros [s g]. exists (vs_coordinator s). by destruct s.
  - intros [s1 g1] [s2 g2] [s3 g3] [c1 E1] [c2 E2]. cbn [fst] in *. exists c2. by subst.
Qed.

Lemma transport_only_coordinator {A}
    (op : ST (FrostCoordinator LocalNostrEventTransport) DkgKitError A) :
  evolves transport_only (on_coordinator op).
Proof. intros [s g]. unfold on_coordinator, st_zoom. cbn. destruct (op _) as [c r]. by exists c. Qed.

Lemma transport_only_rng {A} (op : ST rng DkgKitError A) : evolves transport_only (on_rng op).
Proof.
  intros [s g]. unfold on_rng, st_zoom. cbn. destruct (op g) as [g' r].
  exists (vs_coordinator s). by destruct s.
Qed.

#[local] Hint Resolve transport_only_coordinator transport_only_rng : evolves.
#[local] Hint Extern 1 (PreOrder _) => apply _ : evolves.

Lemma finish_authorization_transport key digest sid nonces signers config items :
  evolves transport_only (finish_authorization key digest sid nonces signers config items).
Proof.
  unfold finish_authorization, dkgkit.
  apply evolves_bind; [apply _| |intros _; eauto 12 with evolves].
  apply evolves_map_err, evolves_mapM; [apply _|]. intros [share n].
  unfold sign_and_publish. eauto with evolves.
Qed.

Lemma sign_authorization_transport session authorization signers :
  evolves transport_only (sign_authorization session authorization signers).
Proof.
  unfold sign_authorization, dkgkit.
  do 8 (apply evolves_bind; [apply _|eauto 6 with evolves|intros ?]).
  apply finish_authorization_transport.
Qed.

(** C24: an authorization is only signed by a quorum and only with a verified
    signature.  [sign_authorization] never changes the keys, the policy or the
    stored shares, whatever happens; before the key generation it fails and
    changes nothing at all; and when it succeeds, the signer set meets the quotas
    of the grouped policy and the aggregate signature over the authorization's
    digest passed the Bitcoin verifier under the vault's group key. *)
Theorem vault_authorization_guarded s g s' g' session authorization signers r :
  sign_authorization session authorization signers (s, g) = ((s', g'), r) ->
  (exists c, s' = with_coordinator c s) /\
  (vs_group_key s = None -> is_ok r = false /\ s' = s /\ g' = g) /\
  (forall share, r = Ok share ->
     exists key signature,
       validate_grouped_threshold_signer_set signers (vs_grouped_config s) = Ok tt /\
       vs_group_key s = Some key /\
       verify_aggregate_signature_digest key (BitcoinAuthorizationMessage_digest authorization)
         signature = Ok true).
Proof.
  intros Hrun. split_and!.
  - pose proof (sign_authorization_transport session authorization signers (s, g)) as Ht.
    by rewrite Hrun in Ht.
  - intros Hkey. unfold sign_authorization, dkgkit in Hrun.
    erewrite st_bind_Ok in Hrun; [|unfold st_gets; reflexivity]. cbn [fst] in Hrun.
    unfold mbind, st_bind, st_map_err, st_lift in Hrun. rewrite Hkey in Hrun.
    by destruct (validate_grouped_threshold_signer_set signers (vs_grouped_config s)) as [[]| |];
      cbn in Hrun; simplify_eq.
  - intros share ->. unfold sign_authorization in Hrun.
    apply st_bind_inv_Ok in Hrun as (st1 & self & [= <- <-] & Hrun). cbn [fst] in Hrun.
    apply dkgkit_bind_inv in Hrun as (st1 & [] & Hv & Hrun). injection Hv as <- Hv.
    apply st_bind_inv_Ok in Hrun as (st1 & key & Hk & Hrun). injection Hk as <- Hk%ok_or_Ok.
    apply dkgkit_bind_inv in Hrun as (st1 & sid & _ & Hrun). cbv zeta in Hrun.
    apply st_bind_inv_Ok in Hrun as (st2 & shares & _ & Hrun).
    do 3 (apply dkgkit_bind_inv in Hrun as (? & ? & _ & Hrun)).
    unfold finish_authorization in Hrun.
    do 2 (apply dkgkit_bind_inv in Hrun as (? & ? & _ & Hrun)).
    apply dkgkit_bind_inv in Hrun as (? & signature & _ & Hrun).
    apply st_bind_inv_Ok in Hrun as (? & verified & Hver & Hrun).
    apply st_bind_inv_Ok in Hrun as (? & [] & Hb & _). injection Hb as _ Hb%reject_if_Ok%negb_false_iff.
    subst. exists key, signature. split_and!; [done..|]. injection Hver as _ Hver.
    by destruct (verify_aggregate_signature_digest _ _ _) as [v| |]; simplify_eq/=.
Qed.

(** The keys are one sharing: there is no share without a group key, and the
    stored shares are the shares of their participants under one polynomial with
    as many coefficients as the threshold, whose constant term is the secret of
    the stored group key. *)
Definition vault_sound (s : InMemoryVaultService) : Prop :=
  let config := hds_config (vs_dkg s) in
  match vs_group_key s with
  | None => vs_local_shares s = ∅
  | Some key => exists F, length F = N.to_nat (htc_threshold config) /\
      secret_key_of (poly_eval F scalar_zero) (gk_xonly_public_key key) /\
      forall id share, vs_local_shares s !! id = Some share ->
        exists p, p ∈ htc_participants config /\ rp_id p = id /\ share = share_of F p
  end.

(** The share of a participant under [F], whose constant term is the secret of
    the stored key. *)
Definition new_share_of (F : list scalar) (s : InMemoryVaultService) (id : ParticipantId)
    (share : HtssLocalKeyShare) : Prop :=
  exists key p, vs_group_key s = Some key /\
    secret_key_of (poly_eval F scalar_zero) (gk_xonly_public_key key) /\
    p ∈ htc_participants (hds_config (vs_dkg s)) /\ rp_id p = id /\ share = share_of F p.

(** From [st] to [st'] the policy stays, a group key may be stored but none is
    replaced, nothing is stored without a key, a new key is that of [F], and every
    share that was not there before is one of [F]. *)
Definition stores (F : list scalar) (st st' : vault_state) : Prop :=
  vs_dkg st'.1 = vs_dkg st.1 /\
  (forall key, vs_group_key st.1 = Some key -> vs_group_key st'.1 = Some key) /\
  (vs_group_key st'.1 = None -> vs_local_shares st'.1 = vs_local_shares st.1) /\
  (forall key, vs_group_key st.1 = None -> vs_group_key st'.1 = Some key ->
     secret_key_of (poly_eval F scalar_zero) (gk_xonly_public_key key)) /\
  forall id share, vs_local_shares st'.1 !! id = Some share ->
    vs_local_shares st.1 !! id = Some share \/ new_share_of F st'.1 id share.

(** Policy, key and shares are as before. *)
Definition keeps_keys (st st' : vault_state) : Prop :=
  vs_dkg st'.1 = vs_dkg st.1 /\ vs_group_key st'.1 = vs_group_key st.1 /\
  vs_local_shares st'.1 = vs_local_shares st.1.

#[local] Instance keeps_keys_preorder : PreOrder keeps_keys.
Proof.
  split; [by intros st|]. intros st1 st2 st3 (Hd1 & Hk1 & Hs1) (Hd2 & Hk2 & Hs2).
  split_and!; congruence.
Qed.

Lemma keeps_keys_stores F st st' : keeps_keys st st' -> stores F st st'.
Proof.
  intros (Hd & Hk & Hs). split_and!; [done|by rewrite Hk|done|by rewrite Hk; congruence|].
  intros id share. rewrite Hs. by left.
Qed.

#[local] Instance stores_preorder F : PreOrder (stores F).
Proof.
  split; [by intros st; apply keeps_keys_stores|].
  intros st1 st2 st3 (Hd1 & Hk1 & Hn1 & Hf1 & Hs1) (Hd2 & Hk2 & Hn2 & Hf2 & Hs2).
  split_and!; [congruence|auto| | |].
  - intros Hk3. assert (Hkey : vs_group_key st2.1 = None).
    { destruct (vs_group_key st2.1) eqn:E; [|done]. by rewrite (Hk2 _ eq_refl) in Hk3. }
    by rewrite Hn2, Hn1.
  - intros key Hk Hk3. destruct (vs_group_key st2.1) as [key2|] eqn:E; [|by apply Hf2].
    rewrite (Hk2 _ eq_refl) in Hk3. injection Hk3 as ->. by apply Hf1.
  - intros id share [Hsh|Hnew]%Hs2; [|by right]. apply Hs1 in Hsh as [Hsh|(key & p & Hk & Hrest)];
      [by left|]. right. exists key, p. rewrite Hd2. split; [by apply Hk2|done].
Qed.

Lemma transport_only_keeps_keys st st' : transport_only st st' -> keeps_keys st st'.
Proof. destruct st as [s g], st' as [s' g']. intros [c E]. cbn [fst] in E. subst s'. by split_and!. Qed.

Lemma keeps_keys_coordinator {A}
    (op : ST (FrostCoordinator LocalNostrEventTransport) DkgKitError A) :
  evolves keeps_keys (on_coordinator op).
Proof. intros st. apply transport_only_keeps_keys, transport_only_coordinator. Qed.

Lemma keeps_keys_rng {A} (op : ST rng DkgKitError A) : evolves keeps_keys (on_rng op).
Proof. intros st. apply transport_only_keeps_keys, transport_only_rng. Qed.

Lemma keeps_keys_round1_state id state : evolves keeps_keys (on_service (with_round1_state id state)).
Proof. intros [s g]. by split_and!. Qed.

#[local] Hint Resolve keeps_keys_coordinator keeps_keys_rng keeps_keys_round1_state : evolves.

(** Storing the share of a participant with a key that is stored or agrees. *)
Lemma store_share F s g p key share q :
  secret_key_of (poly_eval F scalar_zero) (gk_xonly_public_key key) ->
  q ∈ htc_participants (hds_config (vs_dkg s)) -> rp_id q = rp_id p -> share = share_of F q ->
  (vs_group_key s = None ->
   stores F (s, g) (with_local_share (rp_id p) share (with_group_key key s), g)) /\
  (forall existing, vs_group_key s = Some existing ->
   gk_xonly_public_key existing = gk_xonly_public_key key ->
   stores F (s, g) (with_local_share (rp_id p) share s, g)).
Proof.
  intros Hsk Hq Hid Hshare. split; [intros Hk|intros existing Hk Heq].
  - split_and!; cbn; [done|by rewrite Hk|done|by intros ? _ [= <-]|].
    intros id sh [[<- <-]|[_ Hsh]]%lookup_insert_Some; [right; by exists key, q|by left].
  - split_and!; cbn; [done|done|by rewrite Hk|by rewrite Hk|].
    intros id sh [[<- <-]|[_ Hsh]]%lookup_insert_Some; [right|by left].
    exists existing, q. by rewrite Heq.
Qed.

(** What [finalize_htss_dkg] returns against these round-one packages belongs to
    [F]. *)
Definition finalizes_to (F : list scalar) (config : HierarchicalThresholdConfig)
    (round1 : list HtssDkgRound1Package) : Prop :=
  forall id round2 key share,
    finalize_htss_dkg id round1 round2 config = Ok (key, share) ->
    secret_key_of (poly_eval F scalar_zero) (gk_xonly_public_key key) /\
    exists p, p ∈ htc_participants config /\ rp_id p = id /\ share = share_of F p.

Lemma finish_participant_stores F dkg round1 p s g :
  finalizes_to F (hds_config dkg) round1 -> vs_dkg s = dkg ->
  stores F (s, g) (finish_participant dkg round1 p (s, g)).1.
Proof.
  intros HF Hdkg.
  destruct (drain_htss_dkg_round2_for (hds_session_id dkg) (rp_id p) (vs_coordinator s))
    as [c o] eqn:Hd.
  assert (Hon : on_coordinator (drain_htss_dkg_round2_for (hds_session_id dkg) (rp_id p)) (s, g) =
                ((with_coordinator c s, g), o)).
  { unfold on_coordinator, st_zoom. cbn [fst snd]. by rewrite Hd. }
  assert (Hc : stores F (s, g) (with_coordinator c s, g)).
  { apply keeps_keys_stores, transport_only_keeps_keys. by exists c. }
  unfold finish_participant. destruct o as [packages|e|]; [rewrite (st_bind_Ok _ _ _ _ _ Hon)
    |by rewrite (st_bind_Err _ _ _ _ _ Hon)|by rewrite (st_bind_Panic _ _ _ _ Hon)].
  rewrite st_lift_bind. unfold HtssDkgService_finalize_participant.
  destruct (finalize_htss_dkg _ _ _ _) as [[key share]|e|] eqn:Hfin; [|done..].
  destruct (HF _ _ _ _ Hfin) as (Hsk & q & Hq & Hid & Hshare). rewrite <- Hdkg in Hq.
  destruct (store_share F (with_coordinator c s) g p key share q Hsk Hq Hid Hshare)
    as [Hnone Hsome].
  erewrite st_bind_Ok; [|unfold st_gets; reflexivity]. cbn [fst with_coordinator vs_group_key].
  destruct (vs_group_key s) as [existing|] eqn:Hk.
  - rewrite st_lift_bind. case_bool_decide as Hne; cbn [reject_if]; [done|].
    etransitivity; [exact Hc|]. apply (Hsome existing); [done|].
    by destruct (decide (gk_xonly_public_key existing = gk_xonly_public_key key)).
  - erewrite st_bind_Ok; [|reflexivity]. etransitivity; [exact Hc|]. by apply Hnone.
Qed.

Lemma finish_participants_store F dkg round1 l : finalizes_to F (hds_config dkg) round1 ->
  forall st : vault_state, vs_dkg st.1 = dkg ->
  stores F st (mapM (finish_participant dkg round1) l st).1.
Proof.
  intros HF. induction l as [|p l IH]; intros st Hst; [reflexivity|].
  pose proof (finish_participant_stores F dkg round1 p st.1 st.2 HF Hst) as Hp.
  rewrite <- surjective_pairing in Hp. rewrite st_mapM_cons.
  destruct (finish_participant dkg round1 p st) as [st1 [u|e|]] eqn:E;
    [rewrite (st_bind_Ok _ _ _ _ _ E)|by rewrite (st_bind_Err _ _ _ _ _ E)
    |by rewrite (st_bind_Panic _ _ _ _ E)].
  cbn [fst] in Hp. specialize (IH st1). rewrite (proj1 Hp) in IH. specialize (IH Hst).
  etransitivity; [exact Hp|]. unfold mbind, st_bind.
  by destruct (mapM (finish_participant dkg round1) l st1) as [st2 [k|e|]].
Qed.

(** A call that starts by leaving the keys alone stores what its rest stores. *)
Lemma keeps_then_stores {A B} t (m : ST vault_state DkgKitError A)
    (f : A -> ST vault_state DkgKitError B) st :
  evolves keeps_keys m ->
  (forall a st1, keeps_keys st st1 -> exists F, length F = t /\ stores F st1 (f a st1).1) ->
  exists F, length F = t /\ stores F st ((m ≫= f) st).1.
Proof.
  intros Hm Hf. specialize (Hm st). unfold mbind, st_bind.
  destruct (m st) as [st1 [a|e|]]; cbn [fst] in Hm.
  - destruct (Hf a st1 Hm) as (F & Hl & HF). exists F. split; [done|].
    etransitivity; [by apply keeps_keys_stores|exact HF].
  - exists (replicate t scalar_zero). split; [apply length_replicate|by apply keeps_keys_stores].
  - exists (replicate t scalar_zero). split; [apply length_replicate|by apply keeps_keys_stores].
Qed.

Lemma run_htss_dkg_stores st :
  wf_hierarchical (hds_config (vs_dkg st.1)) ->
  exists F, length F = N.to_nat (htc_threshold (hds_config (vs_dkg st.1))) /\
            stores F st (run_htss_dkg st).1.
Proof.
  intros Hwf. unfold run_htss_dkg. erewrite st_bind_Ok; [|unfold st_gets; reflexivity]. cbn [fst].
  set (dkg := vs_dkg st.1) in *.
  apply keeps_then_stores; [unfold begin_participant; eauto 10 with evolves|intros _ st1 K1].
  apply keeps_then_stores; [eauto with evolves|intros round1 st2 K2].
  apply keeps_then_stores; [eauto with evolves|intros states st3 K3].
  apply keeps_then_stores; [unfold send_round2; eauto 10 with evolves|intros _ st4 K4].
  assert (Hdkg : vs_dkg st4.1 = dkg).
  { unfold dkg. by rewrite (proj1 K4), (proj1 K3), (proj1 K2), (proj1 K1). }
  destruct (finalized_shares _ round1 Hwf) as (F & Hl & HF). exists F. split; [exact Hl|].
  pose proof (finish_participants_store F dkg round1 (htc_participants (hds_config dkg)) HF st4 Hdkg)
    as Hstore.
  unfold mbind, st_bind.
  by destruct (mapM (finish_participant dkg round1) (htc_participants (hds_config dkg)) st4)
    as [st5 [k|e|]].
Qed.

(** The calls of the program, and arbitrary changes of what the transport holds:
    messages of other devices may arrive at any time. *)
Inductive vault_step : vault_state -> vault_state -> Prop :=
  | step_connect st : vault_step st (connect_transport st).1
  | step_dkg st : vault_step st (run_htss_dkg st).1
  | step_sign st session authorization signers :
      vault_step st (sign_authorization session authorization signers st).1
  | step_transport s g c : vault_step (s, g) (with_coordinator c s, g).

(** A step in which no share is replaced: a key generation repeated with a stored
    key fails, or ends with the shares there were. *)
Definition settled_step (st st' : vault_state) : Prop :=
  vault_step st st' /\
  (vs_group_key st.1 <> None -> vs_local_shares st'.1 = vs_local_shares st.1).

Lemma vault_step_stores st st' :
  wf_hierarchical (hds_config (vs_dkg st.1)) -> vault_step st st' ->
  exists F, length F = N.to_nat (htc_threshold (hds_config (vs_dkg st.1))) /\ stores F st st'.
Proof.
  intros Hwf Hstep.
  assert (Hkeep : keeps_keys st st' ->
    exists F, length F = N.to_nat (htc_threshold (hds_config (vs_dkg st.1))) /\ stores F st st').
  { exists (replicate (N.to_nat (htc_threshold (hds_config (vs_dkg st.1)))) scalar_zero).
    split; [apply length_replicate|by apply keeps_keys_stores]. }
  destruct Hstep as [st1|st1|st1 session authorization signers|s g c].
  - apply Hkeep, keeps_keys_coordinator.
  - by apply run_htss_dkg_stores.
  - apply Hkeep, transport_only_keeps_keys, sign_authorization_transport.
  - apply Hkeep, transport_only_keeps_keys. by exists c.
Qed.

Lemma settled_step_sound st st' :
  wf_hierarchical (hds_config (vs_dkg st.1)) -> settled_step st st' ->
  vault_sound st.1 -> vault_sound st'.1.
Proof.
  intros Hwf [Hstep Hsame]. unfold vault_sound.
  destruct (vault_step_stores st st' Hwf Hstep) as (F & Hl & Hd & Hk & Hn & Hf & Hs).
  rewrite Hd. destruct (vs_group_key st.1) as [key|] eqn:E.
  - rewrite (Hk _ eq_refl), Hsame by done. done.
  - intros Hempty. destruct (vs_group_key st'.1) as [key|] eqn:E'; [|by rewrite Hn].
    exists F. split_and!; [done|by apply Hf|]. intros id share [Hsh|Hnew]%Hs.
    + by rewrite Hempty, lookup_empty in Hsh.
    + destruct Hnew as (key' & p & _ & _ & Hp & Hid & Hshare). rewrite Hd in Hp. eauto.
Qed.

(** Along a run the policy stays and a stored key is kept. *)
Lemma vault_run_keeps st st' :
  wf_hierarchical (hds_config (vs_dkg st.1)) -> rtc vault_step st st' ->
  vs_dkg st'.1 = vs_dkg st.1 /\
  forall key, vs_group_key st.1 = Some key -> vs_group_key st'.1 = Some key.
Proof.
  intros Hwf Hrun. induction Hrun as [st|st st1 st' Hstep _ IH]; [done|].
  destruct (vault_step_stores st st1 Hwf Hstep) as (F & _ & Hd & Hk & _).
  rewrite Hd in IH. destruct (IH Hwf) as [IHd IHk]. split; [done|auto].
Qed.

Lemma settled_run_sound st st' :
  wf_hierarchical (hds_config (vs_dkg st.1)) -> rtc settled_step st st' ->
  vault_sound st.1 -> vault_sound st'.1.
Proof.
  intros Hwf Hrun. induction Hrun as [|x y z Hxy _ IH]; [done|]. intros Hsound.
  apply IH; [|by eapply settled_step_sound].
  destruct (vault_step_stores x y Hwf (proj1 Hxy)) as (F & _ & Hd & _). by rewrite Hd.
Qed.

(** C25: the vault's keys are one sharing.  Take any sequence of calls on a new
    service, failing calls and repeated key generations included, with messages of
    other devices arriving at any time.  The policy stays, a group key once stored
    is never replaced, and the shares that one call adds all belong to one
    polynomial with [threshold] coefficients whose constant term is the secret of
    the stored key.  So, as long as no repeated key generation replaced shares
    (for which it has to derive the stored key again), there is one such polynomial
    of which every stored share is its participant's share, and without a key
    there are no shares. *)
Theorem vault_keys_sound vault_id dkg_sid network chain_code ps rs gc s g st st' :
  GroupedThresholdConfig_new ps rs = Ok gc ->
  InMemoryVaultService_new vault_id dkg_sid network chain_code gc = Ok s ->
  rtc vault_step (s, g) st -> rtc vault_step st st' ->
  vs_dkg st.1 = vs_dkg s /\
  (forall key, vs_group_key st.1 = Some key -> vs_group_key st'.1 = Some key) /\
  (forall next, vault_step st next ->
     exists F, length F = N.to_nat (htc_threshold (hds_config (vs_dkg s))) /\ stores F st next) /\
  (rtc settled_step (s, g) st -> vault_sound st.1).
Proof.
  intros Hgc Hs Hst Hst'.
  destruct (service_new_Ok _ _ _ _ _ _ _ _ Hs Hgc) as (Hat & Hwf & _).
  destruct (vault_run_keeps (s, g) st Hwf Hst) as [Hd _]. cbn [fst] in Hd.
  assert (Hwf' : wf_hierarchical (hds_config (vs_dkg st.1))) by (by rewrite Hd).
  split_and!; [done|by apply vault_run_keeps| |].
  - intros next Hnext. rewrite <- Hd. by apply vault_step_stores.
  - intros Hsettled. apply (settled_run_sound (s, g) st Hwf Hsettled).
    unfold vault_sound. cbn [fst]. by rewrite Hat.
Qed.
End all_runs.

(** ** The program from start to end *)

Section program.
Context `{BitcoinLaws} `{!SecpLaws}.
Context `{SerdeJson ProtocolMessage} `{!SerdeJsonLaws ProtocolMessage} `{Utf8Error}.
Context `{SerdeJson HtssDkgRound1Package, SerdeJson HtssDkgRound2Package,
          SerdeJson HtssNoncePackage, SerdeJson HtssSignatureSharePackage}.
Context `{!SerdeJsonLaws HtssDkgRound1Package, !SerdeJsonLaws HtssDkgRound2Package,
          !SerdeJsonLaws HtssNoncePackage, !SerdeJsonLaws HtssSignatureSharePackage}.

(** The policy of the program and its signers. *)
Definition treasury_config : HierarchicalThresholdConfig :=
  match (grouped ← grouped_config_123_of_235; hierarchical_config_from_grouped_threshold grouped) with
  | Ok config => config
  | _ => mkHierarchicalThresholdConfig 0 []
  end.

Definition treasury_signers : list ParticipantId := mkParticipantId <$> [1; 3; 4; 6; 7; 8]%N.

Definition treasury_path : BitcoinDerivationPath := BitcoinDerivationPath_bip86 0 0 0.

Definition cancelled (e : AnyhowError) : Prop :=
  e = AnyhowDkgKit (Protocol "HTSS DKG group key cannot be zero") \/
  e = AnyhowDkgKit (Protocol "HTSS aggregate nonce cannot be zero").

Lemma treasury_service :
  exists ps rs gc s,
    grouped_config_123_of_235 = Ok gc /\ GroupedThresholdConfig_new ps rs = Ok gc /\
    (forall p, p ∈ ps -> pid_0 (rp_id p) <> 0%N) /\
    InMemoryVaultService_new "treasury-demo" "treasury-demo-dkg" "regtest" (replicate 32 Byte.x2a) gc
      = Ok s /\
    hds_config (vs_dkg s) = treasury_config /\
    validate_grouped_threshold_signer_set treasury_signers gc = Ok tt.
Proof.
  destruct grouped_config_123_of_235 as [gc| |] eqn:E; [|vm_compute in E; discriminate E..].
  exists (gtc_participants gc), (gtc_requirements gc), gc.
  destruct (InMemoryVaultService_new "treasury-demo" "treasury-demo-dkg" "regtest"
              (replicate 32 Byte.x2a) gc) as [s| |] eqn:Es;
    vm_compute in E; injection E as <-; vm_compute in Es; [|discriminate Es..].
  injection Es as <-. eexists. split_and!; try (vm_compute; reflexivity).
  intros p Hp. cbn [gtc_participants] in Hp.
  repeat (apply elem_of_cons in Hp as [->|Hp]; [done|]). by apply not_elem_of_nil in Hp.
Qed.

(** The address [main] derives for a group key, and the end of the program when
    it does not derive. *)
Definition treasury_address (key : GroupKey) : AResult BitcoinAddressDescriptor :=
  taproot_child_address_descriptor_for_network
    (BitcoinAccountKey_new key (replicate 32 Byte.x2a)) "regtest" treasury_path.

Definition address_failed {A} (r : Outcome AnyhowError A) : Prop :=
  exists key, match treasury_address key with
              | Ok _ => False
              | Err text => r = Err (AnyhowText text)
              | Panic => r = Panic
              end.

Definition treasury_ending (r : Outcome AnyhowError VaultReport) : Prop :=
  (exists report, r = Ok report /\ vr_first_share_participant report = 1%N /\
                  vr_remaining_events report = 0) \/
  (exists e, r = Err e /\ cancelled e) \/ address_failed r.

(** The session of the program on a service that completes its key generation. *)
Lemma treasury_session_runs s g s1 g1 :
  (connect_transport;; run_htss_dkg) (s, g) = ((s1, g1), Ok tt) ->
  vault_ready s1 -> coordinator_pending (vs_coordinator s1) = [] ->
  validate_grouped_threshold_signer_set treasury_signers (vs_grouped_config s1) = Ok tt ->
  can_reconstruct (hds_config (vs_dkg s1)) treasury_signers ->
  vs_network s1 = "regtest" -> vs_chain_code s1 = replicate 32 Byte.x2a ->
  exists s2 g2 r, treasury_session (s, g) = ((s2, g2), r) /\ treasury_ending r.
Proof.
  intros Hrun Hready Hp Hgroup Hcan Hnet Hcc.
  apply st_bind_inv_Ok in Hrun as (st0 & [] & Hc & Hrun).
  pose proof Hready as (_ & _ & _ & key & Hkey & _).
  unfold treasury_session. rewrite (dkgkit_bind_Ok _ _ _ _ _ Hc), (dkgkit_bind_Ok _ _ _ _ _ Hrun).
  erewrite st_bind_Ok; [|unfold st_gets; reflexivity]. cbn [fst].
  rewrite st_lift_bind. unfold derive_receive_address. rewrite Hkey. cbn [ok_or]. rewrite ok_bind.
  cbv zeta. rewrite Hnet, Hcc. fold treasury_path. fold (treasury_address key).
  destruct (treasury_address key) as [address|text|] eqn:Ha; cbn [map_err]; cbv beta iota;
    [|eexists _, _, _; split; [reflexivity|]; right; right; exists key; by rewrite Ha..].
  rewrite (dkgkit_bind_Ok _ _ _ (s1, g1) treasury_signers eq_refl).
  match goal with |- context [sign_authorization ?session ?a ?l] =>
    destruct (ready_vault_signs s1 g1 session a treasury_signers Hready Hgroup Hcan)
      as (c' & g' & Hready' & [(share & Hsign & Hhead & Hp')|Hsign]) end;
    [reflexivity|by rewrite Hp| |].
  - rewrite (st_bind_Ok _ _ _ _ _ Hsign).
    erewrite st_bind_Ok; [|unfold st_gets; reflexivity]. cbn [fst].
    rewrite st_lift_bind. cbn [with_coordinator vs_group_key]. rewrite Hkey. cbn [expect].
    eexists _, _, _. split; [reflexivity|]. left. eexists. split; [reflexivity|].
    cbn [vr_first_share_participant vr_remaining_events]. injection Hhead as <-. split; [done|].
    rewrite pending_len_ok by apply Hready'. cbn [with_coordinator vs_coordinator].
    unfold coordinator_pending in *. by rewrite Hp', Hp.
  - rewrite (st_bind_Err _ _ _ _ _ Hsign). eexists _, _, _. split; [reflexivity|]. right. left.
    eexists. split; [reflexivity|]. by right.
Qed.

(** The six signers of the program reconstruct, over every lawful group. *)
Definition treasury_certificate : list (N * list Z) :=
  [(8280%N, [8280; -85296; 77016; -262295; 307738; -101759]%Z);
   (23%N, [0; 320; -297; 1092; -1296; 432]%Z);
   (46%N, [0; -192; 192; -876; 1072; -365]%Z);
   (5796%N, [0; 3504; -3504; 20495; -26188; 9197]%Z);
   (552%N, [0; -24; 24; -167; 226; -83]%Z);
   (9660%N, [0; 12; -12; 95; -136; 53]%Z)].

Lemma treasury_can_reconstruct : can_reconstruct treasury_config treasury_signers.
Proof.
  destruct (birkhoff_points_from_hierarchical_signer_set treasury_signers treasury_config)
    as [pts| |] eqn:E; vm_compute in E; [|discriminate E..]. injection E as <-.
  eapply (certified_can_reconstruct _ _ _ treasury_certificate);
    [vm_compute; reflexivity|discriminate|vm_compute; reflexivity].
Qed.

(** The vault program runs to its end.  With the 1-of-2, 2-of-3, 3-of-5
    policy of the program and its six signers, [main] generates the key, derives an
    address, signs the authorization and reports a first share of participant 1 and
    no remaining events; the only other endings are the two cancellation errors and
    a group key whose address does not derive, reported with the error of the
    derivation.  That the signers can reconstruct is no assumption: it holds over
    every lawful group. *)
Theorem vault_main_completes g :
  exists g' r, vault_main g = (g', r) /\ treasury_ending r.
Proof.
  pose proof treasury_can_reconstruct as Hcan.
  destruct treasury_service as (ps & rs & gc & s & Hgc & Hnew & Hids & Hs & Hcfg & Hgroup).
  unfold vault_main. rewrite st_lift_bind, Hgc, ok_bind, Hs. cbn [map_err]. cbv beta iota.
  unfold with_service.
  destruct (service_new_Ok _ _ _ _ _ _ _ _ Hs Hnew) as (_ & _ & _ & _ & Hsg & Hnet & Hcc).
  destruct (new_vault_dkg _ _ _ _ ps rs gc s g Hnew Hids Hs) as (s1 & g1 &
    [(Hrun & Hready & Hp & Hat)|(Hrun & _)]).
  - destruct (treasury_session_runs s g s1 g1 Hrun Hready Hp) as (s2 & g2 & r & -> & Hr).
    + rewrite Hat. cbn [vault_at vs_grouped_config]. by rewrite Hsg.
    + rewrite Hat. cbn [vault_at vs_dkg]. rewrite Hcfg. exact Hcan.
    + rewrite Hat. exact Hnet.
    + rewrite Hat. exact Hcc.
    + exists g2, r. split; [reflexivity|exact Hr].
  - erewrite st_bind_Ok in Hrun; [|reflexivity]. unfold treasury_session.
    erewrite dkgkit_bind_Ok; [|reflexivity]. rewrite (dkgkit_bind_Err _ _ _ _ _ Hrun).
    eexists _, _. split; [reflexivity|]. right. left. eexists. split; [reflexivity|]. by left.
Qed.
End program.

(** ** Concrete services *)

Section witnesses.
Local Existing Instances small_group small_group_laws toy_bitcoin toy_bitcoin_laws.
Local Existing Instances digits_json digits_json_laws.
#[local] Instance vault_utf8_error : Utf8Error := fun _ => "invalid utf-8".

Definition demo_requirements : list GroupThresholdRequirement :=
  [mkGroupThresholdRequirement (mkRank 0) 1 1; mkGroupThresholdRequirement (mkRank 1) 1 2].

Definition demo_grouped : GroupedThresholdConfig :=
  mkGroupedThresholdConfig demo_participants demo_requirements.

Definition demo_vault : InMemoryVaultService :=
  mkInMemoryVaultService "vault" "regtest" (replicate 32 Byte.x2a) demo_grouped
    (mkHtssDkgService (mkSessionId "dkg") demo_config)
    (mkFrostCoordinator LocalNostrEventTransport_default) ∅ ∅ None.

Lemma demo_grouped_new :
  GroupedThresholdConfig_new demo_participants demo_requirements = Ok demo_grouped.
Proof. vm_compute. reflexivity. Qed.

Lemma demo_ids_nonzero p : p ∈ demo_participants -> pid_0 (rp_id p) <> 0%N.
Proof.
  intros Hp. repeat (apply elem_of_cons in Hp as [->|Hp]; [done|]). by apply not_elem_of_nil in Hp.
Qed.

Lemma demo_vault_new :
  InMemoryVaultService_new "vault" "dkg" "regtest" (replicate 32 Byte.x2a) demo_grouped =
  Ok demo_vault.
Proof. vm_compute. reflexivity. Qed.

Lemma vault_dkg_completes_witness :
  exists s' g', (connect_transport;; run_htss_dkg) (demo_vault, demo_rng) = ((s', g'), Ok tt) /\
                vault_ready s'.
Proof.
  destruct (vault_dkg_completes "vault" "dkg" "regtest" (replicate 32 Byte.x2a) demo_participants
              demo_requirements demo_grouped demo_vault demo_rng demo_grouped_new demo_ids_nonzero
              demo_vault_new) as (s' & g' & [(Hrun & Hready & _)|(Hrun & _)]).
  - exists s', g'. split; [exact Hrun|exact Hready].
  - exfalso. assert (Hok : is_ok ((connect_transport;; run_htss_dkg) (demo_vault, demo_rng)).2 = true)
      by (vm_compute; reflexivity).
    rewrite Hrun in Hok. discriminate Hok.
Defined.

(** A vault with the shares of a dealt key. *)
Definition demo_ready_vault : InMemoryVaultService :=
  mkInMemoryVaultService "vault" "regtest" (replicate 32 Byte.x2a) demo_grouped
    (mkHtssDkgService (mkSessionId "dkg") demo_config)
    (mkFrostCoordinator LocalNostrEventTransport_default) ∅
    (collect_map hks_participant_id (hkset_shares demo_keys)) (Some (hkset_group_key demo_keys)).

Lemma demo_vault_ready : vault_ready demo_ready_vault.
Proof.
  split_and!.
  - apply (hierarchical_new_wf _ _ _ demo_config_new).
  - exact demo_ids_nonzero.
  - constructor.
  - exists (hkset_group_key demo_keys). split; [reflexivity|].
    destruct demo_keys_valid as (f & Hl & Hsk & Hsh). exists f. split_and!; [exact Hl|exact Hsk|].
    transitivity (hkset_shares demo_keys); [vm_compute; reflexivity|exact Hsh].
Qed.

Definition demo_authorization : BitcoinAuthorizationMessage :=
  mkBitcoinAuthorizationMessage "regtest" "approve-payment" None None None "approval-001".

Lemma vault_signs_witness :
  exists s' g' share,
    sign_authorization "signing" demo_authorization demo_signers (demo_ready_vault, demo_rng) =
      ((s', g'), Ok share) /\ hsp_participant_id share = mkParticipantId 1.
Proof.
  destruct (vault_signs demo_ready_vault demo_rng "signing" demo_authorization demo_signers
              demo_vault_ready) as (c' & g' & _ & [(share & Hrun & Hhead & _)|Hrun]).
  - vm_compute. reflexivity.
  - exact demo_can_reconstruct.
  - reflexivity.
  - constructor.
  - exists (with_coordinator c' demo_ready_vault), g', share. split; [exact Hrun|].
    injection Hhead as Hhead. symmetry. exact Hhead.
  - exfalso. assert (Hok : is_ok (sign_authorization "signing" demo_authorization demo_signers
      (demo_ready_vault, demo_rng)).2 = true) by (vm_compute; reflexivity).
    rewrite Hrun in Hok. discriminate Hok.
Defined.

Lemma vault_authorization_guarded_witness :
  exists e, sign_authorization "signing" demo_authorization demo_signers (demo_vault, demo_rng) =
            ((demo_vault, demo_rng), e) /\ is_ok e = false.
Proof.
  destruct (sign_authorization "signing" demo_authorization demo_signers (demo_vault, demo_rng))
    as [[s' g'] r] eqn:E.
  destruct (proj1 (proj2 (vault_authorization_guarded demo_vault demo_rng s' g' "signing"
    demo_authorization demo_signers r E)) eq_refl) as (Hr & -> & ->).
  exists r. split; [reflexivity|exact Hr].
Defined.

(** A key generation, then a signature: three shares of one polynomial, and the
    key is still the same. *)
Lemma vault_keys_sound_witness :
  exists st key F, rtc vault_step (demo_vault, demo_rng) st /\ vs_group_key st.1 = Some key /\
    vs_group_key (sign_authorization "signing" demo_authorization demo_signers st).1.1 = Some key /\
    size (vs_local_shares st.1) = 3 /\ length F = 2 /\
    forall id share, vs_local_shares st.1 !! id = Some share ->
      exists p, p ∈ demo_participants /\ rp_id p = id /\ share = share_of F p.
Proof.
  assert (Hkey : is_Some (vs_group_key (run_htss_dkg (demo_vault, demo_rng)).1.1))
    by (vm_compute; eexists; reflexivity).
  assert (Hsize : size (vs_local_shares (run_htss_dkg (demo_vault, demo_rng)).1.1) = 3)
    by (vm_compute; reflexivity).
  pose proof (step_dkg (demo_vault, demo_rng)) as Hstep.
  revert Hkey Hsize Hstep. generalize (run_htss_dkg (demo_vault, demo_rng)).1. intros st Hkey Hsize Hstep.
  destruct Hkey as [key E].
  destruct (vault_keys_sound "vault" "dkg" "regtest" (replicate 32 Byte.x2a) demo_participants
    demo_requirements demo_grouped demo_vault demo_rng st
    (sign_authorization "signing" demo_authorization demo_signers st).1 demo_grouped_new
    demo_vault_new (rtc_once _ _ Hstep)
    (rtc_once _ _ (step_sign st "signing" demo_authorization demo_signers)))
    as (Hdkg & Hk & _ & Hsound).
  specialize (Hsound (rtc_once _ _ (conj Hstep (fun Hn => False_ind _ (Hn eq_refl))))).
  unfold vault_sound in Hsound. rewrite E in Hsound. destruct Hsound as (F & Hl & _ & Hshares).
  rewrite Hdkg in Hl, Hshares. exists st, key, F.
  split_and!; [exact (rtc_once _ _ Hstep)|exact E|exact (Hk key E)|exact Hsize|exact Hl|exact Hshares].
Defined.

Lemma vault_main_completes_witness :
  exists g' report, vault_main demo_rng = (g', Ok report) /\ vr_remaining_events report = 0.
Proof.
  assert (Hok : is_ok (vault_main demo_rng).2 = true) by (vm_compute; reflexivity).
  destruct (vault_main_completes demo_rng) as (g' & r & Hrun &
    [(report & -> & _ & Hrest)|[(e & -> & _)|(key & Hr)]]).
  - exists g', report. split; [exact Hrun|exact Hrest].
  - exfalso. rewrite Hrun in Hok. discriminate Hok.
  - exfalso. rewrite Hrun in Hok. destruct (treasury_address key) as [a|t|]; [exact Hr|..];
      rewrite Hr in Hok; discriminate Hok.
Defined.
End witnesses.
