(* ===== verification/VaultSecrecy.v ===== *)
(** The quotas of a grouped policy and the shares of the vault of
    [examples/vault-service/src/main.rs].

    [sign_authorization] refuses a signer set that misses a quota, but the
    shares of the vault are those of a hierarchical sharing whose threshold is
    the sum of the quotas: derivative values of order zero, one and two.  Six
    participants whose ranks satisfy the Birkhoff rule determine the key of the
    vault whatever the quotas say; the example is the signer set that
    [docs/FROST_API.md] lists as invalid for this policy. *)

From Stdlib Require Import Ascii String.
From stdpp Require Import base numbers countable gmap strings list.
From S2P Require Import Prelude Core Codec Transport Secp SmallGroup Packages SignerPolicy Birkhoff HtssKeygen HtssDkg Sdk Nostr Bitcoin Certificates Secrecy VaultService.

(** One of the two, one of the three and four of the five: the quotas are one,
    two and three. *)
Definition refused_signers : list ParticipantId := mkParticipantId <$> [1; 3; 6; 7; 8; 9]%N.

Definition refused_weights : list Z := [360; -360; 37568; -91959; 77754; -22463]%Z.

Section quotas.
Context `{BitcoinLaws} `{!SecpLaws}.
Context `{SerdeJson ProtocolMessage} `{!SerdeJsonLaws ProtocolMessage} `{Utf8Error}.
Context `{SerdeJson HtssDkgRound1Package, SerdeJson HtssDkgRound2Package,
          SerdeJson HtssNoncePackage, SerdeJson HtssSignatureSharePackage}.
Context `{!SerdeJsonLaws HtssDkgRound1Package, !SerdeJsonLaws HtssDkgRound2Package,
          !SerdeJsonLaws HtssNoncePackage, !SerdeJsonLaws HtssSignatureSharePackage}.

(** The shares that a service stores for the given participants. *)
Definition stored_shares (ids : list ParticipantId) (s : InMemoryVaultService) :
  list HtssLocalKeyShare :=
  omap (fun id => vs_local_shares s !! id) ids.

Lemma stored_shares_dealt s key f members :
  hkset_shares (vault_keys s key) = share_of f <$> htc_participants (hds_config (vs_dkg s)) ->
  (forall p, p ∈ members -> p ∈ htc_participants (hds_config (vs_dkg s))) ->
  stored_shares (rp_id <$> members) s = share_of f <$> members.
Proof.
  intros Hs Hm. unfold stored_shares. induction members as [|p members IH]; [done|].
  rewrite fmap_cons. cbn [omap list_omap].
  rewrite (omap_all_inv _ (share_of f) _ Hs p) by (apply Hm; left).
  rewrite fmap_cons, IH; [done|]. intros q Hq. apply Hm. by right.
Qed.

(** Checked weights open a ready vault. *)
Lemma ready_vault_opened s D ws members :
  vault_ready s ->
  (forall p, p ∈ members -> p ∈ htc_participants (hds_config (vs_dkg s))) ->
  weights_check (N.to_nat (htc_threshold (hds_config (vs_dkg s)))) 0 D ws
    (participant_point <$> members) = true ->
  exists key sk, vs_group_key s = Some key /\ secret_key_of sk (gk_xonly_public_key key) /\
    recover (weights_of D ws) (stored_shares (rp_id <$> members) s) = Some sk.
Proof.
  intros (Hwf & _ & _ & key & Hkey & f & Hf & Hsk & Hs) Hm Hc.
  pose proof (threshold_fits _ Hwf) as Ht.
  exists key, (poly_eval f scalar_zero). split_and!; [done|exact Hsk|].
  rewrite (stored_shares_dealt s key f members Hs Hm).
  apply (weights_determine (N.to_nat (htc_threshold (hds_config (vs_dkg s))))); [lia|lia|done..].
Qed.

(** C34: the shares of the vault do not enforce the quotas.  The policy of the
    example vault refuses the six signers 1, 3, 6, 7, 8 and 9, of whom one instead
    of two is a manager; but after every successful key generation of the vault
    fixed weights turn the six shares that it stores for them into the secret of
    its group key, with which they can sign for the vault. *)
Theorem refused_signers_hold_the_key g :
  exists gc s,
    grouped_config_123_of_235 = Ok gc /\
    InMemoryVaultService_new "treasury-demo" "treasury-demo-dkg" "regtest" (replicate 32 Byte.x2a)
      gc = Ok s /\
    is_ok (validate_grouped_threshold_signer_set refused_signers gc) = false /\
    forall s' g', (connect_transport;; run_htss_dkg) (s, g) = ((s', g'), Ok tt) ->
      exists key sk, vs_group_key s' = Some key /\
        secret_key_of sk (gk_xonly_public_key key) /\
        recover (weights_of 360 refused_weights) (stored_shares refused_signers s') = Some sk.
Proof.
  destruct treasury_service as (ps & rs & gc & s & Hg & Hgc & Hids & Hs & Hconf & _).
  exists gc, s. split_and!; [done|done| |].
  - pose proof Hg as Hg'. vm_compute in Hg'. injection Hg' as <-. vm_compute. reflexivity.
  - intros s' g' Hrun.
    destruct (new_vault_dkg _ _ _ _ ps rs gc s g Hgc Hids Hs)
      as (s1 & g1 & [(Hrun' & Hready & _ & Hat)|(Hrun' & _)]); [|congruence].
    rewrite Hrun in Hrun'. injection Hrun' as <- <-.
    assert (Hd : hds_config (vs_dkg s') = treasury_config) by (by rewrite Hat).
    apply (ready_vault_opened s' 360 refused_weights
             (members_of refused_signers (htc_participants treasury_config)) Hready);
      rewrite ?Hd; [|vm_compute; reflexivity].
    intros p Hp. unfold members_of in Hp. apply list_elem_of_In, filter_In in Hp as [Hp _].
    by apply list_elem_of_In.
Qed.
End quotas.

(** ** A concrete run *)

Section witnesses.
Local Existing Instances small_group small_group_laws toy_bitcoin toy_bitcoin_laws.
Local Existing Instances digits_json digits_json_laws.
#[local] Instance secrecy_utf8_error : Utf8Error := fun _ => "invalid utf-8".

Definition treasury_vault : Result InMemoryVaultService :=
  gc ← grouped_config_123_of_235;
  InMemoryVaultService_new "treasury-demo" "treasury-demo-dkg" "regtest" (replicate 32 Byte.x2a) gc.

Definition keygen_run (s : InMemoryVaultService) :
  (InMemoryVaultService * rng) * Outcome DkgKitError unit :=
  (connect_transport;; run_htss_dkg) (s, demo_rng).

Lemma refused_signers_hold_the_key_witness :
  exists s s' g' key sk,
    keygen_run s = ((s', g'), Ok tt) /\
    vs_group_key s' = Some key /\ secret_key_of sk (gk_xonly_public_key key) /\
    recover (weights_of 360 refused_weights) (stored_shares refused_signers s') = Some sk.
Proof.
  destruct (refused_signers_hold_the_key demo_rng) as (gc & s & Hg & Hs & _ & Hrun).
  assert (Hv : treasury_vault = Ok s) by (unfold treasury_vault; rewrite Hg; exact Hs).
  assert (Hok : match treasury_vault with Ok s => is_ok (keygen_run s).2 | _ => false end = true)
    by (vm_compute; reflexivity).
  rewrite Hv in Hok. destruct (keygen_run s) as [[s' g'] [[]| |]] eqn:E; [|discriminate Hok..].
  destruct (Hrun s' g' E) as (key & sk & Hkey & Hsk & Hr).
  exists s, s', g', key, sk. split_and!; [exact E|exact Hkey|exact Hsk|exact Hr].
Defined.
End witnesses.
